(* ===== verification/_CoqProject ===== *)
-Q . S2P
Prelude.v
Strconv.v
Bencode.v
BencodeDecode.v
BencodeTheory.v
BencodeRoundtrip.v
BencodeRaw.v
Search.v
Multiless.v
Segments.v
SegmentsTheory.v
Sha256.v
Merkle.v
MerkleTheory.v
Sha1.v
Rc4.v
Metainfo.v
MetainfoTheory.v
Iplist.v
IplistTheory.v
UtHolepunch.v
Pex.v
PexTheory.v
PexSafety.v
Handshake.v
HandshakeTheory.v
Mse.v
MseRuns.v
MseTheory.v
MseSafety.v
PeerProtocol.v
PeerProtocolTheory.v
Types.v
Bitmap.v
OrderedBitmap.v
RequestOrder.v
RequestOrderTheory.v
Chunks.v
ChunksTheory.v
World.v
RequestState.v
RequestTheory.v
Pieces.v
Requesting.v
Upload.v
Messages.v
PiecesTheory.v
PeersTheory.v
RequestingTheory.v
UploadTheory.v
MessagesTheory.v
PiecesHistory.v
PiecesSafety.v
Swarm.v
SwarmSafety.v
