(* ===== verification/Prelude.v ===== *)
(** * Verification of anacrolix/torrent

    A BitTorrent client library in Go.  A [Client] holds [Torrent]s; a torrent has an info
    dictionary, files, pieces, a storage, and peers it exchanges chunks with; trackers, the DHT
    and peer exchange find those peers.  This library models the parts of it that compute:
    formats read from the network and written to it, the handshakes of a connection, the layout of
    files, pieces and chunks, and the state a torrent keeps of its pieces, its peers and the
    requests between them, with the code's panics, errors, integer widths and goroutines, and
    proves what makes them correct.

    ** Parts, and the files that model them

    - Formats.  [Bencode] ([src/bencode/encode.go], [tags.go]) and [BencodeDecode]
      ([decode.go], [api.go]): the encoder over reflected Go values, the decoder into
      [interface{}], and the reader of raw values.  [PeerProtocol] ([src/peer_protocol]):
      messages, [MarshalBinary], [Decoder.Decode].  [Handshake]
      ([src/peer_protocol/handshake.go]): the exchange that opens a connection, as a step
      relation on two ends with their writer goroutines.  [Mse] ([src/mse/mse.go],
      [handleEncryption] of [src/handshake.go]): the handshake of encrypted connections, likewise,
      with [Rc4]; [MseRuns] has what all interleavings have in common, [MseSafety] the theorems.
      [UtHolepunch]: the holepunch message.
      [Iplist] ([src/iplist]): block lists, packed and textual.  [Strconv], [Sha1], [Sha256] and
      [Search] model what these use of the standard library.
    - Layout.  [Segments] ([src/segments]) locates byte ranges in files; [Metainfo]
      ([src/metainfo], [validateInfo]) lays files out, cuts them into pieces and hashes them;
      [Merkle] ([src/merkle]) hashes version 2 files; [Chunks] ([Torrent.setInfo], and the
      arithmetic on pieces, chunks and request indexes in [src/torrent.go], [src/piece.go])
      is built on them.
    - The state of a torrent.  [World] has its records; [Bitmap] ([src/typed-roaring]),
      [OrderedBitmap] ([src/ordered-bitmap.go]); [RequestOrder]
      ([src/internal/request-strategy]): the order pieces are requested in; [Pieces]
      ([src/torrent.go], [src/piece.go], [src/torrent-piece-request-order.go],
      [src/peerconn.go], [src/webseed-peer.go]): priorities, completion and hashing of pieces,
      with the bitmap of pending pieces and the request order derived from them, and the pieces
      connections and web seeds have, from which their availability is counted.
      [PiecesTheory] has the invariant and the operations on pieces, [PeersTheory] the peers,
      [PiecesHistory] all that can happen from the info on, [PiecesSafety] the theorems.
    - Connections.  [RequestState] ([src/peerconn.go], [src/torrent.go]): who was asked for which
      chunk; [Requesting] ([src/requesting.go]): choosing and making requests; [Upload]
      ([src/peerconn.go], [src/peer-conn-msg-writer.go]): serving the requests of peers, and the
      writer; [Messages] ([src/peerconn.go], [src/peer.go]): what the bytes of a peer do.  All of
      them change the records of [World] and call each other as the code does.  [Swarm] puts them
      together with the pieces, as the events in the life of a torrent, and [SwarmSafety] has the
      theorems about all such lives.
    - Peer exchange.  [Pex] ([src/pex.go], [src/pexconn.go]): the feed of connections that come and
      go, the messages made of it, and what the other end makes of them; [PexTheory] has the
      messages, [PexSafety] a torrent with its peers, and the theorems.

    A file [XTheory] holds the lemmas and theorems about [X].  [Prelude] has the machine
    integers, byte strings and the monad the stateful code is written in.

    ** How code becomes definitions

    A function without effects is a function; one that can panic returns [option], or an error
    value where the code returns one.  Methods that read and change state are written in the
    monad [go] of this file: a computation returns, panics, or runs out of fuel, with the state
    it leaves behind; [wp] states total correctness, so that running out of fuel and panicking
    are both excluded where it is proved.  Integers are [Z], wrapped at their Go width where an
    operation can leave it.  Goroutines that share state under the client lock are steps of a
    transition system, one step for each critical section.

    Code of other modules is a parameter: the sets behind [Btree], the comparisons of
    [multiless], the bitmaps of [roaring], linked lists ([GenericList]), heaps ([GenericHeap]) and
    the address lists of the DHT ([CompactAddrs]) are type classes with their documented behaviour
    as laws; every theorem about them has an instance on which its hypotheses hold.  Random bytes
    and the times of clocks are arguments.

    ** What is proved

    - Formats: decoders accept exactly what the encoders write ([unmarshal_iff_marshal],
      [message_roundtrip], [decode_canonical], [holepunch_codec], [packed_roundtrip]), they
      terminate on every input and leave their counters balanced ([decode_total_balanced]); two
      ends that complete a handshake agree, in every interleaving ([handshake_agreement]), and
      without errors they do complete it ([handshake_completes]).  Looking an address up in a block
      list never misses a range that holds it ([lookup_correct]), and in a packed list it is exact
      ([packed_roundtrip]).
    - Encryption: two ends complete the handshake in every interleaving, agree, and read what the
      other writes ([mse_handshake]); one end, whatever it is sent, never panics, ends, and reads a
      bounded number of bytes ([mse_total]); it synchronizes on the first occurrence of what it
      looks for ([readUntil_first]).
    - Layout: locating extents agrees with a reference definition ([locateIter_nonempty],
      [locateIter_consecutive]); pieces tile the torrent ([v1_pieces_tile],
      [v2_pieces_in_files]); the streaming merkle hash is the root of the tree of all bytes
      written ([stream_root]); piece layers are accepted if and only if their roots are those of
      the files ([pieceLayers_of_contents]); request indexes number the chunks one to one
      ([requests_numbering]).
    - State: the request order refines a finite map ([requestOrder_refines]); whatever happens to
      the pieces of a torrent, nothing panics and what is derived from their state agrees with it
      ([pieces_consistent]); availability is the number of peers that have a piece, and none is
      left when the torrent is closed ([availability_counts]).  The events are those of
      [PiecesHistory], with the exceptions that [allowed], [fresh] and [layout_full] make: among
      others, storage that reports a pending piece complete, a peer that has none after it had all
      pieces, hashes that are not known yet, and empty files.  What happens then is shown by example
      in [pieces_panic].
    - Connections: whatever bytes peers send and in whatever order goroutines run, nothing panics
      ([swarm_safe], with the exceptions it lists); the torrent's record of requests is what its connections have, and no chunk is
      requested twice ([requests_agree]); what peers make the client hold is bounded
      ([uploads_bounded]); connections desire exactly the chunks worth requesting, in a strict
      order ([desired_requests]).
    - Peer exchange: what a peer has been told is what the connections were at some point, and a
      peer that is sent nothing knows all of them and a bounded number that have gone
      ([pex_views_faithful]); a bounded number of messages gets it there ([pex_catches_up]).
    - What the code does wrong is proved too, for all inputs of a kind
      ([validateInfo_zero_piece_length], [unmarshalBinary_keepalive_only], [v2_empty_file_panics],
      [long_pieces_truncated], [lookup_zero_range], [hash_requests_unchecked], [mse_payload_lost],
      [pex_forgets_reconnected]) or by example ([pieces_panic], [v2_length_too_short],
      [validateInfo_accepts_unusable], [writeTo_loses_piece_error]).

    ** Bounds and fuel

    Loops that are not structural take fuel: one more than the bytes left for the bencode reader
    ([readUntil]), twice that plus two for nested values ([parseFuel]), the length of the layer
    for [rootInPlace], the number of queued pieces plus one for [startPieceHashers]; the size of
    the heap for [apply_loop], the unread and the ready requests for [serve_loop] and
    [upload_loop], the limit plus one for the [readUntil] of [Mse], the number of events plus one
    for [genmsg_loop].  That the fuel suffices is part of the theorems ([decode_total_balanced],
    [roots_spec], [pieces_consistent], [swarm_safe], [mse_total], [pex_views_faithful]), which
    state that a result is returned.

    ** Not modelled

    Sockets, timers, HTTP, the DHT and what only calls them: dialing and listening
    ([src/client.go], [src/socket.go], [src/utp.go], [src/dialer]), trackers ([src/tracker],
    [src/client-tracker-announcer.go], [src/wstracker.go]), the requests of web seeds
    ([src/webseed*]), WebRTC
    ([src/webtorrent]), local discovery ([src/bep14.go]), file systems and databases behind
    [src/storage], commands ([src/cmd]), statistics, smart banning and status pages.  Extension
    messages are a parameter of [Messages]; of those, only the holepunch message and what peer
    exchange makes of its messages are modelled.  The decoding of bencode into arbitrary Go structs
    goes through [reflect]; only its [interface{}] path and the raw reader are modelled. *)

From stdpp Require Export prelude list list_numbers sorting countable gmap strings.
From Stdlib Require Export Strings.Byte.
From Stdlib Require Export ZArith Lia.

(** ** Notations and automation *)

Declare Scope go_scope.
Delimit Scope go_scope with go.
Create HintDb torrent.

(** A Go string or byte slice. *)
Notation bytes := (list byte).

(** Case analysis on the innermost match of the goal or of a hypothesis. *)
Ltac break_match_hyp H :=
  match type of H with
  | context [match ?x with _ => _ end] =>
      lazymatch x with
      | context [match _ with _ => _ end] => fail
      | _ => let E := fresh "E" in destruct x eqn:E
      end
  end.

Ltac break_match_goal :=
  match goal with
  | |- context [match ?x with _ => _ end] =>
      lazymatch x with
      | context [match _ with _ => _ end] => fail
      | _ => let E := fresh "E" in destruct x eqn:E
      end
  end.

Ltac bool_to_prop :=
  repeat match goal with
  | H : (_ && _)%bool = true |- _ => apply andb_true_iff in H; destruct H
  | H : (_ || _)%bool = false |- _ => apply orb_false_iff in H; destruct H
  | H : negb _ = true |- _ => apply negb_true_iff in H
  | H : negb _ = false |- _ => apply negb_false_iff in H
  | H : Z.eqb _ _ = true |- _ => apply Z.eqb_eq in H
  | H : Z.eqb _ _ = false |- _ => apply Z.eqb_neq in H
  | H : Z.leb _ _ = true |- _ => apply Z.leb_le in H
  | H : Z.leb _ _ = false |- _ => apply Z.leb_gt in H
  | H : Z.ltb _ _ = true |- _ => apply Z.ltb_lt in H
  | H : Z.ltb _ _ = false |- _ => apply Z.ltb_ge in H
  | H : Z.gtb _ _ = true |- _ => rewrite Z.gtb_ltb in H
  | H : Z.gtb _ _ = false |- _ => rewrite Z.gtb_ltb in H
  | H : Nat.eqb _ _ = true |- _ => apply Nat.eqb_eq in H
  | H : Nat.eqb _ _ = false |- _ => apply Nat.eqb_neq in H
  | H : Nat.leb _ _ = true |- _ => apply Nat.leb_le in H
  | H : Nat.leb _ _ = false |- _ => apply Nat.leb_gt in H
  | H : Nat.ltb _ _ = true |- _ => apply Nat.ltb_lt in H
  | H : Nat.ltb _ _ = false |- _ => apply Nat.ltb_ge in H
  end.

(** ** Machine integers *)

(** Conversions of Go: [uintw(z)] and [intw(z)] keep the low [w] bits. *)
Definition wrapU (w z : Z) : Z := z mod 2 ^ w.
Definition wrapS (w z : Z) : Z := (z + 2 ^ (w - 1)) mod 2 ^ w - 2 ^ (w - 1).

Definition max_uint (w : Z) : Z := 2 ^ w - 1.
Definition min_int (w : Z) : Z := - 2 ^ (w - 1).
Definition max_int (w : Z) : Z := 2 ^ (w - 1) - 1.

Lemma wrapU_small w z : (0 <= z < 2 ^ w)%Z -> wrapU w z = z.
Proof. intros. unfold wrapU. by apply Z.mod_small. Qed.

Lemma wrapU_range w z : (0 <= w)%Z -> (0 <= wrapU w z < 2 ^ w)%Z.
Proof. intros. apply Z.mod_pos_bound. by apply Z.pow_pos_nonneg. Qed.

Lemma wrapS_small w z :
  (0 < w)%Z -> (min_int w <= z <= max_int w)%Z -> wrapS w z = z.
Proof.
  unfold wrapS, min_int, max_int. intros Hw Hz.
  replace (2 ^ w)%Z with (2 * 2 ^ (w - 1))%Z
    by (rewrite <- Z.pow_succ_r by lia; f_equal; lia).
  rewrite Z.mod_small; lia.
Qed.

(** Arithmetic of [int] and [int64], which wraps around. *)
Definition add64 (a b : Z) : Z := wrapS 64 (a + b).
Definition sub64 (a b : Z) : Z := wrapS 64 (a - b).
Definition mul64 (a b : Z) : Z := wrapS 64 (a * b).

(** Division truncates towards zero, and panics on a zero divisor. *)
Definition quot64 (a b : Z) : option Z :=
  if (b =? 0)%Z then None else Some (wrapS 64 (Z.quot a b)).

Infix "+!" := add64 (at level 50, left associativity) : go_scope.
Infix "-!" := sub64 (at level 50, left associativity) : go_scope.
Infix "*!" := mul64 (at level 40, left associativity) : go_scope.

Definition maxInt : Z := max_int 64.

(** The [int]s, as opposed to all of [Z]. *)
Definition is_int (z : Z) : bool := (min_int 64 <=? z)%Z && (z <=? maxInt)%Z.

Lemma is_int_spec z : is_int z = true <-> (- (maxInt + 1) <= z <= maxInt)%Z.
Proof. unfold is_int. rewrite andb_true_iff, !Z.leb_le. unfold maxInt, min_int, max_int. lia. Qed.

Lemma wrapS64_small z : (- maxInt <= z <= maxInt)%Z -> wrapS 64 z = z.
Proof. intros. apply wrapS_small; [done|]. unfold maxInt, min_int, max_int in *. lia. Qed.

Lemma add64_small a b : (- maxInt <= a + b <= maxInt)%Z -> add64 a b = (a + b)%Z.
Proof. apply wrapS64_small. Qed.
Lemma sub64_small a b : (- maxInt <= a - b <= maxInt)%Z -> sub64 a b = (a - b)%Z.
Proof. apply wrapS64_small. Qed.
Lemma mul64_small a b : (- maxInt <= a * b <= maxInt)%Z -> mul64 a b = (a * b)%Z.
Proof. apply wrapS64_small. Qed.

(** Removes the wrap-around of sums that [lia] can bound. *)
Ltac unwrap64 :=
  repeat match goal with
  | |- context [add64 ?a ?b] => rewrite (add64_small a b) by lia
  | |- context [sub64 ?a ?b] => rewrite (sub64_small a b) by lia
  end.

(** ** Bytes *)

#[global] Instance byte_eq_decision : EqDecision byte := Byte.byte_eq_dec.

Definition b2z (b : byte) : Z := Z.of_N (Byte.to_N b).

(** [byte(z)]: the low eight bits. *)
Definition z2b (z : Z) : byte :=
  match Byte.of_N (Z.to_N (z mod 256)) with Some b => b | None => x00 end.

Lemma b2z_range b : (0 <= b2z b < 256)%Z.
Proof. unfold b2z. pose proof (Byte.to_N_bounded b). lia. Qed.

Lemma b2z_inj b c : b2z b = b2z c -> b = c.
Proof.
  unfold b2z. intros E%N2Z.inj. apply (inj Some).
  rewrite <- (Byte.of_to_N b), <- (Byte.of_to_N c). by rewrite E.
Qed.

Lemma b2z_z2b z : b2z (z2b z) = (z mod 256)%Z.
Proof.
  unfold b2z, z2b. pose proof (Z.mod_pos_bound z 256 eq_refl) as Hb.
  destruct (Byte.of_N _) as [b|] eqn:E.
  - apply Byte.to_of_N in E. rewrite E. lia.
  - apply Byte.of_N_None_iff in E. lia.
Qed.

Lemma z2b_b2z b : z2b (b2z b) = b.
Proof. apply b2z_inj. rewrite b2z_z2b. apply Z.mod_small, b2z_range. Qed.

Lemma z2b_inj y z : (0 <= y < 256)%Z -> (0 <= z < 256)%Z -> z2b y = z2b z -> y = z.
Proof.
  intros Hy Hz E%(f_equal b2z). rewrite !b2z_z2b, !Z.mod_small in E; lia.
Qed.

#[global] Instance b2z_Inj : Inj (=) (=) b2z.
Proof. intros b c. apply b2z_inj. Qed.

#[global] Instance byte_countable : Countable byte.
Proof.
  refine (inj_countable' b2z z2b _). apply z2b_b2z.
Defined.

(** The byte string of a literal. *)
Definition bs (s : string) : bytes := String.list_byte_of_string s.
Arguments bs s%_string_scope.

(** ** Lexicographic order: [bytes.Compare] and the order of Go strings *)

Fixpoint bytes_compare (x y : bytes) : comparison :=
  match x, y with
  | [], [] => Eq
  | [], _ :: _ => Lt
  | _ :: _, [] => Gt
  | a :: x', b :: y' =>
      match Z.compare (b2z a) (b2z b) with
      | Eq => bytes_compare x' y'
      | c => c
      end
  end.

Definition bytes_ltb (x y : bytes) : bool :=
  match bytes_compare x y with Lt => true | _ => false end.
Definition bytes_leb (x y : bytes) : bool :=
  match bytes_compare x y with Gt => false | _ => true end.

Definition bytes_lt (x y : bytes) : Prop := bytes_compare x y = Lt.
Definition bytes_le (x y : bytes) : Prop := bytes_compare x y <> Gt.

Lemma bytes_compare_refl x : bytes_compare x x = Eq.
Proof. induction x as [|a x IH]; simpl; [done|]. by rewrite Z.compare_refl. Qed.

Lemma bytes_compare_eq x y : bytes_compare x y = Eq <-> x = y.
Proof.
  split; [|intros ->; apply bytes_compare_refl].
  revert y. induction x as [|a x IH]; intros [|b y]; simpl; try done.
  destruct (Z.compare_spec (b2z a) (b2z b)) as [E| |]; try done.
  intros Hxy. apply b2z_inj in E. f_equal; auto.
Qed.

Lemma bytes_compare_antisym x y : bytes_compare y x = CompOpp (bytes_compare x y).
Proof.
  revert y. induction x as [|a x IH]; intros [|b y]; simpl; try done.
  rewrite (Z.compare_antisym (b2z a) (b2z b)).
  destruct (Z.compare (b2z a) (b2z b)); simpl; auto.
Qed.

Lemma bytes_lt_trans x y z : bytes_lt x y -> bytes_lt y z -> bytes_lt x z.
Proof.
  unfold bytes_lt. revert y z.
  induction x as [|a x IH]; intros [|b y] [|c z]; simpl; try done.
  destruct (Z.compare_spec (b2z a) (b2z b)), (Z.compare_spec (b2z b) (b2z c)),
    (Z.compare_spec (b2z a) (b2z c)); try done; try lia; eauto.
Qed.

Lemma bytes_ltb_lt x y : bytes_ltb x y = true <-> bytes_lt x y.
Proof. unfold bytes_ltb, bytes_lt. destruct (bytes_compare x y); naive_solver. Qed.

Lemma bytes_leb_le x y : bytes_leb x y = true <-> bytes_le x y.
Proof. unfold bytes_leb, bytes_le. destruct (bytes_compare x y); naive_solver. Qed.

Lemma bytes_le_lt_eq x y : bytes_le x y <-> bytes_lt x y \/ x = y.
Proof.
  unfold bytes_le, bytes_lt. rewrite <- bytes_compare_eq.
  destruct (bytes_compare x y); naive_solver.
Qed.

Lemma bytes_leb_false x y : bytes_leb x y = false <-> bytes_lt y x.
Proof.
  unfold bytes_leb, bytes_lt. rewrite (bytes_compare_antisym x y).
  destruct (bytes_compare x y); naive_solver.
Qed.

#[global] Instance bytes_lt_dec x y : Decision (bytes_lt x y).
Proof. unfold bytes_lt. apply _. Defined.
#[global] Instance bytes_le_dec x y : Decision (bytes_le x y).
Proof. unfold bytes_le. apply _. Defined.

#[global] Instance bytes_lt_irrefl : Irreflexive bytes_lt.
Proof. intros x. unfold complement, bytes_lt. by rewrite bytes_compare_refl. Qed.
#[global] Instance bytes_lt_transitive : Transitive bytes_lt.
Proof. intros x y z. apply bytes_lt_trans. Qed.
#[global] Instance bytes_le_total : Total bytes_le.
Proof.
  intros x y. unfold bytes_le. rewrite (bytes_compare_antisym x y).
  destruct (bytes_compare x y); naive_solver.
Qed.
#[global] Instance bytes_le_transitive : Transitive bytes_le.
Proof.
  intros x y z [H1| ->]%bytes_le_lt_eq [H2| ->]%bytes_le_lt_eq; apply bytes_le_lt_eq; eauto.
  left. by etrans.
Qed.
#[global] Instance bytes_le_antisymm : AntiSymm (=) bytes_le.
Proof.
  intros x y [H1| ->]%bytes_le_lt_eq H2; [|done].
  unfold bytes_lt, bytes_le in *. rewrite bytes_compare_antisym, H1 in H2. done.
Qed.

(** ** Fixed-width integers on the wire: [encoding/binary] *)

(** [binary.BigEndian.PutUint*]: the [n] low bytes of [z], most significant first. *)
Fixpoint be_put (n : nat) (z : Z) : bytes :=
  match n with
  | O => []
  | S n' => be_put n' (z / 256) ++ [z2b z]
  end.

(** [binary.BigEndian.Uint*] *)
Definition be_get (l : bytes) : Z := fold_left (fun a b => a * 256 + b2z b)%Z l 0%Z.

(** [binary.LittleEndian.PutUint*] and [binary.LittleEndian.Uint*] *)
Definition le_put (n : nat) (z : Z) : bytes := rev (be_put n z).
Definition le_get (l : bytes) : Z := be_get (rev l).

Lemma be_put_length n z : length (be_put n z) = n.
Proof. revert z. induction n; intros z; simpl; [done|]. rewrite length_app, IHn. simpl. lia. Qed.

Lemma be_get_snoc l b : be_get (l ++ [b]) = (be_get l * 256 + b2z b)%Z.
Proof. unfold be_get. by rewrite fold_left_app. Qed.

Lemma be_get_put n z : be_get (be_put n z) = (z mod 2 ^ (8 * Z.of_nat n))%Z.
Proof.
  revert z. induction n as [|n IH]; intros z; [simpl; by rewrite Z.mod_1_r|].
  cbn [be_put]. rewrite be_get_snoc, IH, b2z_z2b.
  replace (8 * Z.of_nat (S n))%Z with (8 + 8 * Z.of_nat n)%Z by lia.
  rewrite Z.pow_add_r by lia. change (2 ^ 8)%Z with 256%Z.
  rewrite (Z.rem_mul_r z 256) by (try lia; apply Z.pow_pos_nonneg; lia). lia.
Qed.

Lemma be_get_put_small n z :
  (0 <= z < 2 ^ (8 * Z.of_nat n))%Z -> be_get (be_put n z) = z.
Proof. intros. rewrite be_get_put. by apply Z.mod_small. Qed.

Lemma be_get_bound l : (0 <= be_get l < 2 ^ (8 * Z.of_nat (length l)))%Z.
Proof.
  induction l as [|b l IH] using rev_ind; [done|].
  rewrite be_get_snoc, length_app. simpl length.
  replace (8 * Z.of_nat (length l + 1))%Z with (8 + 8 * Z.of_nat (length l))%Z by lia.
  rewrite Z.pow_add_r by lia. pose proof (b2z_range b). lia.
Qed.

Lemma be_put_get n l : length l = n -> be_put n (be_get l) = l.
Proof.
  revert l. induction n as [|n IH]; intros l Hl; [by destruct l|].
  destruct (@exists_last _ l) as (l' & b & ->); [by destruct l|].
  rewrite length_app in Hl. simpl in Hl.
  cbn [be_put]. rewrite be_get_snoc. pose proof (b2z_range b) as Hb.
  rewrite Z.div_add_l, (Z.div_small (b2z b)), Z.add_0_r, IH by lia.
  f_equal. f_equal. apply b2z_inj. rewrite b2z_z2b, Z.add_comm, Z.mod_add by lia.
  by apply Z.mod_small.
Qed.

Lemma le_get_put n z : le_get (le_put n z) = (z mod 2 ^ (8 * Z.of_nat n))%Z.
Proof. unfold le_get, le_put. by rewrite rev_involutive, be_get_put. Qed.

Lemma le_put_length n z : length (le_put n z) = n.
Proof. unfold le_put. by rewrite length_rev, be_put_length. Qed.

#[export] Hint Rewrite be_put_length le_put_length : torrent.

(** ** Imperative Go code: state, panics and loops

    A computation over a state [S] either returns, panics with an error and the state reached
    so far, or runs out of the fuel that bounds its loops. *)

Inductive outcome (S E A : Type) : Type :=
| Ret (a : A) (s : S)
| Panic (e : E) (s : S)
| NoFuel.
Arguments Ret {S E A} a s.
Arguments Panic {S E A} e s.
Arguments NoFuel {S E A}.

Definition go (S E A : Type) : Type := S -> outcome S E A.

#[export] Instance go_ret {S E} : MRet (go S E) := fun A a s => Ret a s.
#[export] Instance go_bind {S E} : MBind (go S E) := fun A B f m s =>
  match m s with
  | Ret a s' => f a s'
  | Panic e s' => Panic e s'
  | NoFuel => NoFuel
  end.

Definition panic {S E A} (e : E) : go S E A := fun s => Panic e s.
Definition get {S E} : go S E S := fun s => Ret s s.
Definition modify {S E} (f : S -> S) : go S E unit := fun s => Ret tt (f s).
Definition no_fuel {S E A} : go S E A := fun _ => NoFuel.

(** [defer f()]: [f] runs on return and on panic. *)
Definition defer {S E A} (f : S -> S) (m : go S E A) : go S E A := fun s =>
  match m s with
  | Ret a s' => Ret a (f s')
  | Panic e s' => Panic e (f s')
  | NoFuel => NoFuel
  end.

(** A value that may be absent, where its absence panics. *)
Definition lift {S A} (o : option A) : go S unit A :=
  match o with Some a => mret a | None => panic tt end.
Definition gets {S E A} (f : S -> A) : go S E A := fun s => Ret (f s) s.
Definition when {S E} (b : bool) (m : go S E unit) : go S E unit := if b then m else mret tt.

(** Run the monad's plumbing, leaving the program's own calls alone. *)
Ltac go_simpl := cbv [mbind go_bind mret go_ret get panic modify no_fuel defer lift gets when]; cbn.
Ltac go_simpl_in H := cbv [mbind go_bind mret go_ret get panic modify no_fuel defer lift gets when] in H; cbn in H.

Lemma bind_Ret {S E A B} (m : go S E A) (f : A -> go S E B) s b s2 :
  (x ← m; f x) s = Ret b s2 <-> exists a s1, m s = Ret a s1 /\ f a s1 = Ret b s2.
Proof.
  unfold mbind, go_bind. destruct (m s) eqn:E1; split.
  - eauto.
  - intros (? & ? & [= <- <-] & ?). done.
  - done.
  - by intros (? & ? & ? & ?).
  - done.
  - by intros (? & ? & ? & ?).
Qed.

Lemma bind_Panic {S E A B} (m : go S E A) (f : A -> go S E B) s e s2 :
  (x ← m; f x) s = Panic e s2 <->
  m s = Panic e s2 \/ exists a s1, m s = Ret a s1 /\ f a s1 = Panic e s2.
Proof.
  unfold mbind, go_bind. destruct (m s) eqn:E1; split.
  - eauto.
  - intros [?|(? & ? & [= <- <-] & ?)]; done.
  - intros [= <- <-]. by left.
  - by intros [[= <- <-]|(? & ? & ? & ?)].
  - done.
  - by intros [?|(? & ? & ? & ?)].
Qed.

Lemma bind_step {S E A B} (m : go S E A) (f : A -> go S E B) s a s1 :
  m s = Ret a s1 -> (x ← m; f x) s = f a s1.
Proof. unfold mbind, go_bind. by intros ->. Qed.

Lemma defer_Ret {S E A} f (m : go S E A) s a s2 :
  defer f m s = Ret a s2 <-> exists s1, m s = Ret a s1 /\ s2 = f s1.
Proof. unfold defer. destruct (m s); naive_solver. Qed.

Fixpoint for_each {S E A} (f : A -> go S E unit) (l : list A) : go S E unit :=
  match l with
  | [] => mret tt
  | x :: l' => f x;; for_each f l'
  end.

(** Total correctness: the computation returns, with a result and a state in [Q]. *)
Definition wp {S E A} (m : go S E A) (Q : A -> S -> Prop) (s : S) : Prop :=
  match m s with Ret a s' => Q a s' | _ => False end.

Section Wp.
Context {S E : Type}.

Lemma wp_ret {A} (a : A) (Q : A -> S -> Prop) s : Q a s -> wp (E:=E) (mret a) Q s.
Proof. done. Qed.

Lemma wp_bind {A B} (m : go S E A) (f : A -> go S E B) Q s :
  wp m (fun a s' => wp (f a) Q s') s -> wp (x ← m; f x) Q s.
Proof. unfold wp, mbind, go_bind. by destruct (m s). Qed.

Lemma wp_gets {A} (f : S -> A) (Q : A -> S -> Prop) s : Q (f s) s -> wp (E:=E) (gets f) Q s.
Proof. done. Qed.

Lemma wp_modify f (Q : unit -> S -> Prop) s : Q tt (f s) -> wp (E:=E) (modify f) Q s.
Proof. done. Qed.

Lemma wp_lift {A} (a : A) o (Q : A -> S -> Prop) s : o = Some a -> Q a s -> wp (lift o) Q s.
Proof. by intros ->. Qed.

Lemma wp_mono {A} (m : go S E A) (P Q : A -> S -> Prop) s :
  wp m P s -> (forall a s', P a s' -> Q a s') -> wp m Q s.
Proof. unfold wp. destruct (m s); naive_solver. Qed.

Lemma wp_if {A} (b : bool) (m1 m2 : go S E A) Q s :
  (b = true -> wp m1 Q s) -> (b = false -> wp m2 Q s) -> wp (if b then m1 else m2) Q s.
Proof. destruct b; auto. Qed.

(** A loop by an invariant on the elements done so far. *)
Lemma wp_for_each {A} (f : A -> go S E unit) (l : list A) (I : list A -> S -> Prop) s :
  I [] s ->
  (forall pre x post s', l = pre ++ x :: post -> I pre s' -> wp (f x) (fun _ s'' => I (pre ++ [x]) s'') s') ->
  wp (for_each f l) (fun _ s' => I l s') s.
Proof.
  intros H0 Hstep.
  assert (forall post pre s', l = pre ++ post -> I pre s' -> wp (for_each f post) (fun _ s'' => I l s'') s') as H.
  { induction post as [|x post IH]; intros pre s' -> Hi; simpl.
    - apply wp_ret. by rewrite app_nil_r.
    - apply wp_bind. eapply wp_mono; [by eapply Hstep|]. simpl. intros _ s'' Hi'. apply (IH (pre ++ [x])); [|done].
      by rewrite <-app_assoc. }
  by apply (H l []).
Qed.
End Wp.

(** A relation between the states before and after, on return and on panic alike. *)
Definition preserves {S E A} (R : S -> S -> Prop) (m : go S E A) : Prop := forall s,
  match m s with
  | Ret _ s' => R s s'
  | Panic _ s' => R s s'
  | NoFuel => True
  end.

Section Preserves.
Context {S E : Type} (R : S -> S -> Prop) `{!PreOrder R}.

Lemma preserves_ret {A} (a : A) : preserves (E:=E) R (mret a).
Proof. intros s. simpl. reflexivity. Qed.

Lemma preserves_panic {A} (e : E) : preserves R (panic (A:=A) e).
Proof. intros s. simpl. reflexivity. Qed.

Lemma preserves_get : preserves (E:=E) R get.
Proof. intros s. simpl. reflexivity. Qed.

Lemma preserves_no_fuel {A} : preserves (E:=E) (A:=A) R no_fuel.
Proof. intros s. done. Qed.

Lemma preserves_bind {A B} (m : go S E A) (f : A -> go S E B) :
  preserves R m -> (forall a, preserves R (f a)) -> preserves R (x ← m; f x).
Proof.
  intros Hm Hf s. unfold mbind, go_bind. specialize (Hm s).
  destruct (m s) as [a s'|e s'|]; [|done..]. specialize (Hf a s').
  destruct (f a s'); [by etrans..|done].
Qed.

Lemma preserves_modify f : (forall s, R s (f s)) -> preserves (E:=E) R (modify f).
Proof. intros Hf s. apply Hf. Qed.
End Preserves.

#[export] Hint Resolve preserves_ret preserves_panic preserves_get preserves_no_fuel
  preserves_bind : torrent.

(** ** Sorting by a byte-string key *)

Lemma StronglySorted_weaken {A} (R1 R2 : relation A) l :
  (forall x y, R1 x y -> R2 x y) -> StronglySorted R1 l -> StronglySorted R2 l.
Proof. intros HR. induction 1; constructor; [done|]. eapply Forall_impl; eauto. Qed.

(** Sums do not depend on the order. *)
#[global] Instance sum_Permutation : Proper ((≡ₚ) ==> eq) (foldr Z.add 0%Z).
Proof. intros l1 l2 Hp. induction Hp; simpl; lia. Qed.

Section SortByKey.
Context {A : Type} (key : A -> bytes).

Definition by_key (x y : A) : Prop := bytes_le (key x) (key y).

#[local] Instance by_key_total : Total by_key.
Proof. intros x y. apply bytes_le_total. Qed.
#[local] Instance by_key_trans : Transitive by_key.
Proof. intros x y z. unfold by_key. apply bytes_le_transitive. Qed.

(** Lists sorted by distinct keys are determined by their elements. *)
Lemma sorted_by_key_unique l1 l2 :
  NoDup (key <$> l1) -> l1 ≡ₚ l2 -> Sorted by_key l1 -> Sorted by_key l2 -> l1 = l2.
Proof.
  intros Hnd Hp H1 H2.
  apply Sorted_StronglySorted in H1; [|apply _]. apply Sorted_StronglySorted in H2; [|apply _].
  eapply StronglySorted_unique_strong; [|done..].
  intros x1 x2 Hx1 Hx2 H12 H21. rewrite <- Hp in Hx2.
  assert (key x1 = key x2) as Hk by (by apply (anti_symm bytes_le)).
  apply list_elem_of_lookup in Hx1 as [i Hi], Hx2 as [j Hj].
  assert (i = j) as <-; [|congruence].
  eapply NoDup_lookup; [done| |]; rewrite list_lookup_fmap, ?Hi, ?Hj; simpl; [done|].
  by rewrite Hk.
Qed.

Context {by_key_dec : forall x y, Decision (by_key x y)}.

Lemma merge_sort_by_key_id l :
  StronglySorted (fun x y => bytes_lt (key x) (key y)) l -> merge_sort by_key l = l.
Proof.
  intros Hs. symmetry. apply sorted_by_key_unique.
  - induction Hs as [|x l Hs IH Hx]; simpl; constructor; [|done].
    intros (y & E & Hy)%list_elem_of_fmap.
    rewrite Forall_forall in Hx. apply Hx in Hy. rewrite E in Hy. by apply bytes_lt_irrefl in Hy.
  - by rewrite merge_sort_Permutation.
  - apply StronglySorted_Sorted. eapply StronglySorted_weaken; [|done].
    intros x y Hxy. apply bytes_le_lt_eq. by left.
  - apply Sorted_merge_sort, _.
Qed.

Lemma merge_sort_by_key_Permutation l1 l2 :
  NoDup (key <$> l1) -> l1 ≡ₚ l2 -> merge_sort by_key l1 = merge_sort by_key l2.
Proof.
  intros Hnd Hp. apply sorted_by_key_unique.
  - by rewrite merge_sort_Permutation.
  - by rewrite !merge_sort_Permutation.
  - apply Sorted_merge_sort, _.
  - apply Sorted_merge_sort, _.
Qed.
End SortByKey.
