(* ===== verification/Strconv.v ===== *)
(** * The parts of Go's [strconv] and [math/big] the repository relies on

    Decimal printing ([strconv.AppendInt], [big.Int.String]) and parsing
    ([strconv.ParseUint], [strconv.ParseInt], [big.Int.SetString] in base 10),
    with the two error values the callers tell apart. *)

From S2P Require Import Prelude.
Local Open Scope Z_scope.

Inductive NumError := ErrSyntax | ErrRange.

Definition is_digit (b : byte) : bool := (48 <=? b2z b) && (b2z b <=? 57).
Definition digit_val (b : byte) : Z := b2z b - 48.
Definition digit_of (d : Z) : byte := z2b (48 + d).

(** The base-10 value of a string of digits. *)
Definition dval (s : bytes) : Z := fold_left (fun n b => n * 10 + digit_val b) s 0.

(** [strconv.AppendUint(nil, n, 10)]: the last digit first, as the library does. *)
Fixpoint format_uint_loop (fuel : nat) (n : Z) (acc : bytes) : bytes :=
  match fuel with
  | O => acc
  | S fuel' =>
      let acc' := digit_of (n mod 10) :: acc in
      if n <? 10 then acc' else format_uint_loop fuel' (n / 10) acc'
  end.

Definition format_uint (n : Z) : bytes := format_uint_loop (S (Z.to_nat (Z.log2 n))) n [].

Definition format_int (z : Z) : bytes :=
  if z <? 0 then "-"%byte :: format_uint (- z) else format_uint z.

(** The digit loop of [strconv.ParseUint]: the running value is checked against the largest
    value of the width after each digit, so an overflow is reported before a later bad digit. *)
Fixpoint parse_uint_loop (maxVal n : Z) (s : bytes) : Z + NumError :=
  match s with
  | [] => inl n
  | c :: s' =>
      if is_digit c then
        let n1 := n * 10 + digit_val c in
        if maxVal <? n1 then inr ErrRange else parse_uint_loop maxVal n1 s'
      else inr ErrSyntax
  end.

Definition parse_uint (bitSize : Z) (s : bytes) : Z + NumError :=
  match s with [] => inr ErrSyntax | _ => parse_uint_loop (max_uint bitSize) 0 s end.

Definition split_sign (s : bytes) : bool * bytes :=
  match s with
  | "-"%byte :: s' => (true, s')
  | "+"%byte :: s' => (false, s')
  | _ => (false, s)
  end.

(** [strconv.ParseInt(s, 10, bitSize)] *)
Definition parse_int (bitSize : Z) (s : bytes) : Z + NumError :=
  match s with
  | [] => inr ErrSyntax
  | _ =>
      let '(neg, s') := split_sign s in
      match parse_uint bitSize s' with
      | inr ErrSyntax => inr ErrSyntax
      | inr ErrRange => inr ErrRange
      | inl un =>
          let cutoff := 2 ^ (bitSize - 1) in
          if negb neg && (cutoff <=? un) then inr ErrRange
          else if neg && (cutoff <? un) then inr ErrRange
          else inl (if neg then - un else un)
      end
  end.

(** [new(big.Int).SetString(s, 10)]: the whole string must be an optional sign and digits. *)
Definition parse_big (s : bytes) : option Z :=
  let '(neg, s') := split_sign s in
  match s' with
  | [] => None
  | _ => if forallb is_digit s' then Some (if neg then - dval s' else dval s') else None
  end.

(** ** Digits *)

Lemma is_digit_range b : is_digit b = true <-> 48 <= b2z b <= 57.
Proof. unfold is_digit. rewrite andb_true_iff, !Z.leb_le. lia. Qed.

Lemma digit_val_range b : is_digit b = true -> 0 <= digit_val b <= 9.
Proof. rewrite is_digit_range. unfold digit_val. lia. Qed.

Lemma digit_of_val b : is_digit b = true -> digit_of (digit_val b) = b.
Proof.
  intros _. unfold digit_of, digit_val.
  replace (48 + (b2z b - 48)) with (b2z b) by lia. apply z2b_b2z.
Qed.

Lemma b2z_digit_of d : 0 <= d <= 9 -> b2z (digit_of d) = 48 + d.
Proof. intros. unfold digit_of. rewrite b2z_z2b. apply Z.mod_small. lia. Qed.

Lemma digit_of_is_digit d : 0 <= d <= 9 -> is_digit (digit_of d) = true.
Proof. intros. apply is_digit_range. rewrite b2z_digit_of; lia. Qed.

Lemma digit_val_of d : 0 <= d <= 9 -> digit_val (digit_of d) = d.
Proof. intros. unfold digit_val. rewrite b2z_digit_of; lia. Qed.

Lemma dval_snoc s b : dval (s ++ [b]) = dval s * 10 + digit_val b.
Proof. unfold dval. by rewrite fold_left_app. Qed.

Lemma dval_acc s n :
  fold_left (fun n b => n * 10 + digit_val b) s n = n * 10 ^ Z.of_nat (length s) + dval s.
Proof.
  induction s as [|b s IH] using rev_ind; [unfold dval; simpl; lia|].
  rewrite fold_left_app, dval_snoc, length_app. simpl.
  rewrite IH, Nat2Z.inj_add, Z.pow_add_r by lia. simpl. lia.
Qed.

Lemma dval_cons b s : dval (b :: s) = digit_val b * 10 ^ Z.of_nat (length s) + dval s.
Proof. unfold dval at 1. simpl. by rewrite dval_acc. Qed.

Lemma dval_nonneg s : forallb is_digit s = true -> 0 <= dval s.
Proof.
  induction s as [|b s IH] using rev_ind; [done|].
  rewrite forallb_app, dval_snoc. simpl. intros [H1 H2]%andb_true_iff.
  rewrite andb_true_r in H2. apply digit_val_range in H2. specialize (IH H1). lia.
Qed.

(** ** Printing *)

Lemma format_uint_loop_acc fuel n acc :
  format_uint_loop fuel n acc = format_uint_loop fuel n [] ++ acc.
Proof.
  revert n acc. induction fuel as [|fuel IH]; intros n acc; simpl; [done|].
  destruct (n <? 10); [done|].
  rewrite IH, (IH _ [_]), <- app_assoc. done.
Qed.

Lemma log2_div10 n : 10 <= n -> Z.log2 (n / 10) < Z.log2 n.
Proof.
  intros. assert (1 <= n / 10) by (apply Z.div_le_lower_bound; lia).
  assert (n / 10 <= n / 2) by (apply Z.div_le_compat_l; lia).
  apply Z.le_lt_trans with (Z.log2 (n / 2)); [by apply Z.log2_le_mono|].
  rewrite <- Z.div2_div, Z.div2_spec, Z.log2_shiftr by lia.
  assert (0 < Z.log2 n) by (apply Z.log2_pos; lia). lia.
Qed.

Lemma format_uint_loop_fuel n : 0 <= n -> forall f1 f2,
  (Z.to_nat (Z.log2 n) < f1)%nat -> (Z.to_nat (Z.log2 n) < f2)%nat ->
  format_uint_loop f1 n [] = format_uint_loop f2 n [].
Proof.
  intros Hn. pattern n. revert n Hn. apply Z_lt_induction. intros n IH f1 f2 H1 H2.
  destruct f1 as [|f1], f2 as [|f2]; try lia. simpl.
  destruct (Z.ltb_spec n 10); [done|].
  rewrite format_uint_loop_acc, (format_uint_loop_acc f2).
  pose proof (log2_div10 n ltac:(lia)) as Hlog. pose proof (Z.log2_nonneg (n / 10)).
  f_equal. apply IH; [|lia..].
  split; [apply Z.div_pos; lia|apply Z.div_lt; lia].
Qed.

(** The defining equations of decimal printing. *)
Lemma format_uint_small n : 0 <= n < 10 -> format_uint n = [digit_of n].
Proof.
  intros. unfold format_uint. simpl. destruct (Z.ltb_spec n 10); [|lia].
  by rewrite Z.mod_small.
Qed.

Lemma format_uint_step n :
  10 <= n -> format_uint n = format_uint (n / 10) ++ [digit_of (n mod 10)].
Proof.
  intros. unfold format_uint at 1. cbn [format_uint_loop].
  destruct (Z.ltb_spec n 10); [lia|]. rewrite format_uint_loop_acc. f_equal.
  pose proof (log2_div10 n ltac:(lia)). pose proof (Z.log2_nonneg (n / 10)).
  apply format_uint_loop_fuel; [apply Z.div_pos; lia|lia..].
Qed.

(** Canonical decimal strings: digits, without a superfluous leading zero. *)
Definition canonical_uint (s : bytes) : bool :=
  match s with
  | [] => false
  | [b] => is_digit b
  | b :: _ => (49 <=? b2z b) && forallb is_digit s
  end.

Lemma canonical_uint_snoc s b :
  s <> [] -> canonical_uint (s ++ [b]) = true ->
  canonical_uint s = true /\ 1 <= dval s /\ is_digit b = true.
Proof.
  destruct s as [|a s]; [done|]. intros _.
  assert (canonical_uint ((a :: s) ++ [b]) = (49 <=? b2z a) && forallb is_digit ((a :: s) ++ [b]))
    as -> by (simpl; by destruct s).
  rewrite forallb_app. cbn [forallb]. rewrite !andb_true_iff, Z.leb_le.
  intros (Ha & (Hd & Hs) & Hb & _). split_and!; [| |done].
  - unfold canonical_uint. destruct s; [done|].
    by rewrite !andb_true_iff, Z.leb_le; cbn [forallb]; rewrite Hd.
  - rewrite dval_cons. pose proof (dval_nonneg _ Hs).
    assert (1 <= digit_val a) by (unfold digit_val; lia).
    pose proof (Z.pow_pos_nonneg 10 (Z.of_nat (length s)) ltac:(lia) ltac:(lia)). nia.
Qed.

Lemma canonical_uint_digits s : canonical_uint s = true -> s <> [] /\ forallb is_digit s = true.
Proof.
  destruct s as [|b [|c s]]; simpl; [done| |]; rewrite ?andb_true_r; [done|].
  intros [_ H]%andb_true_iff. done.
Qed.

(** Printing the value of a canonical decimal gives the string back. *)
Lemma format_uint_dval s : canonical_uint s = true -> format_uint (dval s) = s.
Proof.
  induction s as [|b s IH] using rev_ind; [done|]. intros Hc.
  rewrite dval_snoc. destruct s as [|a s].
  - simpl in *. pose proof (digit_val_range _ Hc).
    rewrite format_uint_small by (unfold dval; simpl; lia).
    unfold dval. simpl. f_equal. by apply digit_of_val.
  - apply canonical_uint_snoc in Hc as (Hc & H1 & Hb); [|done].
    pose proof (digit_val_range _ Hb).
    rewrite format_uint_step by lia.
    rewrite Z.div_add_l, (Z.div_small (digit_val b)), Z.add_0_r, IH by (done || lia).
    f_equal. f_equal. rewrite Z.add_comm, Z.mod_add, Z.mod_small by lia. by apply digit_of_val.
Qed.

Lemma format_uint_canonical n :
  0 <= n -> canonical_uint (format_uint n) = true /\ dval (format_uint n) = n /\
            (1 <= n -> 49 <= b2z (hd x00 (format_uint n))).
Proof.
  induction (Z.lt_wf 0 n) as [n _ IH]. intros Hn. destruct (Z_lt_dec n 10).
  { rewrite format_uint_small by lia. split_and!.
    - simpl. apply digit_of_is_digit. lia.
    - unfold dval. simpl. rewrite digit_val_of; lia.
    - simpl. rewrite b2z_digit_of; lia. }
  pose proof (Z.mod_pos_bound n 10 ltac:(lia)).
  assert (1 <= n / 10) by (apply Z.div_le_lower_bound; lia).
  destruct (IH (n / 10)) as (Hc & Hv & Hh); [split; [lia|apply Z.div_lt; lia]|lia|].
  rewrite format_uint_step by lia. specialize (Hh ltac:(lia)).
  destruct (format_uint (n / 10)) as [|a s] eqn:Es; [done|]. simpl in Hh.
  pose proof (canonical_uint_digits _ Hc) as [_ Hd].
  split_and!.
  - assert (canonical_uint ((a :: s) ++ [digit_of (n mod 10)]) =
      (49 <=? b2z a) && forallb is_digit ((a :: s) ++ [digit_of (n mod 10)]))
      as -> by (simpl; by destruct s).
    rewrite forallb_app, Hd. cbn [forallb]. rewrite digit_of_is_digit by lia.
    rewrite !andb_true_r. by apply Z.leb_le.
  - rewrite dval_snoc, Hv, digit_val_of by lia. pose proof (Z.div_mod n 10). lia.
  - simpl. lia.
Qed.

(** ** Parsing *)

Lemma parse_uint_loop_digits maxVal s n v :
  parse_uint_loop maxVal n s = inl v ->
  forallb is_digit s = true /\ v = fold_left (fun n b => n * 10 + digit_val b) s n.
Proof.
  revert n. induction s as [|c s IH]; intros n; simpl; [naive_solver|].
  destruct (is_digit c); [|done]. destruct (maxVal <? _); [done|]. simpl. apply IH.
Qed.

Lemma parse_uint_digits bitSize s v :
  parse_uint bitSize s = inl v -> s <> [] /\ forallb is_digit s = true /\ v = dval s.
Proof.
  destruct s; [done|]. intros H%parse_uint_loop_digits. naive_solver.
Qed.

Lemma parse_uint_loop_ok maxVal s n :
  0 <= n -> forallb is_digit s = true ->
  fold_left (fun n b => n * 10 + digit_val b) s n <= maxVal ->
  parse_uint_loop maxVal n s = inl (fold_left (fun n b => n * 10 + digit_val b) s n).
Proof.
  revert n. induction s as [|c s IH]; intros n Hn; simpl; [done|].
  intros [Hc Hs]%andb_true_iff Hm. rewrite Hc. pose proof (digit_val_range _ Hc).
  destruct (Z.ltb_spec maxVal (n * 10 + digit_val c)) as [Hlt|]; [|apply IH; [lia|done..]].
  exfalso. rewrite dval_acc in Hm. pose proof (dval_nonneg _ Hs).
  pose proof (Z.pow_pos_nonneg 10 (Z.of_nat (length s)) ltac:(lia) ltac:(lia)). nia.
Qed.

Lemma parse_uint_ok bitSize s :
  s <> [] -> forallb is_digit s = true -> dval s <= max_uint bitSize ->
  parse_uint bitSize s = inl (dval s).
Proof. destruct s; [done|]. intros. by apply parse_uint_loop_ok. Qed.

(** A digit string that overflows is a range error, whatever the width. *)
Lemma parse_uint_loop_range maxVal s n :
  0 <= n -> n <= maxVal -> forallb is_digit s = true ->
  maxVal < fold_left (fun n b => n * 10 + digit_val b) s n ->
  parse_uint_loop maxVal n s = inr ErrRange.
Proof.
  revert n. induction s as [|c s IH]; intros n Hn Hle; simpl; [lia|].
  intros [Hc Hs]%andb_true_iff Hm. rewrite Hc. pose proof (digit_val_range _ Hc).
  destruct (Z.ltb_spec maxVal (n * 10 + digit_val c)); [done|]. apply IH; auto; lia.
Qed.

Lemma split_sign_digit b s : is_digit b = true -> split_sign (b :: s) = (false, b :: s).
Proof. destruct b; try done; vm_compute; discriminate. Qed.

(** [ParseInt] agrees with unbounded parsing inside the range and reports [ErrRange] outside. *)
Lemma parse_int_digits bitSize s neg s' :
  0 < bitSize -> s <> [] -> split_sign s = (neg, s') -> s' <> [] -> forallb is_digit s' = true ->
  let v := if neg then - dval s' else dval s' in
  parse_int bitSize s =
    if (min_int bitSize <=? v) && (v <=? max_int bitSize) then inl v else inr ErrRange.
Proof.
  intros Hw Hs Hsplit Hs' Hd v. unfold parse_int. destruct s as [|c s]; [done|]. rewrite Hsplit.
  pose proof (dval_nonneg _ Hd) as Hnn. unfold min_int, max_int.
  assert (2 ^ bitSize = 2 * 2 ^ (bitSize - 1)) as Hp
    by (rewrite <- Z.pow_succ_r by lia; f_equal; lia).
  pose proof (Z.pow_pos_nonneg 2 (bitSize - 1) ltac:(lia) ltac:(lia)).
  destruct (Z_le_gt_dec (dval s') (max_uint bitSize)) as [Hle|Hgt].
  - rewrite parse_uint_ok by done. subst v.
    destruct neg; simpl.
    + destruct (Z.ltb_spec (2 ^ (bitSize - 1)) (dval s')),
        (Z.leb_spec (- 2 ^ (bitSize - 1)) (- dval s')),
        (Z.leb_spec (- dval s') (2 ^ (bitSize - 1) - 1)); simpl; try done; lia.
    + destruct (Z.leb_spec (2 ^ (bitSize - 1)) (dval s')),
        (Z.leb_spec (- 2 ^ (bitSize - 1)) (dval s')),
        (Z.leb_spec (dval s') (2 ^ (bitSize - 1) - 1)); simpl; try done; lia.
  - unfold parse_uint. destruct s' as [|d s']; [done|]. unfold max_uint in *.
    rewrite parse_uint_loop_range by (try done; unfold dval in *; lia).
    subst v. destruct neg; simpl.
    + destruct (Z.leb_spec (- 2 ^ (bitSize - 1)) (- dval (d :: s'))); simpl; [lia|done].
    + destruct (Z.leb_spec (dval (d :: s')) (2 ^ (bitSize - 1) - 1)); [lia|].
      by rewrite andb_false_r.
Qed.

Lemma parse_int_inl bitSize s v :
  parse_int bitSize s = inl v ->
  exists neg s', split_sign s = (neg, s') /\ s' <> [] /\ forallb is_digit s' = true /\
                 v = if neg then - dval s' else dval s'.
Proof.
  unfold parse_int. destruct s as [|c s]; [done|]. destruct (split_sign (c :: s)) as [neg s'] eqn:E.
  destruct (parse_uint bitSize s') as [un|[]] eqn:Eu; [|done..].
  apply parse_uint_digits in Eu as (? & ? & ->).
  destruct (negb neg && _); [done|]. destruct (neg && _); [done|].
  intros [= <-]. by exists neg, s'.
Qed.

Lemma format_int_split z :
  split_sign (format_int z) = (z <? 0, format_uint (Z.abs z)).
Proof.
  unfold format_int. destruct (Z.ltb_spec z 0).
  - simpl. by rewrite Z.abs_neq by lia.
  - destruct (format_uint_canonical z) as (Hc & _ & _); [done|].
    apply canonical_uint_digits in Hc as [? Hd].
    rewrite Z.abs_eq by lia. destruct (format_uint z) as [|b s]; [done|].
    simpl in Hd. apply andb_true_iff in Hd as [Hb _]. by apply split_sign_digit.
Qed.

Lemma format_int_digits z :
  let s' := format_uint (Z.abs z) in
  s' <> [] /\ forallb is_digit s' = true /\ dval s' = Z.abs z.
Proof.
  destruct (format_uint_canonical (Z.abs z)) as (Hc & Hv & _); [lia|].
  apply canonical_uint_digits in Hc as [? ?]. done.
Qed.

Lemma parse_big_format z : parse_big (format_int z) = Some z.
Proof.
  unfold parse_big. rewrite format_int_split. destruct (format_int_digits z) as (? & Hd & Hv).
  destruct (format_uint (Z.abs z)) as [|b s] eqn:E; [done|]. rewrite Hd, Hv. f_equal.
  destruct (Z.ltb_spec z 0); lia.
Qed.

Lemma parse_int_format bitSize z :
  0 < bitSize -> parse_int bitSize (format_int z) =
    if (min_int bitSize <=? z) && (z <=? max_int bitSize) then inl z else inr ErrRange.
Proof.
  intros Hw. destruct (format_int_digits z) as (Hne & Hd & Hv).
  erewrite parse_int_digits; [|done| |apply format_int_split|done..].
  - rewrite Hv. replace (if z <? 0 then - Z.abs z else Z.abs z) with z; [done|].
    destruct (Z.ltb_spec z 0); lia.
  - unfold format_int. intros E. pose proof (format_int_split z) as Hsp. unfold format_int in Hsp.
    rewrite E in Hsp. simpl in Hsp. congruence.
Qed.
