(* ===== verification/Bencode.v ===== *)
(** * Bencode ([src/bencode])

    The encoder ([encode.go]) on Go values as [reflect] presents them, the decoder
    ([decode.go]) on its [interface{}] path together with the raw-value reader used for
    [Unmarshaler] targets, and the entry points of [api.go].  The decoder state, its panics and
    its deferred depth bookkeeping are explicit, so what a failed decode leaves behind is part
    of the model. *)

From S2P Require Import Prelude Strconv.
Local Open Scope Z_scope.

(** ** Go values *)

Record StructField := {
  Name : bytes;
  PkgPath : bytes;        (** empty for exported fields *)
  Anonymous : bool;
  BencodeTag : bytes;     (** the string under the bencode key of the struct tag *)
}.

(** What the encoder observes of a [reflect.Value]. *)
Inductive Value :=
| VBool (b : bool)
| VInt (n : Z)                              (** the signed kinds *)
| VUint (n : Z)                             (** the unsigned kinds *)
| VBigInt (n : Z)                           (** [big.Int] *)
| VString (s : bytes)
| VBytes (s : bytes)                        (** a slice or array of bytes *)
| VSlice (l : option (list Value))          (** any other slice, [None] when nil *)
| VArray (l : list Value)                   (** any other array *)
| VMap (m : option (list (bytes * Value)))  (** a map with string keys, in iteration order *)
| VMapBadKey                                (** a map with keys of another kind *)
| VStruct (fs : list (StructField * Value))
| VIface (v : option Value)
| VPtr (v : Value)
| VNilPtr (zero : Value)                    (** a nil pointer, with its element type's zero *)
| VMarshaler (res : option bytes) (u : Value)
    (** a [u] whose type implements [Marshaler]; [None] when that fails *)
| VOther.                                   (** floats, channels, functions, ... *)

(** ** Struct tags ([tags.go]) *)

Definition comma : byte := ","%byte.

(** [strings.Split(s, ",")] *)
Fixpoint split_comma (s : bytes) : bytes * list bytes :=
  match s with
  | [] => ([], [])
  | c :: s' =>
      let '(h, t) := split_comma s' in
      if decide (c = comma) then ([], h :: t) else (c :: h, t)
  end.

(** A parsed tag is never empty: its head is the key, the rest are options. *)
Definition tag : Type := bytes * list bytes.
Definition parseTag (tagStr : bytes) : tag := split_comma tagStr.
Definition tag_Ignore (t : tag) : bool := bool_decide (t.1 = bs "-").
Definition tag_Key (t : tag) : bytes := t.1.
Definition tag_HasOpt (t : tag) (opt : bytes) : bool :=
  existsb (fun s => bool_decide (s = opt)) t.2.
Definition tag_OmitEmpty (t : tag) : bool := tag_HasOpt t (bs "omitempty").

(** ** The encoder ([encode.go]) *)

Inductive EncodeError :=
| MarshalTypeError
| MarshalerError
| ReflectValueError.   (** a [*reflect.ValueError] raised by [reflect] and recovered *)

(** [EncCrash] is a panic whose value is not an error: [Encode] raises it again. *)
Inductive enc_result := EncOk (out : bytes) | EncErr (e : EncodeError) | EncCrash.

Definition enc_app (x y : enc_result) : enc_result :=
  match x with
  | EncOk a => match y with EncOk b => EncOk (a ++ b) | e => e end
  | e => e
  end.

Definition enc_concat (l : list enc_result) : enc_result := fold_right enc_app (EncOk []) l.

Definition scratchLen : nat := 64.

(** [writeString] copies through the 64-byte scratch buffer; [write] appends to the output. *)
Fixpoint writeString_loop (fuel : nat) (s out : bytes) : bytes :=
  match fuel with
  | O => out
  | S fuel' =>
      match s with
      | [] => out
      | _ => writeString_loop fuel' (drop scratchLen s) (out ++ take scratchLen s)
      end
  end.

Definition writeString (s : bytes) : bytes := writeString_loop (S (length s)) s [].

Definition writeStringPrefix (l : Z) : bytes := format_int l ++ writeString [":"%byte].
Definition reflectString (s : bytes) : bytes :=
  writeStringPrefix (Z.of_nat (length s)) ++ writeString s.
Definition reflectByteSlice (s : bytes) : bytes :=
  writeStringPrefix (Z.of_nat (length s)) ++ s.

(** An encode field with its value already encoded (or left out). *)
Record encodeField := { ef_tag : bytes; ef_out : option enc_result }.

Definition tag_le : relation encodeField := by_key ef_tag.
#[export] Instance tag_le_dec x y : Decision (tag_le x y).
Proof. unfold tag_le, by_key. apply _. Defined.

Definition key_le : relation (bytes * enc_result) := by_key fst.
#[export] Instance key_le_dec x y : Decision (key_le x y).
Proof. unfold key_le, by_key. apply _. Defined.

Definition encodeStructField (ef : encodeField) : enc_result :=
  match ef_out ef with
  | None => EncOk []
  | Some r => enc_app (EncOk (reflectString (ef_tag ef))) r
  end.

Definition encodeMapEntry (kv : bytes * enc_result) : enc_result :=
  enc_app (EncOk (reflectString kv.1)) kv.2.

Section Encoder.
(** [missinggo.IsEmptyValue] *)
Variable isEmptyValue : Value -> bool.

(** The loop of [makeEncodeFields], before the sort: [rv] encodes a field's value and [mef]
    gives the fields of an embedded type.  The fields behind a nil embedded pointer exist but
    are skipped. *)
Section FieldLoop.
Variable rv : Value -> enc_result.
Variable mef : Value -> option (list encodeField).

Fixpoint encodeFieldsLoop (fs : list (StructField * Value)) : option (list encodeField) :=
  match fs with
  | [] => Some []
  | (f, fv) :: fs' =>
      if negb (bool_decide (PkgPath f = [])) then encodeFieldsLoop fs'
      else if Anonymous f then
        efs ← match fv with
              | VPtr v' | VMarshaler _ (VPtr v') => mef v'
              | VNilPtr zero | VMarshaler _ (VNilPtr zero) =>
                  map (fun ef => {| ef_tag := ef_tag ef; ef_out := None |}) <$> mef zero
              | _ => mef fv
              end;
        rest ← encodeFieldsLoop fs';
        Some (efs ++ rest)
      else
        let tv := parseTag (BencodeTag f) in
        if tag_Ignore tv then encodeFieldsLoop fs'
        else
          rest ← encodeFieldsLoop fs';
          Some ({| ef_tag := if bool_decide (tag_Key tv = []) then Name f else tag_Key tv;
                   ef_out := if tag_OmitEmpty tv && isEmptyValue fv then None
                             else Some (rv fv) |} :: rest)
  end.
End FieldLoop.

(** [reflectValue], with [reflectMarshaler] and [reflectSequence] inlined.  Map values and
    struct fields are encoded in place and the sort by key permutes the encodings. *)
Fixpoint reflectValue (v : Value) : enc_result :=
  match v with
  | VMarshaler None _ => EncErr MarshalerError
  | VMarshaler (Some data) _ => EncOk data
  | VBigInt n => EncOk (writeString (bs "i") ++ writeString (format_int n) ++ writeString (bs "e"))
  | VBool true => EncOk (writeString (bs "i1e"))
  | VBool false => EncOk (writeString (bs "i0e"))
  | VInt n => EncOk (writeString (bs "i") ++ format_int n ++ writeString (bs "e"))
  | VUint n => EncOk (writeString (bs "i") ++ format_uint n ++ writeString (bs "e"))
  | VString s => EncOk (reflectString s)
  | VStruct fs =>
      match merge_sort tag_le <$> encodeFieldsLoop reflectValue makeEncodeFields fs with
      | None => EncCrash
      | Some efs =>
          enc_app (EncOk (writeString (bs "d")))
            (enc_app (enc_concat (map encodeStructField efs)) (EncOk (writeString (bs "e"))))
      end
  | VMapBadKey => EncErr MarshalTypeError
  | VMap None => EncOk (writeString (bs "de"))
  | VMap (Some m) =>
      let sv := merge_sort key_le (map (fun kv => (kv.1, reflectValue kv.2)) m) in
      enc_app (EncOk (writeString (bs "d")))
        (enc_app (enc_concat (map encodeMapEntry sv)) (EncOk (writeString (bs "e"))))
  | VBytes s => EncOk (reflectByteSlice s)
  | VArray _ => EncErr ReflectValueError  (* [v.IsNil()] on an array *)
  | VSlice None => EncOk (writeString (bs "le"))
  | VSlice (Some l) =>
      enc_app (EncOk (writeString (bs "l")))
        (enc_app (enc_concat (map reflectValue l)) (EncOk (writeString (bs "e"))))
  | VIface None => EncErr ReflectValueError  (* [Type()] of the zero [reflect.Value] *)
  | VIface (Some v') => reflectValue v'
  | VPtr v' => reflectValue v'
  | VNilPtr zero => reflectValue zero
  | VOther => EncErr MarshalTypeError
  end
(** [makeEncodeFields] on the type of [v]; [None] is the crash of [NumField] on a type that is
    not a struct.  A [big.Int] is a struct with unexported fields only, and a [Marshaler] has the
    fields of its kind. *)
with makeEncodeFields (v : Value) : option (list encodeField) :=
  match v with
  | VStruct fs => merge_sort tag_le <$> encodeFieldsLoop reflectValue makeEncodeFields fs
  | VBigInt _ => Some []
  | VMarshaler _ u => makeEncodeFields u
  | _ => None
  end.

(** [Encoder.Encode] and [Marshal]; [None] is a nil interface. *)
Definition Marshal (v : option Value) : enc_result :=
  match v with
  | None => EncOk []
  | Some v => reflectValue v
  end.
End Encoder.

(** ** Basic facts of the encoder *)

Lemma writeString_loop_id fuel s out :
  (length s < fuel)%nat -> writeString_loop fuel s out = out ++ s.
Proof.
  revert s out. induction fuel as [|fuel IH]; intros s out Hf; [lia|].
  destruct s as [|b s]; [simpl; by rewrite app_nil_r|].
  cbn [writeString_loop]. rewrite IH.
  - by rewrite <- app_assoc, take_drop.
  - rewrite length_drop. unfold scratchLen. simpl in *. lia.
Qed.

(** Copying through the scratch buffer writes the string. *)
Lemma writeString_id s : writeString s = s.
Proof. unfold writeString. rewrite writeString_loop_id by lia. done. Qed.

Lemma reflectString_eq s :
  reflectString s = format_uint (Z.of_nat (length s)) ++ ":"%byte :: s.
Proof.
  unfold reflectString, writeStringPrefix. rewrite !writeString_id, <- app_assoc. simpl.
  unfold format_int. destruct (Z.ltb_spec (Z.of_nat (length s)) 0); [lia|done].
Qed.

Lemma enc_app_ok x y o :
  enc_app x y = EncOk o <-> exists a b, x = EncOk a /\ y = EncOk b /\ o = a ++ b.
Proof. destruct x, y; naive_solver. Qed.

Lemma enc_concat_cons x l : enc_concat (x :: l) = enc_app x (enc_concat l).
Proof. done. Qed.

(** Brackets around an encoded body. *)
Lemma enc_wrap_ok p x q o :
  enc_app (EncOk (writeString p)) (enc_app x (EncOk (writeString q))) = EncOk o <->
  exists body, x = EncOk body /\ o = p ++ body ++ q.
Proof.
  rewrite !writeString_id. rewrite enc_app_ok. setoid_rewrite enc_app_ok. naive_solver.
Qed.
