(* ===== verification/BencodeDecode.v ===== *)
(** * The bencode decoder ([src/bencode/decode.go], [api.go])

    The path that decodes into an [interface{}] ([parseValueInterface] and what it calls), the
    reader of one raw value ([readOneValue]) that feeds [Unmarshaler] targets, and [Unmarshal].
    Go's [int] is 64 bits wide. *)

From S2P Require Import Prelude Strconv Bencode.
Local Open Scope Z_scope.

Inductive SyntaxWhat :=
| WUnexpectedEOF
| WNum (e : NumError)
| WUnknownValueType (b : byte)
| WNonStringKey
| WKeysUnsorted (key lastKey : bytes)
| WMissingValue (key : bytes)
| WStrLenLimit (length limit : Z)
| WDepthLimit (depth limit : Z)
| WBadInteger.

Inductive DecodeError :=
| EOF
| ErrUnexpectedEOF
| SyntaxError (Offset : Z) (What : SyntaxWhat)
| ErrLeadingDigit
| ErrStrLenLimit (length limit : Z)
| ErrShortRead (read expected : Z)
| ErrSetZeroValue                       (** [v.Set] of the zero [reflect.Value] *)
| ErrUnusedTrailingBytes (n : Z).

Definition DefaultDecodeMaxStrLen : Z := 2 ^ 27 - 1.
Definition DefaultMaxDepth : Z := 64.

(** [r] holds the bytes the reader has left. *)
Record Decoder := {
  MaxStrLen : Z;
  MaxDepth : Z;
  r : bytes;
  Offset : Z;
  depth : Z;
  buf : bytes;
}.

Definition set_r x d := {| MaxStrLen := MaxStrLen d; MaxDepth := MaxDepth d; r := x;
  Offset := Offset d; depth := depth d; buf := buf d |}.
Definition set_Offset x d := {| MaxStrLen := MaxStrLen d; MaxDepth := MaxDepth d; r := r d;
  Offset := x; depth := depth d; buf := buf d |}.
Definition set_depth x d := {| MaxStrLen := MaxStrLen d; MaxDepth := MaxDepth d; r := r d;
  Offset := Offset d; depth := x; buf := buf d |}.
Definition set_buf x d := {| MaxStrLen := MaxStrLen d; MaxDepth := MaxDepth d; r := r d;
  Offset := Offset d; depth := depth d; buf := x |}.

Notation D := (go Decoder DecodeError).

Definition getMaxStrLen (d : Decoder) : Z :=
  if MaxStrLen d =? 0 then DefaultDecodeMaxStrLen else MaxStrLen d.
Definition getMaxDepth (d : Decoder) : Z :=
  if MaxDepth d =? 0 then DefaultMaxDepth else MaxDepth d.

(** [d.r.ReadByte()] *)
Definition r_ReadByte : D (option byte) := fun d =>
  match r d with
  | [] => Ret None d
  | b :: rest => Ret (Some b) (set_r rest d)
  end.

(** [d.r.UnreadByte()] after [b] was read *)
Definition r_UnreadByte (b : byte) : D unit := modify (fun d => set_r (b :: r d) d).

Definition incOffset (n : Z) : D unit := modify (fun d => set_Offset (Offset d + n) d).
Definition buf_Write (s : bytes) : D unit := modify (fun d => set_buf (buf d ++ s) d).
Definition buf_Reset : D unit := modify (set_buf []).

Definition throwSyntaxError {A} (offset : Z) (what : SyntaxWhat) : D A :=
  panic (SyntaxError offset what).

Definition readByte : D byte :=
  b ← r_ReadByte;
  match b with
  | None => d ← get; throwSyntaxError (Offset d) WUnexpectedEOF
  | Some b => incOffset 1;; mret b
  end.

Fixpoint readUntil_loop (fuel : nat) (sep : byte) : D unit :=
  match fuel with
  | O => no_fuel
  | S fuel' =>
      b ← readByte;
      if decide (b = sep) then mret tt else buf_Write [b];; readUntil_loop fuel' sep
  end.

(** Every iteration reads a byte: one more than the bytes left is enough. *)
Definition readUntil (sep : byte) : D unit := fun d => readUntil_loop (S (length (r d))) sep d.

(** Whether [checkBufferedInt] accepts the buffer. *)
Definition checkBufferedInt (b : bytes) : bool :=
  if (length b <=? 1)%nat then true
  else
    let b := match b with "-"%byte :: b' => b' | _ => b end in
    match b with
    | c :: _ => (49 <=? b2z c) && (b2z c <=? 57)
    | [] => false
    end.

Definition readInt : D unit :=
  readUntil "e"%byte;;
  d ← get;
  if checkBufferedInt (buf d) then mret tt else panic ErrLeadingDigit.

Definition parseIntInterface : D Value :=
  d0 ← get;
  let start := Offset d0 - 1 in
  readInt;;
  d ← get;
  ret ← match parse_int 64 (buf d) with
        | inl n => mret (VInt n)
        | inr ErrRange =>
            match parse_big (buf d) with
            | Some i => mret (VPtr (VBigInt i))
            | None => throwSyntaxError start WBadInteger
            end
        | inr e => throwSyntaxError start (WNum e)
        end;
  buf_Reset;;
  mret ret.

(** The returned error is the second component. *)
Definition parseStringLength : D (Z * option DecodeError) :=
  d0 ← get;
  let start := Offset d0 - 1 in
  readUntil ":"%byte;;
  d ← get;
  if negb (checkBufferedInt (buf d)) then mret (0, Some ErrLeadingDigit)
  else
    match parse_int 64 (buf d) with
    | inr e => throwSyntaxError start (WNum e)
    | inl length =>
        let err := if getMaxStrLen d <? length
                   then Some (ErrStrLenLimit length (getMaxStrLen d)) else None in
        buf_Reset;;
        mret (length, err)
    end.

(** [io.ReadAll(io.LimitReader(d.r, length))] and the length check *)
Definition readBytes (length_ : Z) : D bytes :=
  d ← get;
  let b := take (Z.to_nat length_) (r d) in
  modify (set_r (drop (Z.to_nat length_) (r d)));;
  if negb (Z.of_nat (length b) =? length_)
  then panic (ErrShortRead (Z.of_nat (length b)) length_)
  else mret b.

Definition parseStringInterface : D bytes :=
  '(length_, err) ← parseStringLength;
  match err with
  | Some e => panic e
  | None =>
      b ← readBytes length_;
      incOffset (Z.of_nat (length b));;
      mret b
  end.

Definition enterContainer (offset : Z) : D unit :=
  d ← get;
  let maxDepth := getMaxDepth d in
  modify (set_depth (depth d + 1));;
  if maxDepth <? depth d + 1
  then throwSyntaxError offset (WDepthLimit (depth d + 1) maxDepth)
  else mret tt.

Definition leaveContainer (d : Decoder) : Decoder := set_depth (depth d - 1) d.

(** [dict[key] = v] on a Go map, as an association list in insertion order *)
Fixpoint assoc_set {A} (key : bytes) (v : A) (m : list (bytes * A)) : list (bytes * A) :=
  match m with
  | [] => [(key, v)]
  | (k, x) :: m' => if decide (k = key) then (k, v) :: m' else (k, x) :: assoc_set key v m'
  end.

(** [parseValueInterface] returns [None] for the end symbol.  The dict and list loops take one
    unit of fuel per iteration. *)
Fixpoint parseValueInterface (fuel : nat) : D (option Value) :=
  match fuel with
  | O => no_fuel
  | S fuel' =>
      b ← r_ReadByte;
      match b with
      | None => panic EOF
      | Some b =>
          incOffset 1;;
          d ← get;
          if decide (b = "e"%byte) then mret None
          else if decide (b = "d"%byte) then
            defer leaveContainer
              (enterContainer (Offset d - 1);;
               dict ← parseDictInterface fuel' [] None;
               mret (Some (VMap (Some dict))))
          else if decide (b = "l"%byte) then
            defer leaveContainer
              (enterContainer (Offset d - 1);;
               list ← parseListInterface fuel' [];
               mret (Some (VSlice (Some list))))
          else if decide (b = "i"%byte) then
            v ← parseIntInterface; mret (Some v)
          else if is_digit b then
            buf_Write [b];;
            s ← parseStringInterface;
            mret (Some (VString s))
          else throwSyntaxError (Offset d - 1) (WUnknownValueType b)
      end
  end
with parseDictInterface (fuel : nat) (dict : list (bytes * Value)) (lastKey : option bytes)
    : D (list (bytes * Value)) :=
  match fuel with
  | O => no_fuel
  | S fuel' =>
      d0 ← get;
      keyi ← parseValueInterface fuel';
      match keyi with
      | None => mret dict
      | Some (VString key) =>
          if match lastKey with Some lk => bytes_leb key lk | None => false end
          then throwSyntaxError (Offset d0) (WKeysUnsorted key (default [] lastKey))
          else
            d1 ← get;
            valuei ← parseValueInterface fuel';
            match valuei with
            | None => throwSyntaxError (Offset d1) (WMissingValue key)
            | Some v => parseDictInterface fuel' (assoc_set key (VIface (Some v)) dict) (Some key)
            end
      | Some _ => d ← get; throwSyntaxError (Offset d) WNonStringKey
      end
  end
with parseListInterface (fuel : nat) (list_ : list Value) : D (list Value) :=
  match fuel with
  | O => no_fuel
  | S fuel' =>
      valuei ← parseValueInterface fuel';
      match valuei with
      | None => mret list_
      | Some v => parseListInterface fuel' (list_ ++ [VIface (Some v)])
      end
  end.

(** Fuel that suffices for the bytes left (shown in [parse_no_fuel]). *)
Definition parseFuel (d : Decoder) : nat := 2 * length (r d) + 2.

(** [Decode] into a [*interface{}]: [parseValue] on the interface ignores whether there was a
    value, and setting the interface from an absent one panics inside [reflect]; [Decode]
    recovers errors and turns a thrown [io.EOF] into [io.ErrUnexpectedEOF]. *)
Definition parseValue_interface : D Value := fun d =>
  (iface ← parseValueInterface (parseFuel d);
   match iface with
   | Some v => mret v
   | None => panic ErrSetZeroValue
   end) d.

Definition recoverEOF (e : DecodeError) : DecodeError :=
  match e with EOF => ErrUnexpectedEOF | _ => e end.

Definition Decode_interface : D Value := fun d =>
  match parseValue_interface d with
  | Ret v d' => Ret v d'
  | Panic e d' => Panic (recoverEOF e) d'
  | NoFuel => NoFuel
  end.

Definition newDecoder (data : bytes) : Decoder :=
  {| MaxStrLen := 0; MaxDepth := 0; r := data; Offset := 0; depth := 0; buf := [] |}.

(** What [Unmarshal(data, &iface)] leaves in [iface] and returns. *)
Definition Unmarshal_interface (data : bytes) : option (option Value * option DecodeError) :=
  match Decode_interface (newDecoder data) with
  | NoFuel => None
  | Panic e _ => Some (None, Some e)
  | Ret v d =>
      Some (Some v, if (length (r d) =? 0)%nat then None
                    else Some (ErrUnusedTrailingBytes (Z.of_nat (length (r d)))))
  end.

(** ** Reading one raw value *)

(** [io.CopyN(&d.buf, d.r, length)]: whatever is available is copied and counted. *)
Definition copyN (length_ : Z) : D unit :=
  d ← get;
  let b := take (Z.to_nat length_) (r d) in
  modify (set_r (drop (Z.to_nat length_) (r d)));;
  buf_Write b;;
  incOffset (Z.of_nat (length b));;
  if Z.of_nat (length b) =? length_ then mret tt
  else d' ← get; throwSyntaxError (Offset d') WUnexpectedEOF.

(** The loop [for d.readOneValue() {}] takes one unit of fuel per iteration. *)
Fixpoint readOneValue (fuel : nat) : D bool :=
  match fuel with
  | O => no_fuel
  | S fuel' =>
      b ← r_ReadByte;
      match b with
      | None => panic EOF
      | Some b =>
          if decide (b = "e"%byte) then r_UnreadByte b;; mret false
          else
            incOffset 1;;
            buf_Write [b];;
            d ← get;
            (if decide (b = "d"%byte \/ b = "l"%byte) then
               defer leaveContainer
                 (enterContainer (Offset d - 1);;
                  readValues fuel';;
                  c ← readByte;
                  buf_Write [c])
             else if decide (b = "i"%byte) then
               readUntil "e"%byte;;
               buf_Write (bs "e")
             else if is_digit b then
               let start := (length (buf d) - 1)%nat in
               readUntil ":"%byte;;
               d1 ← get;
               match parse_int 64 (drop start (buf d1)) with
               | inr e => throwSyntaxError (Offset d1 - 1) (WNum e)
               | inl length_ =>
                   buf_Write (bs ":");;
                   if getMaxStrLen d1 <? length_
                   then throwSyntaxError (Offset d1 - 1) (WStrLenLimit length_ (getMaxStrLen d1))
                   else copyN length_
               end
             else throwSyntaxError (Offset d - 1) (WUnknownValueType b));;
            mret true
      end
  end
with readValues (fuel : nat) : D unit :=
  match fuel with
  | O => no_fuel
  | S fuel' =>
      more ← readOneValue fuel';
      if (more : bool) then readValues fuel' else mret tt
  end.

Example unmarshal_list :
  Unmarshal_interface (bs "li-7e3:abcd1:ai0eee") =
  Some (Some (VSlice (Some [VIface (Some (VInt (-7))); VIface (Some (VString (bs "abc")));
    VIface (Some (VMap (Some [(bs "a", VIface (Some (VInt 0)))])))])), None).
Proof. vm_compute. reflexivity. Qed.

Example unmarshal_errors :
  map Unmarshal_interface [[]; bs "e"; bs "i03e"; bs "d1:bi1e1:ai2ee"; bs "i1ei2e"; bs "5:abc"] =
  [Some (None, Some ErrUnexpectedEOF); Some (None, Some ErrSetZeroValue);
   Some (None, Some ErrLeadingDigit);
   Some (None, Some (SyntaxError 7 (WKeysUnsorted (bs "a") (bs "b"))));
   Some (Some (VInt 1), Some (ErrUnusedTrailingBytes 3));
   Some (None, Some (ErrShortRead 3 5))].
Proof. vm_compute. reflexivity. Qed.
