(* ===== verification/BencodeRoundtrip.v ===== *)
(** * Bencode: decoded values and their encodings

    [decodable] describes the values the decoder can produce; the decoder accepts exactly the
    encodings of those values, so the codec is canonical in both directions. *)

From S2P Require Import Prelude Strconv Bencode BencodeDecode BencodeTheory.
Local Open Scope Z_scope.

Definition in_int64 (z : Z) : bool := (min_int 64 <=? z) && (z <=? max_int 64).

Fixpoint strictly_sorted (l : list bytes) : bool :=
  match l with
  | x :: (y :: _) as l' => bytes_ltb x y && strictly_sorted l'
  | _ => true
  end.

(** The values that come out of the decoder under a string length limit [lim], with at most
    [n] levels of lists and dicts. *)
Fixpoint decodable (lim n : Z) (v : Value) : bool :=
  match v with
  | VInt z => in_int64 z
  | VPtr (VBigInt z) => negb (in_int64 z)
  | VString s => Z.of_nat (length s) <=? lim
  | VSlice (Some l) =>
      (0 <? n) &&
      forallb (fun x => match x with VIface (Some v') => decodable lim (n - 1) v' | _ => false end) l
  | VMap (Some m) =>
      (0 <? n) && strictly_sorted (map fst m) &&
      forallb (fun kv => (Z.of_nat (length kv.1) <=? lim) &&
                 match kv.2 with VIface (Some v') => decodable lim (n - 1) v' | _ => false end) m
  | _ => false
  end.

Definition decodable_elem (lim n : Z) (x : Value) : bool :=
  match x with VIface (Some v) => decodable lim n v | _ => false end.

Definition decodable_entry (lim n : Z) (kv : bytes * Value) : bool :=
  (Z.of_nat (length kv.1) <=? lim) && decodable_elem lim n kv.2.

(** ** Integers and string lengths *)

Lemma checked_int_canonical b neg s' :
  checkBufferedInt b = true -> split_sign b = (neg, s') -> s' <> [] -> forallb is_digit s' = true ->
  format_int (if neg then - dval s' else dval s') = b.
Proof.
  intros Hchk Hsp Hne Hd.
  assert (Hpos : neg = false -> s' = b -> canonical_uint s' = true -> format_int (dval s') = b).
  { intros _ -> Hc. unfold format_int. pose proof (dval_nonneg _ Hd).
    destruct (Z.ltb_spec (dval b) 0); [lia|]. by apply format_uint_dval. }
  unfold checkBufferedInt in Hchk. destruct (Nat.leb_spec (length b) 1) as [Hl|Hl].
  { destruct b as [|c [|]]; simpl in Hl; [..|lia].
    - simpl in Hsp. by inversion Hsp; subst.
    - assert (is_digit c = true \/ s' = []) as [Hc|]; [|rewrite split_sign_digit in Hsp by done|done].
      { destruct c; simpl in Hsp; inversion Hsp; subst;
          (by right) || (left; revert Hd; vm_compute; done). }
      inversion Hsp; subst. apply Hpos; done. }
  destruct b as [|c b]; [simpl in Hl; lia|].
  destruct (decide (c = "-"%byte)) as [->|Hminus].
  - simpl in Hsp. inversion Hsp; subst. clear Hpos.
    destruct s' as [|c s']; [done|].
    apply andb_true_iff in Hchk as [H1%Z.leb_le H9%Z.leb_le].
    assert (canonical_uint (c :: s') = true) as Hc.
    { simpl. destruct s'; [by simpl in Hd; rewrite andb_true_r in Hd|].
      rewrite andb_true_iff, Z.leb_le. done. }
    unfold format_int. destruct (Z.ltb_spec (- dval (c :: s')) 0) as [_|Hz].
    + rewrite Z.opp_involutive. by rewrite format_uint_dval.
    + rewrite dval_cons in Hz. simpl in Hd. apply andb_true_iff in Hd as [_ Hd].
      pose proof (dval_nonneg _ Hd).
      assert (1 <= digit_val c) by (unfold digit_val; lia).
      pose proof (Z.pow_pos_nonneg 10 (Z.of_nat (length s')) ltac:(lia) ltac:(lia)). nia.
  - assert (is_digit c = true /\ 49 <= b2z c) as [Hc H1].
    { destruct c; try done; vm_compute in Hchk |- *; try discriminate; split; (done || discriminate). }
    rewrite split_sign_digit in Hsp by done. inversion Hsp; subst. apply Hpos; [done..|].
    simpl. destruct b; [done|]. rewrite andb_true_iff, Z.leb_le. done.
Qed.

Lemma format_uint_all_digits z : 0 <= z -> forallb is_digit (format_uint z) = true.
Proof. intros. by apply canonical_uint_digits, format_uint_canonical. Qed.

Lemma not_elem_digits c s : is_digit c = false -> forallb is_digit s = true -> c ∉ s.
Proof.
  intros Hc Hs Hin%list_elem_of_In. rewrite forallb_forall in Hs. apply Hs in Hin. congruence.
Qed.

Lemma not_elem_format_int c z : is_digit c = false -> c <> "-"%byte -> c ∉ format_int z.
Proof.
  intros Hc Hm. unfold format_int. destruct (Z.ltb_spec z 0).
  - apply not_elem_of_cons. split; [done|]. apply not_elem_digits; [done|].
    apply format_uint_all_digits. lia.
  - apply not_elem_digits; [done|]. by apply format_uint_all_digits.
Qed.

Lemma checkBufferedInt_format_int z : checkBufferedInt (format_int z) = true.
Proof.
  unfold checkBufferedInt. destruct (Nat.leb_spec (length (format_int z)) 1) as [|Hl]; [done|].
  destruct (format_uint_canonical (Z.abs z)) as (Hc & _ & Hh); [lia|].
  assert (Hhd : forall s, canonical_uint s = true -> 49 <= b2z (hd x00 s) ->
    match s with [] => false | c :: _ => (49 <=? b2z c) && (b2z c <=? 57) end = true).
  { intros s [Hne Hd]%canonical_uint_digits Hs. destruct s as [|c s]; [done|]. simpl in Hs, Hd.
    apply andb_true_iff in Hd as [Hd%is_digit_range _]. rewrite andb_true_iff, !Z.leb_le. lia. }
  revert Hl. unfold format_int. destruct (Z.ltb_spec z 0).
  - rewrite Z.abs_neq in Hc, Hh by lia. intros _. apply Hhd; [done|]. apply Hh. lia.
  - rewrite Z.abs_eq in Hc, Hh by lia. destruct (decide (z = 0)) as [->|]; [simpl; lia|].
    intros _. specialize (Hh ltac:(lia)). pose proof (Hhd _ Hc Hh) as Hx.
    destruct (format_uint z) as [|c s]; [done|]. simpl in Hh.
    destruct c; try exact Hx. vm_compute in Hh. by destruct Hh.
Qed.

(** The value an integer decodes to: an [int64] when it fits, a [*big.Int] otherwise. *)
Definition int_value (z : Z) : Value := if in_int64 z then VInt z else VPtr (VBigInt z).

Lemma decodable_int_value lim n z : decodable lim n (int_value z) = true.
Proof. unfold int_value. destruct (in_int64 z) eqn:E; simpl; by rewrite E. Qed.

Lemma reflectValue_int_value ie z :
  reflectValue ie (int_value z) = EncOk ("i"%byte :: format_int z ++ [ "e"%byte ]).
Proof. unfold int_value. destruct (in_int64 z); simpl; by rewrite !writeString_id. Qed.

Lemma parseIntInterface_Ret d v d' :
  buf d = [] -> parseIntInterface d = Ret v d' ->
  exists z rest, v = int_value z /\ r d = format_int z ++ "e"%byte :: rest /\
    d' = at_ rest (Offset d + Z.of_nat (length (format_int z)) + 1) [] d.
Proof.
  intros Hb. unfold parseIntInterface, readInt, buf_Reset, throwSyntaxError.
  rewrite bind_Ret. intros (? & ? & [= <- <-] & H).
  rewrite bind_Ret in H. destruct H as ([] & d1 & H1 & H).
  rewrite bind_Ret in H1. destruct H1 as ([] & d2 & H2 & H1).
  apply readUntil_Ret in H2 as (pre & rest & Hpre & Hr & ->). rewrite Hb in *. go_simpl_in H1.
  destruct (checkBufferedInt pre) eqn:Echk; [|done]. inversion H1; subst d1. clear H1.
  rewrite bind_Ret in H. destruct H as (? & ? & [= <- <-] & H). cbn in H.
  rewrite bind_Ret in H. destruct H as (v1 & d3 & H3 & [= <- <-]).
  assert (exists neg s', split_sign pre = (neg, s') /\ s' <> [] /\ forallb is_digit s' = true /\
    let z := if neg then - dval s' else dval s' in
    v1 = int_value z /\ d3 = at_ rest (Offset d + Z.of_nat (length pre) + 1) pre d)
    as (neg & s' & Hsp & Hne & Hd & -> & ->).
  { destruct (parse_int 64 pre) as [n|[]] eqn:Ep; [|by inversion H3|].
    - inversion H3; subst v1 d3. pose proof Ep as Ep'.
      apply parse_int_inl in Ep as (neg & s' & Hsp & Hne & Hd & ->).
      exists neg, s'. split_and!; try done. unfold int_value.
      rewrite (parse_int_digits 64 pre neg s') in Ep' by (done || (intros ->; by inversion Hsp; subst)).
      unfold in_int64. by destruct (_ && _).
    - destruct (parse_big pre) as [i|] eqn:Eb; [|by inversion H3]. inversion H3; subst v1 d3.
      unfold parse_big in Eb. destruct (split_sign pre) as [neg s'] eqn:Hsp.
      destruct s' as [|c s']; [done|]. destruct (forallb is_digit (c :: s')) eqn:Hd; [|done].
      exists neg, (c :: s'). split_and!; try done. inversion Eb; subst i. unfold int_value.
      rewrite (parse_int_digits 64 pre neg (c :: s')) in Ep
        by (done || (intros ->; by inversion Hsp; subst)).
      unfold in_int64. by destruct (_ && _). }
  eexists _, rest. split; [done|].
  erewrite checked_int_canonical by done. done.
Qed.

Lemma parseIntInterface_ok d z rest :
  buf d = [] -> r d = format_int z ++ "e"%byte :: rest ->
  parseIntInterface d =
    Ret (int_value z) (at_ rest (Offset d + Z.of_nat (length (format_int z)) + 1) [] d).
Proof.
  intros Hb Hr. unfold parseIntInterface, readInt, buf_Reset. go_simpl.
  rewrite (readUntil_found _ (format_int z) rest) by (try done; apply not_elem_format_int; done).
  cbn. rewrite Hb. rewrite ?app_nil_l. rewrite checkBufferedInt_format_int. cbn.
  rewrite parse_int_format, parse_big_format by done. unfold int_value, in_int64.
  by destruct (_ && _).
Qed.

Lemma parseStringInterface_Ret c d s d' :
  buf d = [c] -> is_digit c = true -> parseStringInterface d = Ret s d' ->
  exists rest, c :: r d = reflectString s ++ rest /\ Z.of_nat (length s) <= getMaxStrLen d /\
    d' = at_ rest (Offset d + Z.of_nat (length (reflectString s)) - 1) [] d.
Proof.
  intros Hb Hc. unfold parseStringInterface, parseStringLength, readBytes, throwSyntaxError.
  rewrite bind_Ret. intros ((n & err) & d2 & H & Hk).
  rewrite bind_Ret in H. destruct H as (? & ? & [= <- <-] & H).
  rewrite bind_Ret in H. destruct H as ([] & d1 & H1 & H).
  apply readUntil_Ret in H1 as (pre & rest & Hpre & Hr & ->). rewrite Hb in *.
  rewrite bind_Ret in H. destruct H as (? & ? & [= <- <-] & H). unfold buf_Reset in H.
  go_simpl_in H. destruct (checkBufferedInt (c :: pre)) eqn:Echk; cbn in H; [|by inversion H; subst].
  destruct (parse_int 64 (c :: pre)) as [m|] eqn:Ep; [|done].
  inversion H; subst n err d2. clear H.
  rewrite getMaxStrLen_at in Hk. destruct (Z.ltb_spec (getMaxStrLen d) m) as [|Hlim]; [done|].
  apply parse_int_inl in Ep as (neg & s' & Hsp & Hne & Hd & Hm).
  pose proof (checked_int_canonical _ _ _ Echk Hsp Hne Hd) as Hcan. rewrite <- Hm in Hcan.
  rewrite split_sign_digit in Hsp by done. inversion Hsp; subst neg s'.
  pose proof (dval_nonneg _ Hd). rewrite bind_Ret in Hk. destruct Hk as (b & d3 & Hrb & Hk).
  go_simpl_in Hrb.
  destruct (Z.eqb_spec (Z.of_nat (length (take (Z.to_nat m) rest))) m) as [Hlen|]; [|done].
  cbn in Hrb. inversion Hrb; subst b d3. clear Hrb. cbn in Hk. inversion Hk; subst s d'. clear Hk.
  assert (reflectString (take (Z.to_nat m) rest) =
          (c :: pre) ++ ":"%byte :: take (Z.to_nat m) rest) as Hrs.
  { rewrite reflectString_eq, Hlen. f_equal. rewrite <- Hcan. unfold format_int.
    destruct (Z.ltb_spec m 0); [lia|done]. }
  exists (drop (Z.to_nat m) rest). rewrite Hrs, Hr. split_and!; [|lia|].
  - by rewrite <- app_assoc; simpl; rewrite take_drop.
  - unfold at_. cbn. rewrite length_app. simpl.
    replace (Offset d + Z.of_nat (S (length pre + S (length (take (Z.to_nat m) rest)))) - 1)
      with (Offset d + Z.of_nat (length pre) + 1 + Z.of_nat (length (take (Z.to_nat m) rest)))
      by lia.
    done.
Qed.

Lemma reflectString_head s :
  exists c t, reflectString s = c :: t /\ is_digit c = true.
Proof.
  rewrite reflectString_eq. pose proof (format_uint_all_digits (Z.of_nat (length s)) ltac:(lia)) as Hd.
  destruct (format_uint_canonical (Z.of_nat (length s))) as (Hc & _); [lia|].
  apply canonical_uint_digits in Hc as [Hne _].
  destruct (format_uint _) as [|c t]; [done|]. simpl in Hd. apply andb_true_iff in Hd as [Hd _].
  eexists _, _. done.
Qed.

Lemma parseStringInterface_ok c t d s rest :
  buf d = [c] -> reflectString s = c :: t -> r d = t ++ rest ->
  Z.of_nat (length s) <= getMaxStrLen d -> Z.of_nat (length s) <= max_int 64 ->
  parseStringInterface d = Ret s (at_ rest (Offset d + Z.of_nat (length t)) [] d).
Proof.
  intros Hb Hs Hr Hlim Hmax. rewrite reflectString_eq in Hs.
  destruct (format_uint (Z.of_nat (length s))) as [|c' pre] eqn:Ef.
  { pose proof (format_uint_canonical (Z.of_nat (length s)) ltac:(lia)) as [Hc _].
    by rewrite Ef in Hc. }
  simpl in Hs. inversion Hs; subst c' t. clear Hs.
  assert (format_int (Z.of_nat (length s)) = c :: pre) as Hfi.
  { unfold format_int. destruct (Z.ltb_spec (Z.of_nat (length s)) 0); [lia|done]. }
  assert (":"%byte ∉ pre) as Hpre.
  { pose proof (not_elem_format_int ":"%byte (Z.of_nat (length s)) eq_refl) as Hn.
    rewrite Hfi in Hn. apply not_elem_of_cons in Hn; [tauto|done]. }
  unfold parseStringInterface, parseStringLength, readBytes, buf_Reset, incOffset. go_simpl.
  rewrite (readUntil_found _ pre (s ++ rest)) by (done || by rewrite Hr, <- app_assoc).
  cbn. rewrite Hb. change ([c] ++ pre) with (c :: pre). rewrite <- Hfi, checkBufferedInt_format_int. cbn.
  rewrite parse_int_format by done. unfold min_int. unfold max_int in *.
  destruct (Z.leb_spec (- 2 ^ (64 - 1)) (Z.of_nat (length s))); [|lia].
  destruct (Z.leb_spec (Z.of_nat (length s)) (2 ^ (64 - 1) - 1)); [|lia]. cbn.
  rewrite getMaxStrLen_at. destruct (Z.ltb_spec (getMaxStrLen d) (Z.of_nat (length s))); [lia|].
  cbn. rewrite Nat2Z.id, take_app_length, drop_app_length, Z.eqb_refl. cbn. unfold at_. cbn.
  rewrite length_app. simpl.
  replace (Offset d + Z.of_nat (length pre + S (length s)))
    with (Offset d + Z.of_nat (length pre) + 1 + Z.of_nat (length s)) by lia.
  done.
Qed.

(** ** Containers *)

(** Levels of nesting still allowed. *)
Definition room (d : Decoder) : Z := getMaxDepth d - depth d.

(** The decoder has read exactly [enc] and its buffer is empty again. *)
Definition consumed (enc : bytes) (d d' : Decoder) : Prop :=
  exists rest, r d = enc ++ rest /\ d' = at_ rest (Offset d + Z.of_nat (length enc)) [] d.

Lemma consumed_app e1 e2 d1 d2 d3 :
  consumed e1 d1 d2 -> consumed e2 d2 d3 -> consumed (e1 ++ e2) d1 d3.
Proof.
  intros (r1 & H1 & ->) (r2 & H2 & ->). exists r2. simpl in H2. subst r1. split.
  - by rewrite H1, app_assoc.
  - unfold at_. cbn. by rewrite length_app, Nat2Z.inj_add, Z.add_assoc.
Qed.

Lemma consumed_buf e d d' : consumed e d d' -> buf d' = [].
Proof. by intros (? & _ & ->). Qed.

Lemma consumed_limits e d d' :
  consumed e d d' -> getMaxStrLen d' = getMaxStrLen d /\ room d' = room d.
Proof. by intros (? & _ & ->). Qed.

Lemma container_Ret {A} off (m : D A) d a d' :
  defer leaveContainer (enterContainer off;; m) d = Ret a d' <->
  0 < room d /\ exists d1, m (set_depth (depth d + 1) d) = Ret a d1 /\ d' = leaveContainer d1.
Proof.
  rewrite defer_Ret. unfold enterContainer, throwSyntaxError, room. go_simpl.
  destruct (Z.ltb_spec (getMaxDepth d) (depth d + 1)).
  - split; [by intros (? & ? & _)|]. intros (? & _). lia.
  - split; [intros (d1 & H1 & ->); split; [lia|]; eauto|].
    intros (_ & d1 & H1 & ->). eauto.
Qed.

Lemma consumed_container enc d d1 :
  consumed enc (set_depth (depth d + 1) d) d1 -> consumed enc d (leaveContainer d1).
Proof.
  intros (rest & Hr & ->). exists rest. split; [done|]. unfold leaveContainer, at_. cbn.
  unfold set_depth, set_buf, set_Offset, set_r. cbn. f_equal. lia.
Qed.

Lemma room_container d : room (set_depth (depth d + 1) d) = room d - 1.
Proof. unfold room. change (getMaxDepth (set_depth _ d)) with (getMaxDepth d). simpl. lia. Qed.

Lemma getMaxStrLen_container d : getMaxStrLen (set_depth (depth d + 1) d) = getMaxStrLen d.
Proof. done. Qed.

(** ** Dictionary keys *)

(** [ks] is strictly increasing and above the last key read. *)
Definition sorted_from (lastKey : option bytes) (ks : list bytes) : bool :=
  strictly_sorted (match lastKey with Some k => k :: ks | None => ks end).

Lemma sorted_from_cons lk k ks :
  sorted_from lk (k :: ks) =
  match lk with Some k' => negb (bytes_leb k k') | None => true end && sorted_from (Some k) ks.
Proof.
  unfold sorted_from. destruct lk as [k'|]; [|done]. cbn [strictly_sorted]. f_equal.
  destruct (bytes_leb k k') eqn:E; simpl.
  - apply bytes_leb_le in E. destruct (bytes_ltb k' k) eqn:E'; [|done].
    apply bytes_ltb_lt in E'. exfalso. apply bytes_leb_le in E. apply bytes_leb_false in E'. congruence.
  - by apply bytes_leb_false, bytes_ltb_lt in E.
Qed.

Lemma strictly_sorted_StronglySorted l :
  strictly_sorted l = true -> StronglySorted bytes_lt l.
Proof.
  intros H. apply Sorted_StronglySorted; [apply _|].
  induction l as [|x [|y l] IH]; [constructor|repeat constructor|].
  cbn [strictly_sorted] in H. apply andb_true_iff in H as [Hxy%bytes_ltb_lt H].
  constructor; [by apply IH|]. by constructor.
Qed.

(** Every key stored so far is at most the last one read. *)
Definition keys_below (lastKey : option bytes) (dict : list (bytes * Value)) : Prop :=
  match lastKey with
  | Some k => Forall (fun kv => bytes_le kv.1 k) dict
  | None => dict = []
  end.

Lemma assoc_set_above {A} key (v : A) dict :
  Forall (fun kv => bytes_lt kv.1 key) dict -> assoc_set key v dict = dict ++ [(key, v)].
Proof.
  induction 1 as [|[k x] dict Hk _ IH]; simpl in *; [done|].
  rewrite decide_False, IH; [done|]. intros ->. by apply bytes_lt_irrefl in Hk.
Qed.

Lemma keys_below_step lk dict key v :
  keys_below lk dict ->
  match lk with Some lk => bytes_leb key lk | None => false end = false ->
  assoc_set key v dict = dict ++ [(key, v)] /\ keys_below (Some key) (dict ++ [(key, v)]).
Proof.
  intros Hb Hlt. assert (Forall (fun kv => bytes_lt kv.1 key) dict) as Hall.
  { destruct lk as [lk|]; simpl in Hb; [|by subst].
    apply bytes_leb_false in Hlt. eapply Forall_impl; [done|]. simpl.
    intros kv [H1| ->]%bytes_le_lt_eq; [by etrans|done]. }
  split; [by apply assoc_set_above|]. simpl. apply Forall_app. split.
  - eapply Forall_impl; [done|]. intros kv Hkv. apply bytes_le_lt_eq. by left.
  - constructor; [|constructor]. apply bytes_le_lt_eq. by right.
Qed.

(** The encoder's view of the entries of a map. *)
Definition encode_entries (ie : Value -> bool) (m : list (bytes * Value)) : enc_result :=
  enc_concat (map encodeMapEntry (map (fun kv => (kv.1, reflectValue ie kv.2)) m)).

(** The sort leaves a map whose keys are already increasing alone. *)
Lemma reflectValue_sorted_map ie m :
  strictly_sorted (map fst m) = true ->
  reflectValue ie (VMap (Some m)) =
  enc_app (EncOk (writeString (bs "d")))
    (enc_app (encode_entries ie m) (EncOk (writeString (bs "e")))).
Proof.
  intros Hs. cbn [reflectValue]. unfold encode_entries, key_le.
  rewrite merge_sort_by_key_id; [done|].
  apply strictly_sorted_StronglySorted in Hs. clear -Hs.
  induction m as [|[k v] m IH]; [constructor|]. simpl in *.
  apply StronglySorted_cons in Hs as [Hk Hs]. constructor; [by apply IH|].
  clear -Hk. induction m as [|[k' v'] m IH]; simpl in *; [constructor|].
  inversion Hk; subst. constructor; auto.
Qed.

(** ** Decoding is sound: what is decoded encodes to the bytes read *)

Section Sound.
Variable ie : Value -> bool.

Definition sound_value (d : Decoder) (o : option Value) (d' : Decoder) : Prop :=
  match o with
  | None => consumed (bs "e") d d'
  | Some v => exists enc, reflectValue ie v = EncOk enc /\ consumed enc d d' /\
                          decodable (getMaxStrLen d) (room d) v = true
  end.

Definition sound_dict (lk : option bytes) dict (d : Decoder) m (d' : Decoder) : Prop :=
  exists new body, m = dict ++ new /\ encode_entries ie new = EncOk body /\
    consumed (body ++ bs "e") d d' /\ sorted_from lk (map fst new) = true /\
    forallb (decodable_entry (getMaxStrLen d) (room d)) new = true.

Definition sound_list (acc : list Value) (d : Decoder) l (d' : Decoder) : Prop :=
  exists new body, l = acc ++ new /\ enc_concat (map (reflectValue ie) new) = EncOk body /\
    consumed (body ++ bs "e") d d' /\
    forallb (decodable_elem (getMaxStrLen d) (room d)) new = true.

Lemma decodable_slice lim n l :
  decodable lim n (VSlice (Some l)) = (0 <? n) && forallb (decodable_elem lim (n - 1)) l.
Proof. done. Qed.

Lemma decodable_map lim n m :
  decodable lim n (VMap (Some m)) =
  (0 <? n) && strictly_sorted (map fst m) && forallb (decodable_entry lim (n - 1)) m.
Proof. done. Qed.

(** A container's encoding, once its opening byte is read. *)
Lemma sound_dict_value d d1 m body :
  0 < room d -> sorted_from None (map fst m) = true ->
  forallb (decodable_entry (getMaxStrLen d) (room d - 1)) m = true ->
  encode_entries ie m = EncOk body -> consumed (bs "d" ++ body ++ bs "e") d d1 ->
  sound_value d (Some (VMap (Some m))) d1.
Proof.
  intros Hroom Hs Hall Hb Hc. exists (bs "d" ++ body ++ bs "e"). split_and!; [|done|].
  - rewrite reflectValue_sorted_map by done. apply enc_wrap_ok. eauto.
  - rewrite decodable_map, Hall. unfold sorted_from in Hs. rewrite Hs.
    destruct (Z.ltb_spec 0 (room d)); [done|lia].
Qed.

Lemma sound_list_value d d1 l body :
  0 < room d -> forallb (decodable_elem (getMaxStrLen d) (room d - 1)) l = true ->
  enc_concat (map (reflectValue ie) l) = EncOk body ->
  consumed (bs "l" ++ body ++ bs "e") d d1 -> sound_value d (Some (VSlice (Some l))) d1.
Proof.
  intros Hroom Hall Hb Hc. exists (bs "l" ++ body ++ bs "e"). split_and!; [|done|].
  - cbn [reflectValue]. apply enc_wrap_ok. eauto.
  - rewrite decodable_slice, Hall. destruct (Z.ltb_spec 0 (room d)); [done|lia].
Qed.

Lemma consumed_ReadByte d b rest :
  buf d = [] -> r d = b :: rest -> consumed [b] d (set_Offset (Offset d + 1) (set_r rest d)).
Proof. intros Hb Hr. exists rest. split; [done|]. destruct d; simpl in *; by subst. Qed.

Lemma sound_step fuel :
  (forall d o d', buf d = [] -> parseValueInterface fuel d = Ret o d' -> sound_value d o d') ->
  (forall dict lk d m d', buf d = [] -> keys_below lk dict ->
     parseDictInterface fuel dict lk d = Ret m d' -> sound_dict lk dict d m d') ->
  (forall acc d l d', buf d = [] ->
     parseListInterface fuel acc d = Ret l d' -> sound_list acc d l d') ->
  forall d o d', buf d = [] -> parseValueInterface (S fuel) d = Ret o d' -> sound_value d o d'.
Proof.
  intros IHv IHd IHl d o d' Hb H. cbn [parseValueInterface] in H.
  rewrite bind_Ret in H. destruct H as (ob & d0 & H0 & H).
  unfold r_ReadByte in H0. destruct (r d) as [|b rest] eqn:Hr; inversion H0; subst ob d0; clear H0;
    [done|].
  do 2 (rewrite bind_Ret in H; destruct H as (? & ? & [= <- <-] & H)).
  pose proof (consumed_ReadByte d b rest Hb Hr) as Hc1. set (d1 := set_Offset _ _) in *.
  assert (d1 = at_ rest (Offset d + 1) [] d) as Hd1 by (destruct d; simpl in *; by subst).
  clearbody d1. destruct (consumed_limits _ _ _ Hc1) as [Hlim Hroom].
  pose proof (consumed_buf _ _ _ Hc1) as Hb1.
  case_decide as He; [subst b; by inversion H; subst|].
  case_decide as Hd; [subst b|].
  { rewrite container_Ret in H. destruct H as (Hpos & d2 & H & ->). rewrite Hroom in Hpos.
    rewrite bind_Ret in H. destruct H as (m & d3 & H & [= <- <-]).
    apply IHd in H as (new & body & -> & Henc & Hc & Hs & Hall); [|done..].
    apply consumed_container in Hc.
    rewrite getMaxStrLen_container, Hlim, room_container, Hroom in Hall.
    eapply sound_dict_value; eauto using consumed_app. }
  case_decide as Hl; [subst b|].
  { rewrite container_Ret in H. destruct H as (Hpos & d2 & H & ->). rewrite Hroom in Hpos.
    rewrite bind_Ret in H. destruct H as (l & d3 & H & [= <- <-]).
    apply IHl in H as (new & body & -> & Henc & Hc & Hall); [|done..].
    apply consumed_container in Hc.
    rewrite getMaxStrLen_container, Hlim, room_container, Hroom in Hall.
    eapply sound_list_value; eauto using consumed_app. }
  case_decide as Hi; [subst b|].
  { rewrite bind_Ret in H. destruct H as (v & d2 & H & [= <- <-]).
    apply parseIntInterface_Ret in H as (z & rest' & -> & Hr' & ->); [|done].
    eexists. rewrite reflectValue_int_value. split_and!; [done| |apply decodable_int_value].
    eapply (consumed_app [ "i"%byte ]); [done|]. exists rest'. rewrite Hr', <- app_assoc.
    split; [done|]. unfold at_. rewrite length_app. simpl.
    rewrite Nat2Z.inj_add, Z.add_assoc. done. }
  destruct (is_digit b) eqn:Edig; [|done].
  rewrite bind_Ret in H. destruct H as ([] & d2 & [= <-] & H). rewrite Hb1 in H.
  change ([] ++ [b]) with [b] in H.
  rewrite bind_Ret in H. destruct H as (s & d3 & H & [= <- <-]).
  apply (parseStringInterface_Ret b) in H as (rest' & Hr' & Hl' & ->); [|done..].
  exists (reflectString s). split_and!; [done| |].
  - exists rest'. subst d1. split; [by rewrite Hr, <- Hr'|]. unfold at_. cbn.
    replace (Offset d + 1 + Z.of_nat (length (reflectString s)) - 1)
      with (Offset d + Z.of_nat (length (reflectString s))) by lia. done.
  - simpl. apply Z.leb_le. by subst d1.
Qed.

Lemma decode_sound fuel :
  (forall d o d', buf d = [] -> parseValueInterface fuel d = Ret o d' -> sound_value d o d') /\
  (forall dict lk d m d', buf d = [] -> keys_below lk dict ->
     parseDictInterface fuel dict lk d = Ret m d' -> sound_dict lk dict d m d') /\
  (forall acc d l d', buf d = [] ->
     parseListInterface fuel acc d = Ret l d' -> sound_list acc d l d').
Proof.
  induction fuel as [|fuel (IHv & IHd & IHl)]; [done|].
  split_and!; [by apply sound_step| |].
  - intros dict lk d m d' Hb Hk H. cbn [parseDictInterface] in H.
    rewrite bind_Ret in H. destruct H as (? & ? & [= <- <-] & H).
    rewrite bind_Ret in H. destruct H as (keyi & d1 & H1 & H).
    apply IHv in H1; [|done]. destruct keyi as [key|].
    2: { inversion H; subst. exists [], []. split_and!; try done; [by rewrite app_nil_r|].
         destruct lk; done. }
    destruct H1 as (kenc & Hkenc & Hc1 & Hkd).
    destruct key as [| | | |key| | | | | | | | | | |]; try done.
    destruct (match lk with Some _ => _ | None => _ end) eqn:Hlt; [done|].
    rewrite bind_Ret in H. destruct H as (? & ? & [= <- <-] & H).
    rewrite bind_Ret in H. destruct H as (valuei & d2 & H2 & H).
    apply IHv in H2; [|by eapply consumed_buf]. destruct valuei as [v|]; [|done].
    destruct H2 as (venc & Hvenc & Hc2 & Hvd).
    destruct (keys_below_step lk dict key (VIface (Some v)) Hk Hlt) as [Hset Hk'].
    rewrite Hset in H. apply IHd in H as (new & body & -> & Henc & Hc3 & Hs & Hall);
      [|by eapply consumed_buf|done].
    destruct (consumed_limits _ _ _ Hc1) as [Hl1 Hr1], (consumed_limits _ _ _ Hc2) as [Hl2 Hr2].
    rewrite Hl2, Hl1, Hr2, Hr1 in Hall. rewrite Hl1, Hr1 in Hvd.
    inversion Hkenc; subst kenc.
    exists ((key, VIface (Some v)) :: new), ((reflectString key ++ venc) ++ body). split_and!.
    + by rewrite <- app_assoc.
    + change (encode_entries ie ((key, VIface (Some v)) :: new)) with
        (enc_app (encodeMapEntry (key, reflectValue ie v)) (encode_entries ie new)).
      unfold encodeMapEntry. simpl. by rewrite Hvenc, Henc.
    + rewrite <- !app_assoc. eauto using consumed_app.
    + cbn [map fst]. rewrite sorted_from_cons, Hs, andb_true_r. destruct lk; [|done].
      by rewrite Hlt.
    + cbn [forallb]. rewrite Hall, andb_true_r. unfold decodable_entry. simpl in *.
      by rewrite Hkd, Hvd.
  - intros acc d l d' Hb H. cbn [parseListInterface] in H.
    rewrite bind_Ret in H. destruct H as (valuei & d1 & H1 & H).
    apply IHv in H1; [|done]. destruct valuei as [v|].
    2: { inversion H; subst. exists [], []. split_and!; try done. by rewrite app_nil_r. }
    destruct H1 as (venc & Hvenc & Hc1 & Hvd).
    apply IHl in H as (new & body & -> & Henc & Hc3 & Hall); [|by eapply consumed_buf].
    destruct (consumed_limits _ _ _ Hc1) as [Hl1 Hr1]. rewrite Hl1, Hr1 in Hall.
    exists (VIface (Some v) :: new), (venc ++ body). split_and!.
    + by rewrite <- app_assoc.
    + simpl. by rewrite Hvenc, Henc.
    + rewrite <- app_assoc. eauto using consumed_app.
    + cbn [forallb]. by rewrite Hall, andb_true_r.
Qed.
End Sound.

(** ** Decoding is complete: the encoding of a decodable value decodes to it *)

Section Complete.
Variable ie : Value -> bool.

(** The state after [enc], with [rest] left. *)
Definition past (enc rest : bytes) (d : Decoder) : Decoder :=
  at_ rest (Offset d + Z.of_nat (length enc)) [] d.

Lemma past_app e1 e2 rest rest' d : past e2 rest' (past e1 rest d) = past (e1 ++ e2) rest' d.
Proof. unfold past, at_. cbn. by rewrite length_app, Nat2Z.inj_add, Z.add_assoc. Qed.

Lemma past_cons b e rest rest' d : past (b :: e) rest d = past e rest (past [b] rest' d).
Proof. by rewrite past_app. Qed.

Lemma at_past d0 enc rest d off :
  off = Offset d + Z.of_nat (length enc) -> (exists e r' b, d0 = set_buf b (past e r' d)) ->
  at_ rest off [] d0 = past enc rest d.
Proof. by intros -> (? & ? & ? & ->). Qed.

Lemma container_past {A} off (m : D A) d a enc rest :
  0 < room d ->
  m (set_depth (depth d + 1) d) = Ret a (past enc rest (set_depth (depth d + 1) d)) ->
  defer leaveContainer (enterContainer off;; m) d = Ret a (past enc rest d).
Proof.
  intros Hroom Hm. apply container_Ret. split; [done|]. eexists. split; [done|].
  unfold past, at_, leaveContainer, set_depth, set_buf, set_Offset, set_r. cbn. f_equal. lia.
Qed.

Lemma decodable_enc lim n v enc :
  decodable lim n v = true -> reflectValue ie v = EncOk enc ->
  match v with
  | VInt z => enc = bs "i" ++ format_int z ++ bs "e" /\ v = int_value z
  | VPtr (VBigInt z) => enc = bs "i" ++ format_int z ++ bs "e" /\ v = int_value z
  | VString s => enc = reflectString s /\ Z.of_nat (length s) <= lim
  | VSlice (Some l) => exists body, enc = bs "l" ++ body ++ bs "e" /\ 0 < n /\
      enc_concat (map (reflectValue ie) l) = EncOk body /\
      forallb (decodable_elem lim (n - 1)) l = true
  | VMap (Some m) => exists body, enc = bs "d" ++ body ++ bs "e" /\ 0 < n /\
      encode_entries ie m = EncOk body /\ sorted_from None (map fst m) = true /\
      forallb (decodable_entry lim (n - 1)) m = true
  | _ => False
  end.
Proof.
  intros Hd He. destruct v; try done.
  - simpl in Hd. assert (VInt n0 = int_value n0) as Hv by (unfold int_value; by rewrite Hd).
    rewrite Hv, reflectValue_int_value in He. split; [by inversion He|done].
  - simpl in He. inversion He; subst. split; [done|]. by apply Z.leb_le in Hd.
  - destruct l as [l|]; [|done]. rewrite decodable_slice in Hd.
    apply andb_true_iff in Hd as [Hn%Z.ltb_lt Hall]. cbn [reflectValue] in He.
    apply enc_wrap_ok in He as (body & Hb & ->). eauto 10.
  - destruct m as [m|]; [|done]. rewrite decodable_map in Hd.
    apply andb_true_iff in Hd as [[Hn%Z.ltb_lt Hs]%andb_true_iff Hall].
    rewrite reflectValue_sorted_map in He by done.
    apply enc_wrap_ok in He as (body & Hb & ->). eauto 10.
  - destruct v; try done. simpl in Hd. apply negb_true_iff in Hd.
    assert (VPtr (VBigInt n0) = int_value n0) as Hv by (unfold int_value; by rewrite Hd).
    rewrite Hv, reflectValue_int_value in He. split; [by inversion He|done].
Qed.

Lemma decodable_enc_nonempty lim n v enc :
  decodable lim n v = true -> reflectValue ie v = EncOk enc -> (1 <= length enc)%nat.
Proof.
  intros Hd He. pose proof (decodable_enc _ _ _ _ Hd He) as H.
  destruct v as [| | | |s| |[l|]| |[m|]| | | |[]| | |]; try done.
  - destruct H as [-> _]. simpl. lia.
  - destruct H as [-> _]. destruct (reflectString_head s) as (c & t & -> & _). simpl. lia.
  - destruct H as (body & -> & _). simpl. lia.
  - destruct H as (body & -> & _). simpl. lia.
  - destruct H as [-> _]. simpl. lia.
Qed.

(** The first byte of an encoding selects the branch of [parseValueInterface]. *)
Lemma parse_first fuel d b rest :
  buf d = [] -> r d = b :: rest ->
  parseValueInterface (S fuel) d =
  let d1 := past [b] rest d in
  (if decide (b = "e"%byte) then mret None
   else if decide (b = "d"%byte) then
     defer leaveContainer
       (enterContainer (Offset d1 - 1);;
        dict ← parseDictInterface fuel [] None; mret (Some (VMap (Some dict))))
   else if decide (b = "l"%byte) then
     defer leaveContainer
       (enterContainer (Offset d1 - 1);;
        list ← parseListInterface fuel []; mret (Some (VSlice (Some list))))
   else if decide (b = "i"%byte) then v ← parseIntInterface; mret (Some v)
   else if is_digit b then
     buf_Write [b];; s ← parseStringInterface; mret (Some (VString s))
   else throwSyntaxError (Offset d1 - 1) (WUnknownValueType b)) d1.
Proof.
  intros Hb Hr. cbn [parseValueInterface].
  unfold mbind at 1, go_bind at 1. unfold r_ReadByte. rewrite Hr.
  erewrite bind_step by done. erewrite bind_step by done.
  assert (set_Offset (Offset (set_r rest d) + 1) (set_r rest d) = past [b] rest d) as ->; [|done].
  destruct d; simpl in *; by subst.
Qed.

Lemma digit_branch b : is_digit b = true ->
  b <> "e"%byte /\ b <> "d"%byte /\ b <> "l"%byte /\ b <> "i"%byte.
Proof. intros H. split_and!; intros ->; done. Qed.

Definition complete_value fuel : Prop := forall v d enc rest,
  buf d = [] -> getMaxStrLen d <= max_int 64 ->
  decodable (getMaxStrLen d) (room d) v = true -> reflectValue ie v = EncOk enc ->
  r d = enc ++ rest -> (2 * length enc + 1 <= fuel)%nat ->
  parseValueInterface fuel d = Ret (Some v) (past enc rest d).

Definition complete_dict fuel : Prop := forall new lk dict d body rest,
  buf d = [] -> getMaxStrLen d <= max_int 64 -> keys_below lk dict ->
  sorted_from lk (map fst new) = true ->
  forallb (decodable_entry (getMaxStrLen d) (room d)) new = true ->
  encode_entries ie new = EncOk body -> r d = body ++ bs "e" ++ rest ->
  (2 * length body + 2 < fuel)%nat ->
  parseDictInterface fuel dict lk d = Ret (dict ++ new) (past (body ++ bs "e") rest d).

Definition complete_list fuel : Prop := forall new acc d body rest,
  buf d = [] -> getMaxStrLen d <= max_int 64 ->
  forallb (decodable_elem (getMaxStrLen d) (room d)) new = true ->
  enc_concat (map (reflectValue ie) new) = EncOk body -> r d = body ++ bs "e" ++ rest ->
  (2 * length body + 2 < fuel)%nat ->
  parseListInterface fuel acc d = Ret (acc ++ new) (past (body ++ bs "e") rest d).

Lemma parse_end fuel d rest :
  buf d = [] -> r d = bs "e" ++ rest -> (0 < fuel)%nat ->
  parseValueInterface fuel d = Ret None (past (bs "e") rest d).
Proof. intros Hb Hr Hf. destruct fuel; [lia|]. by rewrite (parse_first _ _ "e"%byte rest). Qed.

Lemma complete_value_step fuel :
  complete_dict fuel -> complete_list fuel -> complete_value (S fuel).
Proof.
  intros IHd IHl v d enc rest Hb Hmax Hd He Hr Hf.
  pose proof (decodable_enc _ _ _ _ Hd He) as H.
  destruct v as [|z| | |s| |[l|]| |[m|]| | | |v| | |]; try done.
  - destruct H as [-> Hv]. rewrite (parse_first _ _ "i"%byte (format_int z ++ bs "e" ++ rest))
      by (try done; rewrite Hr, <- !app_assoc; done).
    simpl. erewrite bind_step by (by apply (parseIntInterface_ok _ z rest)).
    rewrite <- Hv. unfold mret, go_ret. f_equal. apply at_past; [|by eexists _, _, _].
    simpl. rewrite ?length_app. simpl. lia.
  - destruct H as [-> Hl]. destruct (reflectString_head s) as (c & t & Hs & Hc).
    rewrite Hs in *. destruct (digit_branch c Hc) as (H1 & H2 & H3 & H4).
    rewrite (parse_first _ _ c (t ++ rest)) by (try done; by rewrite Hr).
    cbv zeta. rewrite !decide_False, Hc by done.
    erewrite bind_step by done.
    erewrite bind_step by (eapply (parseStringInterface_ok c t _ s rest); try done; simpl;
      change (getMaxStrLen (set_buf _ (past _ _ d))) with (getMaxStrLen d); lia).
    unfold mret, go_ret. f_equal. apply at_past; [simpl; lia|by eexists _, _, _].
  - destruct H as (body & -> & Hroom & Hbody & Hall).
    rewrite (parse_first _ _ "l"%byte (body ++ bs "e" ++ rest))
      by (try done; rewrite Hr, <- !app_assoc; done).
    simpl. rewrite (past_cons "l"%byte _ rest (body ++ bs "e" ++ rest)). apply container_past; [done|].
    erewrite bind_step; [reflexivity|]. simpl in Hf. rewrite length_app in Hf. simpl in Hf.
    apply (IHl l []); try done; [by rewrite room_container|lia].
  - destruct H as (body & -> & Hroom & Hbody & Hs & Hall).
    rewrite (parse_first _ _ "d"%byte (body ++ bs "e" ++ rest))
      by (try done; rewrite Hr, <- !app_assoc; done).
    simpl. rewrite (past_cons "d"%byte _ rest (body ++ bs "e" ++ rest)). apply container_past; [done|].
    erewrite bind_step; [reflexivity|]. simpl in Hf. rewrite length_app in Hf. simpl in Hf.
    apply (IHd m None []); try done; [by rewrite room_container|lia].
  - destruct v as [| | |z| | | | | | | | | | | |]; try done.
    destruct H as [-> Hv]. rewrite (parse_first _ _ "i"%byte (format_int z ++ bs "e" ++ rest))
      by (try done; rewrite Hr, <- !app_assoc; done).
    simpl. erewrite bind_step by (by apply (parseIntInterface_ok _ z rest)).
    rewrite <- Hv. unfold mret, go_ret. f_equal. apply at_past; [|by eexists _, _, _].
    simpl. rewrite ?length_app. simpl. lia.
Qed.

Lemma complete_list_step fuel :
  complete_value fuel -> complete_list fuel -> complete_list (S fuel).
Proof.
  intros IHv IHl new acc d body rest Hb Hmax Hall Hbody Hr Hf.
  cbn [parseListInterface]. destruct new as [|x new].
  { simpl in Hbody. inversion Hbody; subst. simpl in Hf, Hr.
    erewrite bind_step by (apply (parse_end _ _ rest); (done || lia)).
    by rewrite app_nil_r. }
  cbn [forallb map] in Hall, Hbody. apply andb_true_iff in Hall as [Hx Hall].
  destruct x as [| | | | | | | | | | |[v|]| | | |]; try done.
  rewrite enc_concat_cons in Hbody. apply enc_app_ok in Hbody as (venc & body' & Hv & Hbody & ->).
  simpl in Hx, Hv. pose proof (decodable_enc_nonempty _ _ _ _ Hx Hv).
  rewrite length_app in Hf. rewrite <- app_assoc in Hr.
  erewrite bind_step by (eapply (IHv v d venc); (done || lia)). cbv beta iota.
  rewrite (IHl new _ _ body' rest) by (done || lia).
  rewrite past_app, <- !app_assoc. done.
Qed.

Lemma complete_dict_step fuel :
  complete_value fuel -> complete_dict fuel -> complete_dict (S fuel).
Proof.
  intros IHv IHd new lk dict d body rest Hb Hmax Hk Hs Hall Hbody Hr Hf.
  cbn [parseDictInterface]. erewrite bind_step by done. destruct new as [|[key x] new].
  { unfold encode_entries in Hbody. simpl in Hbody. inversion Hbody; subst. simpl in Hf, Hr.
    erewrite bind_step by (apply (parse_end _ _ rest); (done || lia)).
    by rewrite app_nil_r. }
  cbn [forallb map fst] in Hall, Hs. apply andb_true_iff in Hall as [Hx Hall].
  unfold decodable_entry in Hx. cbn [fst snd] in Hx. apply andb_true_iff in Hx as [Hkey Hx].
  rewrite sorted_from_cons in Hs. apply andb_true_iff in Hs as [Hlt Hs].
  destruct x as [| | | | | | | | | | |[v|]| | | |]; try done. simpl in Hx.
  change (encode_entries ie ((key, VIface (Some v)) :: new)) with
    (enc_app (encodeMapEntry (key, reflectValue ie v)) (encode_entries ie new)) in Hbody.
  apply enc_app_ok in Hbody as (e1 & body' & He1 & Hbody & ->).
  unfold encodeMapEntry in He1. apply enc_app_ok in He1 as (kenc & venc & [= <-] & Hv & ->). simpl in Hv.
  pose proof (decodable_enc_nonempty _ _ _ _ Hx Hv).
  rewrite !length_app in Hf. rewrite <- !app_assoc in Hr. cbn [fst] in *.
  erewrite bind_step by (eapply (IHv (VString key) d (reflectString key)); (done || lia)).
  cbv beta iota. assert (match lk with Some l => bytes_leb key l | None => false end = false) as Hlt'.
  { destruct lk; [by apply negb_true_iff|done]. }
  rewrite Hlt'. erewrite bind_step by done.
  erewrite bind_step by (eapply (IHv v _ venc); (done || lia)). cbv beta iota.
  destruct (keys_below_step lk dict key (VIface (Some v)) Hk Hlt') as [-> Hk'].
  rewrite (IHd new _ _ _ body' rest) by (done || lia).
  rewrite !past_app, <- !app_assoc. done.
Qed.

Lemma decode_complete fuel : complete_value fuel /\ complete_dict fuel /\ complete_list fuel.
Proof.
  induction fuel as [|fuel (IHv & IHd & IHl)].
  { split_and!; unfold complete_value, complete_dict, complete_list; intros; lia. }
  auto using complete_value_step, complete_dict_step, complete_list_step.
Qed.
End Complete.

(** ** The codec as a whole *)

(** C8: [Unmarshal] into an [interface{}] succeeds exactly on the encodings of decodable values
    (depth within [DefaultMaxDepth], strings within [DefaultDecodeMaxStrLen], map keys in
    increasing order), and returns the value whose [Marshal] is the input: bencode is canonical,
    no two inputs decode to the same value, and encoding inverts decoding in both directions. *)
Theorem unmarshal_iff_marshal (ie : Value -> bool) (data : bytes) (v : Value) :
  Unmarshal_interface data = Some (Some v, None) <->
  decodable DefaultDecodeMaxStrLen DefaultMaxDepth v = true /\ Marshal ie (Some v) = EncOk data.
Proof.
  unfold Unmarshal_interface, Decode_interface, parseValue_interface, Marshal. split.
  - intros H. destruct ((_ ← parseValueInterface _; _) (newDecoder data)) as [v' d'| |] eqn:E;
      [|done..].
    destruct (Nat.eqb_spec (length (r d')) 0) as [Hl|]; [|done]. inversion H; subst v'. clear H.
    rewrite bind_Ret in E. destruct E as (o & d1 & E & H1).
    destruct o as [v'|]; [|done]. inversion H1; subst v' d1.
    eapply (decode_sound ie) in E as (enc & Henc & (rest & Hr & ->) & Hd); [|done].
    apply nil_length_inv in Hl. simpl in Hl, Hr. subst rest. rewrite app_nil_r in Hr. subst enc.
    done.
  - intros [Hd Henc].
    erewrite bind_step by (eapply (decode_complete ie (parseFuel (newDecoder data)));
      [done|vm_compute; congruence|exact Hd|exact Henc|by rewrite app_nil_r|
       unfold parseFuel; simpl; lia]).
    done.
Qed.

Lemma unmarshal_iff_marshal_witness :
  Unmarshal_interface (bs "d1:ali-3e2:xyee") =
    Some (Some (VMap (Some [(bs "a", VIface (Some (VSlice (Some
      [VIface (Some (VInt (-3))); VIface (Some (VString (bs "xy")))]))))])), None).
Proof. apply (unmarshal_iff_marshal (fun _ => false)). split; vm_compute; reflexivity. Defined.

(** C16: decoding into an [interface{}] returns or fails on every input and from every decoder
    state, and whatever the outcome (a value, an error returned or an error thrown at any
    depth) the nesting counter is back at its previous value. *)
Theorem decode_total_balanced (d : Decoder) :
  match Decode_interface d with
  | Ret _ d' | Panic _ d' =>
      depth d' = depth d /\ MaxDepth d' = MaxDepth d /\ MaxStrLen d' = MaxStrLen d
  | NoFuel => False
  end.
Proof.
  unfold Decode_interface, parseValue_interface.
  destruct (parse_no_fuel (parseFuel d)) as [Hfuel _]. specialize (Hfuel d).
  destruct (balanced_parse (parseFuel d)) as [Hbal _]. specialize (Hbal d).
  unfold consumes in Hfuel. unfold mbind, go_bind.
  destruct (parseValueInterface (parseFuel d) d) as [[v|] d'|e d'|]; [exact Hbal..|].
  apply Hfuel. unfold parseFuel. lia.
Qed.

(** ** Map iteration order *)

(** Go values that differ only in the order in which maps are iterated. *)
Inductive same_value : Value -> Value -> Prop :=
| same_refl v : same_value v v
| same_slice l l' : Forall2 same_value l l' -> same_value (VSlice (Some l)) (VSlice (Some l'))
| same_iface v v' : same_value v v' -> same_value (VIface (Some v)) (VIface (Some v'))
| same_ptr v v' : same_value v v' -> same_value (VPtr v) (VPtr v')
| same_map m m1 m2 :
    NoDup (map fst m) ->
    Forall2 (fun kv kv' => kv.1 = kv'.1 /\ same_value kv.2 kv'.2) m m1 -> Permutation m1 m2 ->
    same_value (VMap (Some m)) (VMap (Some m2)).

Lemma same_value_encoding ie v v' : same_value v v' -> reflectValue ie v = reflectValue ie v'.
Proof.
  revert v v'. fix IH 3. intros v v' [v0|l l' Hl|v0 v0' Hv|v0 v0' Hv|m m1 m2 Hnd Hm Hp].
  - done.
  - cbn [reflectValue]. enough (map (reflectValue ie) l = map (reflectValue ie) l') as -> by done.
    induction Hl as [|x x' l l' Hx Hl IHl]; simpl; [done|]. rewrite (IH _ _ Hx), IHl. done.
  - cbn [reflectValue]. by apply IH.
  - cbn [reflectValue]. by apply IH.
  - cbn [reflectValue]. clear -IH Hnd Hm Hp.
    set (f := fun kv : bytes * Value => (kv.1, reflectValue ie kv.2)).
    assert (map f m = map f m1) as ->.
    { clear Hnd Hp. induction Hm as [|x x' m m1 [Hk Hx] Hm IHm]; simpl; [done|].
      unfold f at 1 3. rewrite Hk, (IH _ _ Hx), IHm. done. }
    assert (map fst m = map fst m1) as Hfst.
    { clear Hnd Hp IH. induction Hm as [|x x' m m1 [Hk Hx] Hm IHm]; simpl; congruence. }
    rewrite Hfst in Hnd. unfold key_le. rewrite (merge_sort_by_key_Permutation fst (map f m1) (map f m2)).
    + done.
    + rewrite <- list_fmap_compose. exact Hnd.
    + by apply Permutation_map.
Qed.

#[export] Instance reflectValue_proper ie : Proper (same_value ==> eq) (reflectValue ie).
Proof. intros v v'. apply same_value_encoding. Qed.

(** The encoding does not depend on the order in which Go iterates maps, at any depth of
    slices, interfaces, pointers and maps. *)
Theorem marshal_map_order (ie : Value -> bool) (v v' : Value) :
  same_value v v' -> Marshal ie (Some v) = Marshal ie (Some v').
Proof. intros H. simpl. by rewrite H. Qed.

Lemma marshal_map_order_witness :
  Marshal (fun _ => false) (Some (VMap (Some [(bs "b", VInt 1); (bs "a", VInt 2)]))) =
  Marshal (fun _ => false) (Some (VMap (Some [(bs "a", VInt 2); (bs "b", VInt 1)]))).
Proof.
  apply marshal_map_order. eapply same_map.
  - apply (bool_decide_unpack _). vm_compute. exact I.
  - repeat (constructor; [split; [reflexivity|apply same_refl]|]). constructor.
  - apply perm_swap.
Defined.
