(* ===== verification/BencodeRaw.v ===== *)
(** * Raw bencode values ([readOneValue])

    [readOneValue] skips one value and leaves its bytes in the decoder's buffer for an
    [Unmarshaler].  It captures exactly what it reads, and on everything the decoder accepts it
    captures the encoding of the decoded value. *)

From S2P Require Import Prelude Strconv Bencode BencodeDecode BencodeTheory BencodeRoundtrip.
Local Open Scope Z_scope.

(** The decoder has read [raw] and appended it to its buffer. *)
Definition captured (raw : bytes) (d d' : Decoder) : Prop :=
  exists rest, r d = raw ++ rest /\
    d' = at_ rest (Offset d + Z.of_nat (length raw)) (buf d ++ raw) d.

Lemma captured_nil d : captured [] d d.
Proof.
  exists (r d). split; [done|]. rewrite app_nil_r, Z.add_0_r. by destruct d.
Qed.

Lemma captured_app e1 e2 d1 d2 d3 :
  captured e1 d1 d2 -> captured e2 d2 d3 -> captured (e1 ++ e2) d1 d3.
Proof.
  intros (r1 & H1 & ->) (r2 & H2 & ->). exists r2. simpl in H2. subst r1. split.
  - by rewrite H1, app_assoc.
  - unfold at_. cbn. by rewrite length_app, Nat2Z.inj_add, Z.add_assoc, app_assoc.
Qed.

Lemma captured_container raw d d1 :
  captured raw (set_depth (depth d + 1) d) d1 -> captured raw d (leaveContainer d1).
Proof.
  intros (rest & Hr & ->). exists rest. split; [done|].
  unfold leaveContainer, at_, set_depth, set_buf, set_Offset, set_r. cbn. f_equal. lia.
Qed.

Lemma captured_buf_first b rest d :
  r d = b :: rest ->
  captured [b] d (set_buf (buf d ++ [b]) (set_Offset (Offset d + 1) (set_r rest d))).
Proof. intros Hr. by exists rest. Qed.

Lemma captured_readUntil sep d d' :
  (readUntil sep;; buf_Write [sep]) d = Ret tt d' -> exists raw, captured raw d d'.
Proof.
  rewrite bind_Ret. intros ([] & d1 & H1 & [= <-]).
  apply readUntil_Ret in H1 as (pre & rest & _ & Hr & ->).
  exists (pre ++ [sep]), rest. split; [by rewrite <- app_assoc|].
  unfold at_, set_buf, set_Offset, set_r. cbn. rewrite length_app, app_assoc. simpl. f_equal. lia.
Qed.

Lemma captured_copyN n d d' :
  copyN n d = Ret tt d' -> captured (take (Z.to_nat n) (r d)) d d'.
Proof.
  unfold copyN, buf_Write, incOffset, throwSyntaxError. go_simpl.
  destruct (_ =? n); [|done]. intros [= <-].
  exists (drop (Z.to_nat n) (r d)). by rewrite take_drop.
Qed.

Lemma readUntil_depth sep d d' : readUntil sep d = Ret tt d' ->
  getMaxStrLen d' = getMaxStrLen d.
Proof. by intros (? & ? & _ & _ & ->)%readUntil_Ret. Qed.

(** The branches of one value, after its first byte was captured. *)
Lemma captured_string start d d' :
  (readUntil ":"%byte;;
   d1 ← get;
   match parse_int 64 (drop start (buf d1)) with
   | inr e => throwSyntaxError (Offset d1 - 1) (WNum e)
   | inl length_ =>
       buf_Write (bs ":");;
       if getMaxStrLen d1 <? length_
       then throwSyntaxError (Offset d1 - 1) (WStrLenLimit length_ (getMaxStrLen d1))
       else copyN length_
   end) d = Ret tt d' -> exists raw, captured raw d d'.
Proof.
  rewrite bind_Ret. intros ([] & d1 & H1 & H).
  rewrite bind_Ret in H. destruct H as (? & ? & [= <- <-] & H).
  destruct (parse_int 64 _) as [n|]; [|done].
  rewrite bind_Ret in H. destruct H as ([] & d2 & H2 & H).
  destruct (getMaxStrLen d1 <? n); [done|]. apply captured_copyN in H.
  destruct (captured_readUntil ":"%byte d d2) as [raw Hraw].
  { rewrite bind_Ret. eauto. }
  eauto using captured_app.
Qed.

Lemma read_captures fuel :
  (forall d b d', readOneValue fuel d = Ret b d' ->
     if b then exists raw, raw <> [] /\ captured raw d d'
     else d' = d /\ exists rest, r d = "e"%byte :: rest) /\
  (forall d d', readValues fuel d = Ret tt d' ->
     exists raw, captured raw d d' /\ exists rest, r d' = "e"%byte :: rest).
Proof.
  induction fuel as [|fuel [IH1 IH2]]; [done|]. split.
  - intros d b d' H. cbn [readOneValue] in H. rewrite bind_Ret in H.
    destruct H as (ob & d0 & H0 & H). unfold r_ReadByte in H0.
    destruct (r d) as [|c rest] eqn:Hr; inversion H0; subst ob d0; clear H0; [done|].
    case_decide as He.
    { subst c. unfold r_UnreadByte in H. go_simpl_in H. inversion H; subst b d'.
      split; [|eauto]. destruct d; simpl in *; by subst. }
    do 3 (rewrite bind_Ret in H; destruct H as (? & ? & [= <- <-] & H)).
    pose proof (captured_buf_first c rest d Hr) as Hc1. set (d1 := set_buf _ _) in *.
    clearbody d1.
    rewrite bind_Ret in H. destruct H as ([] & d2 & H & [= <- <-]).
    enough (exists raw, captured raw d1 d2) as [raw Hraw].
    { exists ([c] ++ raw). split; [done|]. eauto using captured_app. }
    case_decide as Hdl.
    { rewrite container_Ret in H. destruct H as (_ & d3 & H & ->).
      rewrite bind_Ret in H. destruct H as ([] & d4 & H4 & H).
      apply IH2 in H4 as (raw & Hraw & rest' & Hr').
      rewrite bind_Ret in H. destruct H as (c' & d5 & H5 & [= <-]).
      unfold readByte, r_ReadByte, incOffset in H5. go_simpl_in H5. rewrite Hr' in H5.
      cbn in H5. inversion H5; subst c' d5. exists (raw ++ [ "e"%byte ]).
      apply captured_container. eapply captured_app; [done|]. by exists rest'. }
    case_decide; [exact (captured_readUntil "e"%byte _ _ H)|].
    destruct (is_digit c); [|done]. by eapply captured_string.
  - intros d d' H. cbn [readValues] in H. rewrite bind_Ret in H.
    destruct H as ([|] & d1 & H1 & H).
    + apply IH1 in H1 as (raw1 & _ & Hc1). apply IH2 in H as (raw2 & Hc2 & He).
      eauto using captured_app.
    + inversion H; subst d1. apply IH1 in H1 as (-> & He). exists []. eauto using captured_nil.
Qed.

(** ** Agreement with the decoder *)

(** The state after capturing [enc], with [rest] left. *)
Definition grab (enc rest : bytes) (d : Decoder) : Decoder :=
  at_ rest (Offset d + Z.of_nat (length enc)) (buf d ++ enc) d.

Lemma grab_app e1 e2 rest rest' d : grab e2 rest' (grab e1 rest d) = grab (e1 ++ e2) rest' d.
Proof. unfold grab, at_. cbn. by rewrite length_app, Nat2Z.inj_add, Z.add_assoc, app_assoc. Qed.

Lemma container_grab {A} off (m : D A) d a enc rest :
  0 < room d ->
  m (set_depth (depth d + 1) d) = Ret a (grab enc rest (set_depth (depth d + 1) d)) ->
  defer leaveContainer (enterContainer off;; m) d = Ret a (grab enc rest d).
Proof.
  intros Hroom Hm. apply container_Ret. split; [done|]. eexists. split; [done|].
  unfold grab, at_, leaveContainer, set_depth, set_buf, set_Offset, set_r. cbn. f_equal. lia.
Qed.

(** One more byte captured in the middle of a computation. *)
Lemma read_first fuel d b rest :
  r d = b :: rest -> b <> "e"%byte ->
  readOneValue (S fuel) d =
  let d1 := grab [b] rest d in
  ((if decide (b = "d"%byte \/ b = "l"%byte) then
      defer leaveContainer
        (enterContainer (Offset d1 - 1);; readValues fuel;; c ← readByte; buf_Write [c])
    else if decide (b = "i"%byte) then readUntil "e"%byte;; buf_Write (bs "e")
    else if is_digit b then
      let start := (length (buf d1) - 1)%nat in
      readUntil ":"%byte;;
      d2 ← get;
      match parse_int 64 (drop start (buf d2)) with
      | inr e => throwSyntaxError (Offset d2 - 1) (WNum e)
      | inl length_ =>
          buf_Write (bs ":");;
          if getMaxStrLen d2 <? length_
          then throwSyntaxError (Offset d2 - 1) (WStrLenLimit length_ (getMaxStrLen d2))
          else copyN length_
      end
    else throwSyntaxError (Offset d1 - 1) (WUnknownValueType b));; mret true) d1.
Proof.
  intros Hr He. cbn [readOneValue]. unfold mbind at 1, go_bind at 1. unfold r_ReadByte.
  rewrite Hr, decide_False by done. do 3 (erewrite bind_step by done). done.
Qed.

Lemma grab_readUntil sep pre rest d :
  sep ∉ pre -> r d = pre ++ sep :: rest ->
  (readUntil sep;; buf_Write [sep]) d = Ret tt (grab (pre ++ [sep]) rest d).
Proof.
  intros Hp Hr. erewrite bind_step by (by apply readUntil_found). unfold buf_Write, modify.
  f_equal. unfold grab, at_, set_buf, set_Offset, set_r. cbn.
  rewrite length_app, app_assoc. simpl. f_equal. lia.
Qed.

Lemma grab_string s c t d rest :
  reflectString s = c :: t -> r d = c :: t ++ rest -> Z.of_nat (length s) <= getMaxStrLen d ->
  Z.of_nat (length s) <= max_int 64 ->
  let d1 := grab [c] (t ++ rest) d in
  (readUntil ":"%byte;;
   d2 ← get;
   match parse_int 64 (drop (length (buf d1) - 1) (buf d2)) with
   | inr e => throwSyntaxError (Offset d2 - 1) (WNum e)
   | inl length_ =>
       buf_Write (bs ":");;
       if getMaxStrLen d2 <? length_
       then throwSyntaxError (Offset d2 - 1) (WStrLenLimit length_ (getMaxStrLen d2))
       else copyN length_
   end) d1 = Ret tt (grab t rest d1).
Proof.
  intros Hs Hr Hlim Hmax d1. rewrite reflectString_eq in Hs.
  destruct (format_uint (Z.of_nat (length s))) as [|c' pre] eqn:Ef.
  { pose proof (format_uint_canonical (Z.of_nat (length s)) ltac:(lia)) as [Hc _].
    by rewrite Ef in Hc. }
  simpl in Hs. inversion Hs; subst c' t. clear Hs.
  assert (format_int (Z.of_nat (length s)) = c :: pre) as Hfi.
  { unfold format_int. destruct (Z.ltb_spec (Z.of_nat (length s)) 0); [lia|done]. }
  assert (":"%byte ∉ pre) as Hpre.
  { pose proof (not_elem_format_int ":"%byte (Z.of_nat (length s)) eq_refl) as Hn.
    rewrite Hfi in Hn. apply not_elem_of_cons in Hn; [tauto|done]. }
  erewrite bind_step by (apply (readUntil_found _ pre (s ++ rest)); [done|];
    simpl; by rewrite <- app_assoc).
  erewrite bind_step by done.
  assert (drop (length (buf d1) - 1)
    (buf (at_ (s ++ rest) (Offset d1 + Z.of_nat (length pre) + 1) (buf d1 ++ pre) d1)) = c :: pre)
    as ->.
  { simpl. rewrite length_app. simpl. replace (length (buf d) + 1 - 1)%nat with (length (buf d)) by lia.
    by rewrite <- app_assoc, drop_app_length. }
  rewrite <- Hfi, parse_int_format by done. unfold min_int. unfold max_int in *.
  destruct (Z.leb_spec (- 2 ^ (64 - 1)) (Z.of_nat (length s))); [|lia].
  destruct (Z.leb_spec (Z.of_nat (length s)) (2 ^ (64 - 1) - 1)); [|lia]. simpl.
  erewrite bind_step by done. rewrite getMaxStrLen_at.
  change (getMaxStrLen d1) with (getMaxStrLen d).
  destruct (Z.ltb_spec (getMaxStrLen d) (Z.of_nat (length s))); [lia|].
  unfold copyN, buf_Write, incOffset. go_simpl.
  rewrite Nat2Z.id, take_app_length, drop_app_length, Z.eqb_refl. cbn. f_equal.
  unfold grab, at_, set_buf, set_Offset, set_r. cbn. rewrite !length_app, <- !app_assoc. simpl.
  f_equal. lia.
Qed.

(** The values laid out in a dict's body, keys and values alternating. *)
Definition flatten_entries (m : list (bytes * Value)) : list Value :=
  concat (map (fun kv => [VString kv.1; kv.2]) m).

Lemma enc_app_assoc x y z : enc_app x (enc_app y z) = enc_app (enc_app x y) z.
Proof. destruct x, y, z; simpl; try done. by rewrite app_assoc. Qed.

Lemma encode_entries_flatten ie m :
  encode_entries ie m = enc_concat (map (reflectValue ie) (flatten_entries m)).
Proof.
  induction m as [|[k x] m IH]; [done|].
  change (encode_entries ie ((k, x) :: m)) with
    (enc_app (encodeMapEntry (k, reflectValue ie x)) (encode_entries ie m)).
  unfold flatten_entries. cbn [map concat app]. rewrite !enc_concat_cons, IH.
  unfold encodeMapEntry. by rewrite <- enc_app_assoc.
Qed.

Definition unwrap (x : Value) : Value := match x with VIface (Some v) => v | _ => x end.

Lemma reflectValue_unwrap ie x : reflectValue ie (unwrap x) = reflectValue ie x.
Proof. by destruct x as [| | | | | | | | | | |[]| | | |]. Qed.

Lemma flatten_decodable lim n m :
  forallb (decodable_entry lim n) m = true ->
  Forall (fun x => decodable lim n (unwrap x) = true) (flatten_entries m).
Proof.
  induction m as [|[k x] m IH]; [constructor|]. cbn [forallb].
  intros [Hx Hm]%andb_true_iff. unfold decodable_entry in Hx. simpl in Hx.
  apply andb_true_iff in Hx as [Hk Hx]. unfold flatten_entries. cbn [map concat app].
  constructor; [exact Hk|]. constructor; [|by apply IH].
  by destruct x as [| | | | | | | | | | |[]| | | |].
Qed.

Lemma elems_decodable lim n l :
  forallb (decodable_elem lim n) l = true ->
  Forall (fun x => decodable lim n (unwrap x) = true) l.
Proof.
  induction l as [|x l IH]; [constructor|]. cbn [forallb]. intros [Hx Hl]%andb_true_iff.
  constructor; [|by apply IH]. by destruct x as [| | | | | | | | | | |[]| | | |].
Qed.

Section Agree.
Variable ie : Value -> bool.

Definition agree_value fuel : Prop := forall v d enc rest,
  getMaxStrLen d <= max_int 64 ->
  decodable (getMaxStrLen d) (room d) v = true -> reflectValue ie v = EncOk enc ->
  r d = enc ++ rest -> (2 * length enc + 1 <= fuel)%nat ->
  readOneValue fuel d = Ret true (grab enc rest d).

Definition agree_values fuel : Prop := forall vs d body rest,
  getMaxStrLen d <= max_int 64 ->
  Forall (fun x => decodable (getMaxStrLen d) (room d) (unwrap x) = true) vs ->
  enc_concat (map (reflectValue ie) vs) = EncOk body -> r d = body ++ bs "e" ++ rest ->
  (2 * length body + 2 < fuel)%nat ->
  readValues fuel d = Ret tt (grab body (bs "e" ++ rest) d).

(** A bracketed body, once its opening byte is captured. *)
Lemma agree_container fuel d d1 b vs body rest :
  agree_values fuel -> b = "d"%byte \/ b = "l"%byte -> d1 = grab [b] (body ++ bs "e" ++ rest) d ->
  getMaxStrLen d <= max_int 64 -> 0 < room d ->
  Forall (fun x => decodable (getMaxStrLen d) (room d - 1) (unwrap x) = true) vs ->
  enc_concat (map (reflectValue ie) vs) = EncOk body -> (2 * length body + 2 < fuel)%nat ->
  (defer leaveContainer
     (enterContainer (Offset d1 - 1);; readValues fuel;; c ← readByte; buf_Write [c])) d1 =
  Ret tt (grab (body ++ bs "e") rest d1).
Proof.
  intros IH Hb -> Hmax Hroom Hall Hbody Hf. apply container_grab; [done|].
  erewrite bind_step by (eapply (IH vs); try done; by rewrite room_container).
  unfold readByte, r_ReadByte, incOffset, buf_Write. go_simpl. f_equal.
  unfold grab, at_, set_buf, set_Offset, set_r. cbn. rewrite length_app, <- !app_assoc. simpl.
  f_equal. lia.
Qed.

Lemma agree_value_step fuel : agree_values fuel -> agree_value (S fuel).
Proof.
  intros IH v d enc rest Hmax Hd He Hr Hf.
  pose proof (decodable_enc _ _ _ _ _ Hd He) as H.
  assert (Hint : forall z, enc = bs "i" ++ format_int z ++ bs "e" ->
    readOneValue (S fuel) d = Ret true (grab enc rest d)).
  { intros z ->. rewrite (read_first _ _ "i"%byte (format_int z ++ bs "e" ++ rest))
      by (try done; rewrite Hr, <- !app_assoc; done).
    cbv zeta. rewrite decide_False by (by intros []). rewrite decide_True by done.
    erewrite bind_step by (apply (grab_readUntil "e"%byte (format_int z) rest); [|done];
      by apply not_elem_format_int).
    by rewrite grab_app. }
  assert (Hcont : forall c b vs, bs c = [b] -> b = "d"%byte \/ b = "l"%byte ->
    forall body, enc = bs c ++ body ++ bs "e" -> 0 < room d ->
    Forall (fun x => decodable (getMaxStrLen d) (room d - 1) (unwrap x) = true) vs ->
    enc_concat (map (reflectValue ie) vs) = EncOk body ->
    readOneValue (S fuel) d = Ret true (grab enc rest d)).
  { intros c b vs -> Hb body -> Hroom Hall Hbody. rewrite !length_app in Hf. simpl in Hf.
    rewrite (read_first _ _ b (body ++ bs "e" ++ rest))
      by (try (intros ->; naive_solver); rewrite Hr, <- !app_assoc; done).
    cbv zeta. rewrite decide_True by done.
    erewrite bind_step by (eapply agree_container; (done || lia)).
    by rewrite grab_app. }
  destruct v as [|z| | |s| |[l|]| |[m|]| | | |v| | |]; try done.
  - destruct H as [-> _]. by eapply Hint.
  - destruct H as [-> Hl]. destruct (reflectString_head s) as (c & t & Hs & Hc).
    rewrite Hs in *. destruct (digit_branch c Hc) as (H1 & H2 & H3 & H4).
    rewrite (read_first _ _ c (t ++ rest)) by (try done; by rewrite Hr).
    cbv zeta. rewrite decide_False by naive_solver. rewrite decide_False, Hc by done.
    erewrite bind_step by (eapply grab_string; (done || lia)).
    by rewrite grab_app.
  - destruct H as (body & Henc & Hroom & Hbody & Hall).
    apply (Hcont "l"%string "l"%byte l eq_refl (or_intror eq_refl) body);
      eauto using elems_decodable.
  - destruct H as (body & Henc & Hroom & Hbody & _ & Hall). rewrite encode_entries_flatten in Hbody.
    apply (Hcont "d"%string "d"%byte (flatten_entries m) eq_refl (or_introl eq_refl) body Henc Hroom);
      [by apply flatten_decodable|done].
  - destruct v as [| | |z| | | | | | | | | | | |]; try done. destruct H as [-> _]. by eapply Hint.
Qed.

Lemma agree_values_step fuel : agree_value fuel -> agree_values fuel -> agree_values (S fuel).
Proof.
  intros IHv IHl vs d body rest Hmax Hall Hbody Hr Hf. cbn [readValues].
  destruct vs as [|x vs].
  { simpl in Hbody. inversion Hbody; subst. destruct fuel; [simpl in Hf; lia|].
    cbn [readOneValue]. unfold r_ReadByte, r_UnreadByte. go_simpl. rewrite Hr. cbn.
    f_equal. unfold grab, at_, set_buf, set_Offset, set_r. cbn. by rewrite app_nil_r, Z.add_0_r. }
  apply Forall_cons in Hall as [Hx Hall]. cbn [map] in Hbody. rewrite enc_concat_cons in Hbody.
  apply enc_app_ok in Hbody as (venc & body' & Hv & Hbody & ->).
  rewrite <- reflectValue_unwrap in Hv. pose proof (decodable_enc_nonempty _ _ _ _ _ Hx Hv).
  rewrite length_app in Hf. rewrite <- app_assoc in Hr.
  erewrite bind_step by (eapply (IHv (unwrap x)); (done || lia)). cbv beta iota.
  rewrite (IHl vs _ body' rest) by (done || lia). by rewrite grab_app.
Qed.

Lemma read_agrees fuel : agree_value fuel /\ agree_values fuel.
Proof.
  induction fuel as [|fuel [IHv IHl]]; [split; unfold agree_value, agree_values; intros; lia|].
  auto using agree_value_step, agree_values_step.
Qed.
End Agree.

(** C17: [readOneValue] appends to the decoder's buffer exactly the bytes it takes off the input
    and moves the offset by their number, leaving everything else of the decoder unchanged;
    and on any input whose next value the decoder accepts, it succeeds and the captured bytes
    are the encoding of that value: an [Unmarshaler] is handed the bencoding of its value. *)
Theorem readOneValue_raw (ie : Value -> bool) (d : Decoder) :
  (forall fuel d', readOneValue fuel d = Ret true d' ->
     exists raw, raw <> [] /\ captured raw d d') /\
  (forall fuel v d', getMaxStrLen d <= max_int 64 -> buf d = [] ->
     parseValueInterface fuel d = Ret (Some v) d' ->
     exists raw, Marshal ie (Some v) = EncOk raw /\ r d = raw ++ r d' /\
       readOneValue (parseFuel d) d = Ret true (grab raw (r d') d)).
Proof.
  split.
  - intros fuel d' H. by apply read_captures in H.
  - intros fuel v d' Hmax Hb H. apply (decode_sound ie) in H as (enc & Henc & Hc & Hd); [|done].
    destruct Hc as (rest & Hr & ->). exists enc. split_and!; [done..|].
    eapply (read_agrees ie (parseFuel d)); try done. unfold parseFuel. rewrite Hr, length_app. lia.
Qed.

Lemma readOneValue_raw_witness :
  exists raw, Marshal (fun _ => false) (Some (VSlice (Some [VIface (Some (VInt 7))]))) = EncOk raw /\
    readOneValue 14 (newDecoder (bs "li7ee1")) = Ret true (grab raw (bs "1") (newDecoder (bs "li7ee1"))).
Proof.
  destruct (proj2 (readOneValue_raw (fun _ => false) (newDecoder (bs "li7ee1"))) 14%nat
    (VSlice (Some [VIface (Some (VInt 7))])) (past (bs "li7ee") (bs "1") (newDecoder (bs "li7ee1"))))
    as (raw & H1 & _ & H2).
  - vm_compute. discriminate.
  - reflexivity.
  - vm_compute. reflexivity.
  - exists raw. split; [exact H1|exact H2].
Defined.
