(* ===== verification/Search.v ===== *)
(** * Binary search ([sort.Search], [slices.BinarySearchFunc])

    The loop of the two standard library functions that [segments] and [iplist] search with:
    it halves a range keeping the invariant that the predicate fails before it and holds after
    it.  [search_least] is what its callers rely on. *)

From S2P Require Import Prelude.

Fixpoint search_loop (fuel : nat) (f : nat -> bool) (i j : nat) : nat :=
  match fuel with
  | O => i
  | S fuel' =>
      if (i <? j)%nat then
        let h := ((i + j) / 2)%nat in
        if f h then search_loop fuel' f i h else search_loop fuel' f (h + 1) j
      else i
  end.

(** [sort.Search(n, f)]; a range of [n] halves at most [n] times. *)
Definition sort_Search (n : nat) (f : nat -> bool) : nat := search_loop n f 0 n.

(** [cmp.Compare] of integers *)
Definition cmp_Compare (a b : Z) : Z :=
  if (a <? b)%Z then -1 else if (b <? a)%Z then 1 else 0.

(** The index of [slices.BinarySearchFunc(x, target, cmp)]. *)
Definition BinarySearchFunc {A T} (x : list A) (target : T) (cmp : A -> T -> Z) : nat :=
  sort_Search (length x) (fun h =>
    match x !! h with Some e => negb (cmp e target <? 0)%Z | None => true end).

Lemma half_between i j : (i < j)%nat -> (i <= (i + j) / 2 < j)%nat.
Proof.
  intros. split; [apply Nat.div_le_lower_bound|apply Nat.Div0.div_lt_upper_bound]; lia.
Qed.

Lemma search_loop_spec fuel f i j :
  (j - i <= fuel)%nat -> (i <= j)%nat ->
  let r := search_loop fuel f i j in
  (i <= r <= j)%nat /\ (r < j -> f r = true)%nat /\ (i < r -> f (r - 1)%nat = false)%nat.
Proof.
  revert i j. induction fuel as [|fuel IH]; intros i j Hf Hij; cbn [search_loop]; cbv zeta.
  { split_and!; intros; lia. }
  destruct (Nat.ltb_spec i j) as [Hlt|]; [|split_and!; intros; lia].
  pose proof (half_between i j Hlt) as Hh. set (h := ((i + j) / 2)%nat) in *.
  destruct (f h) eqn:Efh.
  - destruct (IH i h) as (H1 & H2 & H3); [lia..|]. split_and!; [lia..| |done].
    intros _. destruct (decide (search_loop fuel f i h = h)) as [->|]; [done|apply H2; lia].
  - destruct (IH (h + 1)%nat j) as (H1 & H2 & H3); [lia..|]. split_and!; [lia..|done|].
    intros _. destruct (decide (search_loop fuel f (h + 1) j = h + 1)%nat) as [->|];
      [by rewrite Nat.add_sub|apply H3; lia].
Qed.

(** On a monotone predicate the search finds the least index that satisfies it. *)
Lemma search_least n f :
  (forall i j, (i <= j < n)%nat -> f i = true -> f j = true) ->
  let r := sort_Search n f in
  (r <= n)%nat /\ (forall i, i < r -> f i = false)%nat /\ (forall i, r <= i < n -> f i = true)%nat.
Proof.
  intros Hmono. destruct (search_loop_spec n f 0 n) as (H1 & H2 & H3); [lia..|]. fold (sort_Search n f) in *.
  simpl. split_and!; [lia| |].
  - intros i Hi. destruct (f i) eqn:E; [|done].
    rewrite <- H3 by lia. symmetry. apply (Hmono i); [lia|done].
  - intros i Hi. apply (Hmono (sort_Search n f)); [lia|]. apply H2. lia.
Qed.

Lemma cmp_Compare_neg a b : (cmp_Compare a b <? 0)%Z = (a <? b)%Z.
Proof. unfold cmp_Compare. destruct (a <? b)%Z; [done|]. by destruct (b <? a)%Z. Qed.

(** ** A predicate that can panic *)

Fixpoint search_loop_opt (fuel : nat) (f : nat -> option bool) (i j : nat) : option nat :=
  match fuel with
  | O => Some i
  | S fuel' =>
      if (i <? j)%nat then
        let h := ((i + j) / 2)%nat in
        b ← f h;
        if (b : bool) then search_loop_opt fuel' f i h else search_loop_opt fuel' f (h + 1) j
      else Some i
  end.

Definition sort_Search_opt (n : nat) (f : nat -> option bool) : option nat :=
  search_loop_opt n f 0 n.

Lemma search_loop_opt_total fuel f g i j :
  (forall k, (i <= k < j)%nat -> f k = Some (g k)) ->
  search_loop_opt fuel f i j = Some (search_loop fuel g i j).
Proof.
  revert i j. induction fuel as [|fuel IH]; intros i j Hf; cbn [search_loop search_loop_opt]; [done|].
  destruct (Nat.ltb_spec i j) as [Hlt|]; [|done]. pose proof (half_between i j Hlt) as Hh. cbv zeta.
  rewrite Hf by lia. cbn [mbind option_bind]. destruct (g _); apply IH; intros k Hk; apply Hf; lia.
Qed.

Lemma sort_Search_total n f g :
  (forall k, (k < n)%nat -> f k = Some (g k)) -> sort_Search_opt n f = Some (sort_Search n g).
Proof. intros Hf. apply search_loop_opt_total. intros k Hk. apply Hf. lia. Qed.
