(* ===== verification/Multiless.v ===== *)
(** * Comparisons by several keys

    The client orders pieces, requests and connections with [github.com/anacrolix/multiless]: a
    computation holds the outcome of the comparisons made so far, and the next comparison counts
    only while they were all equal.  The library is a parameter here: the class [Multiless] has
    the methods the client calls, [MultilessLaws] their documented meaning.  The second half is
    the theory of comparison functions put together this way. *)

From S2P Require Import Prelude.
Local Open Scope Z_scope.

Class Multiless := {
  Computation : Type;
  ml_New : Computation;
  ml_Int : Z -> Z -> Computation -> Computation;
  ml_Uint64 : Z -> Z -> Computation -> Computation;
  ml_Bool : bool -> bool -> Computation -> Computation;
  (* [Cmp] and [CmpInt64] take the outcome as the sign of a number *)
  ml_Cmp : Z -> Computation -> Computation;
  ml_CmpInt64 : Z -> Computation -> Computation;
  ml_Lazy : (unit -> Computation) -> Computation -> Computation;
  ml_EagerOrdered : Z -> Z -> Computation -> Computation;
  ml_Ok : Computation -> bool;
  ml_Less : Computation -> bool;
  (* panics when the computation is equal *)
  ml_MustLess : Computation -> option bool;
  ml_OrderingInt : Computation -> Z;
}.

(** The outcome so far, else the next one. *)
Definition thenc (c d : comparison) : comparison := match c with Eq => d | _ => c end.

Definition bool_compare (x y : bool) : comparison :=
  match x, y with false, true => Lt | true, false => Gt | _, _ => Eq end.

(** The results of [cmp.Compare] and [bytes.Compare]. *)
Definition sign_of (c : comparison) : Z := match c with Lt => -1 | Eq => 0 | Gt => 1 end.

Class MultilessLaws (M : Multiless) := {
  ml_ord : Computation -> comparison;
  ml_ord_New : ml_ord ml_New = Eq;
  ml_ord_Int x y c : ml_ord (ml_Int x y c) = thenc (ml_ord c) (x ?= y);
  ml_ord_Uint64 x y c : ml_ord (ml_Uint64 x y c) = thenc (ml_ord c) (x ?= y);
  ml_ord_Bool x y c : ml_ord (ml_Bool x y c) = thenc (ml_ord c) (bool_compare x y);
  ml_ord_Cmp x c : ml_ord (ml_Cmp x c) = thenc (ml_ord c) (x ?= 0);
  ml_ord_CmpInt64 x c : ml_ord (ml_CmpInt64 x c) = thenc (ml_ord c) (x ?= 0);
  ml_ord_Lazy f c : ml_ord (ml_Lazy f c) = thenc (ml_ord c) (ml_ord (f tt));
  ml_ord_EagerOrdered x y c : ml_ord (ml_EagerOrdered x y c) = thenc (ml_ord c) (x ?= y);
  ml_Ok_ord c : ml_Ok c = negb (bool_decide (ml_ord c = Eq));
  ml_Less_ord c : ml_Less c = bool_decide (ml_ord c = Lt);
  ml_MustLess_ord c :
    ml_MustLess c = if decide (ml_ord c = Eq) then None else Some (bool_decide (ml_ord c = Lt));
  ml_OrderingInt_ord c : ml_OrderingInt c = sign_of (ml_ord c);
}.

#[export] Hint Rewrite @ml_ord_New @ml_ord_Int @ml_ord_Uint64 @ml_ord_Bool @ml_ord_Cmp
  @ml_ord_CmpInt64 @ml_ord_Lazy @ml_ord_EagerOrdered : multiless.

(** The simplest implementation. *)
Definition comparison_multiless : Multiless := {|
  Computation := comparison;
  ml_New := Eq;
  ml_Int x y c := thenc c (x ?= y);
  ml_Uint64 x y c := thenc c (x ?= y);
  ml_Bool x y c := thenc c (bool_compare x y);
  ml_Cmp x c := thenc c (x ?= 0);
  ml_CmpInt64 x c := thenc c (x ?= 0);
  ml_Lazy f c := thenc c (f tt);
  ml_EagerOrdered x y c := thenc c (x ?= y);
  ml_Ok c := match c with Eq => false | _ => true end;
  ml_Less c := match c with Lt => true | _ => false end;
  ml_MustLess c := match c with Lt => Some true | Eq => None | Gt => Some false end;
  ml_OrderingInt c := sign_of c;
|}.

#[global] Instance comparison_laws : MultilessLaws comparison_multiless.
Proof. by refine {| ml_ord := (fun c : @Computation comparison_multiless => c) |}; try done; intros []. Defined.

(** ** Comparison functions *)

(** A comparison that orders its arguments up to what it calls equal. *)
Record Ordered {A} (cmp : A -> A -> comparison) : Prop := {
  cmp_anti x y : cmp y x = CompOpp (cmp x y);
  cmp_trans x y z : cmp x y = Lt -> cmp y z = Lt -> cmp x z = Lt;
  cmp_Eq x y z : cmp x y = Eq -> cmp x z = cmp y z;
}.

Lemma CompOpp_thenc c d : CompOpp (thenc c d) = thenc (CompOpp c) (CompOpp d).
Proof. by destruct c. Qed.

Lemma thenc_assoc c d e : thenc (thenc c d) e = thenc c (thenc d e).
Proof. by destruct c. Qed.

Lemma cmp_refl {A} (cmp : A -> A -> comparison) x : Ordered cmp -> cmp x x = Eq.
Proof. intros H. pose proof (cmp_anti _ H x x). by destruct (cmp x x). Qed.

Lemma cmp_Eq_r {A} (cmp : A -> A -> comparison) x y z :
  Ordered cmp -> cmp x y = Eq -> cmp z x = cmp z y.
Proof.
  intros H E. rewrite (cmp_anti _ H x z), (cmp_anti _ H y z). by rewrite (cmp_Eq _ H x y z E).
Qed.

Lemma Ordered_thenc {A} (f g : A -> A -> comparison) :
  Ordered f -> Ordered g -> Ordered (fun x y => thenc (f x y) (g x y)).
Proof.
  intros Hf Hg. split.
  - intros x y. by rewrite CompOpp_thenc, (cmp_anti _ Hf x y), (cmp_anti _ Hg x y).
  - intros x y z. destruct (f x y) eqn:Exy; simpl; [|intros _|done].
    + rewrite (cmp_Eq _ Hf x y z Exy). destruct (f y z); simpl; [|done..]. apply (cmp_trans _ Hg).
    + destruct (f y z) eqn:Eyz; simpl; [intros _|intros _|done].
      * by rewrite <-(cmp_Eq_r _ y z x Hf Eyz), Exy.
      * by rewrite (cmp_trans _ Hf x y z Exy Eyz).
  - intros x y z. destruct (f x y) eqn:Exy; simpl; [|done..]. intros Eg.
    by rewrite (cmp_Eq _ Hf x y z Exy), (cmp_Eq _ Hg x y z Eg).
Qed.

Lemma Ordered_key {A B} (cmp : B -> B -> comparison) (f : A -> B) :
  Ordered cmp -> Ordered (fun x y => cmp (f x) (f y)).
Proof.
  intros H. split; intros.
  - apply (cmp_anti _ H).
  - by eapply (cmp_trans _ H).
  - by apply (cmp_Eq _ H).
Qed.

Lemma Ordered_flip {A} (cmp : A -> A -> comparison) : Ordered cmp -> Ordered (fun x y => cmp y x).
Proof.
  intros H. split; intros.
  - apply (cmp_anti _ H).
  - by eapply (cmp_trans _ H).
  - apply cmp_Eq_r; [done|]. by rewrite (cmp_anti _ H y x), H0.
Qed.

Lemma Ordered_Z : Ordered Z.compare.
Proof.
  split.
  - intros x y. apply Z.compare_antisym.
  - intros x y z. rewrite !Z.compare_lt_iff. lia.
  - intros x y z ->%Z.compare_eq. done.
Qed.

Lemma Ordered_bool : Ordered bool_compare.
Proof. split; [intros [] []|intros [] [] []|intros [] [] []]; done. Qed.

Lemma Ordered_bytes : Ordered bytes_compare.
Proof.
  split.
  - apply bytes_compare_antisym.
  - apply bytes_lt_trans.
  - by intros x y z ->%bytes_compare_eq.
Qed.

#[export] Hint Resolve Ordered_thenc Ordered_Z Ordered_bool Ordered_bytes : multiless.
#[export] Hint Extern 2 (Ordered (fun x y => ?cmp (@?f x) (@?f y))) =>
  apply (Ordered_key cmp f) : multiless.
#[export] Hint Extern 3 (Ordered (fun x y => ?cmp (@?f y) (@?f x))) =>
  apply (Ordered_flip (fun x y => cmp (f x) (f y))); apply (Ordered_key cmp f) : multiless.

Lemma sign_of_compare c : (sign_of c ?= 0) = c.
Proof. by destruct c. Qed.

Lemma thenc_Eq c d : thenc c d = Eq <-> c = Eq /\ d = Eq.
Proof. destruct c; naive_solver. Qed.

Lemma bool_compare_Eq x y : bool_compare x y = Eq <-> x = y.
Proof. destruct x, y; naive_solver. Qed.

#[export] Hint Rewrite thenc_Eq bool_compare_Eq bytes_compare_eq Z.compare_eq_iff sign_of_compare : multiless.
