(* ===== verification/Segments.v ===== *)
(** * Segment index ([src/segments])

    Maps a byte range of a torrent to the files (segments) it lies in.  Offsets are [int64]s.
    [laid] is the invariant of an index: segments in order, not overlapping, with possible gaps;
    [locate_ref] is the reference definition that [LocateIter] is compared with. *)

From S2P Require Import Prelude Search.
Local Open Scope Z_scope.
Local Open Scope go_scope.

Record Extent := { Start : Z; Length : Z }.

#[global] Instance Extent_eq_dec : EqDecision Extent.
Proof. solve_decision. Defined.

Definition End_ (e : Extent) : Z := Start e +! Length e.

(** An [Index] is its [segments]. *)
Notation Index := (list Extent).

Fixpoint NewIndex_loop (start : Z) (segments : list Z) : Index :=
  match segments with
  | [] => []
  | l :: rest => {| Start := start; Length := l |} :: NewIndex_loop (start +! l) rest
  end.

Definition NewIndex (segments : list Z) : Index := NewIndex_loop 0 segments.

Definition NewIndexFromSegments (segments : list Extent) : Index := segments.

(** The loop of [LocateIter] over [me.segments[first:]]; the pairs yielded, in order. *)
Fixpoint LocateIter_loop (i : nat) (segs : list Extent) (needle : Extent) (startedNeedle : bool)
    (lastEnd : option Z) : list (nat * Extent) :=
  match segs with
  | [] => []
  | cur :: segs' =>
      if Length needle =? 0 then []
      else
        let l := {| Start := Start cur -! default (Start cur) lastEnd; Length := Length cur |} in
        let lastEnd := Some (End_ cur) in
        let e1Start := Z.max (Start needle -! Start l) 0 in
        let e1 := {| Start := e1Start;
                     Length := Z.max (Z.min (Length l) (End_ needle -! Start l) -! e1Start) 0 |} in
        let needle := {| Start := Z.max 0 (Start needle -! End_ l);
                         Length := Length needle -! (Length e1 +! Start l) |} in
        if (0 <? Length e1) || (startedNeedle && negb (Length needle =? 0))
        then (i, e1) :: LocateIter_loop (S i) segs' needle true lastEnd
        else LocateIter_loop (S i) segs' needle startedNeedle lastEnd
  end.

Definition LocateIter (me : Index) (e : Extent) : list (nat * Extent) :=
  let first := BinarySearchFunc me (Start e)
                 (fun elem target => cmp_Compare (End_ elem) (target +! 1)) in
  match me !! first with
  | None => []
  | Some s =>
      let start := Start e -! Start s in
      let e := if start <? 0 then {| Start := 0; Length := Length e +! start |}
               else {| Start := start; Length := Length e |} in
      LocateIter_loop first (drop first me) e false None
  end.

Record IndexAndOffset := { io_Index : nat; io_Offset : Z }.

(** [None] is a failed [panicif] check. *)
Fixpoint LocateOffset_loop (l : list (nat * Extent)) (ret : option IndexAndOffset) :
    option (option IndexAndOffset) :=
  match l with
  | [] => Some ret
  | (i, e) :: l' =>
      if ret then None
      else if negb (Length e =? 1) then None
      else LocateOffset_loop l' (Some {| io_Index := i; io_Offset := Start e |})
  end.

Definition LocateOffset (me : Index) (off : Z) : option (option IndexAndOffset) :=
  LocateOffset_loop (LocateIter me {| Start := off; Length := 1 |}) None.

(** [Index.Index]: out of range is a panic. *)
Definition Index_Index (me : Index) (i : nat) : option Extent := me !! i.

(** ** Reference *)

(** Segments that start no earlier than [pos], in order, within the [int64]s. *)
Fixpoint laid (pos : Z) (segs : Index) : bool :=
  match segs with
  | [] => true
  | s :: segs' =>
      (pos <=? Start s) && (0 <=? Length s) && (Start s + Length s <=? maxInt) &&
      laid (Start s + Length s) segs'
  end.

(** No gaps: each segment starts where the one before it ends. *)
Fixpoint consecutive (pos : Z) (segs : Index) : bool :=
  match segs with
  | [] => true
  | s :: segs' => (Start s =? pos) && consecutive (Start s + Length s) segs'
  end.

(** The part of a segment within [S, T), relative to the segment. *)
Definition clip (S T : Z) (s : Extent) : Extent :=
  let from := Z.max (S - Start s) 0 in
  {| Start := from; Length := Z.max (Z.min (Length s) (T - Start s) - from) 0 |}.

(** Every segment with a byte in [S, T), and every empty one strictly inside it. *)
Definition touches (S T : Z) (s : Extent) : bool :=
  (0 <? Length (clip S T s)) || ((Length s =? 0) && (S <? Start s) && (Start s <? T)).

Fixpoint locate_ref (keep : Extent -> bool) (S T : Z) (i : nat) (segs : Index) :
    list (nat * Extent) :=
  match segs with
  | [] => []
  | s :: segs' =>
      if keep s then (i, clip S T s) :: locate_ref keep S T (Datatypes.S i) segs'
      else locate_ref keep S T (Datatypes.S i) segs'
  end.

Definition nonempty (x : nat * Extent) : bool := 0 <? Length x.2.
