(* ===== verification/SegmentsTheory.v ===== *)
(** * Locating extents

    [LocateIter] against [locate_ref]: on any index laid out in order its non-empty extents are
    exactly the clipped segments, and without gaps its whole output is the reference.
    [LocateOffset] is the inverse of adding an offset to a segment's start. *)

From S2P Require Import Prelude Search Segments.
Local Open Scope Z_scope.
Local Open Scope go_scope.

Lemma laid_cons pos s segs :
  laid pos (s :: segs) = true <->
  pos <= Start s /\ 0 <= Length s /\ Start s + Length s <= maxInt /\
  laid (Start s + Length s) segs = true.
Proof. simpl. rewrite !andb_true_iff, !Z.leb_le. tauto. Qed.

Lemma laid_weaken pos pos' segs : pos' <= pos -> laid pos segs = true -> laid pos' segs = true.
Proof. destruct segs; [done|]. rewrite !laid_cons. intros. intuition lia. Qed.

(** The bounds within which an extent is located. *)
Definition in_bounds (S T : Z) : bool := (0 <=? S) && (S <=? T) && (T <=? maxInt) && (S <? maxInt).

Lemma in_bounds_spec S T : in_bounds S T = true <-> 0 <= S <= T /\ T <= maxInt /\ S < maxInt.
Proof. unfold in_bounds. rewrite !andb_true_iff, !Z.leb_le, Z.ltb_lt. lia. Qed.

Lemma clip_after S T pos s :
  S < pos -> pos <= Start s -> clip S T s = {| Start := 0; Length := Z.max (Z.min (Length s) (T - Start s)) 0 |}.
Proof. intros. unfold clip. f_equal; lia. Qed.

(** What is left of the needle [S, T) once the segments up to [pos] are passed: its bytes from
    [pos] on, or nothing when it ended before. *)
Definition remains (T pos R : Z) : Prop := R = T - pos \/ - pos <= R <= 0 /\ T <= pos.

(** One step of the loop past the first segment, in exact arithmetic. *)
Lemma loop_step i s segs S T pos R started :
  0 <= S < pos -> 0 <= T <= maxInt -> laid pos (s :: segs) = true -> remains T pos R ->
  let R' := R - (Length (clip S T s) + (Start s - pos)) in
  LocateIter_loop i (s :: segs) {| Start := 0; Length := R |} started (Some pos) =
  (if R =? 0 then []
  else if (0 <? Length (clip S T s)) || (started && negb (R' =? 0))
    then (i, clip S T s) ::
         LocateIter_loop (Datatypes.S i) segs {| Start := 0; Length := R' |} true
           (Some (Start s + Length s))
    else LocateIter_loop (Datatypes.S i) segs {| Start := 0; Length := R' |} started
           (Some (Start s + Length s))) /\
  remains T (Start s + Length s) R'.
Proof.
  unfold remains. intros HS HT (H1 & H2 & H3 & _)%laid_cons HR.
  cbv zeta. rewrite (clip_after S T pos) by lia. split; [|cbn [Length]; lia].
  cbn [LocateIter_loop Start Length default]. unfold id. destruct (R =? 0); [done|].
  unfold End_. cbn [Start Length]. unwrap64.
  replace (Z.max (0 - (Start s - pos)) 0) with 0 by lia.
  replace (Z.max (Z.min (Length s) (0 + R - (Start s - pos)) - 0) 0)
    with (Z.max (Z.min (Length s) (T - Start s)) 0) by lia.
  replace (Z.max 0 (0 - (Start s - pos + Length s))) with 0 by lia. done.
Qed.

Definition has_bytes (S T : Z) (s : Extent) : bool := 0 <? Length (clip S T s).

Lemma locate_ref_none keep S T i segs :
  forallb (fun s => negb (keep s)) segs = true -> locate_ref keep S T i segs = [].
Proof.
  revert i. induction segs as [|s segs IH]; intros i; [done|]. simpl.
  intros [?%negb_true_iff ?]%andb_true_iff. rewrite H. by apply IH.
Qed.

(** Past the end of the needle nothing is touched. *)
Lemma untouched_after S T pos segs :
  S < pos -> T <= pos -> laid pos segs = true -> forallb (fun s => negb (touches S T s)) segs = true.
Proof.
  revert pos. induction segs as [|s segs IH]; intros pos HS HT; [done|].
  intros (H1 & H2 & H3 & H4)%laid_cons. cbn [forallb]. rewrite (IH (Start s + Length s)) by (done || lia).
  unfold touches. rewrite (clip_after S T pos) by lia. cbn [Length].
  rewrite andb_true_r, negb_true_iff, orb_false_iff, andb_false_iff, !Z.ltb_ge. lia.
Qed.

Lemma has_bytes_touches S T segs :
  forallb (fun s => negb (touches S T s)) segs = true ->
  forallb (fun s => negb (has_bytes S T s)) segs = true.
Proof.
  rewrite !forallb_forall. intros H s Hs. specialize (H s Hs). unfold touches, has_bytes in *.
  apply negb_true_iff, orb_false_iff in H as [-> _]. done.
Qed.

Lemma loop_nonempty i segs S T pos R started :
  0 <= S < pos -> 0 <= T <= maxInt -> laid pos segs = true -> remains T pos R ->
  List.filter nonempty (LocateIter_loop i segs {| Start := 0; Length := R |} started (Some pos)) =
  locate_ref (has_bytes S T) S T i segs.
Proof.
  revert i pos R started. induction segs as [|s segs IH]; intros i pos R started HS HT Hl HR; [done|].
  destruct (loop_step i s segs S T pos R started HS HT Hl HR) as [-> HR'].
  destruct (Z.eqb_spec R 0) as [->|Hne].
  { symmetry. apply locate_ref_none, has_bytes_touches, (untouched_after S T pos); [lia| |done].
    destruct HR; lia. }
  apply laid_cons in Hl as (H1 & H2 & H3 & H4). cbn [locate_ref]. unfold has_bytes at 1.
  destruct (0 <? Length (clip S T s)) eqn:E; cbn [orb].
  - cbn [List.filter]. unfold nonempty at 1. cbn [snd]. rewrite E. f_equal. apply IH; (done || lia).
  - destruct (started && _); [cbn [List.filter]; unfold nonempty at 1; cbn [snd]; rewrite E|];
      apply IH; (done || lia).
Qed.

(** Without gaps a needle that has begun yields empty segments too, up to its last byte. *)
Lemma loop_consecutive i segs S T pos :
  0 <= S < pos -> 0 <= T <= maxInt -> laid pos segs = true -> consecutive pos segs = true ->
  LocateIter_loop i segs {| Start := 0; Length := Z.max (T - pos) 0 |} true (Some pos) =
  locate_ref (touches S T) S T i segs.
Proof.
  revert i pos. induction segs as [|s segs IH]; intros i pos HS HT Hl Hc; [done|].
  destruct (loop_step i s segs S T pos (Z.max (T - pos) 0) true HS HT Hl) as [-> _];
    [unfold remains; lia|].
  destruct (Z.eqb_spec (Z.max (T - pos) 0) 0) as [E0|Hne].
  { symmetry. apply locate_ref_none, (untouched_after S T pos); [lia..|done]. }
  cbn in Hc. apply andb_true_iff in Hc as [Hs%Z.eqb_eq Hc].
  apply laid_cons in Hl as (H1 & H2 & H3 & H4). cbn [locate_ref]. unfold touches at 1.
  rewrite (clip_after S T pos) by lia. cbn [Length andb].
  match goal with |- context [{| Start := 0; Length := ?r |}] =>
    replace r with (Z.max (T - (Start s + Length s)) 0) by lia end.
  rewrite IH by (done || lia).
  match goal with |- (if ?a then _ else _) = (if ?b then _ else _) => replace a with b; [done|] end.
  destruct (Z.ltb_spec 0 (Z.max (Z.min (Length s) (T - Start s)) 0)); [done|].
  destruct (Z.eqb_spec (Length s) 0), (Z.ltb_spec S (Start s)), (Z.ltb_spec (Start s) T),
    (Z.eqb_spec (Z.max (T - (Start s + Length s)) 0) 0); simpl; (done || lia).
Qed.

Lemma laid_lookup pos segs i s :
  laid pos segs = true -> segs !! i = Some s ->
  pos <= Start s /\ 0 <= Length s /\ Start s + Length s <= maxInt.
Proof.
  revert pos i. induction segs as [|s' segs IH]; intros pos [|i] Hl Hi; try done;
    apply laid_cons in Hl as (H1 & H2 & H3 & H4).
  - by injection Hi as ->.
  - destruct (IH _ _ H4 Hi) as (? & ? & ?). lia.
Qed.

Lemma laid_drop pos segs i s segs' :
  laid pos segs = true -> drop i segs = s :: segs' ->
  pos <= Start s /\ laid (Start s) (s :: segs') = true.
Proof.
  revert pos i. induction segs as [|s0 segs IH]; intros pos [|i] Hl E; try done.
  - injection E as -> ->. apply laid_cons in Hl as (H1 & H2 & H3 & H4). split; [done|].
    apply laid_cons. split_and!; done || lia.
  - apply laid_cons in Hl as (H1 & H2 & H3 & H4). destruct (IH _ _ H4 E). split; [lia|done].
Qed.

Lemma laid_ends pos segs i j s s' :
  laid pos segs = true -> segs !! i = Some s -> segs !! j = Some s' -> (i <= j)%nat ->
  Start s + Length s <= Start s' + Length s'.
Proof.
  revert pos i j. induction segs as [|s0 segs IH]; intros pos [|i] [|j] Hl Hi Hj Hij; try done;
    try lia; apply laid_cons in Hl as (H1 & H2 & H3 & H4).
  - simplify_eq. lia.
  - simpl in *. simplify_eq. apply (laid_lookup _ _ _ _ H4) in Hj. lia.
  - apply (IH _ i j H4 Hi Hj). lia.
Qed.

(** The segment [LocateIter] begins with: the first one that ends after [S]. *)
Definition first_after (S : Z) (me : Index) : nat :=
  BinarySearchFunc me S (fun elem target => cmp_Compare (End_ elem) (target +! 1)).

Lemma first_after_spec S me :
  laid 0 me = true -> 0 <= S < maxInt ->
  (forall i s, (i < first_after S me)%nat -> me !! i = Some s -> Start s + Length s <= S) /\
  (forall i s, (first_after S me <= i)%nat -> me !! i = Some s -> S < Start s + Length s).
Proof.
  intros Hl HS. unfold first_after, BinarySearchFunc.
  match goal with |- context [sort_Search _ ?g] => set (f := g) end.
  assert (forall i s, me !! i = Some s -> f i = (S <? Start s + Length s)) as Hf.
  { intros i s Hi. unfold f. rewrite Hi, cmp_Compare_neg. unfold End_.
    apply (laid_lookup _ _ _ _ Hl) in Hi. unwrap64. rewrite <- Z.leb_antisym.
    destruct (Z.ltb_spec S (Start s + Length s)), (Z.leb_spec (S + 1) (Start s + Length s)); done || lia. }
  destruct (search_least (length me) f) as (H1 & H2 & H3).
  { intros i j Hij Hi. destruct (lookup_lt_is_Some_2 me i) as [s Hs]; [lia|].
    destruct (lookup_lt_is_Some_2 me j) as [s' Hs']; [lia|].
    rewrite (Hf _ _ Hs) in Hi. rewrite (Hf _ _ Hs'). apply Z.ltb_lt in Hi. apply Z.ltb_lt.
    pose proof (laid_ends _ _ _ _ _ _ Hl Hs Hs'). lia. }
  split; intros i s Hi Hs.
  - apply Z.ltb_ge. rewrite <- (Hf _ _ Hs). by apply H2.
  - apply Z.ltb_lt. rewrite <- (Hf _ _ Hs). apply H3. apply lookup_lt_Some in Hs. lia.
Qed.

Lemma locate_ref_app keep S T i segs1 segs2 :
  locate_ref keep S T i (segs1 ++ segs2) =
  locate_ref keep S T i segs1 ++ locate_ref keep S T (i + length segs1) segs2.
Proof.
  revert i. induction segs1 as [|s segs1 IH]; intros i; simpl; [by rewrite Nat.add_0_r|].
  rewrite IH, Nat.add_succ_r. by destruct (keep s).
Qed.

Lemma untouched_before S T me :
  laid 0 me = true -> 0 <= S < maxInt -> S <= T ->
  forallb (fun s => negb (touches S T s)) (take (first_after S me) me) = true.
Proof.
  intros Hl HS HT. apply forallb_forall. intros s Hs%list_elem_of_In.
  apply list_elem_of_lookup in Hs as [i Hi]. apply lookup_take_Some in Hi as [Hi Hlt].
  destruct (first_after_spec S me Hl HS) as [Hb _]. pose proof (Hb i s Hlt Hi).
  destruct (laid_lookup _ _ _ _ Hl Hi) as (? & ? & ?).
  unfold touches, clip. cbn [Length]. rewrite negb_true_iff, orb_false_iff, andb_false_iff.
  rewrite andb_false_iff, !Z.ltb_ge. lia.
Qed.

Lemma untouched_empty S segs : forallb (fun s => negb (touches S S s)) segs = true.
Proof.
  apply forallb_forall. intros s _. unfold touches, clip. cbn [Length].
  rewrite negb_true_iff, orb_false_iff, andb_false_iff, andb_false_iff, !Z.ltb_ge. lia.
Qed.

(** Both references skip the segments before the first one. *)
Lemma locate_ref_drop keep S T me :
  laid 0 me = true -> 0 <= S < maxInt -> S <= T ->
  (keep = has_bytes S T \/ keep = touches S T) ->
  locate_ref keep S T 0 me = locate_ref keep S T (first_after S me) (drop (first_after S me) me).
Proof.
  intros Hl HS HT Hk. rewrite <- (take_drop (first_after S me) me) at 1. rewrite locate_ref_app.
  pose proof (untouched_before S T me Hl HS HT) as Hu.
  rewrite locate_ref_none by (destruct Hk as [->| ->]; [by apply has_bytes_touches|done]).
  simpl. destruct (decide (first_after S me <= length me)%nat).
  - by rewrite length_take_le.
  - by rewrite drop_ge by lia.
Qed.

(** The first step, which places the needle relative to its first segment. *)
Lemma LocateIter_first me S L s segs :
  laid 0 me = true -> in_bounds S (S + L) = true ->
  drop (first_after S me) me = s :: segs ->
  let T := S + L in
  let R' := T - Z.max S (Start s) - Length (clip S T s) in
  LocateIter me {| Start := S; Length := L |} =
  (if T =? Z.max S (Start s) then []
   else if has_bytes S T s
   then (first_after S me, clip S T s) ::
        LocateIter_loop (Datatypes.S (first_after S me)) segs {| Start := 0; Length := R' |} true
          (Some (Start s + Length s))
   else LocateIter_loop (Datatypes.S (first_after S me)) segs {| Start := 0; Length := R' |} false
          (Some (Start s + Length s))) /\
  S < Start s + Length s /\ remains T (Start s + Length s) R'.
Proof.
  intros Hl (HS & HT & HSm)%in_bounds_spec Hd. cbv zeta.
  assert (me !! first_after S me = Some s) as Hs by (by rewrite <- (Nat.add_0_r (first_after S me)),
    <- lookup_drop, Hd).
  destruct (laid_lookup _ _ _ _ Hl Hs) as (H1 & H2 & H3).
  destruct (first_after_spec S me Hl ltac:(lia)) as [_ Ha]. specialize (Ha _ _ (Nat.le_refl _) Hs).
  split; [|split; [done|unfold remains, clip; cbn [Length]; lia]].
  unfold LocateIter. cbn [Start Length]. fold (first_after S me). rewrite Hs, Hd. unwrap64.
  set (n := if S - Start s <? 0 then _ else _).
  assert (n = {| Start := Z.max (S - Start s) 0; Length := S + L - Z.max S (Start s) |}) as ->.
  { unfold n. destruct (Z.ltb_spec (S - Start s) 0); f_equal; lia. }
  cbn [LocateIter_loop Start Length default].
  destruct (Z.eqb_spec (S + L - Z.max S (Start s)) 0), (Z.eqb_spec (S + L) (Z.max S (Start s))); try lia;
    [done|]. unfold End_, has_bytes, clip. cbn [Start Length]. unwrap64.
  rewrite Z.sub_diag, !Z.sub_0_r, !Z.add_0_r, !Z.add_0_l. cbn [andb]. rewrite orb_false_r.
  rewrite (Z.max_l (Z.max (S - Start s) 0) 0) by lia.
  replace (Z.max (S - Start s) 0 + (S + L - Z.max S (Start s))) with (S + L - Start s) by lia.
  replace (Z.max 0 (Z.max (S - Start s) 0 - Length s)) with 0 by lia. done.
Qed.

Lemma LocateIter_past me S L :
  drop (first_after S me) me = [] -> LocateIter me {| Start := S; Length := L |} = [].
Proof.
  intros Hd%(f_equal length). rewrite length_drop in Hd. simpl in Hd.
  unfold LocateIter. cbn [Start Length]. fold (first_after S me).
  by rewrite (proj2 (lookup_ge_None me _)) by lia.
Qed.

(** C18: the non-empty extents [LocateIter] yields are exactly the parts of the segments within
    the needle, in order, each with its segment's index, whatever gaps the index has. *)
Theorem locateIter_nonempty (me : Index) (S L : Z) :
  laid 0 me = true -> in_bounds S (S + L) = true ->
  List.filter nonempty (LocateIter me {| Start := S; Length := L |}) =
  locate_ref (has_bytes S (S + L)) S (S + L) 0 me.
Proof.
  intros Hl Hb. pose proof (proj1 (in_bounds_spec _ _) Hb).
  rewrite locate_ref_drop by (eauto || lia).
  destruct (drop (first_after S me) me) as [|s segs] eqn:Hd.
  { by rewrite LocateIter_past. }
  destruct (laid_drop 0 me _ _ _ Hl Hd) as [H0 Hl']. 
  destruct (LocateIter_first me S L s segs Hl Hb Hd) as (-> & Hs & HR).
  destruct (Z.eqb_spec (S + L) (Z.max S (Start s))) as [E|E].
  - symmetry. apply locate_ref_none, has_bytes_touches.
    destruct (decide (S < Start s)); [apply (untouched_after S _ (Start s)); done || lia|].
    replace (S + L) with S by lia. apply untouched_empty.
  - apply laid_cons in Hl' as (_ & ? & ? & ?). cbn [locate_ref].
    destruct (has_bytes S (S + L) s) eqn:Eh; [|apply loop_nonempty; done || lia].
    cbn [List.filter]. unfold nonempty at 1. cbn [snd]. unfold has_bytes in Eh. rewrite Eh.
    f_equal. apply loop_nonempty; done || lia.
Qed.

Lemma locateIter_nonempty_witness :
  let me := [{| Start := 0; Length := 10 |}; {| Start := 16; Length := 4 |}] in
  List.filter nonempty (LocateIter me {| Start := 8; Length := 9 |}) =
  [(0%nat, {| Start := 8; Length := 2 |}); (1%nat, {| Start := 0; Length := 1 |})].
Proof.
  apply (locateIter_nonempty
    [{| Start := 0; Length := 10 |}; {| Start := 16; Length := 4 |}] 8 9); reflexivity.
Defined.

Lemma consecutive_drop pos segs i s segs' :
  consecutive pos segs = true -> laid pos segs = true -> drop i segs = s :: segs' ->
  consecutive (Start s) (s :: segs') = true /\
  (Start s = pos \/ exists j s0, (j < i)%nat /\ segs !! j = Some s0 /\ Start s = Start s0 + Length s0).
Proof.
  revert pos i. induction segs as [|s0 segs IH]; intros pos [|i] Hc Hl E; try done;
    apply laid_cons in Hl as (_ & _ & _ & Hl); simpl in Hc; apply andb_true_iff in Hc as [Hp Hc].
  - injection E as -> ->. simpl. rewrite Z.eqb_refl. apply Z.eqb_eq in Hp. auto.
  - destruct (IH _ _ Hc Hl E) as [Hcs [Hs|(j & s1 & Hj & Hs1 & Hs)]]; (split; [done|right]).
    + exists 0%nat, s0. split_and!; done || lia.
    + exists (S j), s1. split_and!; done || lia.
Qed.

(** On an index without gaps, [LocateIter] yields exactly the segments with a byte in the
    needle and the empty segments strictly inside it. *)
Theorem locateIter_consecutive (me : Index) (S L : Z) :
  laid 0 me = true -> consecutive 0 me = true -> in_bounds S (S + L) = true ->
  LocateIter me {| Start := S; Length := L |} = locate_ref (touches S (S + L)) S (S + L) 0 me.
Proof.
  intros Hl Hc Hb. pose proof (proj1 (in_bounds_spec _ _) Hb).
  rewrite locate_ref_drop by (eauto || lia).
  destruct (drop (first_after S me) me) as [|s segs] eqn:Hd; [by rewrite LocateIter_past|].
  destruct (laid_drop 0 me _ _ _ Hl Hd) as [H0 Hl'].
  destruct (consecutive_drop 0 me _ _ _ Hc Hl Hd) as [Hc' Hs0].
  assert (Start s <= S) as Hle.
  { destruct Hs0 as [->|(j & s0 & Hj & Hs0 & ->)]; [lia|].
    by apply (proj1 (first_after_spec S me Hl ltac:(lia)) j). }
  destruct (LocateIter_first me S L s segs Hl Hb Hd) as (-> & Hs & _).
  destruct (Z.eqb_spec (S + L) (Z.max S (Start s))) as [E|E].
  - symmetry. apply locate_ref_none. replace (S + L) with S by lia. apply untouched_empty.
  - apply laid_cons in Hl' as (_ & ? & ? & ?). cbn [locate_ref].
    simpl in Hc'. apply andb_true_iff in Hc' as [_ Hc'].
    assert (has_bytes S (S + L) s = true) as Eh
      by (unfold has_bytes, clip; cbn [Length]; apply Z.ltb_lt; lia).
    unfold touches at 1. unfold has_bytes in Eh |- *. rewrite Eh. cbn [orb]. f_equal.
    replace (_ - _ - _) with (Z.max (S + L - (Start s + Length s)) 0)
      by (unfold clip; cbn [Length]; lia).
    apply loop_consecutive; done || lia.
Qed.

Lemma NewIndex_loop_ok start ls :
  0 <= start -> forallb (Z.leb 0) ls = true -> start + foldr Z.add 0 ls <= maxInt ->
  laid start (NewIndex_loop start ls) = true /\ consecutive start (NewIndex_loop start ls) = true.
Proof.
  revert start. induction ls as [|l ls IH]; intros start Hs Hls Hsum; [done|].
  cbn [forallb foldr NewIndex_loop] in *. apply andb_true_iff in Hls as [Hl%Z.leb_le Hls].
  assert (0 <= foldr Z.add 0 ls).
  { clear -Hls. induction ls; [done|]. cbn [forallb foldr] in *.
    apply andb_true_iff in Hls as [?%Z.leb_le ?]. specialize (IHls H0). lia. }
  unwrap64. destruct (IH (start + l)) as [H1 H2]; [lia|done|lia|]. split.
  - apply laid_cons. cbn [Start Length]. split_and!; done || lia.
  - simpl. by rewrite Z.eqb_refl.
Qed.

(** An index made from lengths has no gaps. *)
Lemma NewIndex_ok ls :
  forallb (Z.leb 0) ls = true -> foldr Z.add 0 ls <= maxInt ->
  laid 0 (NewIndex ls) = true /\ consecutive 0 (NewIndex ls) = true.
Proof. intros. apply NewIndex_loop_ok; done || lia. Qed.

Lemma locateIter_consecutive_witness :
  LocateIter (NewIndex [1; 0; 2; 0; 3]) {| Start := 2; Length := 2 |} =
  [(2%nat, {| Start := 1; Length := 1 |}); (3%nat, {| Start := 0; Length := 0 |});
   (4%nat, {| Start := 0; Length := 1 |})].
Proof. apply (locateIter_consecutive (NewIndex [1; 0; 2; 0; 3]) 2 2); reflexivity. Defined.

Lemma loop_done i segs started lastEnd :
  LocateIter_loop i segs {| Start := 0; Length := 0 |} started lastEnd = [].
Proof. by destruct segs. Qed.

(** A needle that ends before the segments and has not begun yields nothing. *)
Lemma loop_unstarted i segs S T pos R :
  0 <= S < pos -> 0 <= T <= pos -> T <= maxInt -> laid pos segs = true -> remains T pos R ->
  LocateIter_loop i segs {| Start := 0; Length := R |} false (Some pos) = [].
Proof.
  revert i pos R. induction segs as [|s segs IH]; intros i pos R HS HT HTm Hl HR; [done|].
  destruct (loop_step i s segs S T pos R false HS ltac:(lia) Hl HR) as [-> HR'].
  apply laid_cons in Hl as (H1 & H2 & H3 & H4). destruct (R =? 0); [done|].
  replace (0 <? Length (clip S T s)) with false
    by (rewrite (clip_after S T pos) by lia; cbn [Length]; symmetry; apply Z.ltb_ge; lia).
  cbn [orb andb]. apply IH; done || lia.
Qed.

Lemma LocateIter_byte me off :
  laid 0 me = true -> 0 <= off < maxInt ->
  LocateIter me {| Start := off; Length := 1 |} =
  match me !! first_after off me with
  | Some s => if Start s <=? off then [(first_after off me, {| Start := off - Start s; Length := 1 |})]
              else []
  | None => []
  end.
Proof.
  intros Hl Hoff. assert (in_bounds off (off + 1) = true) as Hb by (apply in_bounds_spec; lia).
  destruct (drop (first_after off me) me) as [|s segs] eqn:Hd.
  { rewrite LocateIter_past by done. apply (f_equal length) in Hd. rewrite length_drop in Hd.
    simpl in Hd. by rewrite (proj2 (lookup_ge_None me _)) by lia. }
  assert (me !! first_after off me = Some s) as -> by (by rewrite <- (Nat.add_0_r (first_after off me)),
    <- lookup_drop, Hd).
  destruct (laid_drop 0 me _ _ _ Hl Hd) as [H0 Hl'].
  destruct (LocateIter_first me off 1 s segs Hl Hb Hd) as (-> & Hs & HR).
  apply laid_cons in Hl' as (_ & H1 & H2 & H3). destruct (Z.leb_spec (Start s) off).
  - assert (clip off (off + 1) s = {| Start := off - Start s; Length := 1 |}) as Ec
      by (unfold clip; f_equal; lia).
    unfold has_bytes. rewrite Ec in *. cbn [Length] in *. rewrite Z.max_l in * by lia.
    destruct (Z.eqb_spec (off + 1) off); [lia|]. replace (off + 1 - off - 1) with 0 by lia.
    by rewrite loop_done.
  - destruct (_ =? _); [done|].
    replace (has_bytes off (off + 1) s) with false
      by (symmetry; unfold has_bytes, clip; cbn [Length]; apply Z.ltb_ge; lia).
    apply (loop_unstarted _ _ off (off + 1)); done || lia.
Qed.

Lemma laid_inside_unique me i j s s' off :
  laid 0 me = true -> me !! i = Some s -> me !! j = Some s' -> (i < j)%nat ->
  off < Start s + Length s -> off < Start s'.
Proof.
  intros Hl Hi Hj Hij Hoff. destruct (drop (S i) me) as [|s1 segs] eqn:Hd.
  - apply (f_equal length) in Hd. rewrite length_drop in Hd. apply lookup_lt_Some in Hj.
    simpl in Hd. lia.
  - assert (drop i me = s :: s1 :: segs) as Hd' by (by rewrite (drop_S _ _ _ Hi), Hd).
    apply (laid_drop 0) in Hd' as [_ Hd']; [|done]. apply laid_cons in Hd' as (_ & _ & _ & Hd').
    replace j with (S i + (j - S i))%nat in Hj by lia. rewrite <- lookup_drop, Hd in Hj.
    apply (laid_lookup _ _ _ _ Hd') in Hj. lia.
Qed.

(** [LocateOffset] never panics, and finds the segment that holds the byte at an offset and
    the byte's offset in it, exactly when there is one. *)
Theorem locateOffset_spec (me : Index) (off : Z) :
  laid 0 me = true -> 0 <= off < maxInt ->
  exists r, LocateOffset me off = Some r /\
    forall i o, r = Some {| io_Index := i; io_Offset := o |} <->
      exists s, me !! i = Some s /\ 0 <= o < Length s /\ off = Start s + o.
Proof.
  intros Hl Hoff. unfold LocateOffset. rewrite LocateIter_byte by done.
  destruct (first_after_spec off me Hl Hoff) as [Hb Ha].
  assert (forall i s, me !! i = Some s -> Start s <= off < Start s + Length s -> i = first_after off me)
    as Huniq.
  { intros i s Hi Hs. destruct (lt_eq_lt_dec i (first_after off me)) as [[Hlt|]|Hgt]; [|done|].
    - specialize (Hb _ _ Hlt Hi). lia.
    - destruct (lookup_lt_is_Some_2 me (first_after off me)) as [s' Hs'];
        [apply lookup_lt_Some in Hi; lia|].
      pose proof (laid_inside_unique me _ _ _ _ off Hl Hs' Hi Hgt (Ha _ _ (Nat.le_refl _) Hs')). lia. }
  destruct (me !! first_after off me) as [s|] eqn:Hf.
  - destruct (Z.leb_spec (Start s) off); (eexists; split; [reflexivity|]; intros i o; split).
    + intros [= <- <-]. exists s. pose proof (Ha _ _ (Nat.le_refl _) Hf). split_and!; done || lia.
    + intros (s' & Hi & Ho & ->). assert (i = first_after (Start s' + o) me) as ->
        by (apply (Huniq i s'); done || lia). simplify_eq. by rewrite Z.add_simpl_l.
    + done.
    + intros (s' & Hi & Ho & E). assert (i = first_after off me) as -> by (apply (Huniq i s'); done || lia).
      simplify_eq. lia.
  - eexists; split; [reflexivity|]; intros i o; split; [done|].
    intros (s' & Hi & Ho & E). assert (i = first_after off me) as -> by (apply (Huniq i s'); done || lia).
    congruence.
Qed.

Lemma locateOffset_spec_witness :
  exists r, LocateOffset (NewIndex [5; 0; 7]) 6 = Some r /\
    forall i o, r = Some {| io_Index := i; io_Offset := o |} <->
      exists s, NewIndex [5; 0; 7] !! i = Some s /\ 0 <= o < Length s /\ 6 = Start s + o.
Proof. apply (locateOffset_spec (NewIndex [5; 0; 7]) 6); [reflexivity|]. vm_compute. split; congruence. Defined.

(** With gaps, a needle that ends inside one also yields an empty extent for every segment after
    the gap. *)
Example locateIter_gap :
  LocateIter [{| Start := 0; Length := 10 |}; {| Start := 16; Length := 4 |};
              {| Start := 32; Length := 4 |}] {| Start := 8; Length := 4 |} =
  [(0%nat, {| Start := 8; Length := 2 |}); (1%nat, {| Start := 0; Length := 0 |});
   (2%nat, {| Start := 0; Length := 0 |})].
Proof. reflexivity. Qed.
