(* ===== verification/Sha256.v ===== *)
(** * SHA-256 ([crypto/sha256])

    The hash function the merkle trees of version 2 torrents are built from, as FIPS 180-4 defines
    it and the Go standard library implements it, on 32-bit words kept as [Z].  The development
    uses only that a sum has 32 bytes; the test vectors at the end evaluate the definition. *)

From S2P Require Import Prelude.
Local Open Scope Z_scope.

(** The constants are the leading fractional bits of roots of the first primes. *)
Definition is_prime (n : nat) : bool :=
  forallb (fun d => negb (n mod d =? 0)%nat) (seq 2 (n - 2)).

Definition primes (bound : nat) : list Z :=
  map Z.of_nat (List.filter is_prime (seq 2 bound)).

(** The integer cube root of [n], decided bit by bit from [bits] on down. *)
Fixpoint cube_root (bits : nat) (n r : Z) : Z :=
  match bits with
  | O => r
  | S bits' =>
      let r' := r + Z.shiftl 1 (Z.of_nat bits') in
      cube_root bits' n (if r' * r' * r' <=? n then r' else r)
  end.

Definition K256 : list Z :=
  Eval vm_compute in
    map (fun p => wrapU 32 (cube_root 36 (Z.shiftl p 96) 0)) (take 64 (primes 320)).

Definition H256 : list Z :=
  Eval vm_compute in map (fun p => wrapU 32 (Z.sqrt (Z.shiftl p 64))) (take 8 (primes 20)).

Definition add32 (a b : Z) : Z := wrapU 32 (a + b).
Definition rotr (n x : Z) : Z := Z.lor (Z.shiftr x n) (wrapU 32 (Z.shiftl x (32 - n))).
Definition xor3 (a b c : Z) : Z := Z.lxor a (Z.lxor b c).
Definition not32 (a : Z) : Z := Z.lxor a (max_uint 32).

(** One more word of the message schedule, which is kept latest first. *)
Definition extend (w : list Z) : list Z :=
  let at_ i := nth i w 0 in
  let s0 := xor3 (rotr 7 (at_ 14%nat)) (rotr 18 (at_ 14%nat)) (Z.shiftr (at_ 14%nat) 3) in
  let s1 := xor3 (rotr 17 (at_ 1%nat)) (rotr 19 (at_ 1%nat)) (Z.shiftr (at_ 1%nat) 10) in
  add32 (add32 (at_ 15%nat) s0) (add32 (at_ 6%nat) s1) :: w.

Fixpoint words (n : nat) (b : bytes) : list Z :=
  match n with O => [] | S n' => be_get (take 4 b) :: words n' (drop 4 b) end.

Definition schedule (block : bytes) : list Z :=
  rev (Nat.iter 48 extend (rev (words 16 block))).

Definition round (st : list Z) (kw : Z * Z) : list Z :=
  match st with
  | [a; b; c; d; e; f; g; h] =>
      let s1 := xor3 (rotr 6 e) (rotr 11 e) (rotr 25 e) in
      let ch := Z.lxor (Z.land e f) (Z.land (not32 e) g) in
      let t1 := add32 (add32 h s1) (add32 ch (add32 kw.1 kw.2)) in
      let s0 := xor3 (rotr 2 a) (rotr 13 a) (rotr 22 a) in
      let maj := xor3 (Z.land a b) (Z.land a c) (Z.land b c) in
      [add32 t1 (add32 s0 maj); a; b; c; add32 d t1; e; f; g]
  | _ => st
  end.

Definition compress (st : list Z) (block : bytes) : list Z :=
  zip_with add32 st (fold_left round (zip K256 (schedule block)) st).

Definition pad256 (m : bytes) : bytes :=
  m ++ z2b 128 :: replicate (Z.to_nat ((55 - Z.of_nat (length m)) mod 64)) x00 ++
  be_put 8 (8 * Z.of_nat (length m)).

Fixpoint digest (n : nat) (st : list Z) (m : bytes) : list Z :=
  match n with
  | O => st
  | S n' => digest n' (compress st (take 64 m)) (drop 64 m)
  end.

Definition Size : nat := 32.

(** [sha256.Sum256] *)
Definition Sum256 (m : bytes) : bytes :=
  let p := pad256 m in
  concat (map (be_put 4) (digest (length p / 64) H256 p)).

Lemma round_length st kw : length (round st kw) = length st.
Proof. unfold round. do 8 (destruct st as [|? st]; [done|]). by destruct st. Qed.

Lemma compress_length st block : length (compress st block) = length st.
Proof.
  unfold compress. rewrite length_zip_with_l; [done|].
  enough (forall l s, length (fold_left round l s) = length s) as -> by done.
  induction l as [|kw l IH]; intros s; [done|]. simpl. by rewrite IH, round_length.
Qed.

Lemma digest_length n st m : length (digest n st m) = length st.
Proof. revert st m. induction n; intros; [done|]. simpl. by rewrite IHn, compress_length. Qed.

Lemma be_words_length l : length (concat (map (be_put 4) l)) = (4 * length l)%nat.
Proof.
  induction l as [|x l IH]; [done|]. cbn [map concat]. rewrite length_app, IH, be_put_length.
  simpl. lia.
Qed.

Lemma Sum256_length m : length (Sum256 m) = Size.
Proof. unfold Sum256. cbv zeta. by rewrite be_words_length, digest_length. Qed.

Example Sum256_abc :
  Sum256 (bs "abc") = concat (map (be_put 4)
    [0xba7816bf; 0x8f01cfea; 0x414140de; 0x5dae2223; 0xb00361a3; 0x96177a9c; 0xb410ff61; 0xf20015ad]).
Proof. vm_compute. reflexivity. Qed.

Example Sum256_two_blocks :
  Sum256 (bs "abcdbcdecdefdefgefghfghighijhijkijkljklmklmnlmnomnopnopq") = concat (map (be_put 4)
    [0x248d6a61; 0xd20638b8; 0xe5c02693; 0x0c3e6039; 0xa33ce459; 0x64ff2167; 0xf6ecedd4; 0x19db06c1]).
Proof. vm_compute. reflexivity. Qed.

#[export] Hint Rewrite Sum256_length : torrent.
#[global] Opaque Sum256.
