(* ===== verification/Merkle.v ===== *)
(** * Merkle trees ([src/merkle])

    [merkle.go]: the root of a layer of hashes, reduced in place level by level; [hash.go]: the
    streaming hash of a file or piece in 16 KiB leaf blocks.  A hash is a string of 32 bytes.
    [tree_root] and [data_root] are the reference definitions. *)

From S2P Require Import Prelude Sha256.
Local Open Scope Z_scope.

Definition BlockSize : nat := Z.to_nat (2 ^ 14).

Definition zeroHash : bytes := replicate 32 x00.

(** ** Sizes *)

(** [bits.Len]: the number of bits of a [uint]. *)
Definition bits_Len (n : Z) : Z := if n =? 0 then 0 else Z.log2 n + 1.

Definition isPowerOfTwo (n : Z) : bool := (0 <? n) && (Z.land n (n - 1) =? 0).

Definition RoundUpToPowerOfTwo (n : Z) : Z := wrapU 64 (Z.shiftl 1 (bits_Len (wrapU 64 (n - 1)))).

Definition Log2RoundingUp (n : Z) : Z := bits_Len (wrapU 64 (n - 1)).

(** ** Roots ([merkle.go]) *)

(** The inner loop of [rootInPlace]; [None] is an index out of range. *)
Fixpoint hashPairs (fuel i : nat) (level : list bytes) : option (list bytes) :=
  match fuel with
  | O => Some level
  | S fuel' =>
      match level !! (i * 2)%nat, level !! (i * 2 + 1)%nat with
      | Some l, Some r =>
          if (i <? length level)%nat
          then hashPairs fuel' (S i) (<[i := Sum256 (l ++ r)]> level)
          else None
      | _, _ => None
      end
  end.

(** [for len(level) > 1]; each round halves the level. *)
Fixpoint rootInPlace_loop (fuel : nat) (level : list bytes) : option bytes :=
  match fuel with
  | O => None
  | S fuel' =>
      if (1 <? length level)%nat then
        let nextLen := (length level / 2)%nat in
        level' ← hashPairs nextLen 0 level;
        rootInPlace_loop fuel' (take nextLen level')
      else level !! 0%nat
  end.

Definition rootInPlace (level : list bytes) : option bytes := rootInPlace_loop (S (length level)) level.

(** [None] is a panic. *)
Definition Root (hashes : list bytes) : option bytes :=
  match hashes with
  | [] => Some (Sum256 [])
  | [h] => Some h
  | _ =>
      let numHashes := Z.of_nat (length hashes) in
      if negb (numHashes =? RoundUpToPowerOfTwo numHashes) then None
      else rootInPlace hashes
  end.

Definition RootWithPadHash (hashes : list bytes) (padHash : bytes) : option bytes :=
  match hashes with
  | [] => Some (Sum256 [])
  | [h] => Some h
  | _ =>
      let n := Z.of_nat (length hashes) in
      let targetLen := if isPowerOfTwo n then n else RoundUpToPowerOfTwo n in
      rootInPlace (take (Z.to_nat targetLen) hashes ++
                   replicate (Z.to_nat targetLen - length hashes) padHash)
  end.

Fixpoint compactHashes (n : nat) (compactLayer : bytes) : list bytes :=
  match n with
  | O => []
  | S n' => take 32 compactLayer :: compactHashes n' (drop 32 compactLayer)
  end.

Definition CompactLayerToSliceHashes (compactLayer : bytes) : list bytes :=
  compactHashes (length compactLayer / 32) compactLayer.

(** ** The streaming hash ([hash.go]) *)

Record Hash := {
  blocks : list bytes;
  nextBlock : bytes;
  nextBlockWritten : nat;
}.

Definition NewHash : Hash :=
  {| blocks := []; nextBlock := replicate BlockSize x00; nextBlockWritten := 0 |}.

(** [copy(b[at:], p)]: the bytes of [b] afterwards and how many were copied. *)
Definition copy_at (at_ : nat) (b p : bytes) : bytes * nat :=
  let n := Nat.min (length b - at_) (length p) in
  (take at_ b ++ take n p ++ drop (at_ + n) b, n).

(** [for len(p) >= BlockSize]: whole blocks are hashed where they lie. *)
Fixpoint writeBlocks (fuel : nat) (bl : list bytes) (p : bytes) (n : nat) :
    list bytes * bytes * nat :=
  match fuel with
  | O => (bl, p, n)
  | S fuel' =>
      if (BlockSize <=? length p)%nat
      then writeBlocks fuel' (bl ++ [Sum256 (take BlockSize p)]) (drop BlockSize p) (n + BlockSize)
      else (bl, p, n)
  end.

(** [Write] once a partial block is out of the way. *)
Definition writeRest (h : Hash) (p : bytes) (n : nat) : Hash * nat :=
  let '(bl, p, n) := writeBlocks (length p) (blocks h) p n in
  if negb (length p =? 0)%nat then
    let '(nb, n1) := copy_at 0 (nextBlock h) p in
    ({| blocks := bl; nextBlock := nb; nextBlockWritten := n1 |}, (n + n1)%nat)
  else ({| blocks := bl; nextBlock := nextBlock h; nextBlockWritten := nextBlockWritten h |}, n).

Definition Write (h : Hash) (p : bytes) : Hash * nat :=
  if negb (nextBlockWritten h =? 0)%nat then
    let '(nb, n1) := copy_at (nextBlockWritten h) (nextBlock h) p in
    let written := (nextBlockWritten h + n1)%nat in
    let h' := if (written =? BlockSize)%nat
              then {| blocks := blocks h ++ [Sum256 nb]; nextBlock := nb; nextBlockWritten := 0 |}
              else {| blocks := blocks h; nextBlock := nb; nextBlockWritten := written |} in
    writeRest h' (drop n1 p) n1
  else writeRest h p 0.

Definition nextBlockSum (h : Hash) : bytes :=
  if (nextBlockWritten h =? 0)%nat then zeroHash
  else Sum256 (take (nextBlockWritten h) (nextBlock h)).

Definition curBlocks (h : Hash) : list bytes :=
  if (nextBlockWritten h =? 0)%nat then blocks h else blocks h ++ [nextBlockSum h].

Definition Sum (h : Hash) (b : bytes) : option bytes :=
  sum ← RootWithPadHash (curBlocks h) zeroHash; Some (b ++ sum).

Definition SumMinLength (h : Hash) (b : bytes) (length_ : Z) : option bytes :=
  let bl := curBlocks h in
  let minBlocks := Z.quot (length_ + Z.of_nat BlockSize - 1) (Z.of_nat BlockSize) in
  let bl := if Z.of_nat (length bl) <? minBlocks
            then bl ++ replicate (Z.to_nat minBlocks - length bl) zeroHash else bl in
  sum ← RootWithPadHash bl zeroHash; Some (b ++ sum).

Definition Reset_ (h : Hash) : Hash :=
  {| blocks := []; nextBlock := nextBlock h; nextBlockWritten := 0 |}.

(** ** Reference *)

(** The root of the complete binary tree of height [k] over [2 ^ k] leaves. *)
Fixpoint tree_root (k : nat) (leaves : list bytes) : bytes :=
  match k with
  | O => match leaves with h :: _ => h | [] => zeroHash end
  | S k' => Sum256 (tree_root k' (take (2 ^ k') leaves) ++ tree_root k' (drop (2 ^ k') leaves))
  end.

(** The least height that holds [n] leaves. *)
Definition height (n : nat) : nat := Z.to_nat (Z.log2_up (Z.of_nat n)).

(** [leaves] padded on the right to a complete tree. *)
Definition padded (pad : bytes) (leaves : list bytes) : list bytes :=
  leaves ++ replicate (2 ^ height (length leaves) - length leaves) pad.

(** [l] cut every [n] elements, the last piece being what is left. *)
Fixpoint chunks_ {A} (fuel n : nat) (l : list A) : list (list A) :=
  match fuel with
  | O => []
  | S fuel' => match l with [] => [] | _ => take n l :: chunks_ fuel' n (drop n l) end
  end.

Definition chunks {A} (n : nat) (l : list A) : list (list A) := chunks_ (length l) n l.

Definition leaves (data : bytes) : list bytes := map Sum256 (chunks BlockSize data).

(** The merkle root of [data]. *)
Definition data_root (data : bytes) : bytes :=
  match leaves data with
  | [] => Sum256 []
  | l => tree_root (height (length l)) (padded zeroHash l)
  end.
