(* ===== verification/MerkleTheory.v ===== *)
(** * Merkle roots

    [rootInPlace] computes the root of the complete binary tree; [RootWithPadHash] pads the layer
    to one; the root over a layer of roots is the root over the leaves; and the streaming hash
    depends only on the bytes written, not on how the writes split them. *)

From S2P Require Import Prelude Sha256 Merkle.
Local Open Scope Z_scope.

Lemma BlockSize_pos : (0 < BlockSize)%nat.
Proof. unfold BlockSize. lia. Qed.
#[local] Hint Resolve BlockSize_pos : core.

#[local] Opaque BlockSize.

(** ** Powers of two *)

Lemma pow2_Z k : Z.of_nat (2 ^ k) = 2 ^ Z.of_nat k.
Proof. by rewrite Nat2Z.inj_pow. Qed.

Lemma isPowerOfTwo_pow2 k : isPowerOfTwo (2 ^ Z.of_nat k) = true.
Proof.
  unfold isPowerOfTwo. assert (0 < 2 ^ Z.of_nat k) by (apply Z.pow_pos_nonneg; lia).
  rewrite (proj2 (Z.ltb_lt _ _)) by done. simpl. apply Z.eqb_eq.
  rewrite Z.sub_1_r, <- Z.ones_equiv, Z.land_ones by lia. by apply Z.mod_same; lia.
Qed.

Lemma isPowerOfTwo_inv n : isPowerOfTwo n = true -> n = 2 ^ Z.log2 n.
Proof.
  unfold isPowerOfTwo. intros [Hn%Z.ltb_lt Hl%Z.eqb_eq]%andb_true_iff.
  destruct (Z.log2_spec n Hn) as [Hlo Hhi]. destruct (decide (n = 2 ^ Z.log2 n)) as [|Hne]; [done|].
  exfalso. assert (Z.testbit (Z.land n (n - 1)) (Z.log2 n) = true) as Ht; [|by rewrite Hl, Z.bits_0 in Ht].
  rewrite Z.land_spec, Z.bit_log2 by done. simpl.
  replace (Z.log2 n) with (Z.log2 (n - 1)).
  - apply Z.bit_log2. assert (0 < 2 ^ Z.log2 n) by (apply Z.pow_pos_nonneg; [lia|apply Z.log2_nonneg]). lia.
  - apply Z.log2_unique; [apply Z.log2_nonneg|]. lia.
Qed.

Lemma pow2_height n : Z.of_nat (2 ^ height n) = 2 ^ Z.log2_up (Z.of_nat n).
Proof. unfold height. rewrite pow2_Z, Z2Nat.id; [done|apply Z.log2_up_nonneg]. Qed.

Lemma height_bound n : (0 < n)%nat -> (n <= 2 ^ height n)%nat.
Proof.
  intros Hn. apply Nat2Z.inj_le. rewrite pow2_height. apply Z.log2_log2_up_spec. lia.
Qed.

(** [height] is the least such height. *)
Lemma height_least n k : (0 < n)%nat -> (n <= 2 ^ k)%nat -> (height n <= k)%nat.
Proof.
  intros Hn Hk. unfold height. apply Nat2Z.inj_le in Hk. rewrite pow2_Z in Hk.
  apply Z.log2_up_le_mono in Hk. rewrite Z.log2_up_pow2 in Hk by lia. lia.
Qed.

(** [1 << bits.Len(n-1)] is the least power of two that is at least [n]. *)
Lemma RoundUp_height n :
  (0 < n)%nat -> Z.of_nat n <= 2 ^ 62 -> RoundUpToPowerOfTwo (Z.of_nat n) = Z.of_nat (2 ^ height n).
Proof.
  intros Hn Hmax. unfold RoundUpToPowerOfTwo, bits_Len. rewrite pow2_height.
  rewrite (wrapU_small 64 (Z.of_nat n - 1)) by lia.
  assert ((if Z.of_nat n - 1 =? 0 then 0 else Z.log2 (Z.of_nat n - 1) + 1) = Z.log2_up (Z.of_nat n)) as ->.
  { destruct (Z.eqb_spec (Z.of_nat n - 1) 0) as [E|E].
    - by rewrite Z.log2_up_eqn0 by lia.
    - rewrite Z.log2_up_eqn by lia. rewrite Z.sub_1_r. lia. }
  pose proof (Z.log2_up_nonneg (Z.of_nat n)). rewrite Z.shiftl_1_l. apply wrapU_small.
  split; [lia|]. apply Z.le_lt_trans with (2 ^ 62); [|done]. apply Z.pow_le_mono_r; [done|].
  apply Z.log2_up_le_mono in Hmax. by rewrite Z.log2_up_pow2 in Hmax.
Qed.

Lemma isPowerOfTwo_height n :
  isPowerOfTwo (Z.of_nat n) = true -> (2 ^ height n)%nat = n.
Proof.
  intros E%isPowerOfTwo_inv. apply Nat2Z.inj. rewrite pow2_height.
  rewrite E at 1. rewrite Z.log2_up_pow2 by apply Z.log2_nonneg. done.
Qed.

(** ** The root in place *)

Fixpoint pairs (l : list bytes) : list bytes :=
  match l with
  | a :: b :: l' => Sum256 (a ++ b) :: pairs l'
  | _ => []
  end.

Lemma pairs_lookup l i a b :
  l !! (i * 2)%nat = Some a -> l !! (i * 2 + 1)%nat = Some b -> pairs l !! i = Some (Sum256 (a ++ b)).
Proof.
  revert l. induction i as [|i IH]; intros [|x [|y l]] Ha Hb; try done.
  - by injection Ha as ->; injection Hb as ->.
  - simpl in Ha, Hb |- *. by apply IH.
Qed.

Lemma pairs_length l n : length l = (2 * n)%nat -> length (pairs l) = n.
Proof.
  revert l. induction n as [|n IH]; intros [|a [|b l]] Hl; simpl in *; try lia. rewrite IH; lia.
Qed.

Lemma pairs_take n l : pairs (take (2 * n) l) = take n (pairs l).
Proof.
  revert l. induction n as [|n IH]; intros l; [done|].
  replace (2 * S n)%nat with (S (S (2 * n))) by lia.
  destruct l as [|a [|b l]]; [done..|]. cbn [take pairs]. by rewrite IH.
Qed.

Lemma pairs_drop n l : pairs (drop (2 * n) l) = drop n (pairs l).
Proof.
  revert l. induction n as [|n IH]; intros l; [done|].
  replace (2 * S n)%nat with (S (S (2 * n))) by lia.
  destruct l as [|a [|b l]]; [done..|]. cbn [drop pairs]. by rewrite IH.
Qed.

(** Writing [level[i]] is safe: the pairs still to read lie at [2 * i] and beyond. *)
Lemma hashPairs_spec orig fuel i level :
  length level = length orig -> (2 * (i + fuel) <= length orig)%nat ->
  (forall j, (2 * i <= j)%nat -> level !! j = orig !! j) -> take i level = take i (pairs orig) ->
  exists level', hashPairs fuel i level = Some level' /\
    take (i + fuel) level' = take (i + fuel) (pairs orig).
Proof.
  revert i level. induction fuel as [|fuel IH]; intros i level Hl Hb Hrest Hdone.
  { exists level. by rewrite Nat.add_0_r. }
  cbn [hashPairs]. destruct (lookup_lt_is_Some_2 orig (i * 2)) as [a Ha]; [lia|].
  destruct (lookup_lt_is_Some_2 orig (i * 2 + 1)) as [b Hb']; [lia|].
  rewrite !Hrest, Ha, Hb' by lia. destruct (Nat.ltb_spec i (length level)); [|lia].
  rewrite <- Nat.add_succ_comm. apply IH.
  - by rewrite length_insert.
  - lia.
  - intros j Hj. rewrite list_lookup_insert_ne by lia. apply Hrest. lia.
  - rewrite !(take_S_r _ i (Sum256 (a ++ b))).
    + by rewrite take_insert_ge, Hdone by lia.
    + by apply pairs_lookup.
    + by apply list_lookup_insert_eq.
Qed.

Lemma tree_root_pairs k l :
  length l = (2 ^ S k)%nat -> tree_root (S k) l = tree_root k (pairs l).
Proof.
  revert l. induction k as [|k IH]; intros l Hl.
  - destruct l as [|a [|b [|? ?]]]; done.
  - cbn [tree_root] in IH |- *. cbn [Nat.pow] in Hl.
    rewrite !IH by (rewrite ?length_take, ?length_drop, Hl; cbn [Nat.pow]; lia).
    cbn [Nat.pow]. by rewrite pairs_take, pairs_drop.
Qed.

Lemma rootInPlace_loop_ok k fuel l :
  length l = (2 ^ k)%nat -> (k < fuel)%nat -> rootInPlace_loop fuel l = Some (tree_root k l).
Proof.
  revert fuel l. induction k as [|k IH]; intros [|fuel] l Hl Hf; try lia; cbn [rootInPlace_loop].
  - destruct l as [|h [|? ?]]; done.
  - assert (length l = 2 * 2 ^ k)%nat as Hl' by (simpl in Hl; lia).
    pose proof (Nat.pow_nonzero 2 k). destruct (Nat.ltb_spec 1 (length l)); [|lia].
    replace (length l / 2)%nat with (2 ^ k)%nat by (rewrite Hl', Nat.mul_comm, Nat.div_mul; lia).
    destruct (hashPairs_spec l (2 ^ k) 0 l) as (level' & -> & Ht); [done|lia|done|done|].
    cbn [mbind option_bind]. simpl (0 + _)%nat in Ht.
    rewrite Ht, (take_ge (pairs l)) by (rewrite (pairs_length l (2 ^ k)) by done; lia).
    rewrite tree_root_pairs by done. apply IH; [by apply pairs_length|lia].
Qed.

Lemma rootInPlace_ok k l : length l = (2 ^ k)%nat -> rootInPlace l = Some (tree_root k l).
Proof.
  intros Hl. apply rootInPlace_loop_ok; [done|]. rewrite Hl.
  pose proof (Nat.pow_gt_lin_r 2 k). lia.
Qed.

Lemma padded_length pad l : (0 < length l)%nat -> length (padded pad l) = (2 ^ height (length l))%nat.
Proof.
  intros Hl. unfold padded. rewrite length_app, length_replicate.
  pose proof (height_bound _ Hl). lia.
Qed.

(** [RootWithPadHash] is the root of the least complete tree over the hashes, padded. *)
Lemma RootWithPadHash_ok hashes pad :
  hashes <> [] -> Z.of_nat (length hashes) <= 2 ^ 62 ->
  RootWithPadHash hashes pad = Some (tree_root (height (length hashes)) (padded pad hashes)).
Proof.
  intros Hne Hmax. assert (0 < length hashes)%nat as Hpos by (by destruct hashes; simpl in *; [|lia]).
  rewrite <- (rootInPlace_ok _ _ (padded_length pad hashes Hpos)).
  destruct hashes as [|h [|h' hs]]; [done| |].
  { symmetry. unfold padded. change (height (length [h])) with 0%nat. done. }
  unfold RootWithPadHash. set (hashes := h :: h' :: hs) in *. f_equal. unfold padded.
  pose proof (height_bound _ Hpos). destruct (isPowerOfTwo _) eqn:E.
  - apply isPowerOfTwo_height in E. rewrite E, Nat2Z.id. by rewrite take_ge by lia.
  - rewrite RoundUp_height, Nat2Z.id by done. by rewrite take_ge by lia.
Qed.

(** ** Layers *)

Section Chunks.
Context {A : Type} (n : nat) (Hn : (0 < n)%nat).
Implicit Types l : list A.

Lemma chunks_fuel f f' l : (length l <= f)%nat -> (length l <= f')%nat -> chunks_ f n l = chunks_ f' n l.
Proof.
  revert f' l. induction f as [|f IH]; intros f' [|x l] Hf Hf'; simpl in *; try lia.
  - by destruct f'.
  - by destruct f'.
  - destruct f' as [|f']; [lia|]. cbn [chunks_]. f_equal. apply IH;
      rewrite length_drop; simpl; lia.
Qed.

Lemma chunks_cons l : l <> [] -> chunks n l = take n l :: chunks n (drop n l).
Proof.
  intros Hl. unfold chunks. destruct l as [|x l]; [done|]. cbn [chunks_ length]. f_equal.
  apply chunks_fuel; [|done]. rewrite length_drop. simpl. lia.
Qed.

Lemma chunks_app l1 l2 k : length l1 = (k * n)%nat -> chunks n (l1 ++ l2) = chunks n l1 ++ chunks n l2.
Proof.
  revert l1. induction k as [|k IH]; intros l1 Hl; [by destruct l1|]. cbn [Nat.mul] in Hl.
  assert (l1 <> []) by (by destruct l1; simpl in *; [lia|]).
  rewrite (chunks_cons l1), (chunks_cons (l1 ++ l2)) by (by destruct l1).
  rewrite take_app_le, drop_app_le by lia. simpl. f_equal. apply IH. rewrite length_drop. lia.
Qed.

Lemma chunks_one l : l <> [] -> (length l <= n)%nat -> chunks n l = [l].
Proof. intros Hl Hle. rewrite chunks_cons by done. by rewrite take_ge, drop_ge by lia. Qed.

Lemma chunks_exact l : length l = n -> chunks n l = [l].
Proof. intros Hl. apply chunks_one; [|lia]. intros ->. simpl in Hl. lia. Qed.

Lemma chunks_length_exact l k : length l = (k * n)%nat -> length (chunks n l) = k.
Proof.
  revert l. induction k as [|k IH]; intros l Hl; [by destruct l|]. cbn [Nat.mul] in Hl.
  rewrite chunks_cons by (by destruct l; simpl in *; [lia|]). simpl. f_equal. apply IH.
  rewrite length_drop. lia.
Qed.

Lemma chunks_replicate k (x : A) : chunks n (replicate (k * n) x) = replicate k (replicate n x).
Proof.
  induction k as [|k IH]; [done|]. cbn [Nat.mul]. rewrite replicate_add.
  rewrite (chunks_app _ _ 1) by (rewrite length_replicate; lia).
  rewrite IH, chunks_one; rewrite ?length_replicate; [done| |lia]. by destruct n; [lia|].
Qed.

End Chunks.

Lemma tree_root_layers j k l :
  length l = (2 ^ (j + k))%nat ->
  tree_root (j + k) l = tree_root j (map (tree_root k) (chunks (2 ^ k) l)).
Proof.
  revert l. pose proof (Nat.pow_nonzero 2 k ltac:(lia)) as Hk.
  induction j as [|j IH]; intros l Hl; cbn [Nat.add tree_root].
  - rewrite chunks_one; [done|lia| |cbn [Nat.add] in Hl; lia]. intros ->. cbn in Hl. lia.
  - cbn [Nat.add Nat.pow] in Hl. pose proof (Nat.pow_add_r 2 j k) as Hp.
    rewrite !IH by (rewrite ?length_take, ?length_drop; lia).
    set (a := take (2 ^ (j + k)) l). set (b := drop (2 ^ (j + k)) l).
    assert (length a = (2 ^ j * 2 ^ k)%nat) as Ha by (unfold a; rewrite length_take; lia).
    assert (chunks (2 ^ k) l = chunks (2 ^ k) a ++ chunks (2 ^ k) b) as ->.
    { rewrite <- (chunks_app (2 ^ k) ltac:(lia) _ _ (2 ^ j)) by done. unfold a, b. by rewrite take_drop. }
    rewrite map_app, take_app_length', drop_app_length'; [done|..];
      rewrite length_map, (chunks_length_exact (2 ^ k) ltac:(lia) _ (2 ^ j)); done.
Qed.

(** The hash of one piece of [2 ^ k] blocks, the missing ones being zero. *)
Definition piece_root (k : nat) (l : list bytes) : bytes :=
  tree_root k (l ++ replicate (2 ^ k - length l) zeroHash).

(** The chunks of a padded layer are the padded chunks, and then padding. *)
Lemma chunks_padded n m z (l : list bytes) :
  (0 < n)%nat -> (length l <= m * n)%nat ->
  chunks n (l ++ replicate (m * n - length l) z) =
  map (fun c => c ++ replicate (n - length c) z) (chunks n l) ++
  replicate (m - length (chunks n l)) (replicate n z).
Proof.
  intros Hn. revert l. induction m as [|m IH]; intros l Hl.
  - assert (l = []) as -> by (by destruct l; simpl in *; [|lia]). done.
  - destruct (decide (l = [])) as [->|Hne].
    { simpl (length []). rewrite !Nat.sub_0_r. apply chunks_replicate. lia. }
    assert (0 < length l)%nat as Hpos by (by destruct l; simpl in *; [|lia]).
    rewrite (chunks_cons n Hn l Hne). cbn [map length app Nat.sub].
    destruct (decide (length l <= n)%nat) as [Hle|Hgt].
    + rewrite take_ge, drop_ge by lia. change (chunks n []) with (@nil (list bytes)).
      cbn [map length app]. rewrite Nat.sub_0_r. cbn [Nat.mul] in *.
      replace (n + m * n - length l)%nat with ((n - length l) + m * n)%nat by lia.
      rewrite replicate_add, app_assoc.
      rewrite (chunks_app n Hn _ _ 1) by (rewrite length_app, length_replicate; lia).
      rewrite chunks_replicate by done. rewrite chunks_one; [done|done|by destruct l|].
      rewrite length_app, length_replicate. lia.
    + assert (length (take n l) = n) as Ht by (rewrite length_take; lia).
      rewrite Ht, Nat.sub_diag, app_nil_r. cbn [Nat.mul] in *.
      rewrite <- IH by (rewrite length_drop; lia).
      rewrite (chunks_cons n Hn (l ++ _)) by (by destruct l).
      rewrite take_app_le, drop_app_le, length_drop by lia. do 3 f_equal. f_equal. lia.
Qed.

Lemma chunks_length_up n (l : list bytes) k :
  (0 < n)%nat -> (k * n < length l <= S k * n)%nat -> length (chunks n l) = S k.
Proof.
  intros Hn Hl. rewrite <- (take_drop (k * n) l).
  rewrite (chunks_app n Hn _ _ k) by (rewrite length_take; lia).
  rewrite length_app, (chunks_length_exact n Hn _ k) by (rewrite length_take; lia).
  rewrite chunks_one; [simpl; lia|done| |rewrite length_drop; lia].
  intros E%(f_equal length). rewrite length_drop in E. simpl in E. lia.
Qed.

(** Cutting a layer that needs more than one piece takes its height down by the piece's. *)
Lemma height_chunks k (l : list bytes) :
  (2 ^ k < length l)%nat -> (height (length (chunks (2 ^ k) l)) + k)%nat = height (length l) /\
  (length (chunks (2 ^ k) l) <= length l)%nat.
Proof.
  intros Hl. pose proof (Nat.pow_nonzero 2 k ltac:(lia)) as Hk.
  pose proof (Nat.div_mod_eq (length l - 1) (2 ^ k)) as Hd.
  pose proof (Nat.mod_upper_bound (length l - 1) (2 ^ k) Hk) as Hm.
  set (q := ((length l - 1) / 2 ^ k)%nat) in *.
  assert (0 < q)%nat as Hq by (apply Nat.div_str_pos; lia).
  assert (length (chunks (2 ^ k) l) = S q) as Hc by (apply chunks_length_up; simpl; lia).
  rewrite Hc. split; [|nia].
  apply Nat.le_antisymm.
  - destruct (decide (k <= height (length l))%nat) as [Hle|].
    + enough (height (S q) <= height (length l) - k)%nat by lia.
      apply height_least; [lia|]. pose proof (height_bound (length l) ltac:(lia)) as Hb.
      replace (height (length l)) with ((height (length l) - k) + k)%nat in Hb by lia.
      rewrite Nat.pow_add_r in Hb. nia.
    + pose proof (height_bound (length l) ltac:(lia)).
      pose proof (Nat.pow_le_mono_r 2 (height (length l)) k). lia.
  - apply height_least; [lia|]. rewrite Nat.pow_add_r.
    pose proof (height_bound (S q) ltac:(lia)). nia.
Qed.

Lemma RootWithPadHash_layer k l :
  (2 ^ k < length l)%nat -> Z.of_nat (length l) <= 2 ^ 62 ->
  RootWithPadHash (map (piece_root k) (chunks (2 ^ k) l)) (piece_root k []) =
  RootWithPadHash l zeroHash.
Proof.
  intros Hl Hmax. destruct (height_chunks k l Hl) as [Hh Hc].
  pose proof (Nat.pow_nonzero 2 k ltac:(lia)) as Hk.
  assert (l <> []) as Hne by (intros ->; simpl in Hl; lia).
  rewrite !RootWithPadHash_ok; [|done|done| |rewrite length_map; lia].
  2: { rewrite chunks_cons by (done || lia). done. }
  f_equal. rewrite length_map, <- Hh. unfold padded at 2. rewrite <- Hh.
  pose proof (height_bound (length l) ltac:(lia)) as Hb. rewrite <- Hh, Nat.pow_add_r in Hb.
  rewrite tree_root_layers by (rewrite length_app, length_replicate, Nat.pow_add_r; lia).
  rewrite Nat.pow_add_r, chunks_padded by (done || lia). f_equal.
  unfold padded. rewrite map_app, map_map, length_map. f_equal.
  change (map (tree_root k)) with (fmap (M := list) (tree_root k)). rewrite fmap_replicate.
  f_equal. unfold piece_root. simpl. by rewrite Nat.sub_0_r.
Qed.

(** C20: the root over a layer of piece hashes is the root over the leaves: for a file of more
    than one piece, padding the piece layer with the root of an all-zero piece gives the same
    root as padding the leaf layer with zero hashes. *)
Theorem root_of_piece_layer (k : nat) (l : list bytes) :
  (2 ^ k < length l)%nat -> Z.of_nat (length l) <= 2 ^ 62 ->
  RootWithPadHash (map (piece_root k) (chunks (2 ^ k) l)) (piece_root k []) =
  RootWithPadHash l zeroHash.
Proof. apply RootWithPadHash_layer. Qed.

Lemma root_of_piece_layer_witness :
  let l := map bs ["a"; "b"; "c"; "d"; "e"]%string in
  RootWithPadHash (map (piece_root 1) (chunks 2 l)) (piece_root 1 []) = RootWithPadHash l zeroHash.
Proof.
  apply (root_of_piece_layer 1 (map bs ["a"; "b"; "c"; "d"; "e"]%string)); [simpl; lia|done].
Defined.

Lemma height_pow2 k : height (2 ^ k) = k.
Proof. unfold height. rewrite pow2_Z, Z.log2_up_pow2 by lia. lia. Qed.

Lemma Root_ok hashes :
  hashes <> [] -> Z.of_nat (length hashes) <= 2 ^ 62 ->
  Root hashes = if decide (length hashes = 2 ^ height (length hashes))%nat
                then Some (tree_root (height (length hashes)) hashes) else None.
Proof.
  intros Hne Hmax. destruct hashes as [|h [|h' hs]]; [done|done|].
  unfold Root. set (hashes := h :: h' :: hs) in *.
  assert (0 < length hashes)%nat by (simpl; lia). rewrite RoundUp_height by done.
  destruct (decide (length hashes = 2 ^ height (length hashes))%nat) as [E|E].
  - rewrite <- E, Z.eqb_refl. simpl negb. cbv iota. by apply rootInPlace_ok.
  - destruct (Z.eqb_spec (Z.of_nat (length hashes)) (Z.of_nat (2 ^ height (length hashes)))); [lia|done].
Qed.

(** [Root] of a complete layer is the root of the binary tree over it, and a panic on any
    other number of hashes; [RootWithPadHash] is the root of the least complete tree that holds
    the hashes and the padding after them.  Both give the hash of nothing for no hashes. *)
Theorem roots_spec (hashes : list bytes) (pad : bytes) :
  Z.of_nat (length hashes) <= 2 ^ 62 ->
  Root hashes =
    match hashes with
    | [] => Some (Sum256 [])
    | _ => if decide (length hashes = 2 ^ height (length hashes))%nat
           then Some (tree_root (height (length hashes)) hashes) else None
    end /\
  RootWithPadHash hashes pad =
    match hashes with
    | [] => Some (Sum256 [])
    | _ => Some (tree_root (height (length hashes)) (padded pad hashes))
    end.
Proof.
  intros Hmax. split; destruct hashes; [done|by apply Root_ok|done|by apply RootWithPadHash_ok].
Qed.

Lemma roots_spec_witness :
  let hs := map bs ["a"; "b"; "c"]%string in
  Root hs = None /\
  RootWithPadHash hs (bs "p") =
    Some (Sum256 (Sum256 (bs "ab") ++ Sum256 (bs "cp"))).
Proof. apply (roots_spec (map bs ["a"; "b"; "c"]%string) (bs "p")). done. Defined.

(** ** The streaming hash *)

(** [h] has hashed the whole blocks of [data] and holds the rest in [nextBlock]. *)
Definition represents (h : Hash) (data : bytes) : Prop :=
  exists full rest k, data = full ++ rest /\ length full = (k * BlockSize)%nat /\
    (length rest < BlockSize)%nat /\ blocks h = map Sum256 (chunks BlockSize full) /\
    nextBlockWritten h = length rest /\ take (length rest) (nextBlock h) = rest /\
    length (nextBlock h) = BlockSize.

Lemma writeBlocks_ok fuel bl p n :
  (length p <= fuel)%nat ->
  exists full rest k, p = full ++ rest /\ length full = (k * BlockSize)%nat /\
    (length rest < BlockSize)%nat /\
    writeBlocks fuel bl p n = (bl ++ map Sum256 (chunks BlockSize full), rest, (n + length full)%nat).
Proof.
  pose proof BlockSize_pos as HB. revert bl p n. induction fuel as [|fuel IH]; intros bl p n Hf.
  { exists [], p, 0%nat. simpl. rewrite app_nil_r, Nat.add_0_r. split_and!; done || lia. }
  cbn [writeBlocks]. destruct (Nat.leb_spec BlockSize (length p)) as [Hle|Hlt].
  - destruct (IH (bl ++ [Sum256 (take BlockSize p)]) (drop BlockSize p) (n + BlockSize)%nat)
      as (full & rest & k & Hp & Hl & Hr & ->); [rewrite length_drop; lia|].
    assert (length (take BlockSize p) = BlockSize) as Ht by (rewrite length_take; lia).
    exists (take BlockSize p ++ full), rest, (S k). rewrite <- app_assoc, <- Hp, take_drop.
    rewrite length_app, Ht, (chunks_app _ HB _ _ 1) by lia.
    rewrite (chunks_exact _ HB _ Ht). rewrite map_app, app_assoc. split_and!; [done|simpl; lia|done|]. f_equal. lia.
  - exists [], p, 0%nat. simpl. rewrite app_nil_r, Nat.add_0_r. split_and!; done || lia.
Qed.

Lemma copy_at_0 b p : (length p <= length b)%nat -> copy_at 0 b p = (p ++ drop (length p) b, length p).
Proof.
  intros Hp. unfold copy_at. rewrite Nat.sub_0_r, Nat.min_r by done.
  by rewrite (take_ge p) by lia.
Qed.

Lemma writeRest_ok h full k p n :
  length full = (k * BlockSize)%nat -> length (nextBlock h) = BlockSize ->
  nextBlockWritten h = 0%nat -> blocks h = map Sum256 (chunks BlockSize full) ->
  represents (fst (writeRest h p n)) (full ++ p) /\ snd (writeRest h p n) = (n + length p)%nat.
Proof.
  intros Hk Hnb Hw Hb. pose proof BlockSize_pos as HB. unfold writeRest. rewrite Hb.
  destruct (writeBlocks_ok (length p) (map Sum256 (chunks BlockSize full)) p n (Nat.le_refl _))
    as (full' & rest & k' & -> & Hl & Hr & ->).
  rewrite <- map_app, <- (chunks_app _ HB _ _ k) by done.
  destruct (Nat.eqb_spec (length rest) 0) as [E|E]; cbn [negb fst snd].
  - assert (rest = []) as -> by (by destruct rest).
    split; [|rewrite length_app; simpl; lia]. exists (full ++ full'), [], (k + k')%nat.
    rewrite length_app, app_assoc. cbn. split_and!; done || lia.
  - rewrite copy_at_0 by lia. cbn [fst snd]. split; [|rewrite length_app; lia].
    exists (full ++ full'), rest, (k + k')%nat. rewrite length_app, app_assoc. cbn.
    split_and!; try (done || lia); [by rewrite take_app_length|].
    rewrite length_app, length_drop. lia.
Qed.

Lemma Write_ok h data p :
  represents h data -> represents (fst (Write h p)) (data ++ p) /\ snd (Write h p) = length p.
Proof.
  intros (full & rest & k & -> & Hk & Hr & Hb & Hw & Ht & Hn). pose proof BlockSize_pos as HB.
  unfold Write. destruct (Nat.eqb_spec (nextBlockWritten h) 0) as [E|E]; cbn [negb].
  { assert (rest = []) as -> by (by destruct rest; simpl in *; [|lia]). rewrite app_nil_r.
    by apply (writeRest_ok h full k p 0). }
  rewrite Hw in *. unfold copy_at.
  set (n1 := Nat.min (length (nextBlock h) - length rest) (length p)).
  set (nb := take (length rest) (nextBlock h) ++ take n1 p ++ drop (length rest + n1) (nextBlock h)).
  assert (length nb = BlockSize) as Hnb
    by (unfold nb; rewrite !length_app, !length_take, length_drop; lia).
  assert (n1 <= length p)%nat as Hn1 by (unfold n1; lia).
  destruct (Nat.eqb_spec (length rest + n1) BlockSize) as [Ef|Ef].
  - assert (nb = rest ++ take n1 p) as Enb.
    { unfold nb. rewrite Ht, (drop_ge (nextBlock h)) by lia. by rewrite app_nil_r. }
    assert (data_eq : (full ++ rest) ++ p = (full ++ nb) ++ drop n1 p)
      by (rewrite Enb, <- !app_assoc, take_drop; done).
    rewrite data_eq. replace (length p) with (n1 + length (drop n1 p))%nat by (rewrite length_drop; lia).
    apply (writeRest_ok _ (full ++ nb) (S k)); cbn [blocks nextBlock nextBlockWritten];
      [rewrite length_app; simpl; lia|done|done|].
    by rewrite (chunks_app _ HB _ _ k), map_app, <- Hb, (chunks_exact _ HB nb) by done.
  - assert (n1 = length p) as En by (unfold n1 in *; lia). rewrite En, drop_all.
    unfold writeRest. cbn [length writeBlocks]. cbn. split; [|done].
    exists full, (rest ++ p), k. cbn [blocks nextBlock nextBlockWritten].
    rewrite length_app, app_assoc. split_and!; try (done || lia).
    unfold nb. rewrite Ht, En, (take_ge p), app_assoc by lia. apply take_app_length'.
    by rewrite length_app.
Qed.

Lemma represents_new h : length (nextBlock h) = BlockSize -> represents (Reset_ h) [].
Proof. intros Hn. exists [], [], 0%nat. pose proof BlockSize_pos. split_and!; done. Qed.

Lemma represents_writes h data ps :
  represents h data -> represents (fold_left (fun h p => fst (Write h p)) ps h) (data ++ concat ps).
Proof.
  revert h data. induction ps as [|p ps IH]; intros h data Hh; simpl; [by rewrite app_nil_r|].
  rewrite app_assoc. apply IH. by apply Write_ok.
Qed.

Lemma curBlocks_ok h data : represents h data -> curBlocks h = leaves data.
Proof.
  intros (full & rest & k & -> & Hk & Hr & Hb & Hw & Ht & Hn). pose proof BlockSize_pos as HB.
  unfold curBlocks, nextBlockSum, leaves. rewrite (chunks_app _ HB _ _ k), map_app, <- Hb, Hw, Ht by done.
  destruct (Nat.eqb_spec (length rest) 0) as [E|E].
  - assert (rest = []) as -> by (by destruct rest). simpl. by rewrite app_nil_r.
  - rewrite chunks_one; [done|done| |lia]. by intros ->.
Qed.

(** C19: the streaming hash is a function of the bytes written: whatever the sizes of the writes,
    and whatever the hash was used for before a [Reset], each write consumes all of its argument
    and [Sum] appends the merkle root of the concatenation. *)
Theorem stream_root (h : Hash) (ps : list bytes) (b : bytes) :
  length (nextBlock h) = BlockSize -> Z.of_nat (length (leaves (concat ps))) <= 2 ^ 62 ->
  let h' := fold_left (fun h p => fst (Write h p)) ps (Reset_ h) in
  Sum h' b = Some (b ++ data_root (concat ps)) /\
  forall p, snd (Write h' p) = length p.
Proof.
  intros Hn Hmax h'. pose proof (represents_writes _ _ ps (represents_new h Hn)) as Hr.
  fold h' in Hr. simpl in Hr. split; [|intros p; by eapply Write_ok].
  unfold Sum, data_root. rewrite (curBlocks_ok _ _ Hr).
  destruct (leaves (concat ps)) as [|l ls] eqn:E; [done|].
  by rewrite RootWithPadHash_ok.
Qed.

Lemma stream_root_witness :
  let h' := fold_left (fun h p => fst (Write h p)) [bs "ab"; []; bs "c"] (Reset_ NewHash) in
  Sum h' (bs "x") = Some (bs "x" ++ data_root (bs "abc")) /\ forall p, snd (Write h' p) = length p.
Proof.
  apply (stream_root NewHash [bs "ab"; []; bs "c"] (bs "x")).
  - apply length_replicate.
  - vm_compute. discriminate.
Defined.

(** [SumMinLength] with the piece length gives the hash of a piece layer: the root of the
    subtree of that height over the leaves, missing leaves being zero hashes. *)
Theorem sumMinLength_piece (h : Hash) (data b : bytes) (k : nat) :
  represents h data -> (length (leaves data) <= 2 ^ k)%nat -> (k <= 40)%nat ->
  SumMinLength h b (Z.of_nat (2 ^ k * BlockSize)) = Some (b ++ piece_root k (leaves data)).
Proof.
  intros Hr Hl Hk. unfold SumMinLength. rewrite (curBlocks_ok _ _ Hr). pose proof BlockSize_pos.
  assert (Z.quot (Z.of_nat (2 ^ k * BlockSize) + Z.of_nat BlockSize - 1) (Z.of_nat BlockSize) =
          Z.of_nat (2 ^ k)) as ->.
  { rewrite Z.quot_div_nonneg by lia. symmetry. apply (Z.div_unique _ _ _ (Z.of_nat BlockSize - 1)); lia. }
  assert (Z.of_nat (2 ^ k) <= 2 ^ 62) as Hp.
  { rewrite pow2_Z. apply Z.pow_le_mono_r; lia. }
  set (bl := if _ <? _ then _ else _).
  assert (bl = leaves data ++ replicate (2 ^ k - length (leaves data)) zeroHash) as ->.
  { unfold bl. destruct (Z.ltb_spec (Z.of_nat (length (leaves data))) (Z.of_nat (2 ^ k))).
    - by rewrite Nat2Z.id.
    - replace (2 ^ k - length (leaves data))%nat with 0%nat by lia. by rewrite app_nil_r. }
  assert (length (leaves data ++ replicate (2 ^ k - length (leaves data)) zeroHash) = 2 ^ k)%nat as Hlen
    by (rewrite length_app, length_replicate; lia).
  pose proof (Nat.pow_nonzero 2 k ltac:(lia)).
  rewrite RootWithPadHash_ok; [|intros E; rewrite E in Hlen; simpl in Hlen; lia|lia].
  unfold padded. rewrite Hlen, height_pow2, Nat.sub_diag, app_nil_r. done.
Qed.

Lemma sumMinLength_piece_witness :
  SumMinLength (fst (Write NewHash (bs "tail"))) [] (Z.of_nat (2 ^ 1 * BlockSize)) =
  Some (piece_root 1 (leaves (bs "tail"))).
Proof.
  apply (sumMinLength_piece (fst (Write NewHash (bs "tail"))) (bs "tail") [] 1).
  - refine (proj1 (Write_ok (Reset_ NewHash) [] (bs "tail") _)).
    apply represents_new, length_replicate.
  - apply Nat.leb_le. vm_compute. reflexivity.
  - lia.
Defined.
