(* ===== verification/Sha1.v ===== *)
(** * SHA-1 ([crypto/sha1])

    The hash of version 1 pieces and info dictionaries, as FIPS 180-4 defines it and the Go
    standard library implements it.  The development uses only that a sum has 20 bytes. *)

From S2P Require Import Prelude Sha256.
Local Open Scope Z_scope.

Definition H160 : list Z := [0x67452301; 0xefcdab89; 0x98badcfe; 0x10325476; 0xc3d2e1f0].

Definition rotl (n x : Z) : Z := rotr (32 - n) x.

(** One more word of the message schedule, which is kept latest first. *)
Definition extend1 (w : list Z) : list Z :=
  rotl 1 (Z.lxor (Z.lxor (nth 2 w 0) (nth 7 w 0)) (Z.lxor (nth 13 w 0) (nth 15 w 0))) :: w.

Definition schedule1 (block : bytes) : list Z :=
  rev (Nat.iter 64 extend1 (rev (words 16 block))).

(** The function and the constant of round [t]. *)
Definition ft (t : Z) (b c d : Z) : Z :=
  if t <? 20 then Z.lor (Z.land b c) (Z.land (not32 b) d)
  else if t <? 40 then xor3 b c d
  else if t <? 60 then Z.lor (Z.land b c) (Z.lor (Z.land b d) (Z.land c d))
  else xor3 b c d.

Definition kt (t : Z) : Z :=
  if t <? 20 then 0x5a827999 else if t <? 40 then 0x6ed9eba1
  else if t <? 60 then 0x8f1bbcdc else 0xca62c1d6.

Definition round1 (st : list Z) (tw : nat * Z) : list Z :=
  match st with
  | [a; b; c; d; e] =>
      let t := Z.of_nat tw.1 in
      [add32 (add32 (rotl 5 a) (ft t b c d)) (add32 (add32 e (kt t)) tw.2); a; rotl 30 b; c; d]
  | _ => st
  end.

Definition compress1 (st : list Z) (block : bytes) : list Z :=
  zip_with add32 st (fold_left round1 (zip (seq 0 80) (schedule1 block)) st).

Fixpoint digest1 (n : nat) (st : list Z) (m : bytes) : list Z :=
  match n with
  | O => st
  | S n' => digest1 n' (compress1 st (take 64 m)) (drop 64 m)
  end.

(** [sha1.Sum]; the padding is that of SHA-256. *)
Definition Sum1 (m : bytes) : bytes :=
  let p := pad256 m in
  concat (map (be_put 4) (digest1 (length p / 64) H160 p)).

Lemma round1_length st tw : length (round1 st tw) = length st.
Proof. unfold round1. do 5 (destruct st as [|? st]; [done|]). by destruct st. Qed.

Lemma compress1_length st block : length (compress1 st block) = length st.
Proof.
  unfold compress1. rewrite length_zip_with_l; [done|].
  enough (forall l s, length (fold_left round1 l s) = length s) as -> by done.
  induction l as [|kw l IH]; intros s; [done|]. simpl. by rewrite IH, round1_length.
Qed.

Lemma digest1_length n st m : length (digest1 n st m) = length st.
Proof. revert st m. induction n; intros; [done|]. simpl. by rewrite IHn, compress1_length. Qed.

Lemma Sum1_length m : length (Sum1 m) = 20%nat.
Proof. unfold Sum1. cbv zeta. by rewrite be_words_length, digest1_length. Qed.

Example Sum1_abc :
  Sum1 (bs "abc") = concat (map (be_put 4)
    [0xa9993e36; 0x4706816a; 0xba3e2571; 0x7850c26c; 0x9cd0d89d]).
Proof. vm_compute. reflexivity. Qed.

Example Sum1_two_blocks :
  Sum1 (bs "abcdbcdecdefdefgefghfghighijhijkijkljklmklmnlmnomnopnopq") = concat (map (be_put 4)
    [0x84983e44; 0x1c3bd26e; 0xbaae4aa1; 0xf95129e5; 0xe54670f1]).
Proof. vm_compute. reflexivity. Qed.

#[export] Hint Rewrite Sum1_length : torrent.
#[global] Opaque Sum1.
