(* ===== verification/Rc4.v ===== *)
(** * RC4 ([crypto/rc4])

    The stream cipher of the standard library that encrypted connections use: the state is a
    permutation of the bytes and two indexes, all [uint8] sums wrap around.  What the development
    uses of it is that the stream does not depend on what is encrypted, and that encrypting twice
    from the same state gives the text back. *)

From S2P Require Import Prelude.
Local Open Scope Z_scope.

Record Cipher := { rc4_s : list Z; rc4_i : Z; rc4_j : Z }.

Definition at_ (s : list Z) (i : Z) : Z := nth (Z.to_nat i) s 0.

(** [s[i], s[j] = s[j], s[i]] *)
Definition swap (s : list Z) (i j : Z) : list Z :=
  <[Z.to_nat j := at_ s i]> (<[Z.to_nat i := at_ s j]> s).

Fixpoint schedule_loop (n : nat) (i j : Z) (key : bytes) (s : list Z) : list Z :=
  match n with
  | O => s
  | S n' =>
      let j := wrapU 8 (j + at_ s i + b2z (nth (Z.to_nat (i mod Z.of_nat (length key))) key x00)) in
      schedule_loop n' (i + 1) j key (swap s i j)
  end.

(** [None] is [KeySizeError]. *)
Definition NewCipher (key : bytes) : option Cipher :=
  if ((length key <? 1) || (256 <? length key))%nat then None
  else Some {| rc4_s := schedule_loop 256 0 0 key (seqZ 0 256); rc4_i := 0; rc4_j := 0 |}.

(** A byte of the stream, and the state after it. *)
Definition keyByte (c : Cipher) : byte * Cipher :=
  let i := wrapU 8 (rc4_i c + 1) in
  let x := at_ (rc4_s c) i in
  let j := wrapU 8 (rc4_j c + x) in
  let y := at_ (rc4_s c) j in
  let s := swap (rc4_s c) i j in
  (z2b (at_ s (wrapU 8 (x + y))), {| rc4_s := s; rc4_i := i; rc4_j := j |}).

Definition xorb8 (a b : byte) : byte := z2b (Z.lxor (b2z a) (b2z b)).

(** [XORKeyStream], with a destination that is long enough. *)
Fixpoint XORKeyStream (c : Cipher) (src : bytes) : bytes * Cipher :=
  match src with
  | [] => ([], c)
  | v :: src' =>
      let '(k, c) := keyByte c in
      let '(dst, c) := XORKeyStream c src' in
      (xorb8 v k :: dst, c)
  end.

(** The state after [n] bytes. *)
Fixpoint skip (n : nat) (c : Cipher) : Cipher :=
  match n with O => c | S n' => skip n' (keyByte c).2 end.

Lemma XORKeyStream_cons c v src :
  XORKeyStream c (v :: src) = (xorb8 v (keyByte c).1 :: (XORKeyStream (keyByte c).2 src).1, (XORKeyStream (keyByte c).2 src).2).
Proof. cbn [XORKeyStream]. destruct (keyByte c) as [k c']. cbn [fst snd]. by destruct (XORKeyStream c' src). Qed.

(** What is left of the state is only how much was encrypted. *)
Lemma XORKeyStream_state c src : (XORKeyStream c src).2 = skip (length src) c.
Proof. revert c. induction src as [|v src IH]; intros c; [done|]. rewrite XORKeyStream_cons. apply IH. Qed.

Lemma XORKeyStream_length c src : length (XORKeyStream c src).1 = length src.
Proof. revert c. induction src as [|v src IH]; intros c; [done|]. rewrite XORKeyStream_cons. simpl. by rewrite IH. Qed.

Lemma XORKeyStream_app c a b :
  (XORKeyStream c (a ++ b)).1 = (XORKeyStream c a).1 ++ (XORKeyStream (skip (length a) c) b).1.
Proof.
  revert c. induction a as [|v a IH]; intros c; [done|]. rewrite <-app_comm_cons, !XORKeyStream_cons.
  cbn [fst skip length app]. by rewrite IH.
Qed.

Lemma skip_add n m c : skip (n + m) c = skip m (skip n c).
Proof. revert c. induction n as [|n IH]; intros c; [done|]. apply IH. Qed.

Lemma xorb8_twice v k : xorb8 (xorb8 v k) k = v.
Proof.
  unfold xorb8. apply b2z_inj. rewrite !b2z_z2b.
  pose proof (b2z_range v) as Hv. pose proof (b2z_range k) as Hk.
  assert (forall z, 0 <= z < 256 -> forall n, 8 <= n -> Z.testbit z n = false) as Hsmall.
  { intros z Hz n Hn. apply Z.bits_above_log2; [lia|]. destruct (decide (z = 0)) as [->|]; [simpl; lia|].
    apply Z.log2_lt_pow2; [lia|]. apply Z.lt_le_trans with (2 ^ 8); [lia|]. apply Z.pow_le_mono_r; lia. }
  apply Z.bits_inj'. intros n Hn. change 256 with (2 ^ 8). destruct (decide (n < 8)).
  - rewrite !Z.mod_pow2_bits_low, Z.lxor_spec, Z.mod_pow2_bits_low, Z.lxor_spec by lia.
    by destruct (Z.testbit (b2z v) n), (Z.testbit (b2z k) n).
  - rewrite Z.mod_pow2_bits_high by lia. symmetry. apply Hsmall; lia.
Qed.

Lemma XORKeyStream_twice c src : (XORKeyStream c (XORKeyStream c src).1).1 = src.
Proof.
  revert c. induction src as [|v src IH]; intros c; [done|].
  rewrite XORKeyStream_cons. cbn [fst]. rewrite XORKeyStream_cons. cbn [fst]. by rewrite IH, xorb8_twice.
Qed.

(** Two of the test vectors of [crypto/rc4]. *)
Example rc4_key : (fst ∘ (fun c => XORKeyStream c (replicate 10 x00))) <$> NewCipher (bs "Key") =
  Some (map z2b [0xeb; 0x9f; 0x77; 0x81; 0xb7; 0x34; 0xca; 0x72; 0xa7; 0x19]).
Proof. vm_compute. reflexivity. Qed.

Example rc4_wiki : (fst ∘ (fun c => XORKeyStream c (replicate 6 x00))) <$> NewCipher (bs "Wiki") =
  Some (map z2b [0x60; 0x44; 0xdb; 0x6d; 0x41; 0xb7]).
Proof. vm_compute. reflexivity. Qed.

#[export] Hint Rewrite XORKeyStream_length : torrent.
#[global] Opaque keyByte.
