(* ===== verification/Metainfo.v ===== *)
(** * Torrent metadata ([src/metainfo], and [validateInfo] of [src/misc.go])

    The info dictionary: the files it lists, laid out in the torrent's byte space (consecutively
    for version 1, each starting on a piece boundary for version 2), the pieces that space is cut
    into, and the checks made of an info from the network.  A panic is [None], or [false] in the
    second component of a sequence that stopped with one.  A Go map is an association list in
    some iteration order. *)

From S2P Require Import Prelude Sha256 Sha1 Merkle Segments.
Local Open Scope Z_scope.
Local Open Scope go_scope.

(** ** Data ([info.go], [fileinfo.go], [file-tree.go], [bep47.go]) *)

Record ExtendedFileAttrs := { Attr : bytes; SymlinkPath : list bytes; Sha1_ : bytes }.

Record FileInfo := {
  fi_Length : Z;
  fi_Path : list bytes;
  fi_PathUtf8 : list bytes;
  fi_Attrs : ExtendedFileAttrs;
  fi_PiecesRoot : option bytes;
  fi_TorrentOffset : Z;
}.

Record FileTreeFile := { ft_Length : Z; ft_PiecesRoot : bytes }.

Inductive FileTree := MkFileTree (File : FileTreeFile) (Dir : list (bytes * FileTree)).

Definition File (ft : FileTree) : FileTreeFile := let '(MkFileTree f _) := ft in f.
Definition Dir (ft : FileTree) : list (bytes * FileTree) := let '(MkFileTree _ d) := ft in d.

(** [Files] is [None] when nil. *)
Record Info := {
  PieceLength : Z;
  Pieces : bytes;
  Name : bytes;
  NameUtf8 : bytes;
  InfoLength : Z;
  InfoAttrs : ExtendedFileAttrs;
  Private : option bool;
  Source : bytes;
  Files : option (list FileInfo);
  MetaVersion : Z;
  InfoFileTree : FileTree;
}.

Definition noAttrs : ExtendedFileAttrs := {| Attr := []; SymlinkPath := []; Sha1_ := [] |}.

Definition filesOf (info : Info) : list FileInfo := default [] (Files info).

(** ** File trees *)

Definition FileTreePropertiesKey : bytes := [].

Definition NumEntries (ft : FileTree) : Z :=
  Z.of_nat (length (Dir ft)) -
  (if existsb (fun kv => bool_decide (kv.1 = FileTreePropertiesKey)) (Dir ft) then 1 else 0).

Definition IsDir (ft : FileTree) : bool := negb (NumEntries ft =? 0).

(** The entries in the order of [orderedKeys]. *)
Definition entry_le {B} (x y : bytes * B) : Prop := by_key fst x y.
#[global] Instance entry_le_dec {B} (x y : bytes * B) : Decision (entry_le x y).
Proof. unfold entry_le, by_key. apply _. Defined.

Definition ordered {B} (dir : list (bytes * B)) : list (bytes * B) := merge_sort entry_le dir.

(** [copy] into an array of 32 bytes; a shorter string panics, a longer one is cut. *)
Definition PiecesRootAsByteArray (f : FileTreeFile) : option (option bytes) :=
  match ft_PiecesRoot f with
  | [] => Some None
  | r => if (Nat.min 32 (length r) =? 32)%nat then Some (Some (take 32 r)) else None
  end.

(** The files yielded, and the offset afterwards, [None] once the sequence has panicked. *)
Notation files_iter := (list FileInfo * option Z)%type.

Fixpoint visit (path : list bytes) (subs : list (bytes * (list bytes -> Z -> files_iter)))
    (offset : Z) : files_iter :=
  match subs with
  | [] => ([], Some offset)
  | (key, sub) :: subs' =>
      if bool_decide (key = FileTreePropertiesKey) then visit path subs' offset
      else
        match sub (path ++ [key]) offset with
        | (fs, Some offset') =>
            let '(fs', end_) := visit path subs' offset' in (fs ++ fs', end_)
        | (fs, None) => (fs, None)
        end
  end.

Fixpoint upvertedFilesInner (pieceLength : Z) (ft : FileTree) (path : list bytes) (offset : Z) :
    files_iter :=
  match ft with
  | MkFileTree f dir =>
      if IsDir ft then
        visit path (ordered (map (fun kv => (kv.1, upvertedFilesInner pieceLength kv.2)) dir)) offset
      else
        match PiecesRootAsByteArray f with
        | None => ([], None)
        | Some root =>
            ([{| fi_Length := ft_Length f; fi_Path := path; fi_PathUtf8 := path;
                 fi_Attrs := noAttrs; fi_PiecesRoot := root; fi_TorrentOffset := offset |}],
             n ← quot64 (ft_Length f +! pieceLength -! 1) pieceLength;
             Some (offset +! n *! pieceLength))
        end
  end.

Definition upvertedFiles (ft : FileTree) (pieceLength : Z) : list FileInfo * bool :=
  let '(fs, end_) := upvertedFilesInner pieceLength ft [] 0 in
  (fs, if end_ then true else false).

(** [FileTree.Walk]: the nodes visited, parents first, with their paths. *)
Fixpoint Walk (path : list bytes) (ft : FileTree) : list (list bytes * FileTree) :=
  (path, ft) ::
  match ft with
  | MkFileTree _ dir =>
      concat (map (fun kv =>
        if bool_decide (kv.1 = FileTreePropertiesKey) then []
        else Walk (path ++ [kv.1]) kv.2) dir)
  end.

Inductive ValidateError :=
| BadPiecesRootLength (path : list bytes) (n : nat)
| EmptyFileHasPiecesRoot (path : list bytes) (n : nat).

Definition validateNode (path : list bytes) (node : FileTree) : option ValidateError :=
  if IsDir node then None
  else
    let n := length (ft_PiecesRoot (File node)) in
    if (0 <? ft_Length (File node)) && negb (n =? 32)%nat then Some (BadPiecesRootLength path n)
    else if (ft_Length (File node) =? 0) && negb (n =? 0)%nat
    then Some (EmptyFileHasPiecesRoot path n)
    else None.

(** The first error of the walk. *)
Fixpoint first_error {A E} (f : A -> option E) (l : list A) : option E :=
  match l with
  | [] => None
  | x :: l' => match f x with Some e => Some e | None => first_error f l' end
  end.

Definition Validate (ft : FileTree) : option ValidateError :=
  first_error (fun pn => validateNode pn.1 pn.2) (Walk [] ft).

(** ** Infos ([info.go]) *)

Definition HasV2 (info : Info) : bool := MetaVersion info =? 2.

Definition HasV1 (info : Info) : bool :=
  (MetaVersion info =? 0) || (MetaVersion info =? 1) || (if Files info then true else false) ||
  negb (InfoLength info =? 0) || negb (length (Pieces info) =? 0)%nat.

Definition set_offset (fi : FileInfo) (offset : Z) : FileInfo :=
  {| fi_Length := fi_Length fi; fi_Path := fi_Path fi; fi_PathUtf8 := fi_PathUtf8 fi;
     fi_Attrs := fi_Attrs fi; fi_PiecesRoot := fi_PiecesRoot fi; fi_TorrentOffset := offset |}.

Fixpoint withOffsets (offset : Z) (files : list FileInfo) : list FileInfo :=
  match files with
  | [] => []
  | fi :: files' => set_offset fi offset :: withOffsets (offset +! fi_Length fi) files'
  end.

Definition UpvertedV1Files (info : Info) : list FileInfo :=
  match filesOf info with
  | [] => [{| fi_Length := InfoLength info; fi_Path := []; fi_PathUtf8 := []; fi_Attrs := noAttrs;
              fi_PiecesRoot := None; fi_TorrentOffset := 0 |}]
  | fs => withOffsets 0 fs
  end.

Definition UpvertedFilesIter (info : Info) : list FileInfo * bool :=
  if HasV2 info then upvertedFiles (InfoFileTree info) (PieceLength info)
  else (UpvertedV1Files info, true).

(** [slices.Collect] *)
Definition UpvertedFiles (info : Info) : option (list FileInfo) :=
  let '(fs, ok) := UpvertedFilesIter info in if ok then Some fs else None.

Definition sumLengths (files : list FileInfo) : Z :=
  fold_left (fun ret fi => ret +! fi_Length fi) files 0.

Definition TotalLength (info : Info) : option Z := sumLengths <$> UpvertedFiles info.

Fixpoint sumPieces (pieceLength : Z) (nodes : list (list bytes * FileTree)) (num : Z) : option Z :=
  match nodes with
  | [] => Some num
  | (_, ft) :: nodes' =>
      n ← quot64 (ft_Length (File ft) +! pieceLength -! 1) pieceLength;
      sumPieces pieceLength nodes' (num +! n)
  end.

Definition NumPieces (info : Info) : option Z :=
  if HasV2 info then sumPieces (PieceLength info) (Walk [] (InfoFileTree info)) 0
  else Some (Z.of_nat (length (Pieces info)) / 20).

Definition Info_IsDir (info : Info) : bool :=
  if HasV2 info then IsDir (InfoFileTree info) else negb (length (filesOf info) =? 0)%nat.

Definition BestName (info : Info) : bytes :=
  match NameUtf8 info with [] => Name info | n => n end.

Definition FileSegmentsIndex (info : Info) : option Index :=
  let '(fs, ok) := UpvertedFilesIter info in
  if ok then
    Some (NewIndexFromSegments
      (map (fun fi => {| Start := fi_TorrentOffset fi; Length := fi_Length fi |}) fs))
  else None.

(** ** Files in pieces ([fileinfo.go]) *)

Definition BestPath (fi : FileInfo) : list bytes :=
  match fi_PathUtf8 fi with [] => fi_Path fi | p => p end.

(** [strings.Join] *)
Fixpoint strings_Join (l : list bytes) (sep : bytes) : bytes :=
  match l with
  | [] => []
  | [x] => x
  | x :: l' => x ++ sep ++ strings_Join l' sep
  end.

Definition DisplayPath (fi : FileInfo) (info : Info) : bytes :=
  if Info_IsDir info then strings_Join (BestPath fi) (bs "/") else BestName info.

Definition BeginPieceIndex (fi : FileInfo) (pieceLength : Z) : option Z :=
  if pieceLength =? 0 then Some 0 else quot64 (fi_TorrentOffset fi) pieceLength.

Definition EndPieceIndex (fi : FileInfo) (pieceLength : Z) : option Z :=
  if pieceLength =? 0 then Some 0
  else quot64 (fi_TorrentOffset fi +! fi_Length fi +! pieceLength -! 1) pieceLength.

(** ** Pieces ([piece.go]) *)

(** The loop of [Piece.Length] over a version 2 torrent's files; [offset] is its own count of the
    file's offset.  The result is [lastFileEnd]. *)
Fixpoint lastFileEnd (pieceLength i : Z) (fs : list FileInfo) (ok : bool) (offset last : Z) :
    option Z :=
  match fs with
  | [] => if ok then Some last else None
  | fi :: fs' =>
      if negb (offset =? fi_TorrentOffset fi) then None
      else
        fileStartPiece ← quot64 offset pieceLength;
        if i <? fileStartPiece then Some last
        else
          let last := offset +! fi_Length fi in
          n ← quot64 (last +! pieceLength -! 1) pieceLength;
          lastFileEnd pieceLength i fs' ok (n *! pieceLength) last
  end.

Definition V1Length (info : Info) (i : Z) : option Z :=
  num ← NumPieces info;
  let lastPiece := num -! 1 in
  if (0 <=? i) && (i <? lastPiece) then Some (PieceLength info)
  else if (0 <=? lastPiece) && (i =? lastPiece) then
    lastFile ← last (UpvertedV1Files info);
    let length := fi_TorrentOffset lastFile +! fi_Length lastFile -! i *! PieceLength info in
    if (length <=? 0) || (PieceLength info <? length) then None else Some length
  else None.

(** [Piece.Length] *)
Definition PieceLen (info : Info) (i : Z) : option Z :=
  if HasV2 info then
    let pieceLength := PieceLength info in
    let '(fs, ok) := upvertedFiles (InfoFileTree info) pieceLength in
    last ← lastFileEnd pieceLength i fs ok 0 0;
    let ret := Z.min (last -! i *! pieceLength) pieceLength in
    if ret <=? 0 then None else Some ret
  else V1Length info i.

(** [Piece.Offset] *)
Definition PieceOffset (info : Info) (i : Z) : Z := i *! PieceLength info.

(** [Piece.V1Hash]: slicing [Pieces] out of range panics; [Some None] is an absent option. *)
Definition V1Hash (info : Info) (i : Z) : option (option bytes) :=
  if negb (HasV1 info) then Some None
  else
    let a := i *! 20 in
    let b := (i +! 1) *! 20 in
    if (0 <=? a) && (a <=? b) && (b <=? Z.of_nat (length (Pieces info)))
    then Some (Some (take 20 (drop (Z.to_nat a) (Pieces info)))) else None.

(** ** Choosing a piece length ([piece-length.go]) *)

Definition minimumPieceLength : Z := 16 * 1024.
Definition targetPieceCountLog2 : Z := 10.
Definition targetPieceCountMin : Z := Z.shiftl 1 targetPieceCountLog2.
Definition targetPieceCountMax : Z := Z.shiftl targetPieceCountMin 1.

Record ChoosePieceLengthOpts := {
  opt_TotalLength : Z;
  MinPieceSize : Z;
  MaxPieceSize : Z;
  SoftMinPieceCount : Z;
  SoftMaxPieceCount : Z;
}.

(** The loop; [None] is a loop that is still running. *)
Fixpoint doublePieceLength (fuel : nat) (maxSize softMin softMax pieceLength pieces : Z) : option Z :=
  match fuel with
  | O => None
  | S fuel' =>
      if softMax <=? pieces then
        if negb (maxSize =? 0) && (maxSize <? wrapS 64 (Z.shiftl pieceLength 1))
        then Some pieceLength
        else if negb (softMin =? 0) && (Z.shiftr pieces 1 <? softMin) then Some pieceLength
        else doublePieceLength fuel' maxSize softMin softMax
               (wrapS 64 (Z.shiftl pieceLength 1)) (Z.shiftr pieces 1)
      else Some pieceLength
  end.

Definition orDefault (z d : Z) : Z := if z =? 0 then d else z.

(** The piece count has at most 63 bits to lose. *)
Definition ChoosePieceLengthEx (opts : ChoosePieceLengthOpts) : option Z :=
  let minSize := orDefault (MinPieceSize opts) minimumPieceLength in
  let softMax := orDefault (SoftMaxPieceCount opts) targetPieceCountMax in
  let softMin := orDefault (SoftMinPieceCount opts) (Z.quot softMax 2) in
  pieces ← quot64 (opt_TotalLength opts) minSize;
  doublePieceLength 65 (MaxPieceSize opts) softMin softMax minSize pieces.

Definition ChoosePieceLength (totalLength : Z) : option Z :=
  ChoosePieceLengthEx {| opt_TotalLength := totalLength; MinPieceSize := 0; MaxPieceSize := 0;
                         SoftMinPieceCount := 0; SoftMaxPieceCount := 0 |}.

(** ** Hashing files into pieces ([pieces.go], [info.go]) *)

(** A reader: the bytes it gives, and whether an error other than [io.EOF] ends them. *)
Record reader := { r_data : bytes; r_err : bool }.

(** [GeneratePieces(r, pieceLength, b)]: the piece hashes and whether there was an error; [None]
    is a loop that is still running. *)
Fixpoint GeneratePieces_loop (fuel : nat) (r : reader) (pieceLength : Z) (b : bytes) :
    option (bytes * bool) :=
  match fuel with
  | O => None
  | S fuel' =>
      let n := Z.to_nat pieceLength in
      let piece := take n (r_data r) in
      let r' := {| r_data := drop n (r_data r); r_err := r_err r |} in
      let b := if (0 <? length piece)%nat then b ++ Sum1 piece else b in
      if Z.of_nat (length piece) <? pieceLength then Some (b, r_err r)
      else GeneratePieces_loop fuel' r' pieceLength b
  end.

Definition GeneratePieces (r : reader) (pieceLength : Z) (b : bytes) : option (bytes * bool) :=
  GeneratePieces_loop (S (length (r_data r))) r pieceLength b.

(** [Info.writeFiles]: what goes into the pipe, and whether it ends with an error.  [open] gives
    a file's contents, or [None]. *)
Fixpoint writeFiles (open : FileInfo -> option bytes) (files : list FileInfo) : bytes * bool :=
  match files with
  | [] => ([], false)
  | fi :: files' =>
      match open fi with
      | None => ([], true)
      | Some content =>
          let data := take (Z.to_nat (fi_Length fi)) content in
          if negb ((if fi_Length fi <? 0 then 0 else Z.of_nat (length data)) =? fi_Length fi)
          then (data, true)
          else let '(rest, err) := writeFiles open files' in (data ++ rest, err)
      end
  end.

Inductive InfoError := ZeroPieceLength | ReadError.

Definition set_Pieces (info : Info) (p : bytes) : Info :=
  {| PieceLength := PieceLength info; Pieces := p; Name := Name info; NameUtf8 := NameUtf8 info;
     InfoLength := InfoLength info; InfoAttrs := InfoAttrs info; Private := Private info;
     Source := Source info; Files := Files info; MetaVersion := MetaVersion info;
     InfoFileTree := InfoFileTree info |}.

(** [Info.GeneratePieces]: the info with its [Pieces] set, and the error. *)
Definition Info_GeneratePieces (open : FileInfo -> option bytes) (info : Info) :
    option (Info * option InfoError) :=
  if PieceLength info =? 0 then Some (info, Some ZeroPieceLength)
  else
    files ← UpvertedFiles info;
    let '(data, err) := writeFiles open files in
    '(p, err) ← GeneratePieces {| r_data := data; r_err := err |} (PieceLength info) [];
    Some (set_Pieces info p, if (err : bool) then Some ReadError else None).

(** ** Piece layers ([bep52.go]) *)

(** Making a slice of negative length panics. *)
Definition HashForPiecePad (pieceLength : Z) : option bytes :=
  let blocksPerPiece := Z.quot pieceLength (Z.shiftl 1 14) in
  if blocksPerPiece <? 0 then None else Root (replicate (Z.to_nat blocksPerPiece) zeroHash).

Inductive LayersError := NoPieceLayers (path : list bytes) | BadRoot (path : list bytes) (root : bytes).

(** What the walk does at a node: [None] is a panic. *)
Definition validateNodeLayers (pieceLayers : gmap bytes bytes) (pieceLength : Z)
    (path : list bytes) (ft : FileTree) : option (option LayersError) :=
  if IsDir ft then Some None
  else
    piecesRoot ← PiecesRootAsByteArray (File ft);
    match piecesRoot with
    | None => Some None
    | Some value =>
        match pieceLayers !! value with
        | None => Some (if pieceLength <? ft_Length (File ft) then Some (NoPieceLayers path) else None)
        | Some filePieceLayers =>
            pad ← HashForPiecePad pieceLength;
            root ← RootWithPadHash (CompactLayerToSliceHashes filePieceLayers) pad;
            Some (if bool_decide (root = value) then None else Some (BadRoot path root))
        end
    end.

Fixpoint walkLayers (pieceLayers : gmap bytes bytes) (pieceLength : Z)
    (nodes : list (list bytes * FileTree)) : option (option LayersError) :=
  match nodes with
  | [] => Some None
  | (path, ft) :: nodes' =>
      err ← validateNodeLayers pieceLayers pieceLength path ft;
      match err with
      | Some e => Some (Some e)
      | None => walkLayers pieceLayers pieceLength nodes'
      end
  end.

Definition ValidatePieceLayers (pieceLayers : gmap bytes bytes) (fileTree : FileTree)
    (pieceLength : Z) : option (option LayersError) :=
  walkLayers pieceLayers pieceLength (Walk [] fileTree).

(** ** Checking an info ([validateInfo]) *)

Inductive validateInfoError :=
| BadFileTree (e : ValidateError)
| BadPiecesLength
| ZeroPieceLengthInfo
| PieceCountAtOdds.

Definition validateInfo (info : Info) : option (option validateInfoError) :=
  match (if HasV2 info then Validate (InfoFileTree info) else None) with
  | Some e => Some (Some (BadFileTree e))
  | None =>
      if negb (Z.of_nat (length (Pieces info)) mod 20 =? 0) then Some (Some BadPiecesLength)
      else if PieceLength info =? 0 then
        total ← TotalLength info;
        Some (if negb (total =? 0) then Some ZeroPieceLengthInfo else None)
      else if negb (HasV2 info) then
        total ← TotalLength info;
        n ← quot64 (total +! PieceLength info -! 1) (PieceLength info);
        num ← NumPieces info;
        Some (if negb (n =? num) then Some PieceCountAtOdds else None)
      else Some None
  end.
