(* ===== verification/MetainfoTheory.v ===== *)
(** * The layout of a torrent

    The files of an info laid out in its byte space make an index that extents can be located in;
    the pieces of a validated info tile that space; hashing files into pieces makes an info that
    validates; and what the checks of an info from the network let through. *)

From S2P Require Import Prelude Search Segments SegmentsTheory Sha256 Sha1 Merkle MerkleTheory Metainfo.
Local Open Scope Z_scope.
Local Open Scope go_scope.

#[local] Opaque BlockSize.

Lemma quot64_pos a b :
  0 <= a <= maxInt -> 0 < b -> quot64 a b = Some (a / b).
Proof.
  intros Ha Hb. unfold quot64. destruct (Z.eqb_spec b 0); [lia|].
  rewrite Z.quot_div_nonneg by lia. f_equal. apply wrapS64_small.
  pose proof (Z.div_pos a b). pose proof (Z.div_le_upper_bound a b a). nia.
Qed.

(** ** Version 1: files one after the other *)

Definition extents (fs : list FileInfo) : Index :=
  map (fun fi => {| Start := fi_TorrentOffset fi; Length := fi_Length fi |}) fs.

Definition exact_sum (fs : list FileInfo) : Z := foldr Z.add 0 (map fi_Length fs).

Definition lengths_ok (fs : list FileInfo) : bool := forallb (Z.leb 0) (map fi_Length fs).

Lemma exact_sum_nonneg fs : lengths_ok fs = true -> 0 <= exact_sum fs.
Proof.
  unfold exact_sum, lengths_ok. induction fs as [|fi fs IH]; [done|]. simpl.
  intros [?%Z.leb_le ?%IH]%andb_true_iff. lia.
Qed.

Lemma withOffsets_extents offset fs :
  extents (withOffsets offset fs) = NewIndex_loop offset (map fi_Length fs).
Proof.
  revert offset. induction fs as [|fi fs IH]; intros offset; [done|].
  cbn [withOffsets map NewIndex_loop]. unfold extents in *. simpl. by rewrite IH.
Qed.

Lemma sumLengths_from fs z :
  lengths_ok fs = true -> 0 <= z -> z + exact_sum fs <= maxInt ->
  fold_left (fun ret fi => ret +! fi_Length fi) fs z = z + exact_sum fs.
Proof.
  revert z. induction fs as [|fi fs IH]; intros z; [unfold exact_sum; simpl; lia|].
  unfold exact_sum, lengths_ok. cbn [forallb map foldr fold_left].
  intros [Hl%Z.leb_le Hls]%andb_true_iff Hz Hb. pose proof (exact_sum_nonneg fs Hls).
  fold (exact_sum fs) in *. unwrap64. rewrite IH; [lia|done|lia..].
Qed.

Lemma sumLengths_exact fs :
  lengths_ok fs = true -> exact_sum fs <= maxInt -> sumLengths fs = exact_sum fs.
Proof. intros. unfold sumLengths. rewrite sumLengths_from; done || lia. Qed.

Lemma withOffsets_lengths offset fs : map fi_Length (withOffsets offset fs) = map fi_Length fs.
Proof. revert offset. induction fs as [|fi fs IH]; intros; [done|]. simpl. by rewrite IH. Qed.

(** The lengths of the version 1 files: those listed, or the single file's. *)
Definition v1_lengths (info : Info) : list Z :=
  match filesOf info with [] => [InfoLength info] | fs => map fi_Length fs end.

Lemma UpvertedV1Files_lengths info : map fi_Length (UpvertedV1Files info) = v1_lengths info.
Proof.
  unfold UpvertedV1Files, v1_lengths. destruct (filesOf info); [done|]. apply withOffsets_lengths.
Qed.

Lemma UpvertedV1Files_extents info : extents (UpvertedV1Files info) = NewIndex (v1_lengths info).
Proof.
  unfold UpvertedV1Files, v1_lengths, NewIndex. destruct (filesOf info); [done|].
  apply withOffsets_extents.
Qed.

Definition v1_lengths_ok (info : Info) : bool :=
  forallb (Z.leb 0) (v1_lengths info) && (foldr Z.add 0 (v1_lengths info) <=? maxInt).

Lemma TotalLength_v1 info :
  HasV2 info = false -> v1_lengths_ok info = true ->
  TotalLength info = Some (foldr Z.add 0 (v1_lengths info)).
Proof.
  intros Hv2 [Hl Hs%Z.leb_le]%andb_true_iff. unfold TotalLength, UpvertedFiles, UpvertedFilesIter.
  rewrite Hv2. cbn [fmap option_fmap option_map]. f_equal.
  rewrite <- UpvertedV1Files_lengths in *. by apply sumLengths_exact.
Qed.

(** The files of a version 1 info are laid out one after the other without gaps, in an
    index extents can be located in, and add up to its total length. *)
Theorem v1_layout (info : Info) :
  HasV2 info = false -> v1_lengths_ok info = true ->
  FileSegmentsIndex info = Some (NewIndex (v1_lengths info)) /\
  laid 0 (NewIndex (v1_lengths info)) = true /\ consecutive 0 (NewIndex (v1_lengths info)) = true /\
  TotalLength info = Some (foldr Z.add 0 (v1_lengths info)).
Proof.
  intros Hv2 Hok. rewrite TotalLength_v1 by done. apply andb_true_iff in Hok as [Hl Hs%Z.leb_le].
  unfold FileSegmentsIndex, UpvertedFilesIter. rewrite Hv2.
  fold (extents (UpvertedV1Files info)). rewrite UpvertedV1Files_extents.
  destruct (NewIndex_ok _ Hl Hs) as [-> ->]. done.
Qed.

Lemma v1_layout_witness :
  let info := {| PieceLength := 4; Pieces := []; Name := bs "t"; NameUtf8 := []; InfoLength := 7;
    InfoAttrs := noAttrs; Private := None; Source := []; Files := None; MetaVersion := 1;
    InfoFileTree := MkFileTree {| ft_Length := 0; ft_PiecesRoot := [] |} [] |} in
  FileSegmentsIndex info = Some [{| Start := 0; Length := 7 |}] /\
  laid 0 (NewIndex [7]) = true /\ consecutive 0 (NewIndex [7]) = true /\ TotalLength info = Some 7.
Proof.
  apply (v1_layout {| PieceLength := 4; Pieces := []; Name := bs "t"; NameUtf8 := []; InfoLength := 7;
    InfoAttrs := noAttrs; Private := None; Source := []; Files := None; MetaVersion := 1;
    InfoFileTree := MkFileTree {| ft_Length := 0; ft_PiecesRoot := [] |} [] |}); reflexivity.
Defined.

(** The last file ends where the torrent does. *)
Lemma withOffsets_last offset fs :
  lengths_ok fs = true -> 0 <= offset -> offset + exact_sum fs <= maxInt -> fs <> [] ->
  exists fi, last (withOffsets offset fs) = Some fi /\
    fi_TorrentOffset fi +! fi_Length fi = offset + exact_sum fs.
Proof.
  revert offset. unfold lengths_ok, exact_sum.
  induction fs as [|fi fs IH]; intros offset Hl Ho Hs Hne; [done|].
  cbn [map forallb foldr withOffsets] in *. apply andb_true_iff in Hl as [Hfi%Z.leb_le Hl].
  pose proof (exact_sum_nonneg fs Hl) as Hnn. unfold exact_sum in Hnn. unwrap64.
  destruct fs as [|fi' fs].
  - exists (set_offset fi offset). split; [done|]. simpl in *. unwrap64. lia.
  - destruct (IH (offset + fi_Length fi)) as (g & Hg & E); [done|lia|lia|done|].
    exists g. split; [exact Hg|lia].
Qed.

Lemma UpvertedV1Files_last info :
  v1_lengths_ok info = true ->
  exists fi, last (UpvertedV1Files info) = Some fi /\
    fi_TorrentOffset fi +! fi_Length fi = foldr Z.add 0 (v1_lengths info).
Proof.
  unfold v1_lengths_ok, v1_lengths, UpvertedV1Files. intros [Hl Hs%Z.leb_le]%andb_true_iff.
  destruct (filesOf info) as [|fi fs] eqn:E.
  - eexists. split; [done|]. simpl in *. apply andb_true_iff in Hl as [?%Z.leb_le _]. unwrap64. lia.
  - rewrite <- E in *. apply (withOffsets_last 0); [done|lia|exact Hs|by rewrite E].
Qed.

(** The number of pieces of length [p] that [t] bytes are cut into. *)
Lemma ceil_div t p i :
  0 <= t -> 0 < p -> 0 <= i -> (t + p - 1) / p = i + 1 -> i * p < t <= (i + 1) * p.
Proof.
  intros Ht Hp Hi E. pose proof (Z.mul_div_le (t + p - 1) p Hp).
  pose proof (Z.mul_succ_div_gt (t + p - 1) p Hp). nia.
Qed.

Lemma ceil_div_bound t p : 0 <= t -> 0 < p -> (t + p - 1) / p * p <= t + p - 1.
Proof. intros. pose proof (Z.mul_div_le (t + p - 1) p). lia. Qed.

(** [Piece.Length] of version 1: a piece ends where the next begins, the last at the end. *)
Lemma PieceLen_v1 info total n i :
  HasV2 info = false -> v1_lengths_ok info = true -> 0 < PieceLength info ->
  foldr Z.add 0 (v1_lengths info) = total -> total + PieceLength info <= maxInt ->
  NumPieces info = Some n -> (total + PieceLength info - 1) / PieceLength info = n -> 0 <= i < n ->
  exists len, PieceLen info i = Some len /\ 0 < len <= PieceLength info /\
    PieceOffset info i = i * PieceLength info /\
    i * PieceLength info + len = if i =? n - 1 then total else (i + 1) * PieceLength info.
Proof.
  intros Hv2 Hl Hpl Hsum Hb Hnum Hn Hi. unfold PieceLen, V1Length, PieceOffset. rewrite Hv2, Hnum.
  destruct (UpvertedV1Files_last info Hl) as (fi & Hlast & Hend). rewrite Hsum in Hend.
  assert (0 <= total) as H0.
  { unfold v1_lengths_ok in Hl. rewrite <- UpvertedV1Files_lengths in *.
    apply andb_true_iff in Hl as [Hl _]. by pose proof (exact_sum_nonneg _ Hl); subst. }
  pose proof (ceil_div_bound total (PieceLength info) H0 Hpl) as Hcb. rewrite Hn in Hcb.
  assert (0 <= i * PieceLength info <= total) by nia.
  cbn [mbind option_bind]. rewrite (sub64_small n 1) by nia.
  rewrite (mul64_small i) by lia. destruct (Z.ltb_spec i (n - 1)) as [Hlt|Hge].
  - rewrite (proj2 (Z.leb_le 0 i)) by lia. simpl. destruct (Z.eqb_spec i (n - 1)); [lia|].
    eexists. split_and!; try reflexivity; lia.
  - assert (i = n - 1) as -> by lia. rewrite andb_false_r, Z.eqb_refl.
    rewrite (proj2 (Z.leb_le 0 (n - 1))) by lia. cbn [andb]. rewrite Hlast. cbn [mbind option_bind].
    rewrite Hend. rewrite sub64_small by lia.
    destruct (ceil_div total (PieceLength info) (n - 1)); [lia..|].
    destruct (Z.leb_spec (total - (n - 1) * PieceLength info) 0); [lia|].
    destruct (Z.ltb_spec (PieceLength info) (total - (n - 1) * PieceLength info)); [lia|].
    eexists. split_and!; try reflexivity; lia.
Qed.

(** What validation gives of a version 1 info. *)
Lemma v1_pieces info :
  let total := foldr Z.add 0 (v1_lengths info) in
  let pl := PieceLength info in
  HasV2 info = false -> v1_lengths_ok info = true -> 0 < pl -> total + pl <= maxInt ->
  validateInfo info = Some None ->
  exists n, 0 <= total /\ 0 <= n /\ NumPieces info = Some n /\ n = (total + pl - 1) / pl /\
    forall i, 0 <= i < n -> exists len, PieceLen info i = Some len /\ 0 < len <= pl /\
       PieceOffset info i = i * pl /\ i * pl + len = if i =? n - 1 then total else (i + 1) * pl.
Proof.
  intros total pl Hv2 Hl Hpl Hb Hv. pose proof (TotalLength_v1 info Hv2 Hl) as Ht.
  assert (0 <= total) as H0.
  { unfold v1_lengths_ok in Hl. unfold total. rewrite <- UpvertedV1Files_lengths in *.
    apply andb_true_iff in Hl as [Hl _]. by pose proof (exact_sum_nonneg _ Hl). }
  unfold validateInfo in Hv. rewrite Hv2, Ht in Hv. fold total pl in Hv.
  destruct (negb (_ mod 20 =? 0)); [done|]. destruct (Z.eqb_spec pl 0) as [|_]; [lia|].
  cbn [negb mbind option_bind] in Hv. rewrite (add64_small total pl) in Hv by lia.
  rewrite (sub64_small (total + pl) 1), quot64_pos in Hv by lia. cbn [mbind option_bind] in Hv.
  destruct (NumPieces info) as [n|] eqn:Hn; [|done]. cbn [mbind option_bind] in Hv.
  destruct (Z.eqb_spec ((total + pl - 1) / pl) n) as [E|]; [|done].
  exists n. split; [done|]. split; [rewrite <-E; apply Z.div_pos; lia|]. split; [done|]. split; [done|].
  intros i Hi. by apply (PieceLen_v1 info total n i).
Qed.

(** C21: the pieces of a validated version 1 info tile its bytes: every piece up to [NumPieces]
    has a length, between one byte and the piece length; each begins where the one before it
    ends, and the last ends with the last file.  The piece length is positive, no file has a
    negative length, and their sum and a piece fit an [int64]; validation does not check these. *)
Theorem v1_pieces_tile (info : Info) (i : Z) :
  let total := foldr Z.add 0 (v1_lengths info) in
  let pl := PieceLength info in
  HasV2 info = false -> v1_lengths_ok info = true -> 0 < pl -> total + pl <= maxInt ->
  validateInfo info = Some None ->
  exists n, NumPieces info = Some n /\ n = (total + pl - 1) / pl /\
    (0 <= i < n -> exists len, PieceLen info i = Some len /\ 0 < len <= pl /\
       PieceOffset info i = i * pl /\ i * pl + len = if i =? n - 1 then total else (i + 1) * pl).
Proof.
  intros total pl Hv2 Hl Hpl Hb Hv. destruct (v1_pieces info Hv2 Hl Hpl Hb Hv) as (n & _ & _ & Hn & E & Hlen).
  exists n. split; [done|]. split; [done|]. apply Hlen.
Qed.

Lemma v1_pieces_tile_witness :
  let info := {| PieceLength := 4; Pieces := replicate 40 x00; Name := bs "t"; NameUtf8 := [];
    InfoLength := 7; InfoAttrs := noAttrs; Private := None; Source := []; Files := None;
    MetaVersion := 1; InfoFileTree := MkFileTree {| ft_Length := 0; ft_PiecesRoot := [] |} [] |} in
  exists n, NumPieces info = Some n /\ n = 2 /\
    (0 <= 1 < n -> exists len, PieceLen info 1 = Some len /\ 0 < len <= 4 /\
       PieceOffset info 1 = 4 /\ 4 + len = if 1 =? n - 1 then 7 else 8).
Proof.
  apply (v1_pieces_tile {| PieceLength := 4; Pieces := replicate 40 x00; Name := bs "t";
    NameUtf8 := []; InfoLength := 7; InfoAttrs := noAttrs; Private := None; Source := [];
    Files := None; MetaVersion := 1;
    InfoFileTree := MkFileTree {| ft_Length := 0; ft_PiecesRoot := [] |} [] |} 1);
    vm_compute; congruence.
Defined.

(** ** Version 2: files on piece boundaries *)

Section FileTreeInduction.
Variable P : FileTree -> Prop.
Hypothesis step : forall f dir, Forall (fun kv => P kv.2) dir -> P (MkFileTree f dir).

Fixpoint FileTree_nested_ind (ft : FileTree) : P ft :=
  let '(MkFileTree f dir) := ft in
  step f dir
    ((fix go (dir : list (bytes * FileTree)) : Forall (fun kv => P kv.2) dir :=
        match dir with
        | [] => @List.Forall_nil _ _
        | kv :: dir' => List.Forall_cons _ kv dir' (FileTree_nested_ind kv.2) (go dir')
        end) dir).
End FileTreeInduction.

Definition isProperties (key : bytes) : bool := bool_decide (key = FileTreePropertiesKey).

(** Every file has a length, and a pieces root of the right size or none. *)
Fixpoint wf_tree (ft : FileTree) : bool :=
  match ft with
  | MkFileTree f dir =>
      if IsDir ft then forallb (fun kv => isProperties kv.1 || wf_tree kv.2) dir
      else (0 <=? ft_Length f) && (if PiecesRootAsByteArray f then true else false)
  end.

Definition roundUp (pl len : Z) : Z := (len + pl - 1) / pl * pl.

(** The bytes a tree takes up, its files rounded up to whole pieces. *)
Fixpoint span (pl : Z) (ft : FileTree) : Z :=
  match ft with
  | MkFileTree f dir =>
      if IsDir ft then foldr Z.add 0 (map (fun kv => if isProperties kv.1 then 0 else span pl kv.2) dir)
      else roundUp pl (ft_Length f)
  end.

(** Files one after the other from [off], each rounded up to whole pieces, up to [end_]. *)
Fixpoint chain (pl off : Z) (fs : list FileInfo) (end_ : Z) : Prop :=
  match fs with
  | [] => off = end_
  | fi :: fs' =>
      fi_TorrentOffset fi = off /\ 0 <= fi_Length fi /\
      chain pl (off + roundUp pl (fi_Length fi)) fs' end_
  end.

Section Version2.
Context (pl : Z) (Hpl : 0 < pl).

Lemma roundUp_bounds len : 0 <= len -> len <= roundUp pl len < len + pl /\ (pl | roundUp pl len).
Proof.
  intros Hlen. unfold roundUp. pose proof (Z.mul_div_le (len + pl - 1) pl).
  pose proof (Z.mul_succ_div_gt (len + pl - 1) pl). split; [nia|]. by exists ((len + pl - 1) / pl).
Qed.

Lemma chain_app off fs mid fs' end_ :
  chain pl off fs mid -> chain pl mid fs' end_ -> chain pl off (fs ++ fs') end_.
Proof.
  revert off. induction fs as [|fi fs IH]; intros off; simpl; [by intros ->|].
  intros (? & ? & Hc) Hc'. split_and!; [done..|]. by apply IH.
Qed.

Lemma chain_le off fs end_ : chain pl off fs end_ -> off <= end_.
Proof.
  revert off. induction fs as [|fi fs IH]; intros off; simpl; [lia|].
  intros (? & Hl & Hc%IH). pose proof (roundUp_bounds _ Hl). lia.
Qed.

Lemma span_nonneg ft : wf_tree ft = true -> 0 <= span pl ft.
Proof.
  induction ft as [f dir IH] using FileTree_nested_ind. cbn [wf_tree span].
  destruct (IsDir _).
  - intros Hwf. induction IH as [|kv dir Hkv _ IHdir]; [done|]. cbn [forallb map foldr] in *.
    apply andb_true_iff in Hwf as [H1 H2]. specialize (IHdir H2).
    destruct (isProperties kv.1); [lia|]. simpl in H1. specialize (Hkv H1). lia.
  - intros [Hl%Z.leb_le _]%andb_true_iff. pose proof (roundUp_bounds _ Hl). lia.
Qed.

Definition upverts (f : list bytes -> Z -> files_iter) (size : Z) : Prop :=
  forall path off, 0 <= off -> off + size + pl <= maxInt ->
  exists fs, f path off = (fs, Some (off + size)) /\ chain pl off fs (off + size).

Lemma visit_ok {B} (g : B -> list bytes -> Z -> files_iter) (size : B -> Z) dir path off :
  Forall (fun kv => isProperties kv.1 = false -> 0 <= size kv.2 /\ upverts (g kv.2) (size kv.2)) dir ->
  let total := foldr Z.add 0 (map (fun kv => if isProperties kv.1 then 0 else size kv.2) dir) in
  0 <= off -> off + total + pl <= maxInt ->
  0 <= total /\
  exists fs, visit path (map (fun kv => (kv.1, g kv.2)) dir) off = (fs, Some (off + total)) /\
    chain pl off fs (off + total).
Proof.
  intros Hdir. revert off. induction Hdir as [|[key sub] dir Hkv Hdir IH]; intros off total Ho Hb.
  { split; [done|]. exists []. unfold total. simpl. by rewrite Z.add_0_r. }
  unfold total in *. clear total. cbn [map foldr visit fst snd] in *. unfold isProperties in *.
  destruct (bool_decide (key = FileTreePropertiesKey)) eqn:Ek; [by apply IH|].
  destruct (Hkv eq_refl) as [Hs Hup].
  set (rest := foldr Z.add 0 _) in *.
  assert (0 <= rest) as Hr.
  { clear -Hdir. subst rest. induction Hdir as [|kv dir Hkv _ IHd]; [done|]. simpl. unfold isProperties in *.
    destruct (bool_decide (kv.1 = _)); [lia|]. destruct (Hkv eq_refl). lia. }
  destruct (Hup (path ++ [key]) off) as (fs & -> & Hc); [done|lia|].
  destruct (IH (off + size sub)) as (_ & fs' & -> & Hc'); [lia|lia|]. split; [lia|].
  exists (fs ++ fs'). rewrite Z.add_assoc. split; [done|]. by eapply chain_app.
Qed.

Lemma upvertedFilesInner_ok ft :
  wf_tree ft = true -> upverts (upvertedFilesInner pl ft) (span pl ft).
Proof.
  induction ft as [f dir IH] using FileTree_nested_ind. intros Hwf path off Ho Hb.
  pose proof (span_nonneg _ Hwf) as Hsn. cbn [upvertedFilesInner span wf_tree] in *.
  destruct (IsDir _).
  - destruct (Permutation_map_inv (fun kv => (kv.1, upvertedFilesInner pl kv.2))
      (l1 := ordered (map (fun kv => (kv.1, upvertedFilesInner pl kv.2)) dir)) dir) as (dir' & -> & Hp).
    { apply merge_sort_Permutation. }
    assert (foldr Z.add 0 (map (fun kv => if isProperties kv.1 then 0 else span pl kv.2) dir') =
            foldr Z.add 0 (map (fun kv => if isProperties kv.1 then 0 else span pl kv.2) dir)) as Es
      by (by rewrite <- Hp).
    destruct (visit_ok (upvertedFilesInner pl) (span pl) dir' path off) as (_ & Hv); [|done|lia|].
    + rewrite <- Hp. rewrite Forall_forall in IH |- *. intros kv Hkv Hnp.
      apply forallb_forall with (x := kv) in Hwf; [|by apply list_elem_of_In].
      rewrite Hnp in Hwf. split; [by apply span_nonneg|by apply IH].
    + by rewrite Es in Hv.
  - apply andb_true_iff in Hwf as [Hl%Z.leb_le Hroot].
    destruct (PiecesRootAsByteArray f) as [root|]; [|done].
    pose proof (roundUp_bounds _ Hl) as [Hru _]. eexists. split.
    + unwrap64. rewrite quot64_pos by lia. cbn [mbind option_bind]. unfold roundUp in *.
      rewrite mul64_small, add64_small by lia. done.
    + cbn. split_and!; done.
Qed.

Lemma chain_laid off fs end_ :
  0 <= off -> chain pl off fs end_ -> end_ <= maxInt -> laid off (extents fs) = true.
Proof.
  revert off. induction fs as [|fi fs IH]; intros off Ho Hc He; [done|].
  destruct Hc as (<- & Hl & Hc). pose proof (chain_le _ _ _ Hc) as Hle.
  destruct (roundUp_bounds _ Hl) as [Hb _]. cbn [extents map]. apply laid_cons. cbn [Start Length].
  split_and!; [lia..|]. eapply laid_weaken; [|apply IH; [|exact Hc|done]]; lia.
Qed.

Lemma chain_aligned off fs end_ :
  (pl | off) -> chain pl off fs end_ -> Forall (fun fi => (pl | fi_TorrentOffset fi)) fs /\ (pl | end_).
Proof.
  revert off. induction fs as [|fi fs IH]; intros off Ho Hc; [by destruct Hc|].
  destruct Hc as (<- & Hl & Hc). destruct (roundUp_bounds _ Hl) as [_ Hd].
  destruct (IH _ (Z.divide_add_r _ _ _ Ho Hd) Hc). auto.
Qed.

Lemma upvertedFiles_ok ft :
  wf_tree ft = true -> span pl ft + pl <= maxInt ->
  exists fs, upvertedFiles ft pl = (fs, true) /\ chain pl 0 fs (span pl ft).
Proof.
  intros Hwf Hb. destruct (upvertedFilesInner_ok ft Hwf [] 0) as (fs & E & Hc); [lia..|].
  exists fs. unfold upvertedFiles. rewrite E. done.
Qed.
End Version2.

(** C23: the files of a version 2 info are laid out in order without overlapping, each on a
    piece boundary, in an index extents can be located in; the space they take is the sum of
    their lengths rounded up to whole pieces.  The piece length is positive, no file has a
    negative length, no pieces root is shorter than 32 bytes unless it is empty, and the space and
    a piece fit an [int64]. *)
Theorem v2_layout (info : Info) :
  let pl := PieceLength info in
  let tree := InfoFileTree info in
  HasV2 info = true -> 0 < pl -> wf_tree tree = true -> span pl tree + pl <= maxInt ->
  exists fs, UpvertedFiles info = Some fs /\ FileSegmentsIndex info = Some (extents fs) /\
    laid 0 (extents fs) = true /\ Forall (fun fi => (pl | fi_TorrentOffset fi)) fs /\
    foldr Z.add 0 (map (fun fi => roundUp pl (fi_Length fi)) fs) = span pl tree.
Proof.
  intros pl tree Hv2 Hpl Hwf Hb. destruct (upvertedFiles_ok pl Hpl tree Hwf Hb) as (fs & E & Hc).
  exists fs. unfold FileSegmentsIndex, UpvertedFiles, UpvertedFilesIter. rewrite Hv2.
  fold pl tree. rewrite E. split_and!; [done|done|..].
  - by apply (chain_laid pl Hpl 0 fs (span pl tree)); [lia| |lia].
  - eapply (chain_aligned pl Hpl 0); [by exists 0|done].
  - assert (forall off end_, chain pl off fs end_ ->
      foldr Z.add 0 (map (fun fi => roundUp pl (fi_Length fi)) fs) = end_ - off) as Hs.
    { clear. induction fs as [|fi fs IH]; intros off end_ Hc; simpl in *; [lia|].
      destruct Hc as (_ & _ & Hc%IH). lia. }
    rewrite (Hs 0 (span pl tree)); [lia|done].
Qed.

Definition sampleTree : FileTree :=
  MkFileTree {| ft_Length := 0; ft_PiecesRoot := [] |}
    [(bs "b", MkFileTree {| ft_Length := 20000; ft_PiecesRoot := replicate 32 x00 |} []);
     (bs "a", MkFileTree {| ft_Length := 0; ft_PiecesRoot := [] |}
        [(bs "c", MkFileTree {| ft_Length := 5; ft_PiecesRoot := replicate 32 x00 |} [])])].

Definition sampleV2 : Info := {| PieceLength := 16384; Pieces := []; Name := bs "t"; NameUtf8 := [];
  InfoLength := 0; InfoAttrs := noAttrs; Private := None; Source := []; Files := None;
  MetaVersion := 2; InfoFileTree := sampleTree |}.

Lemma v2_layout_witness :
  exists fs, UpvertedFiles sampleV2 = Some fs /\ FileSegmentsIndex sampleV2 = Some (extents fs) /\
    laid 0 (extents fs) = true /\ Forall (fun fi => (16384 | fi_TorrentOffset fi)) fs /\
    foldr Z.add 0 (map (fun fi => roundUp 16384 (fi_Length fi)) fs) = 49152.
Proof. apply (v2_layout sampleV2); vm_compute; congruence. Defined.

Section Version2Pieces.
Context (pl : Z) (Hpl : 0 < pl).

Lemma roundUp_shift off len :
  (pl | off) -> 0 <= off -> 0 <= len -> (off + len + pl - 1) / pl * pl = off + roundUp pl len.
Proof.
  intros [k ->] Ho Hl. unfold roundUp. replace (k * pl + len + pl - 1) with ((len + pl - 1) + k * pl) by lia.
  rewrite Z.div_add by lia. lia.
Qed.

(** [Piece.Length] ends its loop with the file that the piece begins in. *)
Lemma lastFileEnd_ok i fs off end_ last :
  (pl | off) -> 0 <= off -> chain pl off fs end_ -> end_ + pl <= maxInt -> off <= i * pl < end_ ->
  exists fi, In fi fs /\ fi_TorrentOffset fi <= i * pl < fi_TorrentOffset fi + roundUp pl (fi_Length fi) /\
    0 <= fi_TorrentOffset fi /\ 0 <= fi_Length fi /\ fi_TorrentOffset fi + fi_Length fi <= end_ /\
    (pl | fi_TorrentOffset fi) /\
    lastFileEnd pl i fs true off last = Some (fi_TorrentOffset fi + fi_Length fi).
Proof.
  revert off last. induction fs as [|fi fs IH]; intros off last Hd Ho Hc He Hi; [simpl in Hc; lia|].
  destruct Hc as (Eo & Hl & Hc). cbn [lastFileEnd]. rewrite <- Eo, Z.eqb_refl. cbn [negb].
  rewrite Eo. pose proof (chain_le pl Hpl _ _ _ Hc) as Hle. destruct (roundUp_bounds pl Hpl _ Hl) as [Hb Hd'].
  rewrite (quot64_pos off) by lia. cbn [mbind option_bind].
  assert (off / pl <= i) by (apply Z.div_le_upper_bound; lia).
  destruct (Z.ltb_spec i (off / pl)); [lia|]. unwrap64. rewrite quot64_pos by lia.
  cbn [mbind option_bind].
  assert (Er : (off + fi_Length fi + pl - 1) / pl * pl = off + roundUp pl (fi_Length fi))
    by (by apply roundUp_shift).
  rewrite mul64_small, Er by lia. set (off' := off + roundUp pl (fi_Length fi)) in *.
  destruct (decide (i * pl < off')) as [Hin|Hout].
  - exists fi. rewrite Eo. split_and!; try (done || lia); [by left|].
    destruct fs as [|fi' fs]; [done|]. destruct Hc as (Eo' & Hl' & Hc').
    cbn [lastFileEnd]. rewrite Eo', Z.eqb_refl. cbn [negb].
    pose proof (chain_le pl Hpl _ _ _ Hc'). pose proof (roundUp_bounds pl Hpl _ Hl').
    rewrite (quot64_pos off') by lia. cbn [mbind option_bind].
    assert (i < off' / pl) as Hlt.
    { destruct (Z.divide_add_r _ _ _ Hd Hd') as [k Hk]. fold off' in Hk. rewrite Hk, Z.div_mul by lia. nia. }
    by rewrite (proj2 (Z.ltb_lt _ _) Hlt).
  - destruct (IH off' (off + fi_Length fi)) as (fi' & Hin & Hrest);
      [by apply Z.divide_add_r|lia|done|done|lia|].
    exists fi'. split; [by right|done].
Qed.

(** A directory has no file properties of its own. *)
Fixpoint plain_dirs (ft : FileTree) : bool :=
  match ft with
  | MkFileTree f dir =>
      if IsDir ft then (ft_Length f =? 0) && forallb (fun kv => isProperties kv.1 || plain_dirs kv.2) dir
      else true
  end.

Lemma not_dir_entries f dir :
  IsDir (MkFileTree f dir) = false -> forallb (fun kv => isProperties kv.1) dir = true.
Proof.
  unfold IsDir, NumEntries. cbn [Dir]. intros H%negb_false_iff%Z.eqb_eq.
  destruct dir as [|kv [|kv' dir]]; [done| |].
  - simpl in *. unfold isProperties. destruct (bool_decide _); [done|]. simpl in H. lia.
  - cbn [length] in H. destruct (existsb _ _); lia.
Qed.

Lemma sumPieces_app nodes1 nodes2 num :
  sumPieces pl (nodes1 ++ nodes2) num =
  match sumPieces pl nodes1 num with Some n => sumPieces pl nodes2 n | None => None end.
Proof.
  revert num. induction nodes1 as [|[path ft] nodes1 IH]; intros num; [done|]. simpl.
  destruct (quot64 _ _); [|done]. cbn [mbind option_bind]. apply IH.
Qed.

Lemma span_divide ft : (pl | span pl ft).
Proof.
  induction ft as [f dir IH] using FileTree_nested_ind. cbn [span]. destruct (IsDir _).
  - induction IH as [|kv dir Hkv _ IHdir]; [by exists 0|]. cbn [map foldr].
    apply Z.divide_add_r; [|done]. destruct (isProperties _); [by exists 0|done].
  - by exists ((ft_Length f + pl - 1) / pl).
Qed.

Lemma sumPieces_walk ft path num :
  wf_tree ft = true -> plain_dirs ft = true -> 0 <= num -> num + span pl ft + pl <= maxInt ->
  sumPieces pl (Walk path ft) num = Some (num + span pl ft / pl).
Proof.
  revert path num. induction ft as [f dir IH] using FileTree_nested_ind.
  intros path num Hwf Hpd Hn Hb. pose proof (span_nonneg pl Hpl _ Hwf) as Hsn.
  cbn [wf_tree plain_dirs span Walk sumPieces File] in *.
  destruct (IsDir _) eqn:Hdir.
  - apply andb_true_iff in Hpd as [Hz%Z.eqb_eq Hpd]. rewrite Hz.
    replace (0 +! pl -! 1) with (pl - 1) by (symmetry; unwrap64; lia).
    rewrite quot64_pos, (Z.div_small (pl - 1) pl) by lia. cbn [mbind option_bind].
    rewrite add64_small by lia. rewrite Z.add_0_r. clear Hdir Hz Hsn.
    revert num Hn Hb. induction IH as [|kv dir Hkv HF IHdir]; intros num Hn Hb.
    { simpl. rewrite Z.div_0_l by lia. f_equal. lia. }
    cbn [forallb map concat foldr] in *. apply andb_true_iff in Hwf as [Hwf1 Hwf2], Hpd as [Hpd1 Hpd2].
    assert (Hrest : 0 <= foldr Z.add 0 (map (fun kv => if isProperties kv.1 then 0 else span pl kv.2) dir)).
    { clear -Hwf2 Hpl. induction dir as [|kv dir IHd]; [done|]. cbn [forallb map foldr] in *.
      apply andb_true_iff in Hwf2 as [H1 H2]. specialize (IHd H2). destruct (isProperties kv.1); [lia|].
      pose proof (span_nonneg pl Hpl _ H1). lia. }
    unfold isProperties in *. rewrite sumPieces_app. destruct (bool_decide (kv.1 = _)).
    + simpl (sumPieces pl [] num). rewrite Z.add_0_l in *. by apply IHdir.
    + simpl in Hwf1, Hpd1. pose proof (span_nonneg pl Hpl _ Hwf1).
      pose proof (Z.div_pos (span pl kv.2) pl). pose proof (Z.div_le_upper_bound (span pl kv.2) pl (span pl kv.2)).
      rewrite Hkv by (done || lia). rewrite IHdir by (done || nia).
      destruct (span_divide kv.2) as [k Hk]. rewrite Hk, Z.div_mul by lia.
      rewrite (Z.add_comm (k * pl)), Z.div_add by lia. f_equal. lia.
  - apply andb_true_iff in Hwf as [Hl%Z.leb_le _]. destruct (roundUp_bounds pl Hpl _ Hl) as [Hru _].
    replace (concat _) with (@nil (list bytes * FileTree)).
    2: { apply not_dir_entries in Hdir. clear -Hdir. induction dir as [|kv dir IHd]; [done|].
         cbn [forallb map concat] in *. apply andb_true_iff in Hdir as [H1 H2]. unfold isProperties in H1.
         rewrite H1. by apply IHd. }
    unwrap64. rewrite quot64_pos by lia. cbn [mbind option_bind sumPieces].
    unfold roundUp in *. rewrite Z.div_mul by lia. rewrite add64_small; [done|].
    pose proof (Z.div_pos (ft_Length f + pl - 1) pl). nia.
Qed.
End Version2Pieces.

Lemma file_piece_indexes pl fi end_ :
  0 < pl -> 0 <= fi_TorrentOffset fi -> 0 <= fi_Length fi -> (pl | fi_TorrentOffset fi) ->
  fi_TorrentOffset fi + fi_Length fi <= end_ -> end_ + pl <= maxInt ->
  BeginPieceIndex fi pl = Some (fi_TorrentOffset fi / pl) /\
  EndPieceIndex fi pl = Some ((fi_TorrentOffset fi + roundUp pl (fi_Length fi)) / pl).
Proof.
  intros Hpl Ho Hl Hd He Hm. unfold BeginPieceIndex, EndPieceIndex.
  destruct (Z.eqb_spec pl 0); [lia|]. unwrap64. rewrite !quot64_pos by lia. split; [done|].
  rewrite <- roundUp_shift by done. by rewrite Z.div_mul by lia.
Qed.

(** C22: the pieces of a version 2 info whose directories carry no file properties belong to
    files: every piece up to [NumPieces] lies between the piece indexes of one of the files, and
    its length is what is left of that file there, at most the piece length.  The piece length is
    positive, no file has a negative length, no pieces root is shorter than 32 bytes unless it is
    empty, and the space and a piece fit an [int64]; validation does not check these. *)
Theorem v2_pieces_in_files (info : Info) (i : Z) :
  let pl := PieceLength info in
  let tree := InfoFileTree info in
  HasV2 info = true -> 0 < pl -> wf_tree tree = true -> plain_dirs tree = true ->
  span pl tree + pl <= maxInt ->
  exists fs n, UpvertedFiles info = Some fs /\ NumPieces info = Some n /\ n * pl = span pl tree /\
    (0 <= i < n -> exists fi b e, In fi fs /\
       BeginPieceIndex fi pl = Some b /\ EndPieceIndex fi pl = Some e /\ b <= i < e /\
       let len := Z.min (fi_TorrentOffset fi + fi_Length fi - i * pl) pl in
       PieceLen info i = Some len /\ 0 < len).
Proof.
  intros pl tree Hv2 Hpl Hwf Hpd Hb. destruct (upvertedFiles_ok pl Hpl tree Hwf Hb) as (fs & E & Hc).
  pose proof (span_nonneg pl Hpl tree Hwf) as Hsn. destruct (span_divide pl tree) as [k Hk].
  exists fs, (span pl tree / pl). unfold UpvertedFiles, UpvertedFilesIter, NumPieces, PieceLen.
  rewrite Hv2. fold pl tree. rewrite E. split; [done|].
  rewrite (sumPieces_walk pl Hpl tree [] 0) by (done || lia). rewrite Hk, Z.div_mul by lia.
  split_and!; [done..|]. intros Hi.
  destruct (lastFileEnd_ok pl Hpl i fs 0 (span pl tree) 0) as
    (fi & Hin & Hr & Ho & Hl & He & Hd & El); [by exists 0|lia|done|done|nia|].
  destruct (file_piece_indexes pl fi (span pl tree)) as [Eb Ee]; [done..|].
  destruct (roundUp_bounds pl Hpl (fi_Length fi) Hl) as [Hru [j Hj]]. destruct Hd as [o Hd].
  exists fi, (fi_TorrentOffset fi / pl), ((fi_TorrentOffset fi + roundUp pl (fi_Length fi)) / pl).
  rewrite Hd, Hj in *. rewrite <- Z.mul_add_distr_r, !Z.div_mul by lia.
  rewrite <- Z.mul_add_distr_r, Z.div_mul in Ee by lia. rewrite Z.div_mul in Eb by lia.
  assert (o <= i < o + j) as Hio by (split; [apply (Z.mul_le_mono_pos_r _ _ pl)|
    apply (Z.mul_lt_mono_pos_r pl)]; lia).
  assert (0 < Z.min (o * pl + fi_Length fi - i * pl) pl) as Hpos.
  { assert ((i + 1) * pl <= (o + j) * pl) by (apply Z.mul_le_mono_nonneg_r; lia). lia. }
  split_and!; [done|done|done|lia|lia| |done]. rewrite El. cbn [mbind option_bind].
  rewrite mul64_small, sub64_small by lia.
  destruct (Z.leb_spec (Z.min (o * pl + fi_Length fi - i * pl) pl) 0); [lia|done].
Qed.

Lemma v2_pieces_in_files_witness :
  exists fs n, UpvertedFiles sampleV2 = Some fs /\ NumPieces sampleV2 = Some n /\ n * 16384 = 49152 /\
    (0 <= 2 < n -> exists fi b e, In fi fs /\
       BeginPieceIndex fi 16384 = Some b /\ EndPieceIndex fi 16384 = Some e /\ b <= 2 < e /\
       let len := Z.min (fi_TorrentOffset fi + fi_Length fi - 2 * 16384) 16384 in
       PieceLen sampleV2 2 = Some len /\ 0 < len).
Proof. apply (v2_pieces_in_files sampleV2 2); vm_compute; congruence. Defined.

(** The keys of a Go map are distinct. *)
Fixpoint distinct_keys (ft : FileTree) : bool :=
  match ft with
  | MkFileTree _ dir =>
      bool_decide (NoDup (map fst dir)) && forallb (fun kv => distinct_keys kv.2) dir
  end.

Lemma dir_has_entry f dir :
  NoDup (map fst dir) -> IsDir (MkFileTree f dir) = true -> exists kv, kv ∈ dir /\ isProperties kv.1 = false.
Proof.
  intros Hnd Hd. destruct (forallb (fun kv => isProperties kv.1) dir) eqn:E.
  - exfalso. destruct dir as [|[k1 t1] [|[k2 t2] dir]]; [done| |]; cbn [forallb fst] in E;
      unfold isProperties in E.
    + unfold IsDir, NumEntries in Hd. simpl in Hd. rewrite andb_true_r in E. by rewrite E in Hd.
    + apply andb_true_iff in E as [E1%bool_decide_eq_true E]. apply andb_true_iff in E as
        [E2%bool_decide_eq_true _]. subst. apply NoDup_cons in Hnd as [Hn _]. apply Hn. by left.
  - apply not_true_iff_false in E. rewrite forallb_forall in E.
    destruct (existsb (fun kv => negb (isProperties kv.1)) dir) eqn:Ee.
    + apply existsb_exists in Ee as (kv & Hin & Hk%negb_true_iff). exists kv.
      by rewrite list_elem_of_In.
    + exfalso. apply E. intros kv Hin. destruct (isProperties kv.1) eqn:Ek; [done|].
      rewrite <- not_true_iff_false in Ee. destruct Ee. apply existsb_exists. exists kv. by rewrite Ek.
Qed.

(** A walk over files of zero piece length ends in a division by zero. *)
Lemma upverted_zero ft path off :
  distinct_keys ft = true -> snd (upvertedFilesInner 0 ft path off) = None.
Proof.
  revert path off. induction ft as [f dir IH] using FileTree_nested_ind. intros path off Hk.
  cbn [distinct_keys] in Hk. apply andb_true_iff in Hk as [Hnd%bool_decide_eq_true Hk].
  cbn [upvertedFilesInner]. destruct (IsDir _) eqn:Hd; [|by destruct (PiecesRootAsByteArray f)].
  destruct (dir_has_entry f dir Hnd Hd) as (kv & Hin & Hnp).
  destruct (Permutation_map_inv (fun kv => (kv.1, upvertedFilesInner 0 kv.2))
    (l1 := ordered (map (fun kv => (kv.1, upvertedFilesInner 0 kv.2)) dir)) dir) as (dir' & -> & Hp);
    [apply merge_sort_Permutation|].
  assert (Forall (fun kv => forall path off, snd (upvertedFilesInner 0 kv.2 path off) = None) dir') as Hf.
  { rewrite <- Hp. rewrite Forall_forall in IH |- *. intros x Hx path' off'. apply IH; [done|].
    rewrite forallb_forall in Hk. by apply Hk, list_elem_of_In. }
  rewrite Hp in Hin. clear -Hf Hin Hnp. revert off. induction Hf as [|x dir Hx _ IHd]; intros off;
    [by apply elem_of_nil in Hin|].
  cbn [map visit]. unfold isProperties in Hnp. destruct (bool_decide (x.1 = _)) eqn:Ex.
  - apply elem_of_cons in Hin as [->|Hin]; [congruence|]. by apply IHd.
  - specialize (Hx (path ++ [x.1]) off). destruct (upvertedFilesInner _ _ _ _) as [fs [o|]]; done.
Qed.

(** C34: [validateInfo] panics, instead of returning an error, on every version 2 info with a
    zero piece length that passes its checks on the file tree and the pieces. *)
Theorem validateInfo_zero_piece_length (info : Info) :
  HasV2 info = true -> PieceLength info = 0 -> distinct_keys (InfoFileTree info) = true ->
  Validate (InfoFileTree info) = None -> Z.of_nat (length (Pieces info)) mod 20 = 0 ->
  validateInfo info = None.
Proof.
  intros Hv2 Hpl Hk Hv Hp. unfold validateInfo, TotalLength, UpvertedFiles, UpvertedFilesIter, upvertedFiles.
  rewrite Hv2, Hv, Hp, Hpl. simpl. pose proof (upverted_zero (InfoFileTree info) [] 0 Hk) as Hz.
  destruct (upvertedFilesInner 0 _ _ _) as [fs [o|]]; done.
Qed.

Definition zeroPieceLengthInfo : Info := {| PieceLength := 0; Pieces := []; Name := bs "t";
  NameUtf8 := []; InfoLength := 0; InfoAttrs := noAttrs; Private := None; Source := []; Files := None;
  MetaVersion := 2; InfoFileTree := sampleTree |}.

Lemma validateInfo_zero_piece_length_witness : validateInfo zeroPieceLengthInfo = None.
Proof. apply (validateInfo_zero_piece_length zeroPieceLengthInfo); vm_compute; reflexivity. Defined.

Definition withTree (pl : Z) (tree : FileTree) : Info := {| PieceLength := pl; Pieces := [];
  Name := bs "t"; NameUtf8 := []; InfoLength := 0; InfoAttrs := noAttrs; Private := None;
  Source := []; Files := None; MetaVersion := 2; InfoFileTree := tree |}.

(** [validateInfo] accepts infos whose use panics: a file of negative length with a pieces
    root of a wrong size, and a directory with file properties, whose length [NumPieces] counts
    although no file has those pieces; and a version 1 info with a negative piece length, the last
    piece of which has no length. *)
Example validateInfo_accepts_unusable :
  (let info := withTree 16384 (MkFileTree {| ft_Length := -1; ft_PiecesRoot := bs "short" |} []) in
   validateInfo info = Some None /\ UpvertedFiles info = None) /\
  (let info := withTree 16384 (MkFileTree {| ft_Length := 16384; ft_PiecesRoot := [] |}
     [(bs "a", MkFileTree {| ft_Length := 5; ft_PiecesRoot := replicate 32 x00 |} [])]) in
   validateInfo info = Some None /\ NumPieces info = Some 2 /\ PieceLen info 1 = None) /\
  (let info := {| PieceLength := -4; Pieces := replicate 60 x00; Name := bs "t"; NameUtf8 := [];
     InfoLength := -9; InfoAttrs := noAttrs; Private := None; Source := []; Files := None; MetaVersion := 1;
     InfoFileTree := MkFileTree {| ft_Length := 0; ft_PiecesRoot := [] |} [] |} in
   validateInfo info = Some None /\ NumPieces info = Some 3 /\ PieceLen info 2 = None).
Proof. vm_compute. split_and!; reflexivity. Qed.

(** ** Piece lengths *)

Lemma doublePieceLength_ok fuel maxSize softMin softMax total pl :
  0 < pl -> 0 <= total < 2 ^ 62 -> 0 < softMax -> total / pl < 2 ^ (Z.of_nat fuel - 1) ->
  exists k, 0 <= k /\ let r := pl * 2 ^ k in
    doublePieceLength fuel maxSize softMin softMax pl (total / pl) = Some r /\
    (k = 0 \/ (maxSize = 0 \/ r <= maxSize) /\ (softMin = 0 \/ softMin <= total / r)) /\
    (total / r < softMax \/ maxSize <> 0 /\ maxSize < 2 * r \/ softMin <> 0 /\ total / (2 * r) < softMin).
Proof.
  intros Hpl Ht Hm. revert pl Hpl. induction fuel as [|fuel IH]; intros pl Hpl Hf.
  { simpl in Hf. pose proof (Z.div_pos total pl). lia. }
  assert (0 < pl * 2 ^ 0) as E0 by lia. rewrite Z.mul_1_r in E0.
  cbn [doublePieceLength]. destruct (Z.leb_spec softMax (total / pl)) as [Hge|Hlt].
  2: { exists 0. rewrite Z.mul_1_r. split_and!; [lia|done|by left|by left]. }
  assert (pl <= total) as Hple by (pose proof (Z.mul_div_le total pl); nia).
  rewrite (Z.shiftl_mul_pow2 pl 1) by lia. change (2 ^ 1) with 2.
  rewrite wrapS64_small by (unfold maxInt, max_int; lia).
  rewrite (Z.shiftr_div_pow2 (total / pl) 1), Z.div_div by lia. change (2 ^ 1) with 2.
  destruct (negb (maxSize =? 0) && (maxSize <? pl * 2)) eqn:E1.
  { apply andb_true_iff in E1 as [?%negb_true_iff%Z.eqb_neq ?%Z.ltb_lt].
    exists 0. rewrite Z.mul_1_r. split_and!; [lia|done|by left|]. right; left. lia. }
  destruct (negb (softMin =? 0) && (total / (pl * 2) <? softMin)) eqn:E2.
  { apply andb_true_iff in E2 as [?%negb_true_iff%Z.eqb_neq E2%Z.ltb_lt].
    exists 0. rewrite Z.mul_1_r. split_and!; [lia|done|by left|]. right; right.
    rewrite (Z.mul_comm 2 pl). lia. }
  destruct (IH (pl * 2)) as (k & Hk & -> & Hlo & Hhi); [lia| |].
  { rewrite <- Z.div_div by lia. apply Z.div_lt_upper_bound; [lia|].
    rewrite <- Z.pow_succ_r by (destruct fuel; [|lia]; simpl in Hf; lia).
    eapply Z.lt_le_trans; [exact Hf|]. apply Z.pow_le_mono_r; lia. }
  assert (pl * 2 * 2 ^ k = pl * 2 ^ (k + 1)) as Er by (rewrite Z.pow_add_r by lia; lia).
  exists (k + 1). rewrite <- Er. split_and!; [lia|done| |done]. right.
  apply andb_false_iff in E1, E2. rewrite !negb_false_iff, !Z.eqb_eq, !Z.ltb_ge in *.
  destruct Hlo as [->|[? ?]]; [rewrite Z.mul_1_r|]; split; tauto || lia.
Qed.

(** Within options that make sense, [ChoosePieceLengthEx] terminates; the piece length is
    the smallest size doubled some number of times, doubled only within the largest size and the
    smallest count, and not doubled further only if the count is small enough or the next size
    or count would be out of bounds. *)
Theorem choosePieceLengthEx_spec (opts : ChoosePieceLengthOpts) :
  let minSize := orDefault (MinPieceSize opts) minimumPieceLength in
  let softMax := orDefault (SoftMaxPieceCount opts) targetPieceCountMax in
  let softMin := orDefault (SoftMinPieceCount opts) (Z.quot softMax 2) in
  let maxSize := MaxPieceSize opts in
  let total := opt_TotalLength opts in
  0 < minSize -> 0 < softMax -> 0 <= total < 2 ^ 62 ->
  exists k, 0 <= k /\ let pl := minSize * 2 ^ k in
    ChoosePieceLengthEx opts = Some pl /\
    (k = 0 \/ (maxSize = 0 \/ pl <= maxSize) /\ (softMin = 0 \/ softMin <= total / pl)) /\
    (total / pl < softMax \/ maxSize <> 0 /\ maxSize < 2 * pl \/
     softMin <> 0 /\ total / (2 * pl) < softMin).
Proof.
  intros minSize softMax softMin maxSize total Hmin Hmax Ht.
  unfold ChoosePieceLengthEx. fold minSize softMax softMin maxSize total.
  rewrite quot64_pos by (unfold maxInt, max_int; lia). cbn [mbind option_bind].
  apply doublePieceLength_ok; [done..|]. apply Z.div_lt_upper_bound; [done|].
  apply Z.lt_le_trans with (2 ^ 62); [lia|]. change (Z.of_nat 65 - 1) with 64. nia.
Qed.

Lemma choosePieceLengthEx_spec_witness :
  exists k, 0 <= k /\ let pl := 16384 * 2 ^ k in
    ChoosePieceLengthEx {| opt_TotalLength := 1000000000; MinPieceSize := 0; MaxPieceSize := 0;
      SoftMinPieceCount := 0; SoftMaxPieceCount := 0 |} = Some pl /\
    (k = 0 \/ (0 = 0 \/ pl <= 0) /\ (1024 = 0 \/ 1024 <= 1000000000 / pl)) /\
    (1000000000 / pl < 2048 \/ 0 <> 0 /\ 0 < 2 * pl \/
     1024 <> 0 /\ 1000000000 / (2 * pl) < 1024).
Proof.
  apply (choosePieceLengthEx_spec {| opt_TotalLength := 1000000000; MinPieceSize := 0;
    MaxPieceSize := 0; SoftMinPieceCount := 0; SoftMaxPieceCount := 0 |}); vm_compute; (done || split; done).
Defined.

(** ** Hashing files *)

Lemma GeneratePieces_loop_ok fuel r pl b :
  0 < pl -> (length (r_data r) < fuel)%nat ->
  GeneratePieces_loop fuel r pl b =
  Some (b ++ concat (map Sum1 (chunks (Z.to_nat pl) (r_data r))), r_err r).
Proof.
  intros Hpl. revert r b. induction fuel as [|fuel IH]; intros r b Hf; [lia|].
  assert (0 < Z.to_nat pl)%nat as Hn by lia. cbn [GeneratePieces_loop].
  destruct (decide (r_data r = [])) as [E|Hne].
  { rewrite E, take_nil. cbn [length]. change (Z.of_nat 0) with 0.
    rewrite (proj2 (Z.ltb_lt 0 pl) Hpl). simpl.
    by rewrite app_nil_r. }
  assert (0 < length (r_data r))%nat as Hpos by (by destruct (r_data r); simpl; [|lia]).
  rewrite (chunks_cons _ Hn _ Hne). cbn [map concat]. rewrite app_assoc.
  assert (0 < length (take (Z.to_nat pl) (r_data r)))%nat as Ht by (rewrite length_take; lia).
  rewrite (proj2 (Nat.ltb_lt _ _) Ht).
  destruct (Z.ltb_spec (Z.of_nat (length (take (Z.to_nat pl) (r_data r)))) pl) as [Hlt|Hge].
  - rewrite length_take in Hlt. rewrite drop_ge by lia. simpl. by rewrite app_nil_r.
  - rewrite IH by (cbn [r_data]; rewrite length_drop; lia). done.
Qed.

(** The contents that [open] gives for the files, each cut to its length. *)
Definition contents (open : FileInfo -> option bytes) (fs : list FileInfo) : bytes :=
  concat (map (fun fi => take (Z.to_nat (fi_Length fi)) (default [] (open fi))) fs).

Definition readable (open : FileInfo -> option bytes) (fi : FileInfo) : bool :=
  match open fi with Some c => fi_Length fi <=? Z.of_nat (length c) | None => false end.

Lemma writeFiles_ok open fs :
  lengths_ok fs = true -> forallb (readable open) fs = true ->
  writeFiles open fs = (contents open fs, false) /\ Z.of_nat (length (contents open fs)) = exact_sum fs.
Proof.
  unfold lengths_ok, exact_sum, contents. induction fs as [|fi fs IH]; intros Hl Hr; [done|].
  cbn [map forallb foldr concat writeFiles] in *. apply andb_true_iff in Hl as [Hfi%Z.leb_le Hl],
    Hr as [Hfr Hr]. unfold readable in Hfr. destruct (open fi) as [c|]; [|done]. apply Z.leb_le in Hfr.
  destruct (IH Hl Hr) as [-> Hlen]. cbn [default]. unfold id in *.
  assert (length (take (Z.to_nat (fi_Length fi)) c) = Z.to_nat (fi_Length fi)) as Ht by (rewrite length_take; lia).
  rewrite length_app, Nat2Z.inj_add, Hlen, Ht. destruct (Z.ltb_spec (fi_Length fi) 0); [lia|].
  rewrite Z2Nat.id by done. rewrite Z.eqb_refl. split; [done|lia].
Qed.

Lemma chunks_count {A} n (l : list A) :
  (0 < n)%nat -> Z.of_nat (length (chunks n l)) = (Z.of_nat (length l) + Z.of_nat n - 1) / Z.of_nat n.
Proof.
  intros Hn. induction l as [l IH] using (induction_ltof1 _ (@length A)). unfold ltof in IH.
  destruct (decide (l = [])) as [->|Hne].
  { simpl. symmetry. apply Z.div_small. lia. }
  assert (0 < length l)%nat by (by destruct l; simpl; [|lia]).
  rewrite chunks_cons by done. cbn [length]. rewrite Nat2Z.inj_succ, IH by (rewrite length_drop; lia).
  rewrite length_drop. destruct (decide (n <= length l)%nat).
  - replace (Z.of_nat (length l) + Z.of_nat n - 1)
      with (Z.of_nat (length l - n) + Z.of_nat n - 1 + 1 * Z.of_nat n) by lia.
    rewrite Z.div_add by lia. lia.
  - replace (Z.of_nat (length l - n) + Z.of_nat n - 1) with (Z.of_nat n - 1) by lia.
    rewrite Z.div_small by lia. apply Z.div_unique with (Z.of_nat (length l) - 1); lia.
Qed.

Lemma concat_sums_length l : length (concat (map Sum1 l)) = (20 * length l)%nat.
Proof.
  induction l as [|x l IH]; [done|]. cbn [map concat length]. rewrite length_app, IH, Sum1_length. lia.
Qed.

(** C24: hashing the files of a version 1 info gives the SHA-1 of each piece of their
    concatenation, and an info that [validateInfo] accepts. *)
Theorem generatePieces_validates (open : FileInfo -> option bytes) (info : Info) :
  let fs := UpvertedV1Files info in
  let pl := PieceLength info in
  HasV2 info = false -> v1_lengths_ok info = true -> 0 < pl ->
  foldr Z.add 0 (v1_lengths info) + pl <= maxInt -> forallb (readable open) fs = true ->
  exists info', Info_GeneratePieces open info = Some (info', None) /\
    info' = set_Pieces info (concat (map Sum1 (chunks (Z.to_nat pl) (contents open fs)))) /\
    validateInfo info' = Some None.
Proof.
  intros fs pl Hv2 Hl Hpl Hb Hr. pose proof (TotalLength_v1 info Hv2 Hl) as Ht.
  assert (lengths_ok fs = true) as Hls.
  { unfold lengths_ok, fs. rewrite UpvertedV1Files_lengths. by apply andb_true_iff in Hl as [? _]. }
  assert (exact_sum fs = foldr Z.add 0 (v1_lengths info)) as Hsum
    by (unfold exact_sum, fs; by rewrite UpvertedV1Files_lengths).
  destruct (writeFiles_ok open fs Hls Hr) as [Hw Hlen]. pose proof (exact_sum_nonneg fs Hls) as Hnn.
  eexists. split; [|split; [reflexivity|]].
  - unfold Info_GeneratePieces, UpvertedFiles, UpvertedFilesIter. rewrite Hv2.
    fold pl fs. destruct (Z.eqb_spec pl 0); [lia|]. cbn [mbind option_bind]. rewrite Hw.
    unfold GeneratePieces. rewrite GeneratePieces_loop_ok by (cbn; lia). done.
  - set (p := concat _). assert (Z.of_nat (length p) = (exact_sum fs + pl - 1) / pl * 20) as Hp.
    { unfold p. rewrite concat_sums_length, Nat2Z.inj_mul, chunks_count, Hlen, Z2Nat.id by lia. lia. }
    unfold validateInfo, NumPieces. change (HasV2 (set_Pieces info p)) with (HasV2 info).
    change (TotalLength (set_Pieces info p)) with (TotalLength info).
    cbn [Pieces set_Pieces PieceLength]. rewrite Hv2, Ht, Hp, Z.mod_mul by done. simpl (negb (0 =? 0)).
    cbv iota. fold pl. destruct (Z.eqb_spec pl 0); [lia|]. cbn [negb mbind option_bind].
    rewrite <- Hsum in *. unwrap64. rewrite quot64_pos by lia. cbn [mbind option_bind].
    by rewrite Z.div_mul, Z.eqb_refl by done.
Qed.

Lemma generatePieces_validates_witness :
  let info := {| PieceLength := 4; Pieces := []; Name := bs "t"; NameUtf8 := []; InfoLength := 7;
    InfoAttrs := noAttrs; Private := None; Source := []; Files := None; MetaVersion := 1;
    InfoFileTree := MkFileTree {| ft_Length := 0; ft_PiecesRoot := [] |} [] |} in
  exists info', Info_GeneratePieces (fun _ => Some (bs "torrents")) info = Some (info', None) /\
    info' = set_Pieces info (concat (map Sum1 (chunks 4 (bs "torrent")))) /\
    validateInfo info' = Some None.
Proof.
  apply (generatePieces_validates (fun _ => Some (bs "torrents"))
    {| PieceLength := 4; Pieces := []; Name := bs "t"; NameUtf8 := []; InfoLength := 7;
       InfoAttrs := noAttrs; Private := None; Source := []; Files := None; MetaVersion := 1;
       InfoFileTree := MkFileTree {| ft_Length := 0; ft_PiecesRoot := [] |} [] |});
    vm_compute; congruence.
Defined.

(** ** Piece layers *)

Lemma HashForPiecePad_ok k :
  (k <= 40)%nat -> HashForPiecePad (Z.of_nat (2 ^ k * BlockSize)) = Some (piece_root k []).
Proof.
  intros Hk. unfold HashForPiecePad.
  assert (Z.quot (Z.of_nat (2 ^ k * BlockSize)) (Z.shiftl 1 14) = Z.of_nat (2 ^ k)) as ->.
  { rewrite Nat2Z.inj_mul. assert (Z.of_nat BlockSize = Z.shiftl 1 14) as ->
      by (with_strategy transparent [BlockSize] unfold BlockSize; reflexivity).
    apply Z.quot_mul. done. }
  destruct (Z.ltb_spec (Z.of_nat (2 ^ k)) 0); [lia|]. rewrite Nat2Z.id.
  pose proof (Nat.pow_nonzero 2 k ltac:(lia)). unfold piece_root. simpl (length []). rewrite Nat.sub_0_r.
  assert (Z.of_nat (2 ^ k) <= 2 ^ 62) by (rewrite pow2_Z; apply Z.pow_le_mono_r; lia).
  rewrite Root_ok; rewrite ?length_replicate; [|by destruct (2 ^ k)%nat|done].
  by rewrite height_pow2, decide_True.
Qed.

Lemma compactHashes_concat hs :
  Forall (fun h => length h = 32%nat) hs -> CompactLayerToSliceHashes (concat hs) = hs.
Proof.
  intros Hhs. unfold CompactLayerToSliceHashes.
  assert (length (concat hs) = 32 * length hs)%nat as ->.
  { induction Hhs as [|h hs Hh _ IH]; [done|]. cbn [concat length]. rewrite length_app, IH. lia. }
  rewrite Nat.mul_comm, Nat.div_mul by done.
  induction Hhs as [|h hs Hh _ IH]; [done|]. cbn [length compactHashes concat].
  by rewrite take_app_length', drop_app_length', IH by done.
Qed.

Lemma tree_root_length k l :
  Forall (fun h => length h = 32%nat) l -> length (tree_root k l) = 32%nat.
Proof.
  intros Hl. destruct k; [|apply Sum256_length]. destruct Hl; [apply length_replicate|done].
Qed.

Lemma leaves_lengths d : Forall (fun h => length h = 32%nat) (leaves d).
Proof.
  unfold leaves. apply Forall_forall. intros h (c & -> & _)%list_elem_of_fmap. apply Sum256_length.
Qed.

(** The piece layer of a file's contents, as a torrent carries it. *)
Definition piece_layer (k : nat) (d : bytes) : list bytes :=
  map (piece_root k) (chunks (2 ^ k) (leaves d)).

Lemma Forall_chunks {A} (P : A -> Prop) n l :
  (0 < n)%nat -> Forall P l -> Forall (Forall P) (chunks n l).
Proof.
  intros Hn. induction l as [l IH] using (induction_ltof1 _ (@length A)). unfold ltof in IH. intros Hl.
  destruct (decide (l = [])) as [->|Hne]; [constructor|].
  assert (0 < length l)%nat by (by destruct l; simpl; [|lia]).
  rewrite chunks_cons by done. constructor; [by apply Forall_take|].
  apply IH; [rewrite length_drop; lia|by apply Forall_drop].
Qed.

Lemma piece_layer_lengths k d : Forall (fun h => length h = 32%nat) (piece_layer k d).
Proof.
  unfold piece_layer. apply Forall_forall. intros h (c & -> & Hc)%list_elem_of_fmap.
  pose proof (Nat.pow_nonzero 2 k ltac:(lia)).
  pose proof (Forall_chunks (fun h => length h = 32%nat) (2 ^ k) (leaves d) ltac:(lia) (leaves_lengths d)) as Hf.
  rewrite Forall_forall in Hf. apply tree_root_length, Forall_app. split; [by apply Hf|].
  apply Forall_replicate, length_replicate.
Qed.

Lemma leaves_count d :
  Z.of_nat (length (leaves d)) =
  (Z.of_nat (length d) + Z.of_nat BlockSize - 1) / Z.of_nat BlockSize.
Proof. unfold leaves. rewrite length_map. apply chunks_count. apply BlockSize_pos. Qed.

Lemma leaves_max d : Z.of_nat (length d) <= maxInt -> Z.of_nat (length (leaves d)) <= 2 ^ 62.
Proof.
  intros Hd. pose proof BlockSize_pos as HB. rewrite leaves_count. apply Z.div_le_upper_bound; [lia|].
  assert (2 <= Z.of_nat BlockSize) by (with_strategy transparent [BlockSize] unfold BlockSize; lia).
  unfold maxInt, max_int in Hd. nia.
Qed.

(** The padded root over a file's piece layer is the root of its contents. *)
Lemma piece_layer_root k d :
  Z.of_nat (2 ^ k * BlockSize) < Z.of_nat (length d) <= maxInt ->
  RootWithPadHash (piece_layer k d) (piece_root k []) = Some (data_root d).
Proof.
  intros Hd. pose proof BlockSize_pos as HB. pose proof (leaves_count d) as Hc.
  assert (2 ^ k < length (leaves d))%nat as Hlt.
  { apply Nat2Z.inj_lt. rewrite Hc. rewrite Nat2Z.inj_mul in Hd.
    apply Z.lt_le_trans with ((Z.of_nat (2 ^ k) * Z.of_nat BlockSize + 1 + Z.of_nat BlockSize - 1) / Z.of_nat BlockSize).
    - replace (Z.of_nat (2 ^ k) * Z.of_nat BlockSize + 1 + Z.of_nat BlockSize - 1)
        with (0 + (Z.of_nat (2 ^ k) + 1) * Z.of_nat BlockSize) by lia.
      rewrite Z.div_add by lia. rewrite Z.div_0_l by lia. lia.
    - apply Z.div_le_mono; lia. }
  pose proof (leaves_max d ltac:(lia)) as Hmax.
  unfold piece_layer. rewrite RootWithPadHash_layer by done.
  assert (leaves d <> []) as Hne by (intros E; rewrite E in Hlt; simpl in Hlt; lia).
  rewrite RootWithPadHash_ok by done. unfold data_root. by destruct (leaves d).
Qed.

(** The tree and the layers describe some contents for the file at a node. *)
Definition describes (layers : gmap bytes bytes) (k : nat) (ft : FileTree) : Prop :=
  IsDir ft = true \/ ft_PiecesRoot (File ft) = [] \/
  exists d, ft_Length (File ft) = Z.of_nat (length d) /\ ft_Length (File ft) <= maxInt /\
    ft_PiecesRoot (File ft) = data_root d /\
    layers !! data_root d =
      if Z.of_nat (2 ^ k * BlockSize) <? ft_Length (File ft) then Some (concat (piece_layer k d)) else None.

Lemma data_root_length d : length (data_root d) = 32%nat.
Proof.
  unfold data_root. destruct (leaves d) as [|l ls] eqn:E; [apply Sum256_length|].
  apply tree_root_length. unfold padded. apply Forall_app. split.
  - rewrite <- E. apply leaves_lengths.
  - apply Forall_replicate, length_replicate.
Qed.

Lemma PiecesRoot_data_root f d :
  ft_PiecesRoot f = data_root d -> PiecesRootAsByteArray f = Some (Some (data_root d)).
Proof.
  intros E. pose proof (data_root_length d) as Hl. unfold PiecesRootAsByteArray. rewrite E.
  destruct (data_root d) as [|c r]; [done|]. rewrite Hl. cbn [Nat.min Nat.eqb].
  by rewrite take_ge by lia.
Qed.

(** The root over the hashes of a layer, padded as the pieces are. *)
Definition layer_root (k : nat) (hs : list bytes) : bytes :=
  match hs with
  | [] => Sum256 []
  | _ => tree_root (height (length hs)) (padded (piece_root k []) hs)
  end.

(** The layers fit the file at a node: a file with a pieces root has a layer with that root, or
    has none and is no larger than a piece. *)
Definition layer_ok (layers : gmap bytes bytes) (k : nat) (ft : FileTree) : Prop :=
  IsDir ft = true \/ ft_PiecesRoot (File ft) = [] \/
  match layers !! ft_PiecesRoot (File ft) with
  | None => ft_Length (File ft) <= Z.of_nat (2 ^ k * BlockSize)
  | Some layer => layer_root k (CompactLayerToSliceHashes layer) = ft_PiecesRoot (File ft)
  end.

(** Pieces roots are 32 bytes or none, and layers are Go strings. *)
Definition sized (layers : gmap bytes bytes) (ft : FileTree) : Prop :=
  (ft_PiecesRoot (File ft) = [] \/ length (ft_PiecesRoot (File ft)) = 32%nat) /\
  forall layer, layers !! ft_PiecesRoot (File ft) = Some layer -> Z.of_nat (length layer) <= maxInt.

Lemma compactHashes_length n l : length (compactHashes n l) = n.
Proof. revert l. induction n as [|n IH]; intros l; [done|]. simpl. by rewrite IH. Qed.

Lemma layer_root_ok k layer :
  Z.of_nat (length layer) <= maxInt ->
  RootWithPadHash (CompactLayerToSliceHashes layer) (piece_root k []) =
  Some (layer_root k (CompactLayerToSliceHashes layer)).
Proof.
  intros Hl. assert (Z.of_nat (length (CompactLayerToSliceHashes layer)) <= 2 ^ 62) as Hn.
  { unfold CompactLayerToSliceHashes. rewrite compactHashes_length.
    apply Z.le_trans with (Z.of_nat (length layer) / 32); [rewrite Nat2Z.inj_div; done|].
    apply Z.div_le_upper_bound; [lia|]. unfold maxInt, max_int in Hl. lia. }
  destruct (CompactLayerToSliceHashes layer) as [|h hs] eqn:E; [done|]. by apply RootWithPadHash_ok.
Qed.

(** Checking a node. *)
Lemma validateNodeLayers_iff layers k path ft :
  (k <= 40)%nat -> sized layers ft ->
  exists err, validateNodeLayers layers (Z.of_nat (2 ^ k * BlockSize)) path ft = Some err /\
    (err = None <-> layer_ok layers k ft).
Proof.
  intros Hk [Hr Hl]. unfold validateNodeLayers, layer_ok.
  destruct (IsDir ft); [exists None; split; [done|]; split; [by left|done]|].
  unfold PiecesRootAsByteArray. destruct (ft_PiecesRoot (File ft)) as [|c r] eqn:E.
  { exists None. split; [done|]. split; [by right; left|done]. }
  destruct Hr as [?|Hr]; [done|]. rewrite Hr. cbn [Nat.min Nat.eqb mbind option_bind].
  rewrite take_ge by lia. destruct (layers !! (c :: r)) as [layer|].
  - rewrite HashForPiecePad_ok by done. cbn [mbind option_bind].
    rewrite layer_root_ok by (by apply Hl). cbn [mbind option_bind]. eexists. split; [done|].
    case_bool_decide; [split; [by right; right|done]|]. split; [done|]. by intros [?|[?|?]].
  - eexists. split; [done|]. destruct (Z.ltb_spec (Z.of_nat (2 ^ k * BlockSize)) (ft_Length (File ft))).
    + split; [done|]. intros [?|[?|?]]; try done. lia.
    + split; [by right; right|done].
Qed.

Lemma walkLayers_iff layers k nodes :
  (k <= 40)%nat -> Forall (fun pn => sized layers pn.2) nodes ->
  exists err, walkLayers layers (Z.of_nat (2 ^ k * BlockSize)) nodes = Some err /\
    (err = None <-> Forall (fun pn => layer_ok layers k pn.2) nodes).
Proof.
  intros Hk. induction nodes as [|[path ft] nodes IH]; intros Hs; [by exists None|].
  inversion Hs as [|? ? Hft Hs']; subst. destruct (IH Hs') as (err & E & Herr).
  destruct (validateNodeLayers_iff layers k path ft Hk Hft) as (e & Ee & He).
  cbn [walkLayers]. rewrite Ee. cbn [mbind option_bind].
  destruct e as [e|]; [|exists err; split; [done|]; rewrite Forall_cons; cbn [snd]; tauto].
  exists (Some e). split; [done|]. rewrite Forall_cons. split; [done|]. intros [H%He _]. done.
Qed.

(** *** A layer is bound by its root *)

(** The inputs of the hashes of a tree's inner nodes. *)
Fixpoint tree_nodes (k : nat) (l : list bytes) : list bytes :=
  match k with
  | O => []
  | S k' => (tree_root k' (take (2 ^ k') l) ++ tree_root k' (drop (2 ^ k') l)) ::
            tree_nodes k' (take (2 ^ k') l) ++ tree_nodes k' (drop (2 ^ k') l)
  end.

Definition no_collision (xs ys : list bytes) : Prop :=
  forall x y, In x xs -> In y ys -> Sum256 x = Sum256 y -> x = y.

Lemma tree_root_inj k x y :
  length x = (2 ^ k)%nat -> length y = (2 ^ k)%nat ->
  Forall (fun h => length h = 32%nat) x -> Forall (fun h => length h = 32%nat) y ->
  no_collision (tree_nodes k x) (tree_nodes k y) -> tree_root k x = tree_root k y -> x = y.
Proof.
  revert x y. induction k as [|k IH]; intros x y Hx Hy Fx Fy Hc E.
  { destruct x as [|a [|]], y as [|b [|]]; try done. simpl in E. by subst. }
  cbn [tree_root tree_nodes] in *. rewrite Nat.pow_succ_r' in Hx, Hy.
  assert (no_collision (tree_nodes k (take (2 ^ k) x)) (tree_nodes k (take (2 ^ k) y)) /\
          no_collision (tree_nodes k (drop (2 ^ k) x)) (tree_nodes k (drop (2 ^ k) y))) as [Hc1 Hc2].
  { split; intros a b Ha Hb; apply Hc; right; apply in_or_app; auto. }
  apply Hc in E; [|by left..]. apply app_inj_1 in E as [E1 E2].
  2: { rewrite !tree_root_length; [done|by apply Forall_take..]. }
  rewrite <- (take_drop (2 ^ k) x), <- (take_drop (2 ^ k) y). f_equal.
  - apply IH; [rewrite length_take; lia..|by apply Forall_take|by apply Forall_take|done|done].
  - apply IH; [rewrite length_drop; lia..|by apply Forall_drop|by apply Forall_drop|done|done].
Qed.

Lemma compactHashes_all n l :
  length l = (32 * n)%nat ->
  concat (compactHashes n l) = l /\ Forall (fun h => length h = 32%nat) (compactHashes n l).
Proof.
  revert l. induction n as [|n IH]; intros l Hl; [by destruct l|]. cbn [compactHashes concat].
  destruct (IH (drop 32 l)) as [E F]; [rewrite length_drop; lia|]. rewrite E, take_drop.
  split; [done|]. constructor; [rewrite length_take; lia|done].
Qed.

(** The tree over the piece layer of a file with its padding. *)
Definition layer_nodes (k : nat) (hs : list bytes) : list bytes :=
  tree_nodes (height (length hs)) (padded (piece_root k []) hs).

Lemma padded_lengths k hs :
  Forall (fun h => length h = 32%nat) hs -> Forall (fun h => length h = 32%nat) (padded (piece_root k []) hs).
Proof.
  intros Hf. apply Forall_app. split; [done|]. apply Forall_replicate, tree_root_length. simpl.
  apply Forall_replicate, length_replicate.
Qed.

Lemma chunks_bounds {A} n (l : list A) :
  (0 < n)%nat -> (0 < length l)%nat -> (0 < length (chunks n l) <= length l)%nat.
Proof.
  intros Hn Hl. pose proof (chunks_count n l Hn) as Hc.
  assert (0 < Z.of_nat (length (chunks n l)) <= Z.of_nat (length l)); [|lia]. rewrite Hc. split.
  - apply Z.div_str_pos. lia.
  - apply Z.div_le_upper_bound; nia.
Qed.

Lemma piece_layer_count k d :
  (0 < length d)%nat -> (0 < length (piece_layer k d) <= length (leaves d))%nat.
Proof.
  intros Hd. unfold piece_layer. rewrite length_map. pose proof (Nat.pow_nonzero 2 k ltac:(lia)).
  apply chunks_bounds; [lia|]. unfold leaves. rewrite length_map.
  apply chunks_bounds; [apply BlockSize_pos|done].
Qed.

Lemma layer_root_contents k d :
  Z.of_nat (2 ^ k * BlockSize) < Z.of_nat (length d) <= maxInt -> layer_root k (piece_layer k d) = data_root d.
Proof.
  intros Hd. apply (inj Some). rewrite <- (piece_layer_root k d Hd).
  pose proof (piece_layer_count k d ltac:(lia)) as Hc. symmetry. unfold layer_root.
  destruct (piece_layer k d) as [|h l]; [simpl in Hc; lia|].
  apply RootWithPadHash_ok; [done|]. pose proof (leaves_max d ltac:(lia)). lia.
Qed.

Lemma layer_bound k d layer :
  Z.of_nat (2 ^ k * BlockSize) < Z.of_nat (length d) <= maxInt ->
  length layer = (32 * length (piece_layer k d))%nat ->
  no_collision (layer_nodes k (CompactLayerToSliceHashes layer)) (layer_nodes k (piece_layer k d)) ->
  layer_root k (CompactLayerToSliceHashes layer) = data_root d -> layer = concat (piece_layer k d).
Proof.
  intros Hd Hl Hc E.
  assert (CompactLayerToSliceHashes layer = compactHashes (length (piece_layer k d)) layer) as Eh.
  { unfold CompactLayerToSliceHashes. rewrite Hl. f_equal. rewrite Nat.mul_comm. by apply Nat.div_mul. }
  destruct (compactHashes_all _ _ Hl) as [Econc Hf]. rewrite Eh in *. clear Eh.
  set (hs := compactHashes _ layer) in *. assert (length hs = length (piece_layer k d)) as Hn
    by apply compactHashes_length.
  pose proof (piece_layer_count k d ltac:(lia)) as Hcount.
  pose proof (layer_root_contents k d Hd) as E'.
  rewrite <- Econc. f_equal. rewrite <- E' in E. unfold layer_root, layer_nodes in *.
  destruct hs as [|h hs'] eqn:Eh; [by destruct (piece_layer k d)|].
  destruct (piece_layer k d) as [|h' l] eqn:Ep; [done|]. rewrite <- Eh, <- Ep in *. rewrite Hn in *.
  apply tree_root_inj in E; try done.
  - unfold padded in E. rewrite Hn in E. by apply app_inj_1 in E as [].
  - rewrite <- Hn. apply padded_length. rewrite Eh. simpl. lia.
  - apply padded_length. rewrite Ep. simpl. lia.
  - by apply padded_lengths.
  - apply padded_lengths, piece_layer_lengths.
Qed.

(** The file at a node has the contents [d]: its length and its merkle root. *)
Definition has_contents (ft : FileTree) (d : bytes) : Prop :=
  IsDir ft = false /\ ft_Length (File ft) = Z.of_nat (length d) /\ Z.of_nat (length d) <= maxInt /\
  ft_PiecesRoot (File ft) = data_root d.

Lemma describes_ok layers k ft : describes layers k ft -> layer_ok layers k ft.
Proof.
  intros [?|[?|(d & Hl & Hm & Hr & Hlay)]]; [by left|by right; left|]. right; right. rewrite Hr, Hlay.
  destruct (Z.ltb_spec (Z.of_nat (2 ^ k * BlockSize)) (ft_Length (File ft))); [|done].
  rewrite compactHashes_concat by apply piece_layer_lengths. apply layer_root_contents. lia.
Qed.

(** C25: [ValidatePieceLayers] does not panic, and accepts exactly the layers that fit the file
    tree: every file with a pieces root has a layer whose padded merkle root it is, or no layer
    when it is no larger than a piece, for any piece length of a power of two blocks.  The layers
    computed from the contents of the files are accepted; and where layers are accepted, a file of
    more than one piece has a layer, which is the one of its contents if it has as many hashes,
    unless SHA-256 collides on the nodes of the two trees. *)
Theorem pieceLayers_of_contents (layers : gmap bytes bytes) (tree : FileTree) (k : nat) :
  (k <= 40)%nat -> Forall (fun pn => sized layers pn.2) (Walk [] tree) ->
  exists err, ValidatePieceLayers layers tree (Z.of_nat (2 ^ k * BlockSize)) = Some err /\
    (err = None <-> Forall (fun pn => layer_ok layers k pn.2) (Walk [] tree)) /\
    (Forall (fun pn => describes layers k pn.2) (Walk [] tree) -> err = None) /\
    (err = None -> forall path ft d, In (path, ft) (Walk [] tree) -> has_contents ft d ->
       Z.of_nat (2 ^ k * BlockSize) < Z.of_nat (length d) ->
       exists layer, layers !! data_root d = Some layer /\
         (length layer = (32 * length (piece_layer k d))%nat ->
          no_collision (layer_nodes k (CompactLayerToSliceHashes layer)) (layer_nodes k (piece_layer k d)) ->
          layer = concat (piece_layer k d))).
Proof.
  intros Hk Hs. destruct (walkLayers_iff layers k _ Hk Hs) as (err & E & Herr).
  exists err. split_and!; [done|done| |].
  - intros Hd. apply Herr. eapply Forall_impl; [exact Hd|]. intros pn. apply describes_ok.
  - intros Hn path ft d Hin (Hdir & Hlen & Hmax & Hroot) Hlt. apply Herr in Hn.
    rewrite List.Forall_forall in Hn. specialize (Hn _ Hin). unfold layer_ok in Hn. cbn [snd] in Hn.
    rewrite Hroot in Hn. destruct Hn as [Hn|[Hn|Hn]]; [congruence| |].
    { pose proof (data_root_length d) as Hl. rewrite Hn in Hl. done. }
    destruct (layers !! data_root d) as [layer|]; [|lia]. exists layer. split; [done|].
    intros Hl Hc. apply layer_bound; [lia|done..].
Qed.

(** A file of two pieces and its layer. *)
Definition two_pieces : bytes := replicate (S BlockSize) x00.

Definition two_pieces_tree : FileTree :=
  MkFileTree {| ft_Length := Z.of_nat (S BlockSize); ft_PiecesRoot := data_root two_pieces |} [].

Definition two_pieces_layers : gmap bytes bytes :=
  {[ data_root two_pieces := concat (piece_layer 0 two_pieces) ]}.

Lemma concat_length_32 (hs : list bytes) :
  Forall (fun h => length h = 32%nat) hs -> length (concat hs) = (32 * length hs)%nat.
Proof. induction 1 as [|h hs Hh _ IH]; [done|]. cbn [concat]. rewrite length_app, IH, Hh. simpl. lia. Qed.

Lemma two_pieces_sized : sized two_pieces_layers two_pieces_tree.
Proof.
  unfold sized, two_pieces_tree, two_pieces_layers. cbn [File ft_PiecesRoot].
  split; [right; apply data_root_length|]. intros layer. rewrite lookup_singleton_eq. intros <-%(inj Some). rewrite concat_length_32 by apply piece_layer_lengths.
  assert (length two_pieces = S BlockSize) as Hl by apply length_replicate.
  pose proof (piece_layer_count 0 two_pieces ltac:(lia)) as Hc.
  pose proof (chunks_bounds BlockSize two_pieces BlockSize_pos ltac:(lia)) as Hb.
  unfold leaves in Hc. rewrite length_map in Hc.
  assert (Z.of_nat BlockSize = 16384) by (with_strategy transparent [BlockSize] unfold BlockSize; lia).
  unfold maxInt, max_int. lia.
Qed.

Lemma two_pieces_described : describes two_pieces_layers 0 two_pieces_tree.
Proof.
  unfold describes, two_pieces_tree, two_pieces_layers. right; right. exists two_pieces.
  cbn [File ft_Length ft_PiecesRoot].
  assert (Z.of_nat BlockSize = 16384) as HB by (with_strategy transparent [BlockSize] unfold BlockSize; lia).
  split; [unfold two_pieces; by rewrite length_replicate|]. split; [unfold maxInt, max_int; lia|].
  split; [reflexivity|].
  assert (Z.of_nat (2 ^ 0 * BlockSize) <? Z.of_nat (S BlockSize) = true) as ->
    by (apply Z.ltb_lt; rewrite Nat.pow_0_r; lia).
  exact (lookup_singleton_eq _ _).
Qed.

Lemma Walk_file path f : Walk path (MkFileTree f []) = [(path, MkFileTree f [])].
Proof. done. Qed.

Lemma two_pieces_nodes P : P ([], two_pieces_tree) -> Forall P (Walk [] two_pieces_tree).
Proof. intros HP. unfold two_pieces_tree in *. rewrite Walk_file. constructor; [exact HP|constructor]. Qed.

Lemma pieceLayers_of_contents_witness :
  ValidatePieceLayers two_pieces_layers two_pieces_tree (Z.of_nat (2 ^ 0 * BlockSize)) = Some None /\
  two_pieces_layers !! data_root two_pieces = Some (concat (piece_layer 0 two_pieces)).
Proof.
  destruct (pieceLayers_of_contents two_pieces_layers two_pieces_tree 0) as (err & E & _ & Hd & _);
    [lia|exact (two_pieces_nodes _ two_pieces_sized)|].
  specialize (Hd (two_pieces_nodes _ two_pieces_described)). rewrite Hd in E.
  exact (conj E (lookup_singleton_eq _ _)).
Defined.
