(* ===== verification/Iplist.v ===== *)
(** * IP range lists ([src/iplist])

    Sorted lists of address ranges: [iplist.go] searches them and parses them from PeerGuardian
    text, [packed.go] serialises them into a form that is searched in place, [cidr.go] finds the
    last address of a network.  An address ([net.IP]) is its bytes; [None] is a panic. *)

From S2P Require Import Prelude Strconv Search.
Local Open Scope Z_scope.
Local Open Scope go_scope.

(** ** Addresses ([net.IP]) *)

Definition v4InV6Prefix : bytes := replicate 10 x00 ++ [z2b 255; z2b 255].

Definition To4 (ip : bytes) : option bytes :=
  if (length ip =? 4)%nat then Some ip
  else if (length ip =? 16)%nat && bool_decide (take 12 ip = v4InV6Prefix) then Some (drop 12 ip)
  else None.

Definition To16 (ip : bytes) : option bytes :=
  if (length ip =? 4)%nat then Some (v4InV6Prefix ++ ip)
  else if (length ip =? 16)%nat then Some ip
  else None.

(** ** Lists ([iplist.go]) *)

Record Range := { First : bytes; Last : bytes; Description : bytes }.

Definition noRange : Range := {| First := []; Last := []; Description := [] |}.

(** An [IPList] is its ranges; a nil list is [None]. *)
Definition NumRanges (ipl : option (list Range)) : Z :=
  match ipl with None => 0 | Some ranges => Z.of_nat (length ranges) end.

(** The search shared by both kinds of list: a range and whether it contains [ip]. *)
Definition lookup_ (first : Z -> option bytes) (full : Z -> option Range) (n : Z) (ip : bytes) :
    option (Range * bool) :=
  i ← sort_Search_opt (Z.to_nat n) (fun i =>
        if n <=? Z.of_nat i + 1 then Some true
        else f ← first (Z.of_nat i + 1); Some (bytes_ltb ip f));
  if Z.of_nat i =? n then Some (noRange, false)
  else
    r ← full (Z.of_nat i);
    Some (r, bytes_leb (First r) ip && bytes_leb ip (Last r)).

(** Indexing a slice *)
Definition index_ {A} (l : list A) (i : Z) : option A :=
  if i <? 0 then None else l !! Z.to_nat i.

Definition IPList_lookup (ranges : list Range) (ip : bytes) : option (Range * bool) :=
  lookup_ (fun i => First <$> index_ ranges i) (index_ ranges) (Z.of_nat (length ranges)) ip.

Definition badIP : Range := {| First := []; Last := []; Description := bs "bad IP" |}.

Definition Lookup (ipl : option (list Range)) (ip : bytes) : option (Range * bool) :=
  match ipl with
  | None => Some (noRange, false)
  | Some ranges =>
      '(r, ok) ← match To4 ip with
                 | Some v4 => IPList_lookup ranges v4
                 | None => Some (noRange, false)
                 end;
      if (ok : bool) then Some (r, ok)
      else
        match To16 ip with
        | Some v6 => IPList_lookup ranges v6
        | None => match To4 ip with None => Some (badIP, true) | Some _ => Some (r, ok) end
        end
  end.

(** ** The text format *)

(** The encodings of the Unicode white space that [bytes.TrimSpace] removes. *)
Definition spaces : list bytes :=
  map (map z2b)
    ([[9]; [10]; [11]; [12]; [13]; [32]; [0xc2; 0x85]; [0xc2; 0xa0]; [0xe1; 0x9a; 0x80];
      [0xe2; 0x80; 0xa8]; [0xe2; 0x80; 0xa9]; [0xe2; 0x80; 0xaf]; [0xe2; 0x81; 0x9f];
      [0xe3; 0x80; 0x80]] ++ map (fun i => [0xe2; 0x80; 0x80 + i]) (seqZ 0 11)).

Definition strip_prefix (p l : bytes) : option bytes :=
  if bool_decide (take (length p) l = p) then Some (drop (length p) l) else None.

Fixpoint first_stripped (ps : list bytes) (l : bytes) : option bytes :=
  match ps with
  | [] => None
  | p :: ps' => match strip_prefix p l with Some l' => Some l' | None => first_stripped ps' l end
  end.

Fixpoint trim_left (fuel : nat) (ps : list bytes) (l : bytes) : bytes :=
  match fuel with
  | O => l
  | S fuel' => match first_stripped ps l with Some l' => trim_left fuel' ps l' | None => l end
  end.

(** [bytes.TrimSpace]; the right end is trimmed as the left end of the reverse. *)
Definition TrimSpace (l : bytes) : bytes :=
  let l := trim_left (length l) spaces l in
  rev (trim_left (length l) (map (@rev byte) spaces) (rev l)).

Fixpoint index_byte (c : byte) (l : bytes) : option nat :=
  match l with
  | [] => None
  | x :: l' => if bool_decide (x = c) then Some 0%nat else S <$> index_byte c l'
  end.

Definition last_index_byte (c : byte) (l : bytes) : option nat :=
  i ← index_byte c (rev l); Some (length l - 1 - i)%nat.

(** The fields of a dotted IPv4 address ([netip.parseIPv4Fields]): [i] counts the bytes read,
    [prev] is the byte before. *)
Fixpoint parseIPv4Fields (s : bytes) (prev : option byte) (val digLen : Z) (fields : bytes) :
    option bytes :=
  match s with
  | [] => if (length fields <? 3)%nat then None else Some (fields ++ [z2b val])
  | c :: s' =>
      if is_digit c then
        if (digLen =? 1) && (val =? 0) then None
        else
          let val := val * 10 + digit_val c in
          if 255 <? val then None else parseIPv4Fields s' (Some c) val (digLen + 1) fields
      else if bool_decide (c = "."%byte) then
        if bool_decide (prev = None) || bool_decide (s' = []) || bool_decide (prev = Some "."%byte)
        then None
        else if (length fields =? 3)%nat then None
        else parseIPv4Fields s' (Some c) 0 0 (fields ++ [z2b val])
      else None
  end.

Inductive LineError := MissingColon | MissingHyphen | BadIPRange.

Section Text.
(** The parser of IPv6 addresses. *)
Variable parseIPv6 : bytes -> option bytes.

(** [net.ParseIP]: the first of [.], [:] and [%] decides. *)
Fixpoint ParseIP_from (s rest : bytes) : option bytes :=
  match rest with
  | [] => None
  | c :: rest' =>
      if bool_decide (c = "."%byte) then app v4InV6Prefix <$> parseIPv4Fields s None 0 0 []
      else if bool_decide (c = ":"%byte) then parseIPv6 s
      else if bool_decide (c = "%"%byte) then None
      else ParseIP_from s rest'
  end.

Definition ParseIP (s : bytes) : option bytes := ParseIP_from s s.

Definition minifyIP (ip : option bytes) : option bytes :=
  match ip with
  | None => None
  | Some b => match To4 b with Some v4 => Some v4 | None => Some b end
  end.

(** [Some None] is a line without a range. *)
Definition ParseBlocklistP2PLine (l : bytes) : option Range + LineError :=
  let l := TrimSpace l in
  if (length l =? 0)%nat || bool_decide (take 1 l = bs "#") then inl None
  else
    match last_index_byte ":"%byte l with
    | None => inr MissingColon
    | Some colon =>
        let after := drop (colon + 1) l in
        match index_byte "-"%byte after with
        | None => inr MissingHyphen
        | Some hyphen =>
            match minifyIP (ParseIP (take hyphen after)),
                  minifyIP (ParseIP (drop (hyphen + 1) after)) with
            | Some f, Some t =>
                if (length f =? length t)%nat
                then inl (Some {| First := f; Last := t; Description := take colon l |})
                else inr BadIPRange
            | _, _ => inr BadIPRange
            end
        end
    end.

(** [NewFromReader], given the lines of the file: the ranges, or the line that failed. *)
Fixpoint parseLines (lineNum : Z) (lines : list bytes) : list Range + (Z * LineError) :=
  match lines with
  | [] => inl []
  | l :: lines' =>
      match ParseBlocklistP2PLine l with
      | inr e => inr (lineNum, e)
      | inl r =>
          match parseLines (lineNum + 1) lines' with
          | inl rs => inl (match r with Some r => r :: rs | None => rs end)
          | inr e => inr e
          end
      end
  end.

Definition NewFromLines (lines : list bytes) : list Range + (Z * LineError) := parseLines 1 lines.
End Text.

(** ** The packed format ([packed.go]) *)

Definition packedRangesOffset : Z := 8.
Definition packedRangeLen : Z := 44.

Section Packed.
(** [w.Write]: the writer afterwards, how many bytes it took, and whether it succeeded. *)
Context {W : Type} (w_Write : bytes -> W -> W * (Z * bool)).

(** The writer, and whether no error has happened; nothing is written after an error. *)
Notation wstate := (W * bool)%type.

Definition pwrite (b : bytes) (expectedLen : Z) (s : wstate) : option wstate :=
  let '(w, ok) := s in
  if ok then
    let '(w', (n, ok')) := w_Write b w in
    if negb ok' then Some (w', false)
    else if negb (n =? expectedLen) then None
    else Some (w', true)
  else Some s.

(** A nil address has no bytes to write. *)
Definition as16 (ip : bytes) : bytes := default [] (To16 ip).

Fixpoint packRanges (ranges : list Range) (descOffsets : gmap bytes Z) (descs : list bytes)
    (nextOffset : Z) (s : wstate) : option (list bytes * wstate) :=
  match ranges with
  | [] => Some (descs, s)
  | r :: ranges' =>
      s ← pwrite (as16 (First r)) 16 s;
      s ← pwrite (as16 (Last r)) 16 s;
      let '(descOff, descOffsets, descs, nextOffset) :=
        match descOffsets !! Description r with
        | Some descOff => (descOff, descOffsets, descs, nextOffset)
        | None => (nextOffset, <[Description r := nextOffset]> descOffsets,
                   descs ++ [Description r], nextOffset +! Z.of_nat (length (Description r)))
        end in
      s ← pwrite (le_put 8 descOff) 8 s;
      s ← pwrite (le_put 4 (Z.of_nat (length (Description r)))) 4 s;
      packRanges ranges' descOffsets descs nextOffset s
  end.

Fixpoint packDescs (descs : list bytes) (s : wstate) : option wstate :=
  match descs with
  | [] => Some s
  | d :: descs' => s ← pwrite d (Z.of_nat (length d)) s; packDescs descs' s
  end.

Definition WritePacked (ranges : list Range) (w : W) : option wstate :=
  s ← pwrite (le_put 8 (Z.of_nat (length ranges))) 8 (w, true);
  '(descs, s) ← packRanges ranges ∅ [] 0 s;
  packDescs descs s.
End Packed.

(** [b[i:j]] *)
Definition slice (b : bytes) (i j : Z) : option bytes :=
  if (0 <=? i) && (i <=? j) && (j <=? Z.of_nat (length b))
  then Some (take (Z.to_nat (j - i)) (drop (Z.to_nat i) b)) else None.

Definition packed_len (pil : bytes) : option Z :=
  b ← slice pil 0 8; Some (wrapS 64 (le_get b)).

Definition NewFromPacked (b : bytes) : option bytes :=
  n ← packed_len b;
  let minLen := packedRangesOffset +! n *! packedRangeLen in
  if Z.of_nat (length b) <? minLen then None else Some b.

Definition getFirst (pil : bytes) (i : Z) : option bytes :=
  let off := packedRangesOffset +! packedRangeLen *! i in
  slice pil off (off +! 16).

(** [binary.LittleEndian.Uint64(pil[off:])] and [Uint32] need that many bytes. *)
Definition getRange (pil : bytes) (i : Z) : option Range :=
  let rOff := packedRangesOffset +! packedRangeLen *! i in
  last ← slice pil (rOff +! 16) (rOff +! 32);
  descOff ← slice pil (rOff +! 32) (rOff +! 40);
  descLen ← slice pil (rOff +! 40) (rOff +! 44);
  n ← packed_len pil;
  let descOff := wrapS 64 (le_get descOff) +! (packedRangesOffset +! packedRangeLen *! n) in
  f ← getFirst pil i;
  d ← slice pil descOff (descOff +! le_get descLen);
  Some {| First := f; Last := last; Description := d |}.

Definition PackedLookup (pil : bytes) (ip : bytes) : option (Range * bool) :=
  ip16 ← To16 ip;
  n ← packed_len pil;
  lookup_ (getFirst pil) (getRange pil) n ip16.

(** ** Networks ([cidr.go]) *)

Definition byte_not (c : byte) : byte := z2b (255 - b2z c).
Definition byte_or (a b : byte) : byte := z2b (Z.lor (b2z a) (b2z b)).

(** The last address of the network [ip]/[mask]. *)
Definition IPNetLast (ip mask : bytes) : option bytes :=
  if (length ip =? length mask)%nat
  then Some (zip_with (fun a m => byte_or a (byte_not m)) ip mask) else None.
