(* ===== verification/IplistTheory.v ===== *)
(** * Looking addresses up

    The binary search finds the range that holds a string of bytes, for any store of sorted, disjoint
    ranges; the list in memory and the packed list are such stores.  Strings of 4 and of 16 bytes are
    compared by the list in memory, which therefore never misses an address but may find a range that
    does not hold it; the packed list is exact.  Packing keeps every range, up to the 16-byte form of
    its addresses, and the text format round trips. *)

From S2P Require Import Prelude Strconv Search Iplist.
Local Open Scope Z_scope.
Local Open Scope go_scope.

Lemma bytes_lt_le x y : bytes_lt x y -> bytes_le x y.
Proof. intros. apply bytes_le_lt_eq. by left. Qed.

Lemma bytes_le_lt_trans x y z : bytes_le x y -> bytes_lt y z -> bytes_lt x z.
Proof. intros [Hxy| ->]%bytes_le_lt_eq Hyz; [|done]. by trans y. Qed.

Lemma bytes_lt_le_trans x y z : bytes_lt x y -> bytes_le y z -> bytes_lt x z.
Proof. intros Hxy [Hyz| <-]%bytes_le_lt_eq; [|done]. by trans y. Qed.

Lemma bytes_lt_not_le x y : bytes_lt x y -> ~ bytes_le y x.
Proof. intros Hlt Hle. by apply (bytes_lt_irrefl x), (bytes_lt_le_trans _ y). Qed.

Lemma bytes_ltb_false x y : bytes_ltb x y = false <-> bytes_le y x.
Proof.
  rewrite <- bytes_leb_le. unfold bytes_ltb, bytes_leb. rewrite (bytes_compare_antisym x y).
  by destruct (bytes_compare x y).
Qed.

(** ** The search *)

Definition contains (r : Range) (ip : bytes) : Prop := bytes_le (First r) ip /\ bytes_le ip (Last r).

(** Ranges in order that do not overlap. *)
Fixpoint separated (ranges : list Range) : bool :=
  match ranges with
  | [] => true
  | r :: ranges' =>
      bytes_leb (First r) (Last r) &&
      match ranges' with [] => true | r' :: _ => bytes_ltb (Last r) (First r') end &&
      separated ranges'
  end.

Lemma separated_tail r ranges : separated (r :: ranges) = true -> separated ranges = true.
Proof. cbn [separated]. intros [_ ?]%andb_true_iff. done. Qed.

Lemma separated_lookup ranges i r :
  separated ranges = true -> ranges !! i = Some r -> bytes_le (First r) (Last r).
Proof.
  revert i. induction ranges as [|r0 ranges IH]; intros [|i] Hs Hi; try done.
  - injection Hi as ->. cbn [separated] in Hs. apply andb_true_iff in Hs as [Hs _].
    apply andb_true_iff in Hs as [Hs _]. by apply bytes_leb_le.
  - apply (IH i); [by eapply separated_tail|done].
Qed.

Lemma separated_lt ranges i j r r' :
  separated ranges = true -> ranges !! i = Some r -> ranges !! j = Some r' -> (i < j)%nat ->
  bytes_lt (Last r) (First r').
Proof.
  revert i j r. induction ranges as [|r0 ranges IH]; intros i [|j] r Hs Hi Hj Hij; try done; [lia|].
  pose proof (separated_tail _ _ Hs) as Hs'. destruct i as [|i]; [|apply (IH i j); done || lia].
  injection Hi as ->. cbn [separated] in Hs. apply andb_true_iff in Hs as [Hs _].
  apply andb_true_iff in Hs as [_ Hn]. destruct ranges as [|r1 ranges]; [done|].
  apply bytes_ltb_lt in Hn. destruct j as [|j]; [by injection Hj as <-|].
  eapply bytes_lt_le_trans; [exact Hn|].
  eapply (transitivity (y := Last r1)); [by apply (separated_lookup (r1 :: ranges) 0)|].
  apply bytes_lt_le. by apply (IH 0%nat (S j)); [done..|lia].
Qed.

Lemma separated_first_lt ranges i j r r' :
  separated ranges = true -> ranges !! i = Some r -> ranges !! j = Some r' -> (i < j)%nat ->
  bytes_lt (First r) (First r').
Proof.
  intros Hs Hi Hj Hij. eapply bytes_le_lt_trans; [by eapply separated_lookup|].
  by eapply separated_lt.
Qed.

(** What a store of ranges promises the search. *)
Class RangeStore (first : Z -> option bytes) (full : Z -> option Range) (ranges : list Range) := {
  store_first i r : ranges !! i = Some r -> first (Z.of_nat i) = Some (First r);
  store_full i r : ranges !! i = Some r -> full (Z.of_nat i) = Some r;
}.

(** The answer to a lookup: the range that holds the address, if there is one. *)
Definition answers (ranges : list Range) (ip : bytes) (res : option (Range * bool)) : Prop :=
  exists r ok, res = Some (r, ok) /\
    if ok then In r ranges /\ contains r ip else Forall (fun r => ~ contains r ip) ranges.

Lemma lookup_answers first full ranges ip `{RangeStore first full ranges} :
  separated ranges = true -> answers ranges ip (lookup_ first full (Z.of_nat (length ranges)) ip).
Proof.
  intros Hs. unfold lookup_. rewrite Nat2Z.id.
  set (g := fun i => match ranges !! S i with Some r => bytes_ltb ip (First r) | None => true end).
  rewrite (sort_Search_total _ _ g).
  2: { intros k Hk. unfold g. destruct (Z.leb_spec (Z.of_nat (length ranges)) (Z.of_nat k + 1)).
       - by rewrite (proj2 (lookup_ge_None ranges (S k))) by lia.
       - destruct (lookup_lt_is_Some_2 ranges (S k)) as [r Hr]; [lia|]. rewrite Hr.
         replace (Z.of_nat k + 1) with (Z.of_nat (S k)) by lia. by rewrite (store_first _ _ Hr). }
  cbn [mbind option_bind]. destruct (search_least (length ranges) g) as (Hn & Hlo & Hhi).
  { intros i j Hij. unfold g. destruct (ranges !! S j) as [r'|] eqn:Ej; [|done].
    destruct (lookup_lt_is_Some_2 ranges (S i)) as [r Hr]; [apply lookup_lt_Some in Ej; lia|].
    rewrite Hr, !bytes_ltb_lt. intros Hlt. destruct (decide (i = j)) as [->|]; [congruence|].
    eapply bytes_lt_le_trans; [exact Hlt|]. apply bytes_lt_le.
    by apply (separated_first_lt ranges (S i) (S j)); [done..|lia]. }
  set (i := sort_Search (length ranges) g) in *.
  destruct (Z.eqb_spec (Z.of_nat i) (Z.of_nat (length ranges))) as [E|E].
  - exists noRange, false. split; [done|]. destruct ranges as [|r0 ranges]; [constructor|].
    exfalso. assert (g (length ranges) = false) as Hf by (apply Hlo; simpl in *; lia).
    unfold g in Hf. by rewrite (proj2 (lookup_ge_None _ _)) in Hf by (simpl; lia).
  - destruct (lookup_lt_is_Some_2 ranges i) as [r Hr]; [lia|]. rewrite (store_full _ _ Hr).
    exists r, (bytes_leb (First r) ip && bytes_leb ip (Last r)). split; [done|].
    destruct (_ && _) eqn:Ec.
    + apply andb_true_iff in Ec as [?%bytes_leb_le ?%bytes_leb_le].
      split; [by apply list_elem_of_In; eapply list_elem_of_lookup_2|by split].
    + apply Forall_forall. intros r' [j Hj]%list_elem_of_lookup [H1 H2].
      destruct (lt_eq_lt_dec j i) as [[Hlt| ->]|Hgt].
      * destruct (lookup_lt_is_Some_2 ranges (S j)) as [r1 Hr1]; [apply lookup_lt_Some in Hr; lia|].
        specialize (Hlo j Hlt). unfold g in Hlo. rewrite Hr1 in Hlo. apply bytes_ltb_false in Hlo.
        apply (bytes_lt_not_le (Last r') (First r1)); [|by trans ip].
        by apply (separated_lt ranges j (S j)); [done..|lia].
      * assert (r' = r) as -> by congruence. apply bytes_leb_le in H1, H2. by rewrite H1, H2 in Ec.
      * assert (g (j - 1)%nat = true) as Hg by (apply Hhi; apply lookup_lt_Some in Hj; lia).
        unfold g in Hg. replace (S (j - 1)) with j in Hg by lia. rewrite Hj, bytes_ltb_lt in Hg.
        by apply (bytes_lt_not_le _ _ Hg).
Qed.

#[export] Instance IPList_store ranges :
  RangeStore (fun i => First <$> index_ ranges i) (index_ ranges) ranges.
Proof.
  assert (forall i r, ranges !! i = Some r -> index_ ranges (Z.of_nat i) = Some r) as Hi.
  { intros i r Hr. unfold index_. destruct (Z.ltb_spec (Z.of_nat i) 0); [lia|]. by rewrite Nat2Z.id. }
  split; intros i r Hr; by rewrite (Hi _ _ Hr).
Qed.

(** The forms of an address that a list may hold it in. *)
Definition forms (ip : bytes) : list bytes :=
  match To4 ip with Some v4 => [v4] | None => [] end ++
  match To16 ip with Some v6 => [v6] | None => [] end.

(** ** Addresses in ranges *)

(** The address lies in the range: its form of the range's own length is between the ends. *)
Definition holds (r : Range) (ip : bytes) : Prop :=
  exists f, In f (forms ip) /\ length f = length (First r) /\ contains r f.

(** A range of IPv4 addresses in their 4-byte form. *)
Definition range4 (r : Range) : bool := (length (First r) =? 4)%nat && (length (Last r) =? 4)%nat.

Definition zeroIP : bytes := replicate 4 x00.

(** The range is taken to hold the address, whose 16-byte form is compared with 4-byte ends. *)
Definition mistaken (r : Range) (ip : bytes) : Prop :=
  match To4 ip with
  | Some _ => First r = zeroIP /\ Last r <> zeroIP
  | None => length ip = 16%nat /\ bytes_le (First r) (take 4 ip) /\ bytes_lt (take 4 ip) (Last r)
  end.

Lemma bytes_compare_app p x y : bytes_compare (p ++ x) (p ++ y) = bytes_compare x y.
Proof. induction p as [|c p IH]; [done|]. cbn [app bytes_compare]. by rewrite Z.compare_refl. Qed.

Lemma bytes_compare_longer x y z :
  length x = length y -> z <> [] ->
  bytes_compare x (y ++ z) = match bytes_compare x y with Eq => Lt | c => c end.
Proof.
  revert y. induction x as [|c x IH]; intros [|d y] Hl Hz; try done; [by destruct z|].
  cbn [app bytes_compare]. destruct (b2z c ?= b2z d); [|done..]. apply IH; [by injection Hl|done].
Qed.

Lemma bytes_le_longer x y z : length x = length y -> z <> [] -> bytes_le x (y ++ z) <-> bytes_le x y.
Proof. intros. unfold bytes_le. rewrite bytes_compare_longer by done. by destruct (bytes_compare x y). Qed.

Lemma bytes_longer_le x y z : length x = length y -> z <> [] -> bytes_le (y ++ z) x <-> bytes_lt y x.
Proof.
  intros. unfold bytes_le, bytes_lt. rewrite (bytes_compare_antisym x), bytes_compare_longer by done.
  rewrite (bytes_compare_antisym x y). by destruct (bytes_compare x y).
Qed.

Lemma bytes_le_prefix p x y z :
  bytes_le (p ++ x) z -> bytes_le z (p ++ y) -> exists w, z = p ++ w /\ bytes_le x w /\ bytes_le w y.
Proof.
  revert z. induction p as [|c p IH]; intros z; [by exists z|]. destruct z as [|d z]; [by intros []|].
  unfold bytes_le. cbn [app bytes_compare].
  destruct (Z.compare_spec (b2z c) (b2z d)) as [E|Hlt|Hgt]; [|rewrite (proj2 (Z.compare_gt_iff _ _)) by lia; done|done].
  apply (inj b2z) in E as ->. rewrite Z.compare_refl. intros H1 H2.
  destruct (IH z H1 H2) as (w & -> & Hw). by exists w.
Qed.

Lemma To4_spec ip v4 :
  To4 ip = Some v4 -> length v4 = 4%nat /\ To16 ip = Some (v4InV6Prefix ++ v4).
Proof.
  unfold To4, To16. destruct (Nat.eqb_spec (length ip) 4) as [E|E]; [by intros [= <-]|].
  destruct (Nat.eqb_spec (length ip) 16) as [E'|]; [|done]. cbn [andb].
  destruct (bool_decide_reflect (take 12 ip = v4InV6Prefix)) as [Hp|]; [|done]. intros [= <-].
  rewrite length_drop, E', <- Hp, take_drop. done.
Qed.

Lemma To4_mapped w : length w = 4%nat -> To4 (v4InV6Prefix ++ w) = Some w.
Proof.
  intros Hw. unfold To4. rewrite length_app, Hw. cbn -[bool_decide v4InV6Prefix].
  by rewrite bool_decide_eq_true_2.
Qed.

Lemma To16_length ip ip16 : To16 ip = Some ip16 -> length ip16 = 16%nat.
Proof.
  unfold To16. destruct (Nat.eqb_spec (length ip) 4) as [E|_].
  - intros <-%(inj Some). by rewrite length_app, E.
  - destruct (Nat.eqb_spec (length ip) 16); [|done]. by intros [= <-].
Qed.

Lemma zeros_le n x : length x = n -> bytes_le (replicate n x00) x.
Proof.
  revert n. induction x as [|c x IH]; intros [|n] Hl; try done. unfold bytes_le. cbn [replicate bytes_compare].
  pose proof (b2z_range c). change (b2z x00) with 0. case Z.compare_spec; [|done|lia].
  intros _. apply IH. by injection Hl.
Qed.

(** A range of 4-byte ends that contains a mapped address begins at zero. *)
Lemma contains_mapped r v4 :
  range4 r = true -> contains r (v4InV6Prefix ++ v4) <-> First r = zeroIP /\ Last r <> zeroIP.
Proof.
  intros [Hf%Nat.eqb_eq Hl%Nat.eqb_eq]%andb_true_iff. unfold contains.
  change v4InV6Prefix with (zeroIP ++ drop 4 v4InV6Prefix). rewrite <- app_assoc.
  rewrite bytes_le_longer, bytes_longer_le by done.
  pose proof (zeros_le 4) as Hz.
  split.
  - intros [H1 H2]. split; [by apply (anti_symm bytes_le); [|apply Hz]|]. intros E. rewrite E in H2.
    by apply bytes_lt_irrefl in H2.
  - intros [-> Hne]. split; [done|]. destruct (proj1 (bytes_le_lt_eq _ _) (Hz _ Hl)); [done|by destruct Hne].
Qed.

(** What the byte order makes of an address and an IPv4 range. *)
Lemma contains_range4 r ip :
  range4 r = true -> Exists (contains r) (forms ip) <-> holds r ip \/ mistaken r ip.
Proof.
  intros Hr. pose proof Hr as [Hf%Nat.eqb_eq Hl%Nat.eqb_eq]%andb_true_iff.
  unfold holds, mistaken, forms. destruct (To4 ip) as [v4|] eqn:E4.
  - destruct (To4_spec _ _ E4) as [Hlen E6]. rewrite E6. cbn [app]. rewrite !Exists_cons, Exists_nil.
    rewrite (contains_mapped r v4 Hr). split.
    + intros [Hc|[Hz|[]]]; [left; exists v4; split; [by left|]; split; [congruence|done]|by right].
    + intros [(f & [<-|[<-|[]]] & El & Hc)|Hz]; [by left| |by right; left].
      rewrite length_app, Hlen, Hf in El. done.
  - cbn [app]. destruct (To16 ip) as [v6|] eqn:E6.
    + assert (v6 = ip /\ length ip = 16%nat) as [-> Hlen].
      { revert E4 E6. unfold To4, To16. destruct (length ip =? 4)%nat; [done|].
        destruct (Nat.eqb_spec (length ip) 16); [|done]. by intros _ [= ->]. }
      rewrite Exists_cons, Exists_nil. unfold contains.
      assert (length (take 4 ip) = 4%nat) as Ht by (rewrite length_take; lia).
      assert (drop 4 ip <> []) as Hd by (intros Ed%(f_equal length); rewrite length_drop, Hlen in Ed; done).
      rewrite <- (take_drop 4 ip) at 1 2. rewrite bytes_le_longer, bytes_longer_le by congruence.
      split; [intros [[]|[]]; by right|]. intros [(f & [<-|[]] & El & _)|(_ & H)]; [lia|by left].
    + rewrite Exists_nil. split; [done|]. intros [(f & [] & _)|(Hlen & _)]. revert E6. unfold To16.
      rewrite Hlen. done.
Qed.

(** What [IPList.Lookup] answers, by the order of the bytes. *)
Lemma Lookup_answers (ranges : list Range) (ip : bytes) :
  separated ranges = true ->
  exists r ok, Lookup (Some ranges) ip = Some (r, ok) /\
    (forms ip = [] -> (r, ok) = (badIP, true)) /\
    (forms ip <> [] ->
     if ok then In r ranges /\ Exists (contains r) (forms ip)
     else Forall (fun r => ~ Exists (contains r) (forms ip)) ranges).
Proof.
  intros Hs. unfold Lookup, forms, IPList_lookup.
  assert (forall ip, answers ranges ip (IPList_lookup ranges ip)) as Ha
    by (intros; by apply lookup_answers; [apply _|]).
  unfold IPList_lookup in Ha.
  destruct (To4 ip) as [v4|] eqn:E4.
  - destruct (Ha v4) as (r & ok & -> & Hr). cbn [mbind option_bind]. destruct ok.
    { exists r, true. split_and!; [done|done|]. intros _. destruct Hr. split; [done|]. by left. }
    destruct (To4_spec _ _ E4) as [_ ->].
    destruct (Ha (v4InV6Prefix ++ v4)) as (r' & ok' & -> & Hr'). exists r', ok'. split_and!; [done|done|].
    intros _. destruct ok'; [destruct Hr'; split; [done|by right; left]|].
    apply Forall_forall. intros x Hx. rewrite Forall_forall in Hr, Hr'. cbn [app].
    rewrite !Exists_cons, Exists_nil. specialize (Hr x Hx). specialize (Hr' x Hx). cbv beta in *. tauto.
  - cbn [mbind option_bind app]. destruct (To16 ip) as [v6|] eqn:E6; [|by exists badIP, true].
    destruct (Ha v6) as (r' & ok' & -> & Hr'). exists r', ok'. split_and!; [done|done|]. intros _.
    destruct ok'; [destruct Hr'; split; [done|by left]|].
    eapply Forall_impl; [exact Hr'|]. intros x Hx. rewrite Exists_cons, Exists_nil. cbv beta in *. tauto.
Qed.

Lemma holds_contains r ip : holds r ip -> Exists (contains r) (forms ip).
Proof. intros (f & Hf & _ & Hc). apply Exists_exists. exists f. by rewrite list_elem_of_In. Qed.



(** C37: a list with a range that starts at 0.0.0.0 and goes beyond it answers that it holds every
    IPv4 address, whatever its ranges are: the 16-byte form, tried when no range holds the 4-byte
    form, begins with zeros.  Block lists hold 0.0.0.0-0.255.255.255. *)
Theorem lookup_zero_range (ranges : list Range) (r : Range) (ip v4 : bytes) :
  separated ranges = true -> In r ranges -> range4 r = true ->
  First r = zeroIP -> Last r <> zeroIP -> To4 ip = Some v4 ->
  exists r', Lookup (Some ranges) ip = Some (r', true).
Proof.
  intros Hs Hin H4 Hf Hl E4. destruct (Lookup_answers ranges ip Hs) as (r' & ok & E & _ & Hok).
  exists r'. rewrite E. destruct ok; [done|]. exfalso.
  assert (forms ip = [v4; v4InV6Prefix ++ v4]) as Efo
    by (unfold forms; rewrite E4; by destruct (To4_spec _ _ E4) as [_ ->]).
  rewrite Efo in Hok. specialize (Hok ltac:(done)). rewrite Forall_forall in Hok.
  apply (Hok r); [by apply list_elem_of_In|]. apply Exists_cons. right. apply Exists_cons. left.
  by apply contains_mapped.
Qed.

(** 8.8.8.8, on a list of one range that does not hold it. *)
Lemma lookup_zero_range_witness :
  let bogons := {| First := zeroIP; Last := map z2b [0; 255; 255; 255]; Description := bs "bogon" |} in
  exists r', Lookup (Some [bogons]) (map z2b [8; 8; 8; 8]) = Some (r', true).
Proof.
  apply (lookup_zero_range
    [{| First := zeroIP; Last := map z2b [0; 255; 255; 255]; Description := bs "bogon" |}]
    {| First := zeroIP; Last := map z2b [0; 255; 255; 255]; Description := bs "bogon" |}
    (map z2b [8; 8; 8; 8]) (map z2b [8; 8; 8; 8])); try reflexivity; [by left|by vm_compute].
Defined.

(** ** Packing *)

(** A buffer takes everything. *)
Definition buf_Write (b w : bytes) : bytes * (Z * bool) := (w ++ b, (Z.of_nat (length b), true)).

Definition range16 (r : Range) : Range :=
  {| First := as16 (First r); Last := as16 (Last r); Description := Description r |}.

(** Both addresses have a 16-byte form, and the description's length fits its field. *)
Definition packable (r : Range) : bool :=
  (if To16 (First r) then true else false) && (if To16 (Last r) then true else false) &&
  (Z.of_nat (length (Description r)) <? 2 ^ 32).

Lemma as16_spec ip :
  (length ip = 4%nat -> as16 ip = v4InV6Prefix ++ ip) /\ (length ip = 16%nat -> as16 ip = ip).
Proof. unfold as16, To16. split; intros ->; done. Qed.

Lemma packable_spec r :
  packable r = true ->
  length (as16 (First r)) = 16%nat /\ length (as16 (Last r)) = 16%nat /\
  Z.of_nat (length (Description r)) < 2 ^ 32.
Proof.
  unfold packable, as16. intros [[H1 H2]%andb_true_iff H3%Z.ltb_lt]%andb_true_iff.
  destruct (To16 (First r)) eqn:E1; [|done]. destruct (To16 (Last r)) eqn:E2; [|done].
  apply To16_length in E1, E2. done.
Qed.

Lemma pwrite_buf b n w :
  n = Z.of_nat (length b) -> pwrite buf_Write b n (w, true) = Some (w ++ b, true).
Proof. intros ->. unfold pwrite, buf_Write. cbn [negb]. by rewrite Z.eqb_refl. Qed.

(** [d] lies in [data] at [off]. *)
Definition located (d : bytes) (off : Z) (data : bytes) : Prop :=
  exists a c, data = a ++ d ++ c /\ off = Z.of_nat (length a).

Lemma located_app d off data more : located d off data -> located d off (data ++ more).
Proof. intros (a & c & -> & ->). exists a, (c ++ more). by rewrite <- !app_assoc. Qed.

Definition entry (r : Range) (off : Z) : bytes :=
  as16 (First r) ++ as16 (Last r) ++ le_put 8 off ++ le_put 4 (Z.of_nat (length (Description r))).

Definition desc_total (ranges : list Range) : Z :=
  foldr Z.add 0 (map (fun r => Z.of_nat (length (Description r))) ranges).

Lemma entry_app w r off :
  (((w ++ as16 (First r)) ++ as16 (Last r)) ++ le_put 8 off) ++
    le_put 4 (Z.of_nat (length (Description r))) = w ++ entry r off.
Proof. unfold entry. by rewrite !app_assoc. Qed.

Lemma packRanges_ok ranges offs descs w :
  forallb packable ranges = true ->
  (forall d o, offs !! d = Some o -> located d o (concat descs)) ->
  Z.of_nat (length (concat descs)) + desc_total ranges <= maxInt ->
  exists descs' os,
    packRanges buf_Write ranges offs descs (Z.of_nat (length (concat descs))) (w, true) =
      Some (descs ++ descs', (w ++ concat (zip_with entry ranges os), true)) /\
    length os = length ranges /\
    Forall2 (fun r o => located (Description r) o (concat (descs ++ descs'))) ranges os /\
    Z.of_nat (length (concat (descs ++ descs'))) <= Z.of_nat (length (concat descs)) + desc_total ranges.
Proof.
  revert offs descs w. induction ranges as [|r ranges IH]; intros offs descs w Hp Hoffs Hb.
  { exists [], []. simpl. rewrite !app_nil_r. split_and!; [done|done|apply Forall2_nil; done|unfold desc_total; simpl; lia]. }
  cbn [forallb] in Hp. apply andb_true_iff in Hp as [(H1 & H2 & H3)%packable_spec Hp].
  unfold desc_total in Hb. cbn [map foldr] in Hb. fold (desc_total ranges) in Hb.
  assert (0 <= desc_total ranges) as Hdt
    by (clear; unfold desc_total; induction ranges; simpl; lia).
  cbn [packRanges]. rewrite !pwrite_buf by lia. cbn [mbind option_bind]. rewrite pwrite_buf by lia.
  destruct (offs !! Description r) as [o|] eqn:Eo; cbn [mbind option_bind].
  - rewrite pwrite_buf by (by rewrite le_put_length). cbn [mbind option_bind].
    rewrite pwrite_buf by (by rewrite le_put_length). cbn [mbind option_bind].
    destruct (IH offs descs (w ++ entry r o)) as (descs' & os & E & Hl & Hf & Hle); [done|done|lia|].
    exists descs', (o :: os). rewrite entry_app, E. cbn [zip_with concat length].
    split_and!; [by rewrite <- app_assoc|by rewrite Hl| |].
    + constructor; [|done]. rewrite concat_app. by apply located_app, Hoffs.
    + unfold desc_total. cbn [map foldr]. fold (desc_total ranges). lia.
  - rewrite pwrite_buf by (by rewrite le_put_length). cbn [mbind option_bind].
    rewrite pwrite_buf by (by rewrite le_put_length). cbn [mbind option_bind].
    set (o := Z.of_nat (length (concat descs))) in *.
    destruct (IH (<[Description r := o]> offs) (descs ++ [Description r]) (w ++ entry r o))
      as (descs' & os & E & Hl & Hf & Hle).
    + done.
    + intros d o'. rewrite concat_app. destruct (decide (d = Description r)) as [->|Hne].
      * rewrite lookup_insert_eq. intros [= <-]. exists (concat descs), []. simpl. by rewrite !app_nil_r.
      * rewrite lookup_insert_ne by done. intros Hd. by apply located_app, Hoffs.
    + rewrite concat_app, length_app. simpl. rewrite app_nil_r. lia.
    + assert (o +! Z.of_nat (length (Description r)) =
              Z.of_nat (length (concat (descs ++ [Description r])))) as ->.
      { rewrite concat_app, length_app. simpl. rewrite app_nil_r. unwrap64. lia. }
      exists (Description r :: descs'), (o :: os). rewrite entry_app, E.
      cbn [zip_with concat length]. rewrite <- (app_assoc descs) in *. cbn [app] in *.
      split_and!; [by rewrite <- app_assoc|by rewrite Hl| |].
      * constructor; [|done]. exists (concat descs), (concat descs'). by rewrite concat_app.
      * unfold desc_total. cbn [map foldr]. fold (desc_total ranges).
        rewrite (concat_app descs [_]), length_app in Hle. simpl in Hle. rewrite app_nil_r in Hle. lia.
Qed.

Lemma slice_mid a b c i j :
  i = Z.of_nat (length a) -> j = i + Z.of_nat (length b) -> slice (a ++ b ++ c) i j = Some b.
Proof.
  intros -> ->. unfold slice. rewrite !length_app.
  rewrite !(proj2 (Z.leb_le _ _)) by lia. cbn [andb]. rewrite Nat2Z.id.
  replace (Z.to_nat (Z.of_nat (length a) + Z.of_nat (length b) - Z.of_nat (length a))) with (length b) by lia.
  by rewrite drop_app_length, take_app_length.
Qed.

Lemma slice_head b c j : j = Z.of_nat (length b) -> slice (b ++ c) 0 j = Some b.
Proof. intros Hj. by apply (slice_mid []). Qed.

Lemma packDescs_ok descs w : packDescs buf_Write descs (w, true) = Some (w ++ concat descs, true).
Proof.
  revert w. induction descs as [|d descs IH]; intros w; cbn [packDescs concat]; [by rewrite app_nil_r|].
  rewrite pwrite_buf by done. cbn [mbind option_bind]. by rewrite IH, <- app_assoc.
Qed.

(** What a packed list looks like, for some offsets of the descriptions. *)
Definition packed_as (ranges : list Range) (os : list Z) (descs pil : bytes) : Prop :=
  pil = le_put 8 (Z.of_nat (length ranges)) ++ concat (zip_with entry ranges os) ++ descs /\
  length os = length ranges /\ Forall2 (fun r o => located (Description r) o descs) ranges os.

Definition packed_size (ranges : list Range) : Z :=
  8 + 44 * Z.of_nat (length ranges) + desc_total ranges.

Lemma WritePacked_ok ranges :
  forallb packable ranges = true -> packed_size ranges <= maxInt ->
  exists pil os descs, WritePacked buf_Write ranges [] = Some (pil, true) /\
    packed_as ranges os descs pil /\ Z.of_nat (length descs) <= desc_total ranges.
Proof.
  unfold packed_size. intros Hp Hb. unfold WritePacked.
  rewrite pwrite_buf by (by rewrite le_put_length). cbn [mbind option_bind app].
  destruct (packRanges_ok ranges ∅ [] (le_put 8 (Z.of_nat (length ranges)))) as
    (descs & os & E & Hl & Hf & Hle); [done|intros d o; by rewrite lookup_empty|simpl; lia|].
  change (Z.of_nat (length (concat (@nil bytes)))) with 0 in E, Hle. cbn [app] in *.
  rewrite E. cbn [mbind option_bind].
  rewrite packDescs_ok. eexists _, os, (concat descs). split; [reflexivity|].
  split; [|lia]. split_and!; [by rewrite <- app_assoc|done|done].
Qed.

(** [getRange] by its parts. *)
Lemma getRange_intro pil i off f t o l n descOff len d :
  packedRangesOffset +! packedRangeLen *! i = off ->
  slice pil (off +! 16) (off +! 32) = Some t -> slice pil (off +! 32) (off +! 40) = Some o ->
  slice pil (off +! 40) (off +! 44) = Some l -> packed_len pil = Some n ->
  wrapS 64 (le_get o) +! (packedRangesOffset +! packedRangeLen *! n) = descOff ->
  le_get l = len -> getFirst pil i = Some f -> slice pil descOff (descOff +! len) = Some d ->
  getRange pil i = Some {| First := f; Last := t; Description := d |}.
Proof.
  intros E1 E2 E3 E4 E5 E6 E7 E8 E9. unfold getRange. by rewrite E1, E2, E3, E4, E5; simpl;
    rewrite E6, E7, E8; simpl; rewrite E9.
Qed.

#[local] Opaque le_put le_get as16.

Lemma le_get_put_small n z : 0 <= z < 2 ^ (8 * Z.of_nat n) -> le_get (le_put n z) = z.
Proof. intros. rewrite le_get_put. by apply Z.mod_small. Qed.

Section PackedList.
Context (ranges : list Range) (os : list Z) (descs pil : bytes).
Hypothesis Hpil : packed_as ranges os descs pil.
Hypothesis Hranges : forallb packable ranges = true.
Hypothesis Hsize : 8 + 44 * Z.of_nat (length ranges) + Z.of_nat (length descs) <= maxInt.

Lemma entry_length r o : packable r = true -> length (entry r o) = 44%nat.
Proof.
  intros (H1 & H2 & _)%packable_spec. unfold entry. rewrite !length_app, !le_put_length. lia.
Qed.

Lemma entries_length l ks :
  forallb packable l = true -> length ks = length l ->
  length (concat (zip_with entry l ks)) = (44 * length l)%nat.
Proof.
  revert ks. induction l as [|r l IH]; intros [|o ks] Hp Hl; try done.
  cbn [forallb zip_with concat length] in *. apply andb_true_iff in Hp as [Hr Hp].
  rewrite length_app, entry_length, IH by (done || lia). lia.
Qed.

Lemma packed_len_ok : packed_len pil = Some (Z.of_nat (length ranges)).
Proof.
  destruct Hpil as (-> & _ & _). unfold packed_len.
  rewrite slice_head by (by rewrite le_put_length).
  cbn [mbind option_bind]. rewrite le_get_put, Z.mod_small, wrapS64_small; [done|lia|].
  unfold maxInt, max_int in Hsize. simpl. lia.
Qed.

(** The bytes of the list around range [i]. *)
Lemma packed_split i r :
  ranges !! i = Some r ->
  exists pre post o, pil = pre ++ entry r o ++ post /\ length pre = (8 + 44 * i)%nat /\
    packable r = true /\ located (Description r) o descs.
Proof.
  destruct Hpil as (-> & Hl & Hf). intros Hr.
  destruct (Forall2_lookup_l _ _ _ _ _ Hf Hr) as (o & Ho & Hloc).
  assert (packable r = true) as Hpr.
  { rewrite forallb_forall in Hranges. apply Hranges, list_elem_of_In. by eapply list_elem_of_lookup_2. }
  assert (Hi : (i < length ranges)%nat) by (by eapply lookup_lt_Some).
  assert (zip_with entry ranges os = zip_with entry (take i ranges ++ r :: drop (S i) ranges)
    (take i os ++ o :: drop (S i) os)) as ->
    by (by rewrite (take_drop_middle _ _ _ Hr), (take_drop_middle _ _ _ Ho)).
  rewrite zip_with_app by (rewrite !length_take; lia). cbn [zip_with]. rewrite concat_app. cbn [concat].
  exists (le_put 8 (Z.of_nat (length ranges)) ++ concat (zip_with entry (take i ranges) (take i os))),
    (concat (zip_with entry (drop (S i) ranges) (drop (S i) os)) ++ descs), o.
  split; [by rewrite <- !app_assoc|]. split_and!; [|done|done].
  rewrite length_app, le_put_length, entries_length; [rewrite length_take; lia| |by rewrite !length_take, Hl].
  rewrite forallb_forall in Hranges |- *. intros x Hx. apply Hranges.
  rewrite <- (take_drop i ranges). apply in_or_app. by left.
Qed.

(** Where the ranges lie. *)
Lemma range_offset i :
  (i <= length ranges)%nat ->
  packedRangesOffset +! packedRangeLen *! Z.of_nat i = Z.of_nat (8 + 44 * i).
Proof.
  intros Hi. unfold packedRangesOffset, packedRangeLen. rewrite mul64_small, add64_small by lia. lia.
Qed.

(** A field of range [i], [a] and [b] being where it lies in the entry. *)
Lemma packed_field pre post r o f g h a b off :
  pil = pre ++ entry r o ++ post -> entry r o = f ++ g ++ h ->
  off = Z.of_nat (length pre) -> a = Z.of_nat (length f) -> b = a + Z.of_nat (length g) ->
  slice pil (off + a) (off + b) = Some g.
Proof.
  intros -> -> -> -> ->. rewrite <- !app_assoc, (app_assoc pre).
  apply slice_mid; rewrite ?length_app; lia.
Qed.

Lemma entry_fields r o :
  entry r o = [] ++ as16 (First r) ++ (as16 (Last r) ++ le_put 8 o ++ le_put 4 (Z.of_nat (length (Description r)))) /\
  entry r o = as16 (First r) ++ as16 (Last r) ++ (le_put 8 o ++ le_put 4 (Z.of_nat (length (Description r)))) /\
  entry r o = (as16 (First r) ++ as16 (Last r)) ++ le_put 8 o ++ le_put 4 (Z.of_nat (length (Description r))) /\
  entry r o = (as16 (First r) ++ as16 (Last r) ++ le_put 8 o) ++
    le_put 4 (Z.of_nat (length (Description r))) ++ [].
Proof. unfold entry. rewrite app_nil_r, <- !app_assoc. done. Qed.

Lemma packed_first i r :
  ranges !! i = Some r -> getFirst pil (Z.of_nat i) = Some (as16 (First r)).
Proof.
  intros Hr. destruct (packed_split i r Hr) as (pre & post & o & E & Hpre & Hpr & Hloc).
  assert (Hi : (i < length ranges)%nat) by (by eapply lookup_lt_Some).
  destruct (packable_spec r Hpr) as (H1 & _). destruct (entry_fields r o) as (F1 & _).
  unfold getFirst. rewrite (range_offset i), <- Hpre by lia. unwrap64.
  rewrite <- (Z.add_0_r (Z.of_nat (length pre))) at 1.
  apply (packed_field pre post r o _ _ _ _ _ _ E F1); [done|done|]. rewrite H1. lia.
Qed.

Lemma packed_description i r o :
  ranges !! i = Some r -> located (Description r) o descs ->
  0 <= o <= Z.of_nat (length descs) /\
  (let off := o + (8 + 44 * Z.of_nat (length ranges)) in
   slice pil off (off + Z.of_nat (length (Description r))) = Some (Description r)) /\
  o + Z.of_nat (length (Description r)) <= Z.of_nat (length descs).
Proof.
  intros Hr (da & dc & Ed & ->). pose proof (f_equal length Ed) as Hlen. rewrite !length_app in Hlen.
  destruct Hpil as (Ep & Hl & _). split; [lia|]. split; [|lia]. cbv zeta.
  assert (pil = ((le_put 8 (Z.of_nat (length ranges)) ++ concat (zip_with entry ranges os)) ++ da) ++
                Description r ++ dc) as -> by (rewrite <- !app_assoc, <- Ed; exact Ep).
  apply slice_mid; [|reflexivity].
  rewrite !length_app, le_put_length, (entries_length ranges os Hranges Hl). lia.
Qed.

Lemma packed_range i r :
  ranges !! i = Some r -> getRange pil (Z.of_nat i) = Some (range16 r).
Proof.
  intros Hr. pose proof (packed_first i r Hr) as Ef.
  destruct (packed_split i r Hr) as (pre & post & o & E & Hpre & Hpr & Hloc).
  assert (Hi : (i < length ranges)%nat) by (by eapply lookup_lt_Some).
  destruct (packable_spec r Hpr) as (H1 & H2 & H3).
  destruct (entry_fields r o) as (_ & F2 & F3 & F4).
  destruct (packed_description i r o Hr Hloc) as (Ho & Ed & Hdl).
  apply (getRange_intro _ _ (Z.of_nat (length pre)) (as16 (First r)) (as16 (Last r)) (le_put 8 o)
    (le_put 4 (Z.of_nat (length (Description r)))) (Z.of_nat (length ranges))
    (o + (8 + 44 * Z.of_nat (length ranges))) (Z.of_nat (length (Description r)))).
  - rewrite (range_offset i) by lia. lia.
  - unwrap64. apply (packed_field pre post r o _ _ _ 16 32 _ E F2); lia.
  - unwrap64. apply (packed_field pre post r o _ _ _ 32 40 _ E F3); rewrite ?length_app, ?le_put_length; lia.
  - unwrap64. apply (packed_field pre post r o _ _ _ 40 44 _ E F4); rewrite ?length_app, ?le_put_length; lia.
  - apply packed_len_ok.
  - rewrite le_get_put_small by (unfold maxInt, max_int in *; lia). rewrite wrapS64_small by lia.
    rewrite range_offset by lia. unwrap64. lia.
  - by rewrite le_get_put_small by lia.
  - exact Ef.
  - unwrap64. exact Ed.
Qed.
End PackedList.

#[export] Instance packed_store ranges os descs pil :
  packed_as ranges os descs pil -> forallb packable ranges = true ->
  8 + 44 * Z.of_nat (length ranges) + Z.of_nat (length descs) <= maxInt ->
  RangeStore (getFirst pil) (getRange pil) (map range16 ranges).
Proof.
  intros Hpil Hp Hb.
  split; intros i r Hr; change (map range16 ranges) with (range16 <$> ranges) in Hr;
    rewrite list_lookup_fmap in Hr; destruct (ranges !! i) as [r0|] eqn:E; try done; injection Hr as <-.
  - by apply (packed_first ranges os descs pil Hpil Hp Hb).
  - by apply (packed_range ranges os descs pil Hpil Hp Hb).
Qed.

(** Both ends of a range have the same form. *)
Definition wf_range (r : Range) : bool :=
  (length (First r) =? length (Last r))%nat &&
  ((length (First r) =? 4)%nat || (length (First r) =? 16)%nat).

Lemma forms_16 ip : forms ip <> [] -> exists ip16, To16 ip = Some ip16 /\ In ip16 (forms ip).
Proof.
  unfold forms. destruct (To4 ip) as [v4|] eqn:E4.
  - intros _. destruct (To4_spec _ _ E4) as [_ ->]. eexists. split; [done|by right; left].
  - destruct (To16 ip) as [v6|]; [|done]. intros _. exists v6. split; [done|by left].
Qed.

Lemma forms_length ip ip16 f :
  To16 ip = Some ip16 -> In f (forms ip) ->
  length f = 16%nat /\ f = ip16 \/ length f = 4%nat /\ To4 ip = Some f /\ ip16 = v4InV6Prefix ++ f.
Proof.
  intros E6. pose proof (To16_length _ _ E6). unfold forms. rewrite E6.
  destruct (To4 ip) as [v4|] eqn:E4; cbn [app In]; [|intros [<-|[]]; by left].
  destruct (To4_spec _ _ E4) as [Hl E6']. intros [<-|[<-|[]]]; [right|by left].
  split_and!; congruence.
Qed.

(** The 16-byte ranges hold the addresses the ranges hold. *)
Lemma range16_holds r ip ip16 :
  wf_range r = true -> To16 ip = Some ip16 -> contains (range16 r) ip16 <-> holds r ip.
Proof.
  intros [El%Nat.eqb_eq [Hl%Nat.eqb_eq|Hl%Nat.eqb_eq]%orb_true_iff]%andb_true_iff E6;
    unfold contains, range16; cbn [First Last].
  - rewrite !(proj1 (as16_spec _)) by congruence. split.
    + intros [H1 H2]. destruct (bytes_le_prefix _ _ _ _ H1 H2) as (w & -> & Hw).
      pose proof (To16_length _ _ E6) as Hlen. rewrite length_app in Hlen. change (length v4InV6Prefix) with 12%nat in Hlen.
      exists w. split; [|by split; [lia|]]. unfold forms.
      destruct (To4 ip) as [v4|] eqn:E4.
      * destruct (To4_spec _ _ E4) as [_ E6']. left. rewrite E6 in E6'. by apply (inj Some), (inj (app _)) in E6'.
      * revert E4 E6. unfold To16. destruct (length ip =? 4)%nat eqn:E; [by unfold To4; rewrite E|].
        destruct (length ip =? 16)%nat; [|done]. intros E4 E6%(inj Some). rewrite E6, To4_mapped in E4 by lia. done.
    + intros (f & Hf & Hlf & Hc). destruct (forms_length _ _ _ E6 Hf) as [[? _]|(_ & _ & ->)]; [lia|].
      unfold bytes_le. by rewrite !bytes_compare_app.
  - rewrite !(proj2 (as16_spec _)) by congruence. split.
    + intros Hc. exists ip16. split; [|by split; [rewrite (To16_length _ _ E6)|]].
      unfold forms. rewrite E6. apply in_or_app. right. by left.
    + intros (f & Hf & Hlf & Hc). destruct (forms_length _ _ _ E6 Hf) as [[_ ->]|(? & _)]; [done|lia].
Qed.

(** The packed list is searched by the addresses its ranges hold. *)
Lemma packed_answers ranges ip ip16 res :
  forallb wf_range ranges = true -> To16 ip = Some ip16 -> answers (map range16 ranges) ip16 res ->
  exists r ok, res = Some (r, ok) /\
    if ok then exists r0, In r0 ranges /\ r = range16 r0 /\ holds r0 ip
    else Forall (fun r => ~ holds r ip) ranges.
Proof.
  rewrite forallb_forall. intros Hw E6 (r & ok & -> & H). exists r, ok. split; [done|]. destruct ok.
  - destruct H as [(r0 & <- & Hin)%in_map_iff Hc]. exists r0. split_and!; [done|done|].
    by apply (range16_holds r0 ip ip16); [apply Hw| |].
  - rewrite List.Forall_forall in H |- *. intros r0 Hin Hh.
    apply (H (range16 r0)); [by apply in_map|]. by apply (range16_holds r0 ip ip16); [apply Hw| |].
Qed.

(** C27: packing loses nothing: [NewFromPacked] accepts what [WritePacked] writes, and the packed
    list has every range of the list with its addresses in their 16-byte form.  For sorted,
    disjoint ranges whose ends are of one form, looking an address of 4 or 16 bytes up in it finds
    a range if and only if one of the list's ranges holds the address, and that range; with any
    other address it panics. *)
Theorem packed_roundtrip (ranges : list Range) :
  forallb packable ranges = true -> packed_size ranges <= maxInt ->
  exists pil, WritePacked buf_Write ranges [] = Some (pil, true) /\ NewFromPacked pil = Some pil /\
    packed_len pil = Some (Z.of_nat (length ranges)) /\
    (forall i r, ranges !! i = Some r -> getRange pil (Z.of_nat i) = Some (range16 r)) /\
    (separated (map range16 ranges) = true -> forallb wf_range ranges = true ->
     forall ip,
       (forms ip = [] -> PackedLookup pil ip = None) /\
       (forms ip <> [] -> exists r ok, PackedLookup pil ip = Some (r, ok) /\
          if ok then exists r0, In r0 ranges /\ r = range16 r0 /\ holds r0 ip
          else Forall (fun r => ~ holds r ip) ranges)).
Proof.
  intros Hp Hb. destruct (WritePacked_ok ranges Hp Hb) as (pil & os & descs & E & Hpil & Hdl).
  assert (8 + 44 * Z.of_nat (length ranges) + Z.of_nat (length descs) <= maxInt) as Hsz
    by (unfold packed_size in Hb; lia).
  pose proof (packed_len_ok ranges os descs pil Hpil Hsz) as Hn.
  exists pil. split; [done|]. split; [|split; [done|split]].
  - unfold NewFromPacked. rewrite Hn. cbn [mbind option_bind].
    assert (packedRangesOffset +! Z.of_nat (length ranges) *! packedRangeLen =
            8 + 44 * Z.of_nat (length ranges)) as ->.
    { unfold packedRangesOffset, packedRangeLen. rewrite mul64_small, add64_small by lia. lia. }
    destruct (Z.ltb_spec (Z.of_nat (length pil)) (8 + 44 * Z.of_nat (length ranges))); [|done].
    destruct Hpil as (Ep & Hl & _). apply (f_equal length) in Ep.
    rewrite !length_app, le_put_length, entries_length in Ep by done. lia.
  - intros i r Hr. by apply (packed_range ranges os descs pil Hpil Hp Hsz).
  - intros Hs Hw ip. split.
    + unfold PackedLookup, forms. by destruct (To4 ip), (To16 ip).
    + intros (ip16 & E6 & _)%forms_16. apply (packed_answers ranges ip ip16); [done..|].
      unfold PackedLookup. rewrite E6, Hn. cbn [mbind option_bind].
      rewrite <- (length_map range16). apply lookup_answers; [|done].
      by eapply packed_store.
Qed.

Lemma packed_roundtrip_witness :
  let ranges := [{| First := map z2b [1; 2; 3; 0]; Last := map z2b [1; 2; 3; 9]; Description := bs "a" |}] in
  exists pil, WritePacked buf_Write ranges [] = Some (pil, true) /\ NewFromPacked pil = Some pil /\
    packed_len pil = Some 1 /\
    (forall i r, ranges !! i = Some r -> getRange pil (Z.of_nat i) = Some (range16 r)) /\
    (separated (map range16 ranges) = true -> forallb wf_range ranges = true ->
     forall ip,
       (forms ip = [] -> PackedLookup pil ip = None) /\
       (forms ip <> [] -> exists r ok, PackedLookup pil ip = Some (r, ok) /\
          if ok then exists r0, In r0 ranges /\ r = range16 r0 /\ holds r0 ip
          else Forall (fun r => ~ holds r ip) ranges)) /\
    separated (map range16 ranges) = true /\ forallb wf_range ranges = true.
Proof.
  destruct (packed_roundtrip
    [{| First := map z2b [1; 2; 3; 0]; Last := map z2b [1; 2; 3; 9]; Description := bs "a" |}])
    as (pil & H1 & H2 & H3 & H4 & H5); [vm_compute; congruence..|].
  exists pil. split_and!; [assumption..|reflexivity|reflexivity].
Defined.

(** ** The text format *)

(** A dotted address. *)
Definition dotted (a b c d : byte) : bytes :=
  let f x := format_uint (b2z x) in
  f a ++ bs "." ++ f b ++ bs "." ++ f c ++ bs "." ++ f d.

(** Reading the digits of one field. *)
Lemma parse_octet o rest prev fields :
  exists c n, is_digit c = true /\
    parseIPv4Fields (format_uint (b2z o) ++ rest) prev 0 0 fields =
    parseIPv4Fields rest (Some c) (b2z o) n fields.
Proof. by destruct o; eexists _, _; (split; [|reflexivity]). Qed.

Lemma parse_dotted a b c d : parseIPv4Fields (dotted a b c d) None 0 0 [] = Some [a; b; c; d].
Proof.
  unfold dotted.
  destruct (parse_octet a (bs "." ++ format_uint (b2z b) ++ bs "." ++ format_uint (b2z c) ++ bs "." ++
    format_uint (b2z d)) None []) as (x & n & Hx & ->).
  assert (forall p val k o rest fs, is_digit p = true -> (length fs < 3)%nat ->
    exists q m, is_digit q = true /\
    parseIPv4Fields (bs "." ++ format_uint (b2z o) ++ rest) (Some p) val k fs =
    parseIPv4Fields rest (Some q) (b2z o) m (fs ++ [z2b val])) as Hstep.
  { intros p val k o rest fs Hp Hf. destruct (parse_octet o rest (Some "."%byte) (fs ++ [z2b val]))
      as (q & m & Hq & E). exists q, m. split; [done|]. rewrite <- E.
    change (bs "." ++ format_uint (b2z o) ++ rest) with ("."%byte :: format_uint (b2z o) ++ rest).
    cbn [parseIPv4Fields]. change (is_digit ".") with false. rewrite bool_decide_eq_true_2 by done.
    rewrite (bool_decide_eq_false_2 (Some p = None)) by done.
    rewrite (bool_decide_eq_false_2 (_ = [])) by (by destruct o).
    rewrite (bool_decide_eq_false_2 (Some p = Some "."%byte)) by (by intros [= ->]).
    cbn [orb]. by rewrite (proj2 (Nat.eqb_neq _ _)) by lia. }
  destruct (Hstep x (b2z a) n b (bs "." ++ format_uint (b2z c) ++ bs "." ++ format_uint (b2z d)) [])
    as (y & m & Hy & ->); [done|simpl; lia|].
  destruct (Hstep y (b2z b) m c (bs "." ++ format_uint (b2z d)) ([] ++ [z2b (b2z a)]))
    as (z & k & Hz & ->); [done|simpl; lia|].
  destruct (Hstep z (b2z c) k d [] (([] ++ [z2b (b2z a)]) ++ [z2b (b2z b)])) as (w & l & Hw & E);
    [done|simpl; lia|].
  rewrite app_nil_r in E. rewrite E. simpl. by rewrite !z2b_b2z.
Qed.

(** The characters of a dotted address. *)
Definition plain_char (c : byte) : bool := is_digit c || bool_decide (c = "."%byte).

Lemma dotted_chars a b c d : forallb plain_char (dotted a b c d) = true.
Proof.
  assert (forall o, forallb plain_char (format_uint (b2z o)) = true) as Ho by (by intros []).
  unfold dotted. by rewrite !forallb_app, !Ho.
Qed.

Lemma plain_not_in c s : plain_char c = false -> forallb plain_char s = true -> index_byte c s = None.
Proof.
  intros Hc. induction s as [|x s IH]; [done|]. simpl. intros [Hx Hs]%andb_true_iff.
  rewrite bool_decide_eq_false_2 by congruence. by rewrite IH.
Qed.

Lemma index_byte_app c s rest :
  index_byte c s = None -> index_byte c (s ++ c :: rest) = Some (length s).
Proof.
  induction s as [|x s IH]; [by simpl; rewrite bool_decide_eq_true_2|].
  cbn [index_byte app length]. destruct (bool_decide (x = c)); [done|].
  destruct (index_byte c s); [done|]. intros _. by rewrite IH.
Qed.

Lemma index_byte_none_app c s1 s2 :
  index_byte c s1 = None -> index_byte c s2 = None -> index_byte c (s1 ++ s2) = None.
Proof.
  intros H1 H2. induction s1 as [|x s1 IH]; [done|]. simpl in *.
  destruct (bool_decide (x = c)); [done|]. destruct (index_byte c s1); [done|]. by rewrite IH.
Qed.

Lemma index_byte_rev c s : index_byte c s = None -> index_byte c (rev s) = None.
Proof.
  intros Hs. destruct (index_byte c (rev s)) as [i|] eqn:E; [|done]. exfalso.
  assert (c ∈ rev s) as Hin.
  { clear -E. revert i E. induction (rev s) as [|x l IH]; intros i E; [done|]. simpl in E.
    destruct (bool_decide_reflect (x = c)) as [->|]; [by left|]. right.
    destruct (index_byte c l) as [j|]; [|done]. by eapply IH. }
  rewrite list_elem_of_In, <- in_rev, <- list_elem_of_In in Hin.
  clear E. induction s as [|x s IH]; [by apply elem_of_nil in Hin|]. simpl in Hs.
  destruct (bool_decide_reflect (x = c)) as [->|Hne]; [done|].
  destruct (index_byte c s); [done|]. apply elem_of_cons in Hin as [->|]; [done|]. by apply IH.
Qed.

Lemma last_index_byte_app c s rest :
  index_byte c rest = None -> last_index_byte c (s ++ c :: rest) = Some (length s).
Proof.
  intros Hr. unfold last_index_byte. rewrite rev_app_distr. cbn [rev]. rewrite <- app_assoc.
  cbn [app]. rewrite index_byte_app by (by apply index_byte_rev). cbn [mbind option_bind].
  f_equal. rewrite length_app, length_rev. simpl. lia.
Qed.

Lemma ParseIP_from_octet p6 s a rest :
  ParseIP_from p6 s (format_uint (b2z a) ++ bs "." ++ rest) =
  app v4InV6Prefix <$> parseIPv4Fields s None 0 0 [].
Proof. by destruct a. Qed.

Lemma ParseIP_dotted p6 a b c d : ParseIP p6 (dotted a b c d) = Some (v4InV6Prefix ++ [a; b; c; d]).
Proof.
  unfold ParseIP. unfold dotted at 2. cbv zeta. by rewrite ParseIP_from_octet, parse_dotted.
Qed.

(** A line of the list. *)
Definition p2pLine (desc : bytes) (f t : byte * byte * byte * byte) : bytes :=
  let '(f1, f2, f3, f4) := f in
  let '(t1, t2, t3, t4) := t in
  desc ++ bs ":" ++ dotted f1 f2 f3 f4 ++ bs "-" ++ dotted t1 t2 t3 t4.

(** The description does not begin like white space or a comment. *)
Definition plain_start (l : bytes) : bool :=
  match l with
  | [] => true
  | c :: _ => negb (bool_decide (c = "#"%byte)) &&
              forallb (fun s => match s with x :: _ => negb (bool_decide (x = c)) | [] => false end) spaces
  end.

Lemma first_stripped_none ps c l :
  forallb (fun s => match s with x :: _ => negb (bool_decide (x = c)) | [] => false end) ps = true ->
  first_stripped ps (c :: l) = None.
Proof.
  induction ps as [|p ps IH]; [done|]. cbn [forallb first_stripped]. intros [Hp Hps]%andb_true_iff.
  unfold strip_prefix. destruct p as [|x p]; [done|]. apply negb_true_iff, bool_decide_eq_false in Hp.
  rewrite bool_decide_eq_false_2 by (simpl; congruence). by apply IH.
Qed.

Lemma trim_left_none fuel ps l : first_stripped ps l = None -> trim_left fuel ps l = l.
Proof. destruct fuel; [done|]. simpl. by intros ->. Qed.

(** Nothing is trimmed from a line that begins plainly and ends in a digit. *)
Lemma TrimSpace_id l c :
  plain_start l = true -> l <> [] -> is_digit c = true -> last l = Some c -> TrimSpace l = l.
Proof.
  intros Hs Hne Hc Hl. unfold TrimSpace. destruct l as [|x l']; [done|]. set (l := x :: l') in *.
  apply andb_true_iff in Hs as [_ Hs].
  rewrite (trim_left_none _ spaces l) by (by apply first_stripped_none).
  apply last_Some in Hl as [l0 El]. rewrite El, rev_app_distr. cbn [rev app].
  rewrite trim_left_none; [cbn [rev]; by rewrite rev_involutive|].
  apply first_stripped_none. clear -Hc. by destruct c.
Qed.

Lemma octet_last o :
  exists l c, format_uint (b2z o) = l ++ [c] /\ is_digit c = true.
Proof.
  exists (removelast (format_uint (b2z o))), (List.last (format_uint (b2z o)) x00).
  by destruct o.
Qed.

Lemma dotted_last a b c d : exists l x, dotted a b c d = l ++ [x] /\ is_digit x = true.
Proof.
  unfold dotted. destruct (octet_last d) as (l & x & -> & Hx).
  exists (format_uint (b2z a) ++ bs "." ++ format_uint (b2z b) ++ bs "." ++ format_uint (b2z c) ++
          bs "." ++ l), x. by rewrite <- !app_assoc.
Qed.

(** The text format round trips: a line with a description, which may contain colons, and
    two IPv4 addresses parses to that range, whatever the parser of IPv6 addresses does. *)
Theorem p2pLine_roundtrip (parseIPv6 : bytes -> option bytes) (desc : bytes)
    (f1 f2 f3 f4 t1 t2 t3 t4 : byte) :
  plain_start desc = true ->
  ParseBlocklistP2PLine parseIPv6 (p2pLine desc (f1, f2, f3, f4) (t1, t2, t3, t4)) =
  inl (Some {| First := [f1; f2; f3; f4]; Last := [t1; t2; t3; t4]; Description := desc |}).
Proof.
  intros Hd. unfold ParseBlocklistP2PLine, p2pLine.
  set (F := dotted f1 f2 f3 f4). set (T := dotted t1 t2 t3 t4).
  change (bs ":" ++ F ++ bs "-" ++ T) with (":"%byte :: F ++ "-"%byte :: T).
  assert (forallb plain_char F = true) as HF by apply dotted_chars.
  assert (forallb plain_char T = true) as HT by apply dotted_chars.
  destruct (dotted_last t1 t2 t3 t4) as (l & c & ET & Hc). fold T in ET.
  rewrite (TrimSpace_id _ c); [|by destruct desc|by destruct desc|done|].
  2: { rewrite ET, app_comm_cons, app_comm_cons, !app_assoc. apply last_snoc. }
  rewrite (proj2 (Nat.eqb_neq _ 0)) by (rewrite length_app; simpl; lia).
  rewrite (bool_decide_eq_false_2 (take 1 _ = _)).
  2: { destruct desc as [|x desc]; [done|]. apply andb_true_iff in Hd as [Hx _].
       apply negb_true_iff, bool_decide_eq_false in Hx. simpl. intros [= ->]. done. }
  cbn [orb]. rewrite last_index_byte_app.
  2: { apply index_byte_none_app; [by apply plain_not_in|]. cbn [index_byte].
       rewrite bool_decide_eq_false_2 by done. by rewrite (plain_not_in ":"%byte T) by done. }
  rewrite <- (drop_drop _ 1), drop_app_length. cbn [drop]. rewrite ?drop_0.
  rewrite index_byte_app by (by apply plain_not_in). rewrite take_app_length.
  rewrite <- (drop_drop _ 1), drop_app_length. cbn [drop]. rewrite ?drop_0.
  unfold F, T. rewrite !ParseIP_dotted, take_app_length. done.
Qed.

Lemma p2pLine_roundtrip_witness :
  ParseBlocklistP2PLine (fun _ => None) (bs "a: b:1.2.3.0-1.2.3.255") =
  inl (Some {| First := map z2b [1; 2; 3; 0]; Last := map z2b [1; 2; 3; 255]; Description := bs "a: b" |}).
Proof.
  apply (p2pLine_roundtrip (fun _ => None) (bs "a: b") (z2b 1) (z2b 2) (z2b 3) (z2b 0)
    (z2b 1) (z2b 2) (z2b 3) (z2b 255)). reflexivity.
Defined.

(** ** What text lists hold *)

Lemma index_byte_take c l i : index_byte c l = Some i -> ~ In c (take i l).
Proof.
  revert i. induction l as [|x l IH]; intros i; [done|]. cbn [index_byte].
  destruct (bool_decide_reflect (x = c)); [by intros [= <-] []|].
  intros (j & Hj & ->)%fmap_Some. intros [|Hin]; [done|]. by apply (IH j).
Qed.

(** After the last colon there is none. *)
Lemma last_index_byte_drop c l i : last_index_byte c l = Some i -> ~ In c (drop (i + 1) l).
Proof.
  unfold last_index_byte. intros (j & Hj & [= <-])%bind_Some Hin.
  assert (j < length l)%nat as Hlt.
  { rewrite <- length_rev. clear Hin. revert j Hj. induction (rev l) as [|x r IH]; intros j; [done|].
    cbn [index_byte]. case_bool_decide; [intros [= <-]; simpl; lia|].
    intros (k & Hk%IH & ->)%fmap_Some. simpl. lia. }
  apply (index_byte_take c (rev l) j Hj). replace (length l - 1 - j + 1)%nat with (length l - j)%nat in Hin by lia.
  rewrite firstn_rev. by apply in_rev in Hin.
Qed.

Lemma in_take {A} (x : A) n l : In x (take n l) -> In x l.
Proof. rewrite <- (take_drop n l) at 2. intros. apply in_or_app. by left. Qed.

Lemma in_drop {A} (x : A) n l : In x (drop n l) -> In x l.
Proof. rewrite <- (take_drop n l) at 2. intros. apply in_or_app. by right. Qed.

Lemma parseIPv4Fields_length s prev val digLen fields b :
  (length fields <= 3)%nat -> parseIPv4Fields s prev val digLen fields = Some b -> length b = 4%nat.
Proof.
  revert prev val digLen fields. induction s as [|c s IH]; intros prev val digLen fields Hl; cbn [parseIPv4Fields].
  - destruct (Nat.ltb_spec (length fields) 3); [done|]. intros [= <-]. rewrite length_app. simpl. lia.
  - destruct (is_digit c); [repeat case_match; try done; by apply IH|].
    case_bool_decide; [|done]. destruct (_ || _); [done|].
    destruct (Nat.eqb_spec (length fields) 3); [done|]. apply IH. rewrite length_app. simpl. lia.
Qed.

Lemma ParseIP_length p6 s b : ~ In ":"%byte s -> minifyIP (ParseIP p6 s) = Some b -> length b = 4%nat.
Proof.
  intros Hc. unfold ParseIP.
  assert (forall rest x, ~ In ":"%byte rest -> ParseIP_from p6 s rest = Some x ->
            exists f, x = v4InV6Prefix ++ f /\ length f = 4%nat) as H.
  { induction rest as [|c rest IH]; intros x Hr; [done|]. cbn [ParseIP_from].
    case_bool_decide.
    - intros (f & Hf & ->)%fmap_Some. exists f. split; [done|]. by eapply parseIPv4Fields_length; [|exact Hf]; simpl; lia.
    - rewrite bool_decide_eq_false_2 by (intros ->; apply Hr; by left).
      case_bool_decide; [done|]. apply IH. intros ?. apply Hr. by right. }
  destruct (ParseIP_from p6 s s) as [x|] eqn:E; [|done]. destruct (H s x Hc E) as (f & -> & Hf).
  cbn [minifyIP]. rewrite To4_mapped by done. by intros [= <-].
Qed.

(** Whatever the text and the parser of IPv6 addresses, the ranges that [NewFromReader] reads
    are of IPv4 addresses in their 4-byte form: a line is cut at its last colon. *)
Theorem text_lists_are_ipv4 (parseIPv6 : bytes -> option bytes) (lines : list bytes) (ranges : list Range) :
  NewFromLines parseIPv6 lines = inl ranges -> forallb range4 ranges = true.
Proof.
  unfold NewFromLines. generalize 1. revert ranges.
  induction lines as [|l lines IH]; intros ranges n; cbn [parseLines]; [by intros [= <-]|].
  destruct (ParseBlocklistP2PLine parseIPv6 l) as [o|] eqn:E; [|done].
  destruct (parseLines parseIPv6 (n + 1) lines) as [rs|] eqn:Er; [|done]. apply IH in Er.
  destruct o as [r|]; intros [= <-]; [|done]. cbn [forallb]. rewrite Er, andb_true_r.
  unfold ParseBlocklistP2PLine in E. destruct (_ || _); [done|].
  destruct (last_index_byte ":"%byte (TrimSpace l)) as [colon|] eqn:Ec; [|done].
  apply last_index_byte_drop in Ec. set (after := drop (colon + 1) (TrimSpace l)) in *.
  destruct (index_byte "-"%byte after) as [hyphen|]; [|done].
  destruct (minifyIP (ParseIP _ (take _ _))) as [f|] eqn:Ef; [|done].
  destruct (minifyIP (ParseIP _ (drop _ _))) as [t|] eqn:Et; [|done].
  destruct (length f =? length t)%nat; [|done]. injection E as <-. unfold range4. cbn [First Last].
  rewrite (ParseIP_length _ _ _ (fun H => Ec (in_take _ _ _ H)) Ef).
  by rewrite (ParseIP_length _ _ _ (fun H => Ec (in_drop _ _ _ H)) Et).
Qed.

Lemma text_lists_are_ipv4_witness :
  forallb range4
    [{| First := map z2b [1; 2; 3; 0]; Last := map z2b [1; 2; 3; 255]; Description := bs "a: b" |}] = true.
Proof.
  apply (text_lists_are_ipv4 (fun _ => None) [bs "# comment"; bs "a: b:1.2.3.0-1.2.3.255"]). reflexivity.
Defined.
