(* ===== verification/UtHolepunch.v ===== *)
(** * The ut_holepunch extension message ([src/peer_protocol/ut-holepunch])

    A message names an endpoint by its [netip.AddrPort].  [MarshalBinary] and [UnmarshalBinary]
    are inverse to each other on messages whose address is valid and has no zone. *)

From S2P Require Import Prelude.
Local Open Scope Z_scope.

(** [netip.Addr]: the zero value, IPv4, and IPv6 with its zone. *)
Inductive Addr := AddrInvalid | Addr4 (ip : bytes) | Addr6 (ip : bytes) (zone : bytes).

Definition Is4 (a : Addr) : bool := match a with Addr4 _ => true | _ => false end.
Definition Is6 (a : Addr) : bool := match a with Addr6 _ _ => true | _ => false end.

Definition AsSlice (a : Addr) : bytes :=
  match a with AddrInvalid => [] | Addr4 ip => ip | Addr6 ip _ => ip end.

Record AddrPort := { ap_Addr : Addr; ap_Port : Z }.

Record Msg := { msg_MsgType : Z; msg_AddrPort : AddrPort; msg_ErrCode : Z }.

Definition Rendezvous : Z := 0.
Definition Connect : Z := 1.
Definition MsgError : Z := 2.

Definition Ipv4 : Z := 0.
Definition Ipv6 : Z := 1.

Definition NoSuchPeer : Z := 1.
Definition NotConnected : Z := 2.
Definition NoSupport : Z := 3.
Definition NoSelf : Z := 4.

Inductive UnmarshalError :=
| BufferTooSmall
| NotEnoughBytes
| UnhandledAddrType (t : Z)
| TrailingBytes (n : nat).

Definition set_MsgType (t : Z) (m : Msg) : Msg :=
  {| msg_MsgType := t; msg_AddrPort := msg_AddrPort m; msg_ErrCode := msg_ErrCode m |}.

(** The rest of [UnmarshalBinary] once the address is read: [b] holds at least six bytes. *)
Definition unmarshal_tail (m : Msg) (addr : Addr) (b : bytes) : Msg * option UnmarshalError :=
  let port := be_get (take 2 b) in
  let b := drop 2 b in
  let m := {| msg_MsgType := msg_MsgType m;
              msg_AddrPort := {| ap_Addr := addr; ap_Port := port |};
              msg_ErrCode := be_get (take 4 b) |} in
  let b := drop 4 b in
  (m, if (length b =? 0)%nat then None else Some (TrailingBytes (length b))).

(** The receiver keeps the fields set before an error. *)
Definition UnmarshalBinary (m : Msg) (b : bytes) : Msg * option UnmarshalError :=
  match b with
  | t :: a :: b' =>
      if (length b <? 12)%nat then (m, Some BufferTooSmall)
      else
        let m := set_MsgType (b2z t) m in
        let addrType := b2z a in
        if addrType =? Ipv4 then unmarshal_tail m (Addr4 (take 4 b')) (drop 4 b')
        else if addrType =? Ipv6 then
          if (length b' <? 22)%nat then (m, Some NotEnoughBytes)
          else unmarshal_tail m (Addr6 (take 16 b') []) (drop 16 b')
        else (m, Some (UnhandledAddrType addrType))
  | _ => (m, Some BufferTooSmall)
  end.

(** [None] is the error for an address that is neither IPv4 nor IPv6. *)
Definition MarshalBinary (m : Msg) : option bytes :=
  let addr := ap_Addr (msg_AddrPort m) in
  let rest := AsSlice addr ++ be_put 2 (ap_Port (msg_AddrPort m)) ++ be_put 4 (msg_ErrCode m) in
  if Is4 addr then Some (z2b (msg_MsgType m) :: z2b Ipv4 :: rest)
  else if Is6 addr then Some (z2b (msg_MsgType m) :: z2b Ipv6 :: rest)
  else None.

(** ** Round trip *)

(** The ranges of the Go types; an address that came over the wire has no zone. *)
Definition wf_msg (m : Msg) : Prop :=
  0 <= msg_MsgType m < 2 ^ 8 /\ 0 <= ap_Port (msg_AddrPort m) < 2 ^ 16 /\
  0 <= msg_ErrCode m < 2 ^ 32 /\
  match ap_Addr (msg_AddrPort m) with
  | AddrInvalid => True
  | Addr4 ip => length ip = 4%nat
  | Addr6 ip zone => length ip = 16%nat /\ zone = []
  end.

#[local] Opaque be_put be_get.
#[local] Arguments Nat.ltb : simpl never.

(** Six bytes are a port and an error code. *)
Lemma tail_iff m m' addr b :
  (6 <= length b)%nat ->
  unmarshal_tail m addr b = (m', None) <->
  b = be_put 2 (ap_Port (msg_AddrPort m')) ++ be_put 4 (msg_ErrCode m') /\
  0 <= ap_Port (msg_AddrPort m') < 2 ^ 16 /\ 0 <= msg_ErrCode m' < 2 ^ 32 /\
  msg_MsgType m' = msg_MsgType m /\ ap_Addr (msg_AddrPort m') = addr.
Proof.
  intros Hlen. unfold unmarshal_tail. rewrite drop_drop. split.
  - destruct (Nat.eqb_spec (length (drop (2 + 4) b)) 0) as [H0|]; [|done].
    rewrite length_drop in H0. intros E. injection E as <-.
    cbn [msg_AddrPort ap_Port msg_ErrCode msg_MsgType ap_Addr].
    pose proof (be_get_bound (take 2 b)) as H2. pose proof (be_get_bound (take 4 (drop 2 b))) as H4.
    rewrite length_take_le in H2 by lia.
    rewrite length_take_le in H4 by (rewrite length_drop; lia).
    split_and!; try done; try apply H2; try apply H4.
    rewrite !be_put_get; try (rewrite length_take_le; rewrite ?length_drop; lia).
    rewrite (take_ge (drop 2 b)) by (rewrite length_drop; lia). by rewrite take_drop.
  - intros (-> & Hp & He & Ht & Ha).
    rewrite (drop_ge _ (2 + 4)) by (rewrite length_app, !be_put_length; lia).
    rewrite take_app_length', drop_app_length' by (by rewrite be_put_length).
    rewrite (take_ge (be_put 4 _)) by (rewrite be_put_length; lia). rewrite !be_get_put_small by done.
    destruct m' as [? [] ?]; simpl in *; by subst.
Qed.

Lemma MarshalBinary_cons m b :
  MarshalBinary m = Some b <->
  exists ty, b = z2b (msg_MsgType m) :: z2b ty :: AsSlice (ap_Addr (msg_AddrPort m)) ++
               be_put 2 (ap_Port (msg_AddrPort m)) ++ be_put 4 (msg_ErrCode m) /\
    match ap_Addr (msg_AddrPort m) with
    | AddrInvalid => False | Addr4 _ => ty = Ipv4 | Addr6 _ _ => ty = Ipv6
    end.
Proof.
  unfold MarshalBinary. destruct (ap_Addr (msg_AddrPort m)); simpl; naive_solver.
Qed.

Lemma byte_iff (t : byte) (z : Z) : 0 <= z < 256 -> b2z t = z <-> t = z2b z.
Proof.
  intros. split; [intros <-; by rewrite z2b_b2z|intros ->]. rewrite b2z_z2b. by apply Z.mod_small.
Qed.

(** An address of [n] bytes followed by six more. *)
Lemma addr_iff m m' (mk : bytes -> Addr) n t b :
  (n + 6 <= length b)%nat -> (forall ip, AsSlice (mk ip) = ip) ->
  unmarshal_tail (set_MsgType (b2z t) m) (mk (take n b)) (drop n b) = (m', None) <->
  exists ip, length ip = n /\ ap_Addr (msg_AddrPort m') = mk ip /\
    t = z2b (msg_MsgType m') /\ 0 <= msg_MsgType m' < 2 ^ 8 /\
    0 <= ap_Port (msg_AddrPort m') < 2 ^ 16 /\ 0 <= msg_ErrCode m' < 2 ^ 32 /\
    b = AsSlice (ap_Addr (msg_AddrPort m')) ++
        be_put 2 (ap_Port (msg_AddrPort m')) ++ be_put 4 (msg_ErrCode m').
Proof.
  intros Hlen Hmk. rewrite tail_iff by (rewrite length_drop; lia). pose proof (b2z_range t). split.
  - intros (E & Hp & He & Ht & Ha). exists (take n b). simpl in Ht. rewrite Ht, Ha, Hmk, <-E.
    rewrite take_drop, z2b_b2z, length_take_le by lia. done.
  - intros (ip & <- & Ha & -> & Ht & Hp & He & ->). rewrite Ha, Hmk.
    rewrite take_app_length, drop_app_length. simpl.
    by rewrite b2z_z2b, Z.mod_small by lia.
Qed.

(** Decoding bytes succeeds with the message [m] exactly when [m] is a message with a valid
    address without zone and the bytes are its encoding, whatever the receiver held before. *)
Theorem holepunch_codec (m0 m : Msg) (b : bytes) :
  UnmarshalBinary m0 b = (m, None) <-> wf_msg m /\ MarshalBinary m = Some b.
Proof.
  rewrite MarshalBinary_cons. destruct b as [|t [|a b]]; [simpl; naive_solver..|].
  unfold UnmarshalBinary, Ipv4, Ipv6, wf_msg.
  destruct (Nat.ltb_spec (length (t :: a :: b)) 12) as [Hs|Hs]; simpl in Hs.
  { split; [done|]. intros ((_ & _ & _ & Hwf) & ty & [= -> -> ->] & Hty).
    rewrite !length_app, !be_put_length in Hs. destruct (ap_Addr _); simpl in *; [done|lia|lia]. }
  destruct (Z.eqb_spec (b2z a) 0) as [Ha|Ha]; [|destruct (Z.eqb_spec (b2z a) 1) as [Ha'|Ha']].
  - apply byte_iff in Ha as ->; [|done]. rewrite (addr_iff _ _ Addr4) by (done || lia). split.
    + intros (ip & ? & Hip & -> & ? & ? & ? & ->). rewrite Hip in *. naive_solver.
    + intros ((? & ? & ? & ?) & ty & [= -> Hty ->] & ?). destruct (ap_Addr _); naive_solver.
  - apply byte_iff in Ha' as ->; [|done].
    destruct (Nat.ltb_spec (length b) 22) as [Hl|Hl].
    { split; [done|]. intros ((? & ? & ? & Hwf) & ty & [= -> Ety ->] & Hty).
      rewrite !length_app, !be_put_length in Hl. destruct (ap_Addr _); simpl in *; [done|by subst|lia]. }
    rewrite (addr_iff _ _ (fun ip => Addr6 ip [])) by (done || lia). split.
    + intros (ip & ? & Hip & -> & ? & ? & ? & ->). rewrite Hip in *. naive_solver.
    + intros ((? & ? & ? & ?) & ty & [= -> Hty ->] & ?). destruct (ap_Addr _); naive_solver.
  - split; [done|]. intros (_ & ty & [= -> -> ->] & Hty).
    destruct (ap_Addr _); [done|subst ty; done..].
Qed.
