(* ===== verification/Pex.v ===== *)
(** * Peer exchange ([src/pex.go], [src/pexconn.go], [src/peer_protocol/pex.go])

    A torrent keeps a feed of the connections that came and went.  Each peer is sent what happened
    since the last message, with what cancels out left out; the first message lists all
    connections.  Events are a linked list that connections point into; a pointer is an index into
    [px_heap].  Drops are held back while there are few connections.  [None] is a panic. *)

From coqutil Require Import Datatypes.RecordSettersUsingExistingGetters.
From S2P Require Import Prelude Iplist UtHolepunch.
Local Open Scope Z_scope.

#[export] Instance Addr_eq_dec : EqDecision Addr.
Proof. solve_decision. Defined.
#[export] Instance AddrPort_eq_dec : EqDecision AddrPort.
Proof. solve_decision. Defined.

#[export] Instance Addr_countable : Countable Addr.
Proof.
  refine (inj_countable' (fun a => match a with AddrInvalid => inl tt | Addr4 ip => inr (inl ip) | Addr6 ip z => inr (inr (ip, z)) end)
    (fun x => match x with inl _ => AddrInvalid | inr (inl ip) => Addr4 ip | inr (inr (ip, z)) => Addr6 ip z end) _).
  by intros [].
Defined.
#[export] Instance AddrPort_countable : Countable AddrPort.
Proof. refine (inj_countable' (fun a => (ap_Addr a, ap_Port a)) (fun x => {| ap_Addr := x.1; ap_Port := x.2 |}) _). by intros []. Defined.

(** ** Addresses *)

(** [krpc.NodeAddr] of the DHT's module *)
Record NodeAddr := { na_IP : bytes; na_Port : Z }.

#[export] Instance NodeAddr_eq_dec : EqDecision NodeAddr.
Proof. solve_decision. Defined.

(** [net.IP.Equal]: an IPv4 address equals its form in IPv6. *)
Definition ip_Equal (a b : bytes) : bool :=
  if (length a =? length b)%nat then bool_decide (a = b)
  else if (length a =? 4)%nat && (length b =? 16)%nat then bool_decide (take 12 b = v4InV6Prefix) && bool_decide (a = drop 12 b)
  else if (length a =? 16)%nat && (length b =? 4)%nat then bool_decide (take 12 a = v4InV6Prefix) && bool_decide (drop 12 a = b)
  else false.

Definition node_Equal (a b : NodeAddr) : bool := ip_Equal (na_IP a) (na_IP b) && (na_Port a =? na_Port b).

(** [Index] of the compact address lists of the DHT's module: the first equal address, or -1. *)
Class CompactAddrs := { krpc_Index : list NodeAddr -> NodeAddr -> Z }.

Class CompactAddrsLaws (CA : CompactAddrs) := {
  krpc_Index_found l a i : krpc_Index l a = Z.of_nat i -> exists b, l !! i = Some b /\ node_Equal b a = true;
  krpc_Index_missing l a : krpc_Index l a < 0 -> forall b, b ∈ l -> node_Equal b a = false;
}.

Definition krpcNodeAddrFromAddrPort (a : AddrPort) : NodeAddr := {| na_IP := AsSlice (ap_Addr a); na_Port := ap_Port a |}.

(** [netip.AddrFrom4], [netip.AddrFrom16] with a port of a [NodeAddr]; the zero value on an error. *)
Definition noAddrPort : AddrPort := {| ap_Addr := AddrInvalid; ap_Port := 0 |}.

Definition ipv4AddrPortFromKrpcNodeAddr (na : NodeAddr) : AddrPort :=
  match To4 (na_IP na) with
  | None => noAddrPort
  | Some ip4 => {| ap_Addr := Addr4 ip4; ap_Port := wrapU 16 (na_Port na) |}
  end.

Definition ipv6AddrPortFromKrpcNodeAddr (na : NodeAddr) : AddrPort :=
  match To16 (na_IP na) with
  | None => noAddrPort
  | Some ip6 => {| ap_Addr := Addr6 ip6 []; ap_Port := wrapU 16 (na_Port na) |}
  end.

(** ** Messages *)

Definition PexPrefersEncryption : Z := 1.
Definition PexSeedUploadOnly : Z := 2.
Definition PexSupportsUtp : Z := 4.
Definition PexHolepunchSupport : Z := 8.
Definition PexOutgoingConn : Z := 16.

Record PexMsg := {
  px_Added : list NodeAddr; px_AddedFlags : list Z;
  px_Added6 : list NodeAddr; px_Added6Flags : list Z;
  px_Dropped : list NodeAddr; px_Dropped6 : list NodeAddr;
}.

Definition noPexMsg : PexMsg := {| px_Added := []; px_AddedFlags := []; px_Added6 := []; px_Added6Flags := []; px_Dropped := []; px_Dropped6 := [] |}.

Definition pexMsg_Len (m : PexMsg) : nat := length (px_Added m) + length (px_Added6 m) + length (px_Dropped m) + length (px_Dropped6 m).

Inductive pexEventType := pexAdd | pexDrop.

Record pexEvent := { pe_t : pexEventType; pe_addr : AddrPort; pe_f : Z }.

Definition pexTargAdded : Z := 25.
Definition pexMaxHold : Z := 25.
Definition pexMaxDelta : Z := 50.

Record pexMsgFactory := { pf_msg : PexMsg; pf_added : gset AddrPort; pf_dropped : gset AddrPort }.

Definition noFactory : pexMsgFactory := {| pf_msg := noPexMsg; pf_added := ∅; pf_dropped := ∅ |}.

Definition DeltaLen (me : pexMsgFactory) : Z := Z.max (Z.of_nat (size (pf_added me))) (Z.of_nat (size (pf_dropped me))).

(** [append(s[:i], s[i+1:]...)] *)
Definition cut {A} (i : Z) (l : list A) : option (list A) :=
  if (0 <=? i) && (i <? Z.of_nat (length l)) then Some (take (Z.to_nat i) l ++ drop (Z.to_nat i + 1) l) else None.

Section Pex.
Context {CA : CompactAddrs}.

Definition factory_add (me : pexMsgFactory) (e : pexEvent) : option pexMsgFactory :=
  let key := pe_addr e in
  if bool_decide (key ∈ pf_added me) then Some me
  else
    let addr := krpcNodeAddrFromAddrPort (pe_addr e) in
    let m := pf_msg me in
    let cancelled := bool_decide (key ∈ pf_dropped me) in
    if To4 (na_IP addr) then
      if cancelled then
        let i := krpc_Index (px_Dropped m) addr in
        m ← (if 0 <=? i then d ← cut i (px_Dropped m); Some (m <| px_Dropped := d |>) else Some m);
        Some {| pf_msg := m; pf_added := pf_added me; pf_dropped := pf_dropped me ∖ {[key]} |}
      else Some {| pf_msg := m <| px_Added := px_Added m ++ [addr] |> <| px_AddedFlags := px_AddedFlags m ++ [pe_f e] |>;
                   pf_added := {[key]} ∪ pf_added me; pf_dropped := pf_dropped me |}
    else if (length (na_IP addr) =? 16)%nat then
      if cancelled then
        let i := krpc_Index (px_Dropped6 m) addr in
        m ← (if 0 <=? i then d ← cut i (px_Dropped6 m); Some (m <| px_Dropped6 := d |>) else Some m);
        Some {| pf_msg := m; pf_added := pf_added me; pf_dropped := pf_dropped me ∖ {[key]} |}
      else Some {| pf_msg := m <| px_Added6 := px_Added6 m ++ [addr] |> <| px_Added6Flags := px_Added6Flags m ++ [pe_f e] |>;
                   pf_added := {[key]} ∪ pf_added me; pf_dropped := pf_dropped me |}
    else None.

Definition factory_drop (me : pexMsgFactory) (e : pexEvent) : option pexMsgFactory :=
  let addr := krpcNodeAddrFromAddrPort (pe_addr e) in
  let key := pe_addr e in
  if bool_decide (key ∈ pf_dropped me) then Some me
  else
    let m := pf_msg me in
    let cancelled := bool_decide (key ∈ pf_added me) in
    if To4 (na_IP addr) then
      if cancelled then
        let i := krpc_Index (px_Added m) addr in
        m ← (if 0 <=? i then a ← cut i (px_Added m); f ← cut i (px_AddedFlags m); Some (m <| px_Added := a |> <| px_AddedFlags := f |>) else Some m);
        Some {| pf_msg := m; pf_added := pf_added me ∖ {[key]}; pf_dropped := pf_dropped me |}
      else Some {| pf_msg := m <| px_Dropped := px_Dropped m ++ [addr] |>; pf_added := pf_added me; pf_dropped := {[key]} ∪ pf_dropped me |}
    else if (length (na_IP addr) =? 16)%nat then
      if cancelled then
        let i := krpc_Index (px_Added6 m) addr in
        m ← (if 0 <=? i then a ← cut i (px_Added6 m); f ← cut i (px_Added6Flags m); Some (m <| px_Added6 := a |> <| px_Added6Flags := f |>) else Some m);
        Some {| pf_msg := m; pf_added := pf_added me ∖ {[key]}; pf_dropped := pf_dropped me |}
      else Some {| pf_msg := m <| px_Dropped6 := px_Dropped6 m ++ [addr] |>; pf_added := pf_added me; pf_dropped := {[key]} ∪ pf_dropped me |}
    else Some {| pf_msg := m; pf_added := pf_added me; pf_dropped := {[key]} ∪ pf_dropped me |}.

Definition factory_append (me : pexMsgFactory) (e : pexEvent) : option pexMsgFactory :=
  match pe_t e with pexAdd => factory_add me e | pexDrop => factory_drop me e end.

(** ** The state of a torrent *)

(** An event in the list, and the pointer to the next. *)
Record pexNode := { pn_event : pexEvent; pn_next : option nat }.

Record pexState := {
  px_heap : list pexNode;
  px_tail : option nat;
  px_hold : list pexEvent;
  px_nc : Z;
  px_msg0 : pexMsgFactory;
}.

Definition noPexState : pexState := {| px_heap := []; px_tail := None; px_hold := []; px_nc := 0; px_msg0 := noFactory |}.

(** [Reset]; connections may still point into the old list. *)
Definition pex_Reset (s : pexState) : pexState := noPexState <| px_heap := px_heap s |>.

Definition pex_append (s : pexState) (e : pexEvent) : option pexState :=
  let p := length (px_heap s) in
  let heap := match px_tail s with
              | Some t => alter (fun n => {| pn_event := pn_event n; pn_next := Some p |}) t (px_heap s)
              | None => px_heap s
              end in
  m ← factory_append (px_msg0 s) e;
  Some (s <| px_heap := heap ++ [{| pn_event := e; pn_next := None |}] |> <| px_tail := Some p |> <| px_msg0 := m |>).

Fixpoint pex_appendAll (s : pexState) (es : list pexEvent) : option pexState :=
  match es with
  | [] => Some s
  | e :: es' => s ← pex_append s e; pex_appendAll s es'
  end.

(** ** Connections *)

(** What peer exchange looks at in a connection; the remote address is [None] where it cannot be
    parsed.  [Listed], whether messages are exchanged, and the pointer to the last event sent. *)
Record pexConn := {
  pc_RemoteAddr : option AddrPort;
  pc_outgoing : bool;
  pc_utp : bool;
  pc_PeerListenPort : Z;
  pc_PeerPrefersEncryption : bool;
  px_Listed : bool;
  px_enabled : bool;
  px_last : option nat;
}.

Definition pexPeerFlags (c : pexConn) : Z :=
  Z.lor (Z.lor (if pc_PeerPrefersEncryption c then PexPrefersEncryption else 0) (if pc_outgoing c then PexOutgoingConn else 0))
        (if pc_utp c then PexSupportsUtp else 0).

Definition pc_dialAddr (c : pexConn) : option AddrPort :=
  if pc_outgoing c || (pc_PeerListenPort c =? 0) then pc_RemoteAddr c
  else match pc_RemoteAddr c with
       | None => None
       | Some a => Some {| ap_Addr := ap_Addr a; ap_Port := wrapU 16 (pc_PeerListenPort c) |}
       end.

(** [None] is the error for an address that cannot be parsed or is not valid. *)
Definition pex_event (t : pexEventType) (c : pexConn) : option pexEvent :=
  addr ← pc_dialAddr c;
  match ap_Addr addr with
  | AddrInvalid => None
  | _ => Some {| pe_t := t; pe_addr := addr; pe_f := pexPeerFlags c |}
  end.

(** The connection is listed, and the event appended, unless it has no address. *)
Definition pex_Add (s : pexState) (c : pexConn) : option (pexState * pexConn) :=
  match pex_event pexAdd c with
  | None => Some (s, c)
  | Some e =>
      let s := s <| px_nc := px_nc s + 1 |> in
      s ← (if pexTargAdded <=? px_nc s then s ← pex_appendAll s (px_hold s); Some (s <| px_hold := [] |>) else Some s);
      s ← pex_append s e;
      Some (s, c <| px_Listed := true |>)
  end.

Definition pex_Drop (s : pexState) (c : pexConn) : option pexState :=
  if negb (px_Listed c) then Some s
  else
    match pex_event pexDrop c with
    | None => Some s
    | Some e =>
        let s := s <| px_nc := px_nc s - 1 |> in
        if (px_nc s <? pexTargAdded) && (Z.of_nat (length (px_hold s)) <? pexMaxHold) then Some (s <| px_hold := px_hold s ++ [e] |>)
        else pex_append s e
    end.

(** The loop of [Genmsg] over the list; each step goes on to a later event. *)
Fixpoint genmsg_loop (fuel : nat) (heap : list pexNode) (msg : pexMsgFactory) (last : nat) (e : option nat) : option (pexMsgFactory * nat) :=
  match fuel, e with
  | O, _ => None
  | S fuel', None => Some (msg, last)
  | S fuel', Some p =>
      if pexMaxDelta <=? DeltaLen msg then Some (msg, last)
      else
        n ← heap !! p;
        msg ← factory_append msg (pn_event n);
        genmsg_loop fuel' heap msg p (pn_next n)
  end.

Definition Genmsg (s : pexState) (start : option nat) : option (PexMsg * option nat) :=
  match start with
  | None => Some (pf_msg (px_msg0 s), px_tail s)
  | Some p =>
      n ← px_heap s !! p;
      '(msg, last) ← genmsg_loop (length (px_heap s) + 1) (px_heap s) noFactory p (pn_next n);
      Some (pf_msg msg, Some last)
  end.

(** [pexConnState.genmsg]: [None] inside when there is nothing to send. *)
Definition conn_genmsg (s : pexState) (c : pexConn) : option (option PexMsg * pexConn) :=
  '(tx, last) ← Genmsg s (px_last c);
  Some (if (pexMsg_Len tx =? 0)%nat then (None, c) else (Some tx, c <| px_last := last |>)).

(** ** The other end *)

(** The addresses of [Added] with their flags, if there are as many. *)
Fixpoint insertAdded (from : NodeAddr -> option AddrPort) (live : gmap AddrPort (option Z)) (added : list NodeAddr) (flags : list Z) :
    option (gmap AddrPort (option Z)) :=
  match added with
  | [] => Some live
  | a :: added' => k ← from a; insertAdded from (<[k := head flags]> live) added' (tail flags)
  end.

(** An address that is not of the kind the field is for panics in the conversion to an array. *)
Definition added4 (na : NodeAddr) : option AddrPort :=
  ip4 ← To4 (na_IP na); Some {| ap_Addr := Addr4 ip4; ap_Port := wrapU 16 (na_Port na) |}.
Definition added6 (na : NodeAddr) : option AddrPort :=
  ip6 ← To16 (na_IP na); Some {| ap_Addr := Addr6 ip6 []; ap_Port := wrapU 16 (na_Port na) |}.

Definition updateRemoteLiveConns (live : gmap AddrPort (option Z)) (rx : PexMsg) : option (gmap AddrPort (option Z)) :=
  let live := foldl (fun m d => delete (ipv4AddrPortFromKrpcNodeAddr d) m) live (px_Dropped rx) in
  let live := foldl (fun m d => delete (ipv6AddrPortFromKrpcNodeAddr d) m) live (px_Dropped6 rx) in
  live ← insertAdded added4 live (px_Added rx) (px_AddedFlags rx);
  insertAdded added6 live (px_Added6 rx) (px_Added6Flags rx).

(** ** A torrent and its connections *)

(** The torrent's state, its connections, and what each of its peers makes of the messages. *)
Record pexWorld := { pw_state : pexState; pw_conns : gmap nat pexConn; pw_views : gmap nat (gmap AddrPort (option Z)) }.

Definition noPexWorld : pexWorld := {| pw_state := noPexState; pw_conns := ∅; pw_views := ∅ |}.

Inductive pexOp :=
| PexConnect (id : nat) (c : pexConn) (extended : bool)
| PexExtendedHandshake (id : nat) (port : Z) (encryption exchange : bool)
| PexDelete (id : nat)
| PexShare (id : nat).

(** [addPeerConn]: a connection without the extension protocol is listed at once. *)
Definition pexConnect (w : pexWorld) (id : nat) (c : pexConn) (extended : bool) : option pexWorld :=
  '(s, c) ← (if extended then Some (pw_state w, c) else pex_Add (pw_state w) c);
  Some {| pw_state := s; pw_conns := <[id := c]> (pw_conns w); pw_views := <[id := ∅]> (pw_views w) |}.

(** [Init]: the exchange starts anew if the peer has the extension and the torrent is not private,
    which [exchange] says. *)
Definition pex_Init (c : pexConn) (exchange : bool) : pexConn :=
  if exchange then c <| px_last := None |> <| px_enabled := true |> else c.

(** [onReadExtendedMsg]: a handshake has the port the peer listens on, and whether it prefers
    encryption; the connection is listed with them. *)
Definition pexHandshake (w : pexWorld) (id : nat) (port : Z) (encryption exchange : bool) : option pexWorld :=
  match pw_conns w !! id with
  | None => Some w
  | Some c =>
      '(s, c) ← pex_Add (pw_state w) (c <| pc_PeerListenPort := port |> <| pc_PeerPrefersEncryption := encryption |>);
      let c := pex_Init c exchange in
      Some (w <| pw_state := s |> <| pw_conns := <[id := c]> (pw_conns w) |>)
  end.

(** [deletePeerConn] *)
Definition pexDelete (w : pexWorld) (id : nat) : option pexWorld :=
  match pw_conns w !! id with
  | None => Some w
  | Some c =>
      s ← pex_Drop (pw_state w) c;
      Some {| pw_state := s; pw_conns := delete id (pw_conns w); pw_views := delete id (pw_views w) |}
  end.

(** [Share] when its time has come: the next message is sent, and the peer takes it in. *)
Definition pexShare (w : pexWorld) (id : nat) : option pexWorld :=
  match pw_conns w !! id, pw_views w !! id with
  | Some c, Some view =>
      if negb (px_enabled c) then Some w else
      '(tx, c) ← conn_genmsg (pw_state w) c;
      view ← match tx with None => Some view | Some rx => updateRemoteLiveConns view rx end;
      Some (w <| pw_conns := <[id := c]> (pw_conns w) |> <| pw_views := <[id := view]> (pw_views w) |>)
  | _, _ => Some w
  end.

Definition do_pexOp (w : pexWorld) (o : pexOp) : option pexWorld :=
  match o with
  | PexConnect id c extended => pexConnect w id c extended
  | PexExtendedHandshake id port encryption exchange => pexHandshake w id port encryption exchange
  | PexDelete id => pexDelete w id
  | PexShare id => pexShare w id
  end.

Fixpoint do_pexOps (w : pexWorld) (os : list pexOp) : option pexWorld :=
  match os with
  | [] => Some w
  | o :: os' => w ← do_pexOp w o; do_pexOps w os'
  end.
End Pex.

(** *** An instance of the address lists *)

Definition list_compact : CompactAddrs :=
  {| krpc_Index l a := match list_find (fun b => Is_true (node_Equal b a)) l with Some (i, _) => Z.of_nat i | None => -1 end |}.

Lemma list_compact_laws : CompactAddrsLaws list_compact.
Proof.
  split; cbn; intros l a.
  - intros i. destruct (list_find _ l) as [[j b]|] eqn:E; [|lia]. intros <-%Nat2Z.inj. apply list_find_Some in E as (E1 & E2 & _).
    exists b. split; [done|]. by apply Is_true_true.
  - destruct (list_find _ l) as [[j b]|] eqn:E; [lia|]. intros _ b Hb. apply list_find_None in E. rewrite Forall_forall in E.
    specialize (E b Hb). by apply Is_true_false.
Qed.
