(* ===== verification/PexTheory.v ===== *)
(** * Peer exchange: messages are faithful to the feed

    [replay] is what a list of events makes of a set of addresses; the messages of [Genmsg] take a
    peer from one point of the feed to another, whatever cancels out in between. *)

From coqutil Require Import Datatypes.RecordSettersUsingExistingGetters.
From S2P Require Import Prelude Iplist UtHolepunch Pex.
Local Open Scope Z_scope.

(** ** The feed as a set *)

Definition replay1 (V : gset AddrPort) (e : pexEvent) : gset AddrPort :=
  match pe_t e with pexAdd => {[pe_addr e]} ∪ V | pexDrop => V ∖ {[pe_addr e]} end.

Definition replay (V : gset AddrPort) (es : list pexEvent) : gset AddrPort := foldl replay1 V es.

(** Addresses come and go in turn: none is added that is there, none dropped that is not. *)
Definition turn (V : gset AddrPort) (e : pexEvent) : Prop :=
  match pe_t e with pexAdd => pe_addr e ∉ V | pexDrop => pe_addr e ∈ V end.

Fixpoint alternating (V : gset AddrPort) (es : list pexEvent) : Prop :=
  match es with
  | [] => True
  | e :: es' => turn V e /\ alternating (replay1 V e) es'
  end.

Lemma replay_app V es es' : replay V (es ++ es') = replay (replay V es) es'.
Proof. apply foldl_app. Qed.

Lemma alternating_app V es es' : alternating V (es ++ es') <-> alternating V es /\ alternating (replay V es) es'.
Proof. revert V. induction es as [|e es IH]; intros V; cbn; [tauto|]. rewrite IH. tauto. Qed.

(** ** The form an address takes at the other end *)

(** The addresses of events: valid ones, with a port. *)
Definition event_ok (a : AddrPort) : Prop :=
  0 <= ap_Port a < 2 ^ 16 /\
  match ap_Addr a with AddrInvalid => False | Addr4 ip => length ip = 4%nat | Addr6 ip _ => length ip = 16%nat end.

Definition is4 (a : AddrPort) : bool := if To4 (AsSlice (ap_Addr a)) then true else false.

Definition canon (a : AddrPort) : AddrPort :=
  let na := krpcNodeAddrFromAddrPort a in
  if is4 a then ipv4AddrPortFromKrpcNodeAddr na else ipv6AddrPortFromKrpcNodeAddr na.

Lemma To4_length ip : length ip = 4%nat -> To4 ip = Some ip.
Proof. intros E. unfold To4. by rewrite E. Qed.

Lemma To4_split ip v4 : length ip = 16%nat -> To4 ip = Some v4 -> take 12 ip = v4InV6Prefix /\ v4 = drop 12 ip.
Proof. intros E. unfold To4. rewrite E. cbn. case_bool_decide; naive_solver. Qed.

(** The same form of an address is the same at the other end. *)
Lemma node_Equal_canon a b : event_ok a -> event_ok b ->
  node_Equal (krpcNodeAddrFromAddrPort a) (krpcNodeAddrFromAddrPort b) = true -> canon a = canon b.
Proof.
  intros [Pa Ha] [Pb Hb] [Ei Ep]%andb_true_iff. apply Z.eqb_eq in Ep. cbn in Ei, Ep. unfold canon, is4, ipv4AddrPortFromKrpcNodeAddr, ipv6AddrPortFromKrpcNodeAddr.
  cbn [krpcNodeAddrFromAddrPort na_IP na_Port]. rewrite Ep.
  assert (length (AsSlice (ap_Addr a)) = 4 \/ length (AsSlice (ap_Addr a)) = 16)%nat as La by (destruct (ap_Addr a); cbn; tauto).
  assert (length (AsSlice (ap_Addr b)) = 4 \/ length (AsSlice (ap_Addr b)) = 16)%nat as Lb by (destruct (ap_Addr b); cbn; tauto).
  set (x := AsSlice (ap_Addr a)) in *. set (y := AsSlice (ap_Addr b)) in *. clearbody x y. unfold ip_Equal in Ei.
  destruct La as [La|La], Lb as [Lb|Lb]; rewrite La, Lb in Ei; cbn in Ei.
  - apply bool_decide_eq_true in Ei. by subst.
  - apply andb_true_iff in Ei as [E1%bool_decide_eq_true E2%bool_decide_eq_true]. rewrite (To4_length x La). unfold To4. rewrite Lb. cbn.
    rewrite bool_decide_true by done. by rewrite E2.
  - apply andb_true_iff in Ei as [E1%bool_decide_eq_true E2%bool_decide_eq_true]. rewrite (To4_length y Lb). unfold To4. rewrite La. cbn.
    rewrite bool_decide_true by done. by rewrite E2.
  - apply bool_decide_eq_true in Ei. by subst.
Qed.

Lemma node_Equal_refl n : node_Equal n n = true.
Proof. unfold node_Equal, ip_Equal. rewrite Nat.eqb_refl, bool_decide_true, Z.eqb_refl by done. done. Qed.

Notation node := krpcNodeAddrFromAddrPort.

(** ** The factory *)

Lemma cut_delete {A} (l : list A) i x : l !! i = Some x -> cut (Z.of_nat i) l = Some (delete i l).
Proof.
  intros Hi. pose proof (lookup_lt_Some _ _ _ Hi). unfold cut. rewrite (proj2 (Z.leb_le _ _)), (proj2 (Z.ltb_lt _ _)) by lia. cbn.
  rewrite Nat2Z.id, delete_take_drop. by rewrite Nat.add_1_r.
Qed.

(** [l] holds the addresses of [S] that are, or are not, IPv4 addresses, each once. *)
Definition lists (b : bool) (S : gset AddrPort) (l : list NodeAddr) : Prop :=
  exists ks, l = node <$> ks /\ NoDup ks /\ forall k, k ∈ ks <-> k ∈ S /\ is4 k = b.

Lemma lists_empty b : lists b ∅ [].
Proof. exists []. split; [done|]. split; [constructor|]. set_solver. Qed.

Lemma lists_add b S l k : lists b S l -> k ∉ S -> is4 k = b -> lists b ({[k]} ∪ S) (l ++ [node k]).
Proof.
  intros (ks & -> & Hd & Hks) Hk Hb. exists (ks ++ [k]). split; [by rewrite fmap_app|]. split.
  - apply NoDup_app. split; [done|]. split; [|apply NoDup_singleton]. intros x Hx ->%list_elem_of_singleton. by apply Hk, (proj1 (Hks k) Hx).
  - intros x. rewrite elem_of_app, list_elem_of_singleton, Hks, elem_of_union, elem_of_singleton. naive_solver.
Qed.

Lemma lists_other b S l k : lists b S l -> is4 k <> b -> lists b ({[k]} ∪ S) l /\ lists b (S ∖ {[k]}) l.
Proof.
  intros (ks & -> & Hd & Hks) Hb. split; exists ks; (split; [done|]; split; [done|]); intros x; rewrite Hks;
    rewrite ?elem_of_union, ?elem_of_difference, ?elem_of_singleton; naive_solver.
Qed.

Lemma lists_size S l l' : lists true S l -> lists false S l' -> (length l + length l' = size S)%nat.
Proof.
  intros (ks & -> & Hd & Hks) (ks' & -> & Hd' & Hks'). rewrite !length_fmap, <-length_app.
  assert (NoDup (ks ++ ks')) as Hn.
  { apply NoDup_app. split; [done|]. split; [|done]. intros x H1%Hks H2%Hks'. destruct H1, H2. congruence. }
  assert (S = list_to_set (ks ++ ks')) as ->; [|by rewrite size_list_to_set].
  apply set_eq. intros x. rewrite elem_of_list_to_set, elem_of_app, Hks, Hks'. destruct (is4 x); naive_solver.
Qed.

Section Pex.
Context {CA : CompactAddrs} {CAL : CompactAddrsLaws CA}.

(** All the addresses there are: valid, and none in two forms. *)
Context (U : gset AddrPort).
Context (HU : forall a, a ∈ U -> event_ok a) (Hinj : forall a b, a ∈ U -> b ∈ U -> canon a = canon b -> a = b).

Lemma index_in l k : NoDup l -> k ∈ l -> (forall a, a ∈ l -> a ∈ U) ->
  exists i, krpc_Index (node <$> l) (node k) = Z.of_nat i /\ l !! i = Some k.
Proof using CAL HU Hinj.
  intros Hd Hk Hl. destruct (Z.lt_ge_cases (krpc_Index (node <$> l) (node k)) 0) as [Hi|Hi].
  - pose proof (krpc_Index_missing _ _ Hi (node k)) as H. rewrite node_Equal_refl in H. discriminate H. by apply list_elem_of_fmap_2.
  - exists (Z.to_nat (krpc_Index (node <$> l) (node k))). split; [lia|].
    destruct (krpc_Index_found (node <$> l) (node k) (Z.to_nat (krpc_Index (node <$> l) (node k)))) as (b & Hb & He); [lia|].
    rewrite list_lookup_fmap in Hb. apply fmap_Some in Hb as (k' & Hk' & ->). rewrite Hk'. f_equal.
    assert (k' ∈ l) by (by eapply list_elem_of_lookup_2). apply Hinj; [auto..|]. apply node_Equal_canon; auto.
Qed.

Lemma lists_cut b S l k : lists b S l -> S ⊆ U -> k ∈ S -> is4 k = b ->
  exists i, krpc_Index l (node k) = Z.of_nat i /\ (i < length l)%nat /\ cut (Z.of_nat i) l = Some (delete i l) /\ lists b (S ∖ {[k]}) (delete i l).
Proof using CAL HU Hinj.
  intros (ks & -> & Hd & Hks) HS Hk Hb. destruct (index_in ks k Hd) as (i & Ei & Hi); [by apply Hks|intros a Ha; apply HS, (proj1 (Hks a) Ha)|].
  exists i. split; [done|]. split; [rewrite length_fmap; by eapply lookup_lt_Some|]. split; [eapply cut_delete; by rewrite list_lookup_fmap, Hi|].
  exists (delete i ks). split; [by rewrite list_fmap_delete|]. pose proof (delete_Permutation ks i k Hi) as Hp.
  assert (NoDup (k :: delete i ks)) as [Hk' Hd']%NoDup_cons by (by rewrite <-Hp). split; [done|]. intros x.
  assert (x ∈ ks <-> x = k \/ x ∈ delete i ks) as Hx by (by rewrite Hp at 1; rewrite elem_of_cons).
  rewrite elem_of_difference, elem_of_singleton. specialize (Hks x). naive_solver.
Qed.

Record FI (f : pexMsgFactory) : Prop := {
  fi_added : pf_added f ⊆ U;
  fi_dropped : pf_dropped f ⊆ U;
  fi_disjoint : pf_added f ## pf_dropped f;
  fi_Added : lists true (pf_added f) (px_Added (pf_msg f));
  fi_Added6 : lists false (pf_added f) (px_Added6 (pf_msg f));
  fi_Dropped : lists true (pf_dropped f) (px_Dropped (pf_msg f));
  fi_Dropped6 : lists false (pf_dropped f) (px_Dropped6 (pf_msg f));
  fi_flags : length (px_AddedFlags (pf_msg f)) = length (px_Added (pf_msg f));
  fi_flags6 : length (px_Added6Flags (pf_msg f)) = length (px_Added6 (pf_msg f));
}.

Lemma noFactory_FI : FI noFactory.
Proof using. constructor; try apply lists_empty; try apply empty_subseteq; [apply disjoint_empty_l|done|done]. Qed.

(** What an event does to the sets of the factory. *)
Definition delta1 (AD : gset AddrPort * gset AddrPort) (e : pexEvent) : gset AddrPort * gset AddrPort :=
  let k := pe_addr e in
  match pe_t e with
  | pexAdd => if decide (k ∈ AD.1) then AD else if decide (k ∈ AD.2) then (AD.1, AD.2 ∖ {[k]}) else ({[k]} ∪ AD.1, AD.2)
  | pexDrop => if decide (k ∈ AD.2) then AD else if decide (k ∈ AD.1) then (AD.1 ∖ {[k]}, AD.2) else (AD.1, {[k]} ∪ AD.2)
  end.

Lemma is4_To4 a : (if To4 (na_IP (node a)) then true else false) = is4 a.
Proof using. done. Qed.

Lemma ok6 a : event_ok a -> is4 a = false -> length (na_IP (node a)) = 16%nat.
Proof using.
  intros [_ Ha] H4. unfold is4 in H4. cbn. destruct (ap_Addr a) as [|ip|ip z]; cbn in *; [done| |done].
  by rewrite To4_length in H4.
Qed.

Lemma lists_other_add b S l k : lists b S l -> is4 k = negb b -> lists b ({[k]} ∪ S) l.
Proof using. intros H E. apply lists_other; [done|]. rewrite E. by destruct b. Qed.

Lemma lists_other_cut b S l k : lists b S l -> is4 k = negb b -> lists b (S ∖ {[k]}) l.
Proof using. intros H E. apply lists_other; [done|]. rewrite E. by destruct b. Qed.

(** The fields of the invariant after an event. *)
Ltac fi_step :=
  constructor; cbn -[krpcNodeAddrFromAddrPort]; cbv [RecordSettersUsingExistingGetters.const];
  first [done | by apply lists_add | by apply lists_other_add | by apply lists_other_cut | rewrite !length_app; cbn; lia
        | rewrite ?length_delete by (by apply lookup_lt_is_Some); congruence | clear HU Hinj; set_solver].

Lemma factory_add_ok f e : FI f -> pe_t e = pexAdd -> pe_addr e ∈ U ->
  exists f', factory_add f e = Some f' /\ FI f' /\ (pf_added f', pf_dropped f') = delta1 (pf_added f, pf_dropped f) e.
Proof using CAL HU Hinj.
  intros HF Et Hk. pose proof HF as [H1 H2 H3 H4 H5 H6 H7 H8 H9]. unfold factory_add, delta1. rewrite Et. set (k := pe_addr e) in *. cbn [fst snd].
  destruct (decide (k ∈ pf_added f)) as [Ha|Ha]; [rewrite bool_decide_true by done; by exists f|]. rewrite bool_decide_false by done.
  pose proof (is4_To4 k) as E4. destruct (To4 (na_IP (node k))) as [v4|]; symmetry in E4; destruct (decide (k ∈ pf_dropped f)) as [Hd|Hd].
  - rewrite bool_decide_true by done. destruct (lists_cut _ _ _ _ H6 H2 Hd E4) as (i & -> & Hi & -> & Hl). rewrite (proj2 (Z.leb_le _ _)) by lia.
    eexists. split; [reflexivity|]. split; [fi_step|done].
  - rewrite bool_decide_false by done. eexists. split; [reflexivity|]. split; [fi_step|done].
  - rewrite (ok6 k (HU k Hk) E4), bool_decide_true by done. cbn [Nat.eqb].
    destruct (lists_cut _ _ _ _ H7 H2 Hd E4) as (i & -> & Hi & -> & Hl). rewrite (proj2 (Z.leb_le _ _)) by lia.
    eexists. split; [reflexivity|]. split; [fi_step|done].
  - rewrite (ok6 k (HU k Hk) E4), bool_decide_false by done. eexists. split; [reflexivity|]. split; [fi_step|done].
Qed.

Lemma cut_flags {A} (l : list A) i n : length l = n -> (i < n)%nat -> cut (Z.of_nat i) l = Some (delete i l) /\ length (delete i l) = (n - 1)%nat.
Proof using.
  intros <- Hi. destruct (lookup_lt_is_Some_2 l i Hi) as [x Hx]. split; [by eapply cut_delete|]. apply length_delete. by exists x.
Qed.

Lemma factory_drop_ok f e : FI f -> pe_t e = pexDrop -> pe_addr e ∈ U ->
  exists f', factory_drop f e = Some f' /\ FI f' /\ (pf_added f', pf_dropped f') = delta1 (pf_added f, pf_dropped f) e.
Proof using CAL HU Hinj.
  intros HF Et Hk. pose proof HF as [H1 H2 H3 H4 H5 H6 H7 H8 H9]. unfold factory_drop, delta1. rewrite Et. set (k := pe_addr e) in *. cbn [fst snd].
  destruct (decide (k ∈ pf_dropped f)) as [Hd|Hd]; [rewrite bool_decide_true by done; by exists f|]. rewrite bool_decide_false by done.
  pose proof (is4_To4 k) as E4. destruct (To4 (na_IP (node k))) as [v4|]; symmetry in E4; destruct (decide (k ∈ pf_added f)) as [Ha|Ha].
  - rewrite bool_decide_true by done. destruct (lists_cut _ _ _ _ H4 H1 Ha E4) as (i & -> & Hi & -> & Hl). rewrite (proj2 (Z.leb_le _ _)) by lia.
    destruct (cut_flags _ i _ H8 Hi) as [Ef Hf]. destruct (cut_flags _ i _ eq_refl Hi) as [_ Hn]. cbn [mbind option_bind]. rewrite Ef.
    eexists. split; [reflexivity|]. split; [fi_step|done].
  - rewrite bool_decide_false by done. eexists. split; [reflexivity|]. split; [fi_step|done].
  - rewrite (ok6 k (HU k Hk) E4), bool_decide_true by done. cbn [Nat.eqb].
    destruct (lists_cut _ _ _ _ H5 H1 Ha E4) as (i & -> & Hi & -> & Hl). rewrite (proj2 (Z.leb_le _ _)) by lia.
    destruct (cut_flags _ i _ H9 Hi) as [Ef Hf]. destruct (cut_flags _ i _ eq_refl Hi) as [_ Hn]. cbn [mbind option_bind]. rewrite Ef.
    eexists. split; [reflexivity|]. split; [fi_step|done].
  - rewrite (ok6 k (HU k Hk) E4), bool_decide_false by done. eexists. split; [reflexivity|]. split; [fi_step|done].
Qed.

Lemma factory_append_ok f e : FI f -> pe_addr e ∈ U ->
  exists f', factory_append f e = Some f' /\ FI f' /\ (pf_added f', pf_dropped f') = delta1 (pf_added f, pf_dropped f) e.
Proof using CAL HU Hinj.
  intros HF Hk. unfold factory_append. destruct (pe_t e) eqn:Et; [by apply factory_add_ok|by apply factory_drop_ok].
Qed.

(** From [V] to [W]: what is to be added, and what dropped. *)
Definition tracks (V W : gset AddrPort) (f : pexMsgFactory) : Prop := pf_added f = W ∖ V /\ pf_dropped f = V ∖ W.

Lemma delta1_tracks V W e : turn W e -> delta1 (W ∖ V, V ∖ W) e = (replay1 W e ∖ V, V ∖ replay1 W e).
Proof using.
  clear CAL CA HU Hinj. unfold turn, delta1, replay1. set (k := pe_addr e). clearbody k. cbn [fst snd]. destruct (pe_t e); intros Hk.
  - destruct (decide (k ∈ W ∖ V)) as [H1|H1]; [set_solver|]. destruct (decide (k ∈ V ∖ W)) as [H2|H2]; f_equal; set_solver.
  - destruct (decide (k ∈ V ∖ W)) as [H1|H1]; [set_solver|]. destruct (decide (k ∈ W ∖ V)) as [H2|H2]; f_equal; apply set_eq; intros x;
      destruct (decide (x = k)) as [->|]; destruct (decide (k ∈ V)); set_solver.
Qed.

Lemma append_tracks V W f e : FI f -> tracks V W f -> pe_addr e ∈ U ->
  exists f', factory_append f e = Some f' /\ FI f' /\ (turn W e -> tracks V (replay1 W e) f').
Proof using CAL HU Hinj.
  intros HF [Ea Ed] Hk. destruct (factory_append_ok f e HF Hk) as (f' & E & HF' & Hd). exists f'. split; [done|]. split; [done|].
  intros Ht. rewrite Ea, Ed, (delta1_tracks V W e Ht) in Hd. injection Hd as Ha' Hd'. by split.
Qed.

(** ** What the other end makes of a message *)

Definition from (b : bool) : NodeAddr -> AddrPort := if b then ipv4AddrPortFromKrpcNodeAddr else ipv6AddrPortFromKrpcNodeAddr.

Lemma from_canon b k : is4 k = b -> from b (node k) = canon k.
Proof using. intros <-. unfold from, canon. by destruct (is4 k). Qed.

Lemma lists_from b S l x : lists b S l -> x ∈ from b <$> l <-> exists k, k ∈ S /\ is4 k = b /\ x = canon k.
Proof using.
  intros (ks & -> & Hd & Hks). rewrite <-list_fmap_compose, list_elem_of_fmap. split.
  - intros (k & -> & Hk%Hks). exists k. split; [apply Hk|]. split; [apply Hk|]. exact (from_canon b k (proj2 Hk)).
  - intros (k & Hk & Hb & ->). exists k. split; [exact (eq_sym (from_canon b k Hb))|]. by apply Hks.
Qed.

Lemma foldl_delete (g : NodeAddr -> AddrPort) (live : gmap AddrPort (option Z)) l x :
  x ∈ dom (foldl (fun m d => delete (g d) m) live l) <-> x ∈ dom live /\ x ∉ g <$> l.
Proof using.
  clear CAL CA HU Hinj. revert live. induction l as [|d l IH]; intros live; cbn; [set_solver|]. rewrite IH, dom_delete. set_solver.
Qed.

Lemma insertAdded_dom b (conv : NodeAddr -> option AddrPort) live l flags : (forall n, n ∈ l -> conv n = Some (from b n)) ->
  exists live', insertAdded conv live l flags = Some live' /\ forall x, x ∈ dom live' <-> x ∈ dom live \/ x ∈ from b <$> l.
Proof using.
  clear CAL CA HU Hinj. revert live flags. induction l as [|n l IH]; intros live flags Hc; cbn; [exists live; set_solver|].
  rewrite Hc by (by left). cbn [mbind option_bind]. destruct (IH (<[from b n := head flags]> live) (tail flags)) as (live' & -> & Hx); [intros; apply Hc; by right|].
  exists live'. split; [done|]. intros x. rewrite Hx, dom_insert. set_solver.
Qed.

Lemma added_from b S l n : (forall k, k ∈ S -> event_ok k) -> lists b S l -> n ∈ l -> (if b then added4 else added6) n = Some (from b n).
Proof using.
  intros Hok (ks & -> & Hd & Hks) Hn. apply list_elem_of_fmap in Hn as (k & -> & Hk%Hks). destruct Hk as [HS Hb]. pose proof (is4_To4 k) as E4. rewrite Hb in E4.
  destruct b; cbn [from]; unfold added4, added6, ipv4AddrPortFromKrpcNodeAddr, ipv6AddrPortFromKrpcNodeAddr.
  - by destruct (To4 (na_IP (node k))).
  - unfold To16. rewrite (ok6 k (Hok k HS) Hb). done.
Qed.

Lemma update_view live f : FI f -> exists live', updateRemoteLiveConns live (pf_msg f) = Some live' /\
  forall x, x ∈ dom live' <-> (x ∈ dom live /\ ~ exists k, k ∈ pf_dropped f /\ x = canon k) \/ exists k, k ∈ pf_added f /\ x = canon k.
Proof using HU.
  intros [H1 H2 H3 H4 H5 H6 H7 H8 H9]. unfold updateRemoteLiveConns.
  edestruct (insertAdded_dom true added4) as (l1 & -> & E1); [intros n Hn; apply (added_from true (pf_added f) _ n (fun k Hk => HU k (H1 k Hk)) H4 Hn)|].
  cbn [mbind option_bind].
  edestruct (insertAdded_dom false added6) as (l2 & -> & E2); [intros n Hn; apply (added_from false (pf_added f) _ n (fun k Hk => HU k (H1 k Hk)) H5 Hn)|].
  exists l2. split; [done|]. intros x. rewrite E2, E1. change ipv6AddrPortFromKrpcNodeAddr with (from false). change ipv4AddrPortFromKrpcNodeAddr with (from true).
  rewrite !foldl_delete, (lists_from _ _ _ x H4), (lists_from _ _ _ x H5), (lists_from _ _ _ x H6), (lists_from _ _ _ x H7). split.
  - intros [[[[Hx Hd] Hd6]|(k & Hk & _ & ->)]|(k & Hk & _ & ->)]; [|by right; exists k..]. left. split; [done|].
    intros (k & Hk & ->). destruct (is4 k) eqn:E; [apply Hd|apply Hd6]; by exists k.
  - intros [[Hx Hd]|(k & Hk & ->)]; [left; left; split; [split; [done|]|]; intros (k & Hk & _ & ->); apply Hd; by exists k|].
    destruct (is4 k) eqn:E; [left|]; right; by exists k.
Qed.

(** A view that holds the addresses of [V] comes to hold those of [W]. *)
Definition shows (view : gmap AddrPort (option Z)) (V : gset AddrPort) : Prop := forall x, x ∈ dom view <-> exists k, k ∈ V /\ x = canon k.

Lemma update_shows live V W f : FI f -> tracks V W f -> V ⊆ U -> W ⊆ U -> shows live V ->
  exists live', updateRemoteLiveConns live (pf_msg f) = Some live' /\ shows live' W.
Proof using HU Hinj.
  intros HF [Ea Ed] HV HW Hs. destruct (update_view live f HF) as (live' & E & Hx). exists live'. split; [done|]. intros x. rewrite Hx, Ea, Ed, (Hs x). split.
  - intros [[(k & Hk & ->) Hd]|(k & Hk & ->)]; [|exists k; split; [by apply elem_of_difference in Hk as [? _]|done]]. exists k. split; [|done].
    destruct (decide (k ∈ W)); [done|]. destruct Hd. exists k. split; [by apply elem_of_difference|done].
  - intros (k & Hk & ->). destruct (decide (k ∈ V)) as [HkV|HkV]; [left|right; exists k; split; [by apply elem_of_difference|done]].
    split; [by exists k|]. intros (k' & [HV' HW']%elem_of_difference & E'). apply HW'. rewrite <-(Hinj k k'); auto.
Qed.
End Pex.
