(* ===== verification/PexSafety.v ===== *)
(** * Peer exchange: peers come to know of every connection

    The list of events as a feed, the message made from any point of it, and an invariant of a
    torrent and its connections: what each peer has been told is the feed up to the event its
    connection points to, and the feed is the listed connections with the drops held back. *)

From coqutil Require Import Datatypes.RecordSettersUsingExistingGetters.
From S2P Require Import Prelude Iplist UtHolepunch Pex PexTheory.
Local Open Scope Z_scope.

Definition feed (s : pexState) : list pexEvent := pn_event <$> px_heap s.

(** The events so far when the last was at [p]. *)
Definition upto (s : pexState) (p : nat) : gset AddrPort := replay ∅ (take (S p) (feed s)).

Definition current (s : pexState) : gset AddrPort := replay ∅ (feed s).

(** Each node points to the one after it, and the tail is the last. *)
Record Chain (s : pexState) : Prop := {
  ch_next i n : px_heap s !! i = Some n -> pn_next n = if decide (S i < length (px_heap s))%nat then Some (S i) else None;
  ch_tail : px_tail s = match px_heap s with [] => None | _ => Some (length (px_heap s) - 1)%nat end;
}.

Definition link (p : nat) (n : pexNode) : pexNode := {| pn_event := pn_event n; pn_next := Some p |}.

Lemma feed_alter p (t : nat) (heap : list pexNode) : pn_event <$> alter (link p) t heap = pn_event <$> heap.
Proof.
  apply list_eq. intros i. rewrite !list_lookup_fmap. destruct (decide (i = t)) as [->|]; [rewrite list_lookup_alter_eq|by rewrite list_lookup_alter_ne].
  by destruct (heap !! t).
Qed.

Lemma upto_lookup s q n : px_heap s !! q = Some n -> forall p, q = S p -> upto s q = replay1 (upto s p) (pn_event n).
Proof.
  intros Hn p ->. unfold upto. rewrite (take_S_r _ (S p) (pn_event n)); [|unfold feed; by rewrite list_lookup_fmap, Hn]. by rewrite replay_app.
Qed.

Lemma upto_current s p : S p = length (px_heap s) -> upto s p = current s.
Proof. intros E. unfold upto, current. f_equal. apply take_ge. unfold feed. rewrite length_fmap. lia. Qed.

Lemma upto_prefix s s' p : feed s `prefix_of` feed s' -> (p < length (px_heap s))%nat -> upto s' p = upto s p.
Proof. intros [es E] Hp. unfold upto. rewrite E, take_app_le; [done|]. unfold feed. rewrite length_fmap. lia. Qed.

(** An event at [q] comes in turn. *)
Lemma alternating_at s q n p : alternating ∅ (feed s) -> px_heap s !! q = Some n -> q = S p -> turn (upto s p) (pn_event n).
Proof.
  intros Ha Hn ->. unfold upto. assert (feed s !! S p = Some (pn_event n)) as E by (unfold feed; by rewrite list_lookup_fmap, Hn).
  rewrite <-(take_drop_middle _ _ _ E) in Ha. apply alternating_app in Ha as [_ Ha]. apply Ha.
Qed.

Lemma replay_drops W es : (forall e, e ∈ es -> pe_t e = pexDrop) -> forall k, k ∈ replay W es <-> k ∈ W /\ k ∉ pe_addr <$> es.
Proof.
  revert W. induction es as [|e es IH]; intros W Hd k; cbn; [set_solver|]. fold (replay (replay1 W e) es). rewrite IH by (intros; apply Hd; by right).
  unfold replay1. rewrite (Hd e) by (by left). set_solver.
Qed.

Lemma alternating_drops W es : (forall e, e ∈ es -> pe_t e = pexDrop) -> NoDup (pe_addr <$> es) -> (forall k, k ∈ pe_addr <$> es -> k ∈ W) -> alternating W es.
Proof.
  revert W. induction es as [|e es IH]; intros W Hd Hn HW; cbn; [done|]. unfold turn, replay1. rewrite (Hd e) by (by left). cbn in Hn, HW. apply NoDup_cons in Hn as [Hn Hn'].
  split; [apply HW; by left|]. apply IH; [intros; apply Hd; by right|done|]. intros k Hk. apply elem_of_difference. split; [apply HW; by right|].
  intros ->%elem_of_singleton. done.
Qed.

Lemma delta1_size A D e : let AD := delta1 (A, D) e in
  Z.max (Z.of_nat (size AD.1)) (Z.of_nat (size AD.2)) <= Z.max (Z.of_nat (size A)) (Z.of_nat (size D)) + 1.
Proof.
  unfold delta1. set (k := pe_addr e). cbn [fst snd].
  assert (forall S : gset AddrPort, size ({[k]} ∪ S) <= size S + 1)%nat as Hu by (intros S; pose proof (size_union_alt {[k]} S) as ->; rewrite size_singleton;
    pose proof (subseteq_size (S ∖ {[k]}) S ltac:(set_solver)); lia).
  assert (forall S : gset AddrPort, size (S ∖ {[k]}) <= size S)%nat as Hs by (intros S; apply subseteq_size; set_solver).
  pose proof (Hu A). pose proof (Hu D). pose proof (Hs A). pose proof (Hs D).
  destruct (pe_t e); repeat case_decide; cbn [fst snd]; lia.
Qed.

(** ** Connections and what is held back *)

Definition addr_of (c : pexConn) : option AddrPort := pe_addr <$> pex_event pexAdd c.

Definition listed_addr (c : pexConn) : option AddrPort := if px_Listed c then addr_of c else None.

(** The addresses of the connections that are listed. *)
Definition listed (w : pexWorld) : gset AddrPort := map_img (omap listed_addr (pw_conns w)).

(** The addresses whose drop is held back. *)
Definition held (s : pexState) : list AddrPort := pe_addr <$> px_hold s.

(** A new connection has an address that is not listed, and not held. *)
Definition new_addr (U : gset AddrPort) (w : pexWorld) (c : pexConn) : bool :=
  match addr_of c with
  | None => true
  | Some a => bool_decide (a ∈ U) && bool_decide (a ∉ listed w) && bool_decide (a ∉ held (pw_state w))
  end.

(** Connections are new and have one handshake of the extension protocol; their addresses are those
    of no other live connection, and none whose drop is held. *)
Definition allowed (U : gset AddrPort) (w : pexWorld) (o : pexOp) : bool :=
  match o with
  | PexConnect id c extended =>
      match pw_conns w !! id, px_last c with
      | None, None => negb (px_Listed c) && negb (px_enabled c) && (extended || new_addr U w c)
      | _, _ => false
      end
  | PexExtendedHandshake id port encryption _ =>
      match pw_conns w !! id with
      | None => true
      | Some c => negb (px_Listed c) && negb (px_enabled c) &&
                  new_addr U w (c <| pc_PeerListenPort := port |> <| pc_PeerPrefersEncryption := encryption |>)
      end
  | _ => true
  end.

Fixpoint allowed_run {CA : CompactAddrs} (U : gset AddrPort) (w : pexWorld) (os : list pexOp) : bool :=
  match os with
  | [] => true
  | o :: os' => allowed U w o && match do_pexOp w o with None => true | Some w' => allowed_run U w' os' end
  end.

Lemma elem_of_listed w k : k ∈ listed w <-> exists id c, pw_conns w !! id = Some c /\ listed_addr c = Some k.
Proof.
  unfold listed. rewrite elem_of_map_img. split.
  - intros (id & (c & Hc & E)%lookup_omap_Some). by exists id, c.
  - intros (id & c & Hc & E). exists id. apply lookup_omap_Some. by exists c.
Qed.

Lemma pex_event_addr t c : pex_event t c = (fun a => {| pe_t := t; pe_addr := a; pe_f := pexPeerFlags c |}) <$> addr_of c.
Proof. unfold addr_of, pex_event. destruct (pc_dialAddr c) as [[[] port]|]; reflexivity. Qed.

Section Pex.
Context {CA : CompactAddrs} {CAL : CompactAddrsLaws CA}.
Context (U : gset AddrPort).
Context (HU : forall a, a ∈ U -> event_ok a) (Hinj : forall a b, a ∈ U -> b ∈ U -> canon a = canon b -> a = b).

(** ** The feed *)

Record Feed (s : pexState) : Prop := {
  fe_chain : Chain s;
  fe_turns : alternating ∅ (feed s);
  fe_in e : e ∈ feed s -> pe_addr e ∈ U;
  fe_msg0 : FI U (px_msg0 s);
  fe_tracks : tracks ∅ (current s) (px_msg0 s);
}.

Lemma replay_sub V es : V ⊆ U -> (forall e, e ∈ es -> pe_addr e ∈ U) -> replay V es ⊆ U.
Proof using.
  clear CAL CA HU Hinj. revert V. induction es as [|e es IH]; intros V HV He; cbn; [done|]. apply IH; [|set_solver].
  unfold replay1. destruct (pe_t e); set_solver.
Qed.

Lemma upto_sub s p : Feed s -> upto s p ⊆ U.
Proof using.
  intros HF. apply replay_sub; [apply empty_subseteq|]. intros e He. apply (fe_in s HF). unfold feed in *. by apply elem_of_take in He as (i & ? & _); eapply list_elem_of_lookup_2.
Qed.

Lemma chain_append s e m : Chain s ->
  let heap := match px_tail s with Some t => alter (link (length (px_heap s))) t (px_heap s) | None => px_heap s end in
  Chain (s <| px_heap := heap ++ [{| pn_event := e; pn_next := None |}] |> <| px_tail := Some (length (px_heap s)) |> <| px_msg0 := m |>) /\
  pn_event <$> heap = feed s /\ length heap = length (px_heap s).
Proof using.
  intros [Hn Ht] heap. assert (pn_event <$> heap = feed s) as Hf by (unfold heap; destruct (px_tail s); [apply feed_alter|done]).
  assert (length heap = length (px_heap s)) as Hl by (apply (f_equal length) in Hf; unfold feed in Hf; by rewrite !length_fmap in Hf).
  split; [|done]. constructor; cbn; cbv [RecordSettersUsingExistingGetters.const]; rewrite length_app; cbn.
  - intros i n Hi. destruct (decide (i < length heap)%nat) as [Hlt|Hge].
    + rewrite lookup_app_l in Hi by done. rewrite decide_True by lia. unfold heap in Hi. rewrite Ht in Hi.
      destruct (px_heap s) as [|n0 h] eqn:E; [cbn in Hl; lia|]. rewrite <-E in *.
      destruct (decide (i = length (px_heap s) - 1)%nat) as [->|Hi']; [rewrite list_lookup_alter_eq in Hi|rewrite list_lookup_alter_ne in Hi by lia].
      * apply fmap_Some in Hi as (n1 & _ & ->). cbn. f_equal. lia.
      * rewrite (Hn i n Hi), decide_True by lia. done.
    + rewrite lookup_app_r in Hi by lia. apply list_lookup_singleton_Some in Hi as [Hi <-]. cbn. rewrite decide_False by lia. done.
  - destruct (heap ++ _) eqn:E; [by destruct heap|]. f_equal. lia.
Qed.

Lemma append_feed s e : Feed s -> turn (current s) e -> pe_addr e ∈ U ->
  exists s', pex_append s e = Some s' /\ Feed s' /\ feed s' = feed s ++ [e] /\ px_hold s' = px_hold s /\ px_nc s' = px_nc s.
Proof using CAL HU Hinj.
  intros [Hc Ha Hi H0 Ht] Hturn He. destruct (append_tracks U HU Hinj _ _ _ e H0 Ht He) as (m & Em & HF & Hm).
  destruct (chain_append s e m Hc) as (Hc' & Hf & Hl). unfold pex_append. fold (link (length (px_heap s))). rewrite Em. cbn [mbind option_bind].
  eexists. split; [reflexivity|].
  match goal with |- Feed ?x /\ _ => set (s' := x) in * end.
  assert (feed s' = feed s ++ [e]) as E by (unfold feed at 1; subst s'; cbn; cbv [RecordSettersUsingExistingGetters.const]; rewrite fmap_app; by f_equal).
  split; [|done]. constructor; [done|..].
  - rewrite E. apply alternating_app. by split; [|split].
  - intros e'. rewrite E. intros [H| ->%list_elem_of_singleton]%elem_of_app; auto.
  - done.
  - unfold current. rewrite E, replay_app. by apply Hm.
Qed.

Lemma appendAll_feed es s : Feed s -> alternating (current s) es -> (forall e, e ∈ es -> pe_addr e ∈ U) ->
  exists s', pex_appendAll s es = Some s' /\ Feed s' /\ feed s' = feed s ++ es /\ px_hold s' = px_hold s /\ px_nc s' = px_nc s.
Proof using CAL HU Hinj.
  revert s. induction es as [|e es IH]; intros s HF Ha He; cbn; [exists s; by rewrite app_nil_r|]. destruct Ha as [Ht Ha].
  destruct (append_feed s e HF Ht) as (s1 & -> & HF1 & E1 & H1 & N1); [apply He; by left|]. cbn [mbind option_bind].
  destruct (IH s1 HF1) as (s2 & -> & HF2 & E2 & H2 & N2); [unfold current; by rewrite E1, replay_app|intros; apply He; by right|].
  exists s2. split; [done|]. split; [done|]. split; [by rewrite E2, E1, <-app_assoc|]. split; congruence.
Qed.

(** ** Messages *)

Lemma genmsg_loop_ok s V : Feed s -> forall fuel msg p, (p < length (px_heap s))%nat -> (length (px_heap s) <= fuel + p)%nat ->
  FI U msg -> tracks V (upto s p) msg -> DeltaLen msg <= pexMaxDelta ->
  exists msg' q, genmsg_loop fuel (px_heap s) msg p (if decide (S p < length (px_heap s))%nat then Some (S p) else None) = Some (msg', q) /\
    (p <= q < length (px_heap s))%nat /\ FI U msg' /\ tracks V (upto s q) msg' /\ DeltaLen msg' <= pexMaxDelta /\
    DeltaLen msg' <= DeltaLen msg + Z.of_nat (q - p) /\ (S q = length (px_heap s) \/ DeltaLen msg' = pexMaxDelta).
Proof using CAL HU Hinj.
  intros HF. induction fuel as [|fuel IH]; intros msg p Hp Hfu Hm Ht HD; [lia|]. cbn.
  case_decide as Hlt; [|exists msg, p; split; [done|]; do 5 (split; [first [done|lia]|]); left; lia].
  destruct (Z.leb_spec pexMaxDelta (DeltaLen msg)); [exists msg, p; split; [done|]; do 5 (split; [first [done|lia]|]); right; lia|].
  destruct (lookup_lt_is_Some_2 (px_heap s) (S p) Hlt) as [n Hn]. rewrite Hn. cbn [mbind option_bind].
  assert (pe_addr (pn_event n) ∈ U) as HnU by (apply (fe_in s HF); unfold feed; apply list_elem_of_fmap_2; by eapply list_elem_of_lookup_2).
  destruct (factory_append_ok U HU Hinj msg (pn_event n) Hm HnU) as (m0 & Em0 & _ & Hd).
  destruct (append_tracks U HU Hinj V _ msg (pn_event n) Hm Ht HnU) as (m1 & Em1 & Hm1 & Ht1). rewrite Em1 in Em0. injection Em0 as <-. rewrite Em1. cbn [mbind option_bind].
  assert (DeltaLen m1 <= DeltaLen msg + 1) as HD1.
  { pose proof (delta1_size (pf_added msg) (pf_dropped msg) (pn_event n)) as Hs. rewrite <-Hd in Hs. exact Hs. }
  rewrite (ch_next s (fe_chain s HF) _ _ Hn).
  destruct (IH m1 (S p)) as (m' & q & E & Hq & Hr); [done|lia|done| |lia|].
  - rewrite (upto_lookup s _ n Hn p eq_refl). apply Ht1. by apply (alternating_at s _ n p (fe_turns s HF) Hn).
  - exists m', q. split; [done|]. destruct Hr as (R1 & R2 & R3 & R4 & R5). do 4 (split; [first [done|lia]|]). split; [lia|done].
Qed.
Lemma msg_Len f : FI U f -> pexMsg_Len (pf_msg f) = (size (pf_added f) + size (pf_dropped f))%nat /\
  (length (px_Added (pf_msg f)) + length (px_Added6 (pf_msg f)) = size (pf_added f))%nat /\
  (length (px_Dropped (pf_msg f)) + length (px_Dropped6 (pf_msg f)) = size (pf_dropped f))%nat.
Proof using.
  intros [_ _ _ H4 H5 H6 H7 _ _]. unfold pexMsg_Len. pose proof (lists_size _ _ _ H4 H5). pose proof (lists_size _ _ _ H6 H7). lia.
Qed.

(** A message without addresses changes nothing. *)
Lemma msg_empty f V W : FI U f -> tracks V W f -> pexMsg_Len (pf_msg f) = 0%nat -> V = W /\ DeltaLen f = 0.
Proof using.
  intros HF [Ea Ed] E. rewrite (proj1 (msg_Len f HF)) in E. assert (size (pf_added f) = 0 /\ size (pf_dropped f) = 0)%nat as [E1 E2] by lia.
  split; [|unfold DeltaLen; by rewrite E1, E2]. apply size_empty_inv in E1, E2. rewrite Ea in E1. rewrite Ed in E2. clear CAL CA HU Hinj HF.
  apply set_eq. intros x. split; intros Hx; [destruct (decide (x ∈ W))|destruct (decide (x ∈ V))]; set_solver.
Qed.

(** What a peer has been told: the feed up to the last event sent. *)
Definition knows (s : pexState) (c : pexConn) (view : gmap AddrPort (option Z)) : Prop :=
  match px_last c with
  | None => view = ∅
  | Some p => px_enabled c = true /\ (p < length (px_heap s))%nat /\ shows view (upto s p)
  end.

(** Messages after the first hold no more than [pexMaxDelta] addresses that came, and that went. *)
Definition bounded (rx : PexMsg) : Prop :=
  Z.of_nat (length (px_Added rx) + length (px_Added6 rx)) <= pexMaxDelta /\ Z.of_nat (length (px_Dropped rx) + length (px_Dropped6 rx)) <= pexMaxDelta.

(** How far a message takes a connection: to the end, or on by [pexMaxDelta] events. *)
Definition advances (s : pexState) (c : pexConn) (q : nat) : Prop :=
  S q = length (px_heap s) \/ exists p, px_last c = Some p /\ (p + Z.to_nat pexMaxDelta <= q)%nat.

Lemma genmsg_first s c view : Feed s -> px_enabled c = true -> px_last c = None -> view = ∅ ->
  exists tx c', conn_genmsg s c = Some (tx, c') /\
    match tx with
    | None => c' = c /\ shows view (current s)
    | Some rx => exists view' q, updateRemoteLiveConns view rx = Some view' /\ c' = c <| px_last := Some q |> /\ knows s c' view' /\ advances s c q
    end.
Proof using HU Hinj.
  intros HF Hen Hl ->. unfold conn_genmsg, Genmsg. rewrite Hl. cbn [mbind option_bind]. pose proof (fe_tracks s HF) as Ht. pose proof (fe_msg0 s HF) as H0.
  assert (shows ∅ ∅) as Hs by (clear CAL CA HU Hinj; intros x; set_solver).
  destruct (Nat.eqb_spec (pexMsg_Len (pf_msg (px_msg0 s))) 0) as [E|E]; eexists _, _; (split; [reflexivity|]).
  - split; [done|]. by rewrite <-(proj1 (msg_empty _ _ _ H0 Ht E)).
  - assert (px_heap s <> []) as Hne.
    { intros E0. apply E. destruct (msg_Len _ H0) as [-> _]. destruct Ht as [-> ->]. unfold current, feed. by rewrite E0. }
    assert (current s ⊆ U) as HsU by (apply replay_sub; [apply empty_subseteq|apply (fe_in s HF)]).
    destruct (update_shows U HU Hinj ∅ ∅ (current s) _ H0 Ht (empty_subseteq _) HsU Hs) as (view' & Ev & Hv). exists view', (length (px_heap s) - 1)%nat.
    rewrite (ch_tail s (fe_chain s HF)). destruct (px_heap s) as [|n h] eqn:Eh; [done|]. rewrite <-Eh.
    assert (S (length (px_heap s) - 1) = length (px_heap s)) as El by (rewrite Eh; cbn; lia).
    split; [done|]. split; [done|]. split; [|by left]. cbn. split; [done|]. split; [lia|]. by rewrite upto_current.
Qed.

Lemma genmsg_next s c view p : Feed s -> px_enabled c = true -> px_last c = Some p -> (p < length (px_heap s))%nat -> shows view (upto s p) ->
  exists tx c', conn_genmsg s c = Some (tx, c') /\
    match tx with
    | None => c' = c /\ shows view (current s)
    | Some rx => exists view' q, updateRemoteLiveConns view rx = Some view' /\ c' = c <| px_last := Some q |> /\ knows s c' view' /\ advances s c q /\ bounded rx
    end.
Proof using CAL HU Hinj.
  intros HF Hen Hl Hp Hs. unfold conn_genmsg, Genmsg. rewrite Hl. destruct (lookup_lt_is_Some_2 _ _ Hp) as [n Hn]. rewrite Hn. cbn [mbind option_bind].
  rewrite (ch_next s (fe_chain s HF) _ _ Hn).
  destruct (genmsg_loop_ok s (upto s p) HF (length (px_heap s) + 1) noFactory p) as (msg & q & -> & Hq & Hm & Ht & HD & HDq & Hend);
    [done|lia|apply noFactory_FI|split; cbn; by rewrite difference_diag_L|done|]. cbn [mbind option_bind].
  assert (DeltaLen noFactory = 0) as D0 by done. rewrite D0 in HDq.
  destruct (Nat.eqb_spec (pexMsg_Len (pf_msg msg)) 0) as [E|E]; eexists _, _; (split; [reflexivity|]).
  - split; [done|]. destruct (msg_empty _ _ _ Hm Ht E) as [EV E0]. rewrite EV in Hs. destruct Hend as [Hend|Hend]; [|by rewrite E0 in Hend].
    by rewrite <-(upto_current s q Hend).
  - destruct (update_shows U HU Hinj view _ _ msg Hm Ht (upto_sub s p HF) (upto_sub s q HF) Hs) as (view' & Ev & Hv). exists view', q.
    split; [done|]. split; [done|]. split; [|split].
    + cbn. split; [done|]. split; [lia|done].
    + destruct Hend as [Hend|Hend]; [by left|right]. exists p. split; [done|]. rewrite Hend in HDq. cbn in *. lia.
    + destruct (msg_Len msg Hm) as (_ & E1 & E2). unfold bounded. rewrite E1, E2. unfold DeltaLen in HD. lia.
Qed.
(** ** The torrent *)

Record SI (s : pexState) (L : gset AddrPort) : Prop := {
  si_feed : Feed s;
  si_drops e : e ∈ px_hold s -> pe_t e = pexDrop;
  si_nodup : NoDup (held s);
  si_disjoint k : k ∈ L -> k ∉ held s;
  si_current k : k ∈ current s <-> k ∈ L \/ k ∈ held s;
  si_hold : Z.of_nat (length (px_hold s)) <= pexMaxHold;
  si_nc : px_nc s = Z.of_nat (size L);
  si_full : pexTargAdded <= px_nc s -> px_hold s = [];
}.

Lemma Feed_eq s s' : px_heap s' = px_heap s -> px_tail s' = px_tail s -> px_msg0 s' = px_msg0 s -> Feed s -> Feed s'.
Proof using.
  destruct s, s'. cbn. intros -> -> -> [[H1 H2] H3 H4 H5 H6]. by constructor; [constructor|..].
Qed.

Lemma current_sub s : Feed s -> current s ⊆ U.
Proof using. intros HF. apply replay_sub; [apply empty_subseteq|apply (fe_in s HF)]. Qed.

Lemma size_add (a : AddrPort) (L : gset AddrPort) : a ∉ L -> size ({[a]} ∪ L) = S (size L).
Proof using. clear CAL CA HU Hinj. intros Ha. rewrite size_union by set_solver. by rewrite size_singleton. Qed.

Lemma size_remove (a : AddrPort) (L : gset AddrPort) : a ∈ L -> size L = S (size (L ∖ {[a]})).
Proof using. clear CAL CA HU Hinj. intros Ha. rewrite <-(size_add a (L ∖ {[a]})) by set_solver. f_equal. apply set_eq. intros x. destruct (decide (x = a)); set_solver. Qed.

(** Adding [a] to a feed of the connections [L] and what is held. *)
Lemma add_SI s L a f n : Feed s -> (forall e, e ∈ px_hold s -> pe_t e = pexDrop) -> NoDup (held s) -> (forall k, k ∈ L -> k ∉ held s) ->
  (forall k, k ∈ current s <-> k ∈ L \/ k ∈ held s) -> Z.of_nat (length (px_hold s)) <= pexMaxHold -> px_nc s = n + 1 -> n = Z.of_nat (size L) ->
  (pexTargAdded <= px_nc s -> px_hold s = []) -> a ∈ U -> a ∉ L -> a ∉ held s ->
  exists s', pex_append s {| pe_t := pexAdd; pe_addr := a; pe_f := f |} = Some s' /\ SI s' ({[a]} ∪ L) /\ feed s `prefix_of` feed s'.
Proof using CAL HU Hinj.
  intros HF Hd Hn Hdis Hcur Hlen Hnc HL Hfull HaU HaL Hah. destruct (append_feed s {| pe_t := pexAdd; pe_addr := a; pe_f := f |} HF) as (s' & E & HF' & Ef & Eh & En); [|done|].
  { cbn. rewrite Hcur. tauto. }
  exists s'. split; [done|]. split; [|rewrite Ef; by exists [{| pe_t := pexAdd; pe_addr := a; pe_f := f |}]]. unfold held in *. constructor; rewrite ?Eh, ?En; try done.
  - unfold held. by rewrite Eh.
  - unfold held. rewrite Eh. intros k [->%elem_of_singleton|Hk]%elem_of_union; auto.
  - intros k. unfold held. rewrite Eh. unfold current. rewrite Ef, replay_app. cbn. rewrite elem_of_union. specialize (Hcur k). unfold current in Hcur. rewrite elem_of_union. tauto.
  - rewrite size_add by done. lia.
Qed.

Lemma pex_Add_ok s L c a : SI s L -> addr_of c = Some a -> a ∈ U -> a ∉ L -> a ∉ held s ->
  exists s', pex_Add s c = Some (s', c <| px_Listed := true |>) /\ SI s' ({[a]} ∪ L) /\ feed s `prefix_of` feed s'.
Proof using CAL HU Hinj.
  intros [HF Hd Hn Hdis Hcur Hlen Hnc Hfull] Ea HaU HaL Hah. unfold pex_Add. rewrite pex_event_addr, Ea. cbn [fmap option_fmap option_map px_nc].
  set (s1 := s <| px_nc := px_nc s + 1 |>). assert (Feed s1) as HF1 by (by apply (Feed_eq s)).
  change (px_hold s1) with (px_hold s). change (px_nc s1) with (px_nc s + 1).
  destruct (Z.leb_spec pexTargAdded (px_nc s + 1)) as [Hge|Hlt].
  - assert (forall k, k ∈ held s -> k ∈ current s) as Hsub by (intros k Hk; apply Hcur; by right).
    destruct (appendAll_feed (px_hold s) s1 HF1) as (s2 & -> & HF2 & Ef & Eh & En).
    { by apply alternating_drops. }
    { intros e He. apply (current_sub s HF), Hsub. by apply list_elem_of_fmap_2. }
    cbn [mbind option_bind]. destruct (add_SI (s2 <| px_hold := [] |>) L a (pexPeerFlags c) (px_nc s)) as (s' & E & HS & Hp); try done.
    + by apply (Feed_eq s2).
    + cbn. by intros e He%elem_of_nil.
    + constructor.
    + cbn. intros k _ Hk. by apply elem_of_nil in Hk.
    + intros k. change (current (s2 <| px_hold := [] |>)) with (current s2). unfold current. rewrite Ef, replay_app, replay_drops by done.
      change (replay ∅ (feed s1)) with (current s). rewrite Hcur. unfold held at 2. cbn. rewrite elem_of_nil. specialize (Hdis k). unfold held in *. tauto.
    + by apply not_elem_of_nil.
    + rewrite E. cbn [mbind option_bind]. exists s'. split; [done|]. split; [done|]. etrans; [|done]. change (feed (s2 <| px_hold := [] |>)) with (feed s2). rewrite Ef. by exists (px_hold s).
  - cbn [mbind option_bind]. destruct (add_SI s1 L a (pexPeerFlags c) (px_nc s)) as (s' & E & HS & Hp); try done.
    + intros H. change (px_nc s1) with (px_nc s + 1) in H. lia.
    + rewrite E. cbn [mbind option_bind]. by exists s'.
Qed.
Lemma pex_Drop_ok s L c a : SI s L -> px_Listed c = true -> addr_of c = Some a -> a ∈ L ->
  exists s', pex_Drop s c = Some s' /\ SI s' (L ∖ {[a]}) /\ feed s `prefix_of` feed s'.
Proof using CAL HU Hinj.
  intros [HF Hd Hn Hdis Hcur Hlen Hnc Hfull] Hl Ea HaL. unfold pex_Drop. rewrite pex_event_addr, Ea, Hl. cbn [negb fmap option_fmap option_map].
  set (e := {| pe_t := pexDrop; pe_addr := a; pe_f := pexPeerFlags c |}). set (s1 := s <| px_nc := px_nc s - 1 |>).
  assert (Feed s1) as HF1 by (by apply (Feed_eq s)). change (px_hold s1) with (px_hold s). change (px_nc s1) with (px_nc s - 1).
  pose proof (size_remove a L HaL) as HsL. pose proof (Hdis a HaL) as Hah. assert (forall k, k ∈ L ∖ {[a]} <-> k ∈ L /\ k <> a) as HL' by (intros k; rewrite elem_of_difference, elem_of_singleton; tauto).
  destruct ((px_nc s - 1 <? pexTargAdded) && (Z.of_nat (length (px_hold s)) <? pexMaxHold)) eqn:E.
  - apply andb_true_iff in E as [E1%Z.ltb_lt E2%Z.ltb_lt]. eexists. split; [reflexivity|]. split; [|done].
    set (s' := s1 <| px_hold := px_hold s ++ [e] |>). assert (forall k, k ∈ held s' <-> k ∈ held s \/ k = a) as Hh.
    { intros k. unfold held, s'. cbn. cbv [RecordSettersUsingExistingGetters.const]. rewrite fmap_app, elem_of_app. cbn. by rewrite list_elem_of_singleton. }
    constructor.
    + by apply (Feed_eq s1).
    + unfold s'. cbn. cbv [RecordSettersUsingExistingGetters.const]. intros e' [H| ->%list_elem_of_singleton]%elem_of_app; auto.
    + unfold held, s'. cbn. cbv [RecordSettersUsingExistingGetters.const]. rewrite fmap_app. apply NoDup_app. split; [done|]. split; [|apply NoDup_singleton].
      intros k Hk ->%list_elem_of_singleton. done.
    + intros k [Hk Hne]%HL'. rewrite Hh. specialize (Hdis k Hk). tauto.
    + intros k. change (current s') with (current s). rewrite Hcur, Hh, HL'. destruct (decide (k = a)) as [->|]; tauto.
    + unfold s'. cbn. cbv [RecordSettersUsingExistingGetters.const]. rewrite length_app. cbn. lia.
    + change (px_nc s') with (px_nc s - 1). lia.
    + change (px_nc s') with (px_nc s - 1). lia.
  - apply andb_false_iff in E as E'. destruct (append_feed s1 e HF1) as (s' & Es & HF' & Ef & Eh & En).
    { cbn. change (current s1) with (current s). apply Hcur. by left. }
    { apply (current_sub s HF), Hcur. by left. }
    change (px_hold s1) with (px_hold s) in Eh. change (px_nc s1) with (px_nc s - 1) in En. change (feed s1) with (feed s) in Ef.
    exists s'. split; [done|]. split; [|rewrite Ef; by exists [e]]. constructor; unfold held; rewrite ?Eh, ?En; try done.
    + intros k [Hk _]%HL'. by apply Hdis.
    + intros k. unfold current. rewrite Ef, replay_app. cbn. change (replay ∅ (feed s)) with (current s). fold (held s).
      rewrite elem_of_difference, elem_of_singleton, Hcur, HL'. destruct (decide (k = a)) as [->|]; tauto.
    + lia.
    + intros H. apply Hfull. lia.
Qed.

(** ** The torrent and its peers *)

Record WI (w : pexWorld) : Prop := {
  wi_state : SI (pw_state w) (listed w);
  wi_unique i j c d k : pw_conns w !! i = Some c -> pw_conns w !! j = Some d -> listed_addr c = Some k -> listed_addr d = Some k -> i = j;
  wi_view i c : pw_conns w !! i = Some c -> exists view, pw_views w !! i = Some view /\ knows (pw_state w) c view;
}.

Lemma heap_prefix s s' : feed s `prefix_of` feed s' -> (length (px_heap s) <= length (px_heap s'))%nat.
Proof using. intros Hp%prefix_length. unfold feed in Hp. by rewrite !length_fmap in Hp. Qed.

Lemma knows_prefix s s' c view : feed s `prefix_of` feed s' -> knows s c view -> knows s' c view.
Proof using.
  intros Hp. pose proof (heap_prefix s s' Hp). unfold knows. destruct (px_last c) as [p|]; [|done]. intros (H1 & H2 & H3).
  split; [done|]. split; [lia|]. by rewrite (upto_prefix s s').
Qed.

Lemma noPexWorld_WI : WI noPexWorld.
Proof using.
  constructor; [|by intros ???? ? H|by intros ?? H]. constructor; try done.
  - constructor; [done|done|intros e H; inversion H|apply noFactory_FI|done].
  - by intros e H%elem_of_nil.
  - constructor.
  - intros k. change (k ∈ (∅ : gset AddrPort) <-> k ∈ (∅ : gset AddrPort) \/ k ∈ @nil AddrPort). clear CAL CA HU Hinj. set_solver.
Qed.

(** The address a connection was listed with. *)
Definition old (w : pexWorld) (id : nat) : option AddrPort := pw_conns w !! id ≫= listed_addr.

Lemma old_listed w id k : old w id = Some k -> k ∈ listed w.
Proof using. unfold old. destruct (pw_conns w !! id) as [c|] eqn:E; [|done]. intros Hc. apply elem_of_listed. by exists id, c. Qed.

Lemma listed_insert w w' id c : pw_conns w' = <[id := c]> (pw_conns w) -> old w id = None \/ old w id = listed_addr c ->
  forall k, k ∈ listed w' <-> listed_addr c = Some k \/ k ∈ listed w.
Proof using.
  intros E Ho k. rewrite !elem_of_listed, E. split.
  - intros (i & d & [[-> <-]|[_ Hd]]%lookup_insert_Some & Hk); [by left|right; by exists i, d].
  - intros [Hk|(i & d & Hd & Hk)]; [exists id, c; by rewrite lookup_insert_eq|]. destruct (decide (i = id)) as [->|Hne].
    + exists id, c. rewrite lookup_insert_eq. split; [done|]. unfold old in Ho. rewrite Hd in Ho. cbn in Ho. destruct Ho; congruence.
    + exists i, d. by rewrite lookup_insert_ne.
Qed.

Lemma WI_insert w w' id c view : WI w -> pw_conns w' = <[id := c]> (pw_conns w) -> pw_views w' = <[id := view]> (pw_views w) ->
  feed (pw_state w) `prefix_of` feed (pw_state w') -> SI (pw_state w') (listed w') ->
  (forall k, listed_addr c = Some k -> k ∉ listed w \/ old w id = Some k) -> knows (pw_state w') c view -> WI w'.
Proof using.
  intros HW Ec Ev Hp HS Ho Hk. constructor; [done|..]; rewrite Ec, ?Ev.
  - intros i j c1 d k H1 H2 E1 E2. apply lookup_insert_Some in H1 as [[-> <-]|[Hi H1]], H2 as [[-> <-]|[Hj H2]]; [done|..|by eapply (wi_unique w HW)].
    + destruct (Ho k E1) as [Hn|Ho']; [destruct Hn; apply elem_of_listed; by exists j, d|]. unfold old in Ho'.
      destruct (pw_conns w !! i) as [c0|] eqn:E0; [|done]. by apply (wi_unique w HW i j c0 d k).
    + destruct (Ho k E2) as [Hn|Ho']; [destruct Hn; apply elem_of_listed; by exists i, c1|]. unfold old in Ho'.
      destruct (pw_conns w !! j) as [c0|] eqn:E0; [|done]. by apply (wi_unique w HW i j c1 c0 k).
  - intros i d [[-> <-]|[Hi Hd]]%lookup_insert_Some; [exists view; by rewrite lookup_insert_eq|]. destruct (wi_view w HW i d Hd) as (v & Hv & Hkn).
    exists v. rewrite lookup_insert_ne by done. split; [done|]. by eapply knows_prefix.
Qed.

Lemma WI_delete w w' id : WI w -> pw_conns w' = delete id (pw_conns w) -> pw_views w' = delete id (pw_views w) ->
  feed (pw_state w) `prefix_of` feed (pw_state w') -> SI (pw_state w') (listed w') -> WI w'.
Proof using.
  intros HW Ec Ev Hp HS. constructor; [done|..]; rewrite Ec, ?Ev.
  - intros i j c d k [_ Hi]%lookup_delete_Some [_ Hj]%lookup_delete_Some. by apply (wi_unique w HW).
  - intros i c [Hi Hc]%lookup_delete_Some. destruct (wi_view w HW i c Hc) as (v & Hv & Hkn). exists v. rewrite lookup_delete_ne by done. split; [done|].
    by eapply knows_prefix.
Qed.

Lemma SI_set s L L' : SI s L -> (forall k, k ∈ L' <-> k ∈ L) -> SI s L'.
Proof using. intros H E. assert (L' = L) as ->; [by apply set_eq|done]. Qed.

(** Listing a connection, where the feed of the torrent goes with it. *)
Lemma list_conn w c : WI w -> new_addr U w c = true -> px_Listed c = false -> exists s' c', pex_Add (pw_state w) c = Some (s', c') /\
  feed (pw_state w) `prefix_of` feed s' /\ px_last c' = px_last c /\
  (forall k, listed_addr c' = Some k -> k ∉ listed w) /\
  forall L', (forall k, k ∈ L' <-> listed_addr c' = Some k \/ k ∈ listed w) -> SI s' L'.
Proof using CAL HU Hinj.
  intros HW Hn Hl. unfold new_addr in Hn. destruct (addr_of c) as [a|] eqn:Ea.
  - apply andb_true_iff in Hn as [[H1 H2]%andb_true_iff H3]. apply bool_decide_eq_true in H1, H2, H3.
    destruct (pex_Add_ok _ _ c a (wi_state w HW) Ea H1 H2 H3) as (s' & E & HS & Hp). exists s', (c <| px_Listed := true |>). split; [done|]. split; [done|]. split; [done|].
    assert (listed_addr (c <| px_Listed := true |>) = Some a) as -> by exact Ea. split; [by intros k [= <-]|]. intros L' HL'. apply (SI_set _ _ _ HS).
    intros k. rewrite HL', elem_of_union, elem_of_singleton. naive_solver.
  - exists (pw_state w), c. unfold pex_Add. rewrite pex_event_addr, Ea. split; [done|]. split; [done|]. split; [done|]. unfold listed_addr. rewrite Hl.
    split; [done|]. intros L' HL'. apply (SI_set _ _ _ (wi_state w HW)). naive_solver.
Qed.
Lemma old_unlisted w id : (forall c, pw_conns w !! id = Some c -> px_Listed c = false) -> old w id = None.
Proof using. intros H. unfold old. destruct (pw_conns w !! id) as [c|]; [|done]. cbn. unfold listed_addr. by rewrite H. Qed.

Lemma WI_connect w id c extended : WI w -> allowed U w (PexConnect id c extended) = true -> exists w', do_pexOp w (PexConnect id c extended) = Some w' /\ WI w'.
Proof using CAL HU Hinj.
  intros HW. cbn. unfold pexConnect. destruct (pw_conns w !! id) eqn:Eid; [done|]. destruct (px_last c) eqn:El; [done|]. intros [[Hl%negb_true_iff He%negb_true_iff]%andb_true_iff Hn]%andb_true_iff.
  assert (old w id = None) as Ho by (by apply old_unlisted; rewrite Eid). destruct extended; cbn [mbind option_bind].
  - eexists. split; [reflexivity|]. assert (listed_addr c = None) as Hc by (unfold listed_addr; by rewrite Hl).
    eapply (WI_insert w _ id c ∅ HW); [done|done|done| |by rewrite Hc|cbn; unfold knows; by rewrite El].
    apply (SI_set _ _ _ (wi_state w HW)). intros k. rewrite (listed_insert w _ id c); [rewrite Hc; naive_solver|done|by left].
  - destruct (list_conn w c HW Hn Hl) as (s' & c' & -> & Hp & El' & Hk & HS). cbn [mbind option_bind]. eexists. split; [reflexivity|].
    eapply (WI_insert w _ id c' ∅ HW); [done|done|done| |intros k Hk'; left; by apply Hk|cbn; unfold knows; by rewrite El', El].
    apply HS. apply (listed_insert w _ id c'); [done|by left].
Qed.

Lemma WI_handshake w id port encryption exchange : WI w -> allowed U w (PexExtendedHandshake id port encryption exchange) = true ->
  exists w', do_pexOp w (PexExtendedHandshake id port encryption exchange) = Some w' /\ WI w'.
Proof using CAL HU Hinj.
  intros HW. cbn -[new_addr]. unfold pexHandshake. destruct (pw_conns w !! id) as [c|] eqn:Eid; [|by exists w]. intros [[Hl%negb_true_iff He%negb_true_iff]%andb_true_iff Hn]%andb_true_iff.
  assert (old w id = None) as Ho by (apply old_unlisted; rewrite Eid; by intros ? [= <-]). destruct (wi_view w HW id c Eid) as (view & Hv & Hkn).
  assert (px_last c = None /\ view = ∅) as [El ->] by (unfold knows in Hkn; destruct (px_last c); [destruct Hkn; congruence|done]).
  destruct (list_conn w _ HW Hn Hl) as (s' & c' & -> & Hp & El' & Hk & HS). cbn [mbind option_bind]. eexists. split; [reflexivity|].
  set (c'' := pex_Init c' exchange). assert (listed_addr c'' = listed_addr c') as Hc by (by subst c''; destruct exchange).
  eapply (WI_insert w _ id c'' ∅ HW); [done|cbn; by rewrite insert_id|done| |intros k Hk'; left; apply Hk; by rewrite <-Hc|].
  - apply HS. intros k. rewrite <-Hc. apply (listed_insert w _ id c''); [done|by left].
  - unfold knows. subst c''. destruct exchange; cbn; [done|]. rewrite El'. cbn. by rewrite El.
Qed.

Lemma WI_drop w id : WI w -> exists w', do_pexOp w (PexDelete id) = Some w' /\ WI w'.
Proof using CAL HU Hinj.
  intros HW. cbn. unfold pexDelete. destruct (pw_conns w !! id) as [c|] eqn:Eid; [|by exists w].
  assert (forall w' k, pw_conns w' = delete id (pw_conns w) -> k ∈ listed w' <-> k ∈ listed w /\ listed_addr c <> Some k) as HL.
  { intros w' k E. rewrite !elem_of_listed, E. split.
    - intros (i & d & [Hi Hd]%lookup_delete_Some & Hk). split; [by exists i, d|]. intros Hc. by apply Hi, (wi_unique w HW id i c d k).
    - intros [(i & d & Hd & Hk) Hc]. exists i, d. split; [|done]. apply lookup_delete_Some. split; [|done]. intros ->. congruence. }
  destruct (listed_addr c) as [a|] eqn:Ea.
  - assert (a ∈ listed w) as HaL by (apply elem_of_listed; by exists id, c). unfold listed_addr in Ea. destruct (px_Listed c) eqn:El; [|done].
    destruct (pex_Drop_ok _ _ c a (wi_state w HW) El Ea HaL) as (s' & -> & HS & Hp). cbn [mbind option_bind]. eexists. split; [reflexivity|].
    eapply (WI_delete w _ id HW); [done|done|done|]. apply (SI_set _ _ _ HS). intros k. rewrite HL, elem_of_difference, elem_of_singleton by done. naive_solver.
  - assert (pex_Drop (pw_state w) c = Some (pw_state w)) as ->.
    { unfold pex_Drop. rewrite pex_event_addr. unfold listed_addr in Ea. destruct (px_Listed c); [by rewrite Ea|done]. }
    cbn [mbind option_bind]. eexists. split; [reflexivity|]. eapply (WI_delete w _ id HW); [done|done|done|].
    apply (SI_set _ _ _ (wi_state w HW)). intros k. rewrite HL by done. naive_solver.
Qed.

(** ** Sharing *)

(** What a message is for: none when the peer knows all, and else one that takes it further. *)
Lemma share_ok w id c view : WI w -> pw_conns w !! id = Some c -> pw_views w !! id = Some view -> px_enabled c = true ->
  exists tx c', conn_genmsg (pw_state w) c = Some (tx, c') /\
    match tx with
    | None => c' = c /\ shows view (current (pw_state w))
    | Some rx => exists view' q, updateRemoteLiveConns view rx = Some view' /\ c' = c <| px_last := Some q |> /\ knows (pw_state w) c' view' /\
                                 advances (pw_state w) c q /\ (px_last c <> None -> bounded rx)
    end.
Proof using CAL HU Hinj.
  intros HW Hc Hv He. destruct (wi_view w HW id c Hc) as (v & Hv' & Hkn). rewrite Hv in Hv'. injection Hv' as <-. pose proof (si_feed _ _ (wi_state w HW)) as HF.
  unfold knows in Hkn. destruct (px_last c) as [p|] eqn:El.
  - destruct Hkn as (_ & Hp & Hs). destruct (genmsg_next _ c view p HF He El Hp Hs) as (tx & c' & E & H). exists tx, c'. split; [done|].
    destruct tx as [rx|]; [|done]. destruct H as (v' & q & H1 & H2 & H3 & H4 & H5). exists v', q. do 4 (split; [done|]). done.
  - destruct (genmsg_first _ c view HF He El Hkn) as (tx & c' & E & H). exists tx, c'. split; [done|].
    destruct tx as [rx|]; [|done]. destruct H as (v' & q & H1 & H2 & H3 & H4). exists v', q. do 4 (split; [done|]). done.
Qed.

(** The world after a message to [id]. *)
Lemma share_step w id c view : WI w -> pw_conns w !! id = Some c -> pw_views w !! id = Some view -> px_enabled c = true ->
  exists w' c' view', do_pexOp w (PexShare id) = Some w' /\ WI w' /\ pw_state w' = pw_state w /\ listed w' = listed w /\
    pw_conns w' !! id = Some c' /\ px_enabled c' = true /\ pw_views w' !! id = Some view' /\
    (shows view' (current (pw_state w)) \/ exists p q, px_last c = Some p /\ px_last c' = Some q /\ (p + Z.to_nat pexMaxDelta <= q)%nat).
Proof using CAL HU Hinj.
  intros HW Hc Hv He. destruct (share_ok w id c view HW Hc Hv He) as (tx & c' & E & H). cbn. unfold pexShare. rewrite Hc, Hv, He, E. cbn [negb mbind option_bind].
  assert (forall w' d, pw_conns w' = <[id := d]> (pw_conns w) -> listed_addr d = listed_addr c -> listed w' = listed w) as HL.
  { intros w' d Ec Ed. apply set_eq. intros k. rewrite (listed_insert w w' id d Ec); [|right; unfold old; rewrite Hc; cbn; by rewrite Ed].
    split; [|by right]. intros [Hk|]; [|done]. apply elem_of_listed. exists id, c. by rewrite <-Ed. }
  destruct tx as [rx|].
  - destruct H as (v' & q & -> & -> & Hkn & Hadv & Hb). cbn [mbind option_bind]. set (d := c <| px_last := Some q |>) in *. eexists _, d, v'. split; [reflexivity|].
    assert (listed_addr d = listed_addr c) as Ed by done. split; [|split; [done|split; [by apply (HL _ d)|]]].
    + eapply (WI_insert w _ id d v' HW); [done|done|done| | |done].
      * erewrite (HL _ d); [apply (wi_state w HW)|done|done].
      * intros k Hk. right. unfold old. by rewrite Hc.
    + cbn. cbv [RecordSettersUsingExistingGetters.const]. rewrite !lookup_insert_eq. do 3 (split; [done|]). destruct Hadv as [Hend|(p & Ep & Hpq)]; [left|right; by exists p, q].
      unfold knows in Hkn. cbn in Hkn. destruct Hkn as (_ & _ & Hs). by rewrite <-(upto_current _ q Hend).
  - destruct H as [-> Hs]. cbn [mbind option_bind]. eexists _, c, view. split; [reflexivity|].
    assert (w <| pw_conns := <[id := c]> (pw_conns w) |> <| pw_views := <[id := view]> (pw_views w) |> = w) as ->.
    { destruct w as [s cs vs]. cbn in *. cbv [RecordSettersUsingExistingGetters.const]. by rewrite !insert_id. }
    do 6 (split; [done|]). by left.
Qed.

Lemma WI_step w o : WI w -> allowed U w o = true -> exists w', do_pexOp w o = Some w' /\ WI w'.
Proof using CAL HU Hinj.
  intros HW. destruct o as [id c ext|id port enc ex|id|id]; intros Ha; [by apply WI_connect|by apply WI_handshake|by apply WI_drop|].
  destruct (pw_conns w !! id) as [c|] eqn:Ec; [|exists w; cbn; unfold pexShare; by rewrite Ec]. destruct (wi_view w HW id c Ec) as (view & Ev & _).
  destruct (px_enabled c) eqn:Ee; [|exists w; cbn; unfold pexShare; by rewrite Ec, Ev, Ee]. destruct (share_step w id c view HW Ec Ev Ee) as (w' & ? & ? & E & HW' & _). by exists w'.
Qed.

Lemma WI_run os w : WI w -> allowed_run U w os = true -> exists w', do_pexOps w os = Some w' /\ WI w'.
Proof using CAL HU Hinj.
  revert w. induction os as [|o os IH]; intros w HW; cbn; [by exists w|]. intros [Ha Hr]%andb_true_iff. destruct (WI_step w o HW Ha) as (w1 & E & HW1).
  rewrite E in Hr |- *. by apply IH.
Qed.
(** All a peer should know: the connections, with those held. *)
Definition wanted (w : pexWorld) : gset AddrPort := listed w ∪ list_to_set (held (pw_state w)).

Lemma current_wanted w : WI w -> current (pw_state w) = wanted w.
Proof using. intros HW. apply set_eq. intros k. unfold wanted. rewrite (si_current _ _ (wi_state w HW) k), elem_of_union, elem_of_list_to_set. done. Qed.

Lemma knows_prefix_of s c view : knows s c view -> exists n, shows view (replay ∅ (take n (feed s))).
Proof using.
  unfold knows. destruct (px_last c) as [p|]; [intros (_ & _ & H); by exists (S p)|]. intros ->. exists 0%nat. clear CAL CA HU Hinj. intros x. cbn. set_solver.
Qed.

Lemma share_again n w id : do_pexOps w (replicate (S n) (PexShare id)) = (w' ← do_pexOp w (PexShare id); do_pexOps w' (replicate n (PexShare id))).
Proof using. done. Qed.

Lemma catch_up m w id c : WI w -> pw_conns w !! id = Some c -> px_enabled c = true ->
  (forall p, px_last c = Some p -> (length (px_heap (pw_state w)) <= p + Z.to_nat pexMaxDelta * S m)%nat) ->
  exists n w' view, (n <= S m)%nat /\ do_pexOps w (replicate n (PexShare id)) = Some w' /\ WI w' /\ pw_state w' = pw_state w /\ listed w' = listed w /\
    pw_views w' !! id = Some view /\ shows view (current (pw_state w)).
Proof using CAL HU Hinj.
  revert w c. induction m as [|m IH]; intros w c HW Hc He Hm; destruct (wi_view w HW id c Hc) as (view & Hv & _);
    destruct (share_step w id c view HW Hc Hv He) as (w1 & c1 & v1 & E1 & HW1 & Es & El & Hc1 & He1 & Hv1 & [Hs|(p & q & Hp & Hq & Hpq)]);
    try (exists 1%nat, w1, v1; rewrite share_again, E1; do 6 (split; [first [done|lia]|]); done).
  - exfalso. destruct (wi_view w1 HW1 id c1 Hc1) as (v & _ & Hk). unfold knows in Hk. rewrite Hq, Es in Hk. destruct Hk as (_ & Hk & _). specialize (Hm p Hp). lia.
  - destruct (IH w1 c1 HW1 Hc1 He1) as (n & w' & v & Hn & E & HW' & Es' & El' & Hv' & Hs).
    { intros q' [= <-]%(eq_trans (eq_sym Hq)). specialize (Hm p Hp). rewrite Es. lia. }
    exists (S n), w', v. split; [lia|]. split; [by rewrite share_again, E1|]. split; [done|]. rewrite Es in Es', Hs. rewrite El in El'. done.
Qed.
End Pex.

(** ** Theorems *)


(** C15: in all the histories of C14, a peer that is sent messages comes to know all connections: one message, and one more for each
    [pexMaxDelta] events of the feed, are enough. *)
Theorem pex_catches_up {CA : CompactAddrs} {CAL : CompactAddrsLaws CA} (U : gset AddrPort) (os : list pexOp) (w : pexWorld) (id : nat) (c : pexConn) :
  (forall a, a ∈ U -> event_ok a) -> (forall a b, a ∈ U -> b ∈ U -> canon a = canon b -> a = b) -> allowed_run U noPexWorld os = true ->
  do_pexOps noPexWorld os = Some w -> pw_conns w !! id = Some c -> px_enabled c = true ->
  exists n w' view, Z.of_nat n <= 1 + Z.of_nat (length (feed (pw_state w))) / pexMaxDelta /\
    do_pexOps w (replicate n (PexShare id)) = Some w' /\ wanted w' = wanted w /\ pw_views w' !! id = Some view /\ shows view (wanted w).
Proof.
  intros HU Hinj Ha E Hc He. destruct (WI_run U HU Hinj os noPexWorld (noPexWorld_WI U) Ha) as (w0 & E0 & HW). rewrite E in E0. injection E0 as <-.
  set (l := length (px_heap (pw_state w))). destruct (catch_up U HU Hinj (l / 50) w id c HW Hc He) as (n & w' & view & Hn & En & HW' & Es & El & Hv & Hs).
  { intros p _. fold l. change (Z.to_nat pexMaxDelta) with 50%nat. pose proof (Nat.div_mod l 50). pose proof (Nat.mod_upper_bound l 50). lia. }
  exists n, w', view. split; [|split; [done|]; split; [unfold wanted; by rewrite El, Es|]; split; [done|]; by rewrite <-(current_wanted U w HW)].
  unfold feed. rewrite length_fmap. fold l. change pexMaxDelta with (Z.of_nat 50). rewrite <-Nat2Z.inj_div. lia.
Qed.

(** ** Histories *)

Definition samplePeer (i : Z) : AddrPort := {| ap_Addr := Addr4 (z2b <$> [10; 0; 0; i]); ap_Port := 6881 |}.

(** A connection to or from a peer, before anything is exchanged. *)
Definition sampleConn (i : Z) : pexConn :=
  {| pc_RemoteAddr := Some (samplePeer i); pc_outgoing := true; pc_utp := false; pc_PeerListenPort := 0; pc_PeerPrefersEncryption := false;
     px_Listed := false; px_enabled := false; px_last := None |}.

Definition samplePeers : gset AddrPort := list_to_set (samplePeer <$> [1; 2; 3]).

(** Two peers exchange with us; one that is told of another goes and comes back. *)
Definition samplePexHistory : list pexOp :=
  [PexConnect 1 (sampleConn 1) true; PexExtendedHandshake 1 0 true true; PexShare 1; PexConnect 2 (sampleConn 2) false; PexConnect 3 (sampleConn 3) true;
   PexExtendedHandshake 3 0 false true; PexShare 1; PexDelete 2; PexShare 1; PexShare 3].

Lemma samplePeers_cases a : a ∈ samplePeers -> a = samplePeer 1 \/ a = samplePeer 2 \/ a = samplePeer 3.
Proof. unfold samplePeers. rewrite elem_of_list_to_set, list_elem_of_fmap. intros (i & -> & Hi). rewrite !elem_of_cons, elem_of_nil in Hi. intuition subst; tauto. Qed.

Lemma samplePeers_ok a : a ∈ samplePeers -> event_ok a.
Proof. intros [->|[->| ->]]%samplePeers_cases; (split; [cbn [ap_Port samplePeer]; lia|reflexivity]). Qed.

Lemma samplePeers_inj a b : a ∈ samplePeers -> b ∈ samplePeers -> canon a = canon b -> a = b.
Proof.
  intros [->|[->| ->]]%samplePeers_cases [->|[->| ->]]%samplePeers_cases; first [reflexivity|intros H; vm_compute in H; discriminate H].
Qed.


Lemma some_default {A} (d : A) (x : option A) : (if x then true else false) = true -> x = Some (default d x).
Proof. by destruct x. Qed.

Definition samplePexWorld : pexWorld := default noPexWorld (do_pexOps (CA := list_compact) noPexWorld samplePexHistory).

Lemma pex_catches_up_witness : exists n w' view, Z.of_nat n <= 1 /\ do_pexOps (CA := list_compact) samplePexWorld (replicate n (PexShare 1)) = Some w' /\
  pw_views w' !! 1%nat = Some view /\ shows view (wanted samplePexWorld).
Proof.
  destruct (pex_catches_up (CA := list_compact) (CAL := list_compact_laws) samplePeers samplePexHistory samplePexWorld 1
    (default (sampleConn 1) (pw_conns samplePexWorld !! 1%nat)) samplePeers_ok samplePeers_inj) as (n & w' & view & Hn & E & _ & Hv & Hs);
    [vm_compute; reflexivity|apply some_default; vm_compute; reflexivity|apply some_default; vm_compute; reflexivity|vm_compute; reflexivity|]. exists n, w', view.
  split; [assert (1 + Z.of_nat (length (feed (pw_state samplePexWorld))) / pexMaxDelta = 1) as Hl by (vm_compute; reflexivity); rewrite Hl in Hn; exact Hn|].
  exact (conj E (conj Hv Hs)).
Defined.

(** *** Peers that come back *)

Section Reconnect.
Context {CA : CompactAddrs} {CAL : CompactAddrsLaws CA}.
Context (U : gset AddrPort).
Context (HU : forall a, a ∈ U -> event_ok a) (Hinj : forall a b, a ∈ U -> b ∈ U -> canon a = canon b -> a = b).

(** Appending needs no order of the events. *)
Lemma append_any s e : FI U (px_msg0 s) -> pe_addr e ∈ U ->
  exists s', pex_append s e = Some s' /\ FI U (px_msg0 s') /\ feed s' = feed s ++ [e] /\ px_hold s' = px_hold s /\ px_nc s' = px_nc s.
Proof using CAL HU Hinj.
  intros HF He. destruct (factory_append_ok U HU Hinj _ e HF He) as (m & Em & HF' & _). unfold pex_append. rewrite Em. cbn [mbind option_bind].
  eexists. split; [reflexivity|]. split; [done|]. split; [|done]. unfold feed. cbn. cbv [RecordSettersUsingExistingGetters.const].
  rewrite fmap_app. f_equal. destruct (px_tail s); [apply (feed_alter (length (px_heap s)))|done].
Qed.

Lemma appendAll_any es s : FI U (px_msg0 s) -> (forall e, e ∈ es -> pe_addr e ∈ U) ->
  exists s', pex_appendAll s es = Some s' /\ FI U (px_msg0 s') /\ feed s' = feed s ++ es /\ px_hold s' = px_hold s /\ px_nc s' = px_nc s.
Proof using CAL HU Hinj.
  revert s. induction es as [|e es IH]; intros s HF He; cbn; [exists s; by rewrite app_nil_r|].
  destruct (append_any s e HF) as (s1 & -> & HF1 & E1 & H1 & N1); [apply He; by left|]. cbn [mbind option_bind].
  destruct (IH s1 HF1) as (s2 & -> & HF2 & E2 & H2 & N2); [intros; apply He; by right|].
  exists s2. split; [done|]. split; [done|]. split; [by rewrite E2, E1, <-app_assoc|]. split; congruence.
Qed.

(** What listing a connection appends. *)
Lemma pex_Add_any s c a : FI U (px_msg0 s) -> (forall e, e ∈ px_hold s -> pe_addr e ∈ U) -> addr_of c = Some a -> a ∈ U ->
  exists s' es, pex_Add s c = Some (s', c <| px_Listed := true |>) /\ FI U (px_msg0 s') /\ px_nc s' = px_nc s + 1 /\
    feed s' = feed s ++ es ++ [{| pe_t := pexAdd; pe_addr := a; pe_f := pexPeerFlags c |}] /\
    if decide (pexTargAdded <= px_nc s + 1) then es = px_hold s /\ px_hold s' = [] else es = [] /\ px_hold s' = px_hold s.
Proof using CAL HU Hinj.
  intros HF Hh Ea HaU. unfold pex_Add. rewrite pex_event_addr, Ea. cbn [fmap option_fmap option_map px_nc].
  set (s1 := s <| px_nc := px_nc s + 1 |>). change (px_hold s1) with (px_hold s). change (px_nc s1) with (px_nc s + 1).
  set (e := {| pe_t := pexAdd; pe_addr := a; pe_f := pexPeerFlags c |}).
  destruct (Z.leb_spec pexTargAdded (px_nc s + 1)) as [Hge|Hlt].
  - destruct (appendAll_any (px_hold s) s1 HF Hh) as (s2 & -> & HF2 & Ef & Eh & En). cbn [mbind option_bind].
    match goal with |- context [pex_append ?x e] => destruct (append_any x e HF2 HaU) as (s3 & -> & HF3 & Ef3 & Eh3 & En3) end. cbn [mbind option_bind].
    exists s3, (px_hold s). split; [done|]. split; [done|]. split; [rewrite En3; exact En|]. rewrite decide_True by done.
    split; [|by split; [|exact Eh3]]. rewrite Ef3, app_assoc. f_equal. exact Ef.
  - cbn [mbind option_bind]. destruct (append_any s1 e HF HaU) as (s3 & -> & HF3 & Ef3 & Eh3 & En3). cbn [mbind option_bind].
    exists s3, []. split; [done|]. split; [done|]. split; [exact En3|]. rewrite decide_False by lia. split; [exact Ef3|]. by split; [|exact Eh3].
Qed.
End Reconnect.

(** C40: a drop that was held back is sent when there are enough connections, even where the peer it is
    of has connected again: after any history of the kind above in which the drop of an address is
    held and two more connections make the number at which held drops are sent, when that address
    connects again, and another one does, the address is connected, but the last of the events the
    others are told about it is that it is gone. *)
Theorem pex_forgets_reconnected {CA : CompactAddrs} {CAL : CompactAddrsLaws CA} (U : gset AddrPort) (os : list pexOp) (w : pexWorld)
    (i j : nat) (c d : pexConn) (a b : AddrPort) :
  (forall a, a ∈ U -> event_ok a) -> (forall a b, a ∈ U -> b ∈ U -> canon a = canon b -> a = b) ->
  allowed_run U noPexWorld os = true -> do_pexOps noPexWorld os = Some w ->
  a ∈ held (pw_state w) -> px_nc (pw_state w) + 2 = pexTargAdded ->
  i <> j -> addr_of c = Some a -> addr_of d = Some b -> b ∈ U -> b <> a ->
  exists w', do_pexOps w [PexConnect i c false; PexConnect j d false] = Some w' /\
    a ∈ listed w' /\ a ∉ current (pw_state w').
Proof.
  intros HU Hinj Hal Hos Hheld Hnc Hij Hc Hd HbU Hba.
  destruct (WI_run U HU Hinj os noPexWorld (noPexWorld_WI U) Hal) as (w0 & E & HW). rewrite Hos in E. injection E as <-.
  pose proof (wi_state U w HW) as HS. pose proof (si_feed U _ _ HS) as HF.
  assert (forall k, k ∈ held (pw_state w) -> k ∈ U) as Hin.
  { intros k Hk. apply (current_sub U _ HF). apply (si_current U _ _ HS). by right. }
  assert (forall e, e ∈ px_hold (pw_state w) -> pe_addr e ∈ U) as Hh by (intros e He; apply Hin; by apply list_elem_of_fmap_2).
  destruct (pex_Add_any U HU Hinj (pw_state w) c a (fe_msg0 U _ HF) Hh Hc (Hin a Hheld)) as (s1 & es1 & E1 & HF1 & N1 & _ & H1).
  rewrite decide_False in H1 by lia. destruct H1 as [_ Hhold].
  destruct (pex_Add_any U HU Hinj s1 d b HF1 ltac:(rewrite Hhold; exact Hh) Hd HbU) as (s2 & es2 & E2 & HF2 & N2 & Ef & H2).
  rewrite decide_True in H2 by lia. destruct H2 as [-> _].
  cbn [do_pexOps do_pexOp]. unfold pexConnect. rewrite E1. cbn [mbind option_bind pw_state]. rewrite E2. cbn [mbind option_bind].
  eexists. split; [reflexivity|]. split.
  - apply elem_of_listed. exists i, (c <| px_Listed := true |>). split; [cbn; by rewrite lookup_insert_ne, lookup_insert_eq|]. exact Hc.
  - cbn [pw_state]. unfold current. rewrite Ef, Hhold, !replay_app. cbn. rewrite elem_of_union, elem_of_singleton.
    intros [->|Hk]; [done|]. apply replay_drops in Hk as [_ Hk]; [|apply HS]. by apply Hk.
Qed.

(** A peer goes, and then there are 23 others. *)
Definition heldHistory : list pexOp :=
  [PexConnect 1 (sampleConn 1) false; PexDelete 1] ++ ((fun i => PexConnect i (sampleConn (Z.of_nat i)) false) <$> seq 2 23).

Definition manyPeers : gset AddrPort := list_to_set (samplePeer <$> seqZ 1 25).

Definition heldWorld : pexWorld := default noPexWorld (do_pexOps (CA := list_compact) noPexWorld heldHistory).

Lemma manyPeers_cases a : a ∈ manyPeers -> exists i, a = samplePeer i.
Proof. unfold manyPeers. rewrite elem_of_list_to_set, list_elem_of_fmap. intros (i & -> & _). by exists i. Qed.

Lemma manyPeers_ok a : a ∈ manyPeers -> event_ok a.
Proof. intros [i ->]%manyPeers_cases. split; [cbn [ap_Port samplePeer]; lia|reflexivity]. Qed.

Lemma manyPeers_inj a b : a ∈ manyPeers -> b ∈ manyPeers -> canon a = canon b -> a = b.
Proof.
  assert (forall i, canon (samplePeer i) = samplePeer i) as Hc by reflexivity.
  intros [i ->]%manyPeers_cases [j ->]%manyPeers_cases. by rewrite !Hc.
Qed.

Lemma pex_forgets_reconnected_witness : exists w',
  do_pexOps (CA := list_compact) heldWorld [PexConnect 30 (sampleConn 1) false; PexConnect 31 (sampleConn 25) false] = Some w' /\
  samplePeer 1 ∈ listed w' /\ samplePeer 1 ∉ current (pw_state w').
Proof.
  assert (samplePeer 1 ∈ held (pw_state heldWorld)) as H1 by (apply (bool_decide_unpack _); vm_compute; exact I).
  assert (samplePeer 25 ∈ manyPeers) as H2 by (apply (bool_decide_unpack _); vm_compute; exact I).
  assert (samplePeer 25 <> samplePeer 1) as H3 by (intros H; vm_compute in H; discriminate H).
  exact (pex_forgets_reconnected (CA := list_compact) (CAL := list_compact_laws) manyPeers heldHistory heldWorld 30 31 (sampleConn 1) (sampleConn 25)
    (samplePeer 1) (samplePeer 25) manyPeers_ok manyPeers_inj ltac:(vm_compute; reflexivity) ltac:(apply some_default; vm_compute; reflexivity)
    H1 ltac:(vm_compute; reflexivity) ltac:(discriminate) ltac:(reflexivity) ltac:(reflexivity) H2 H3).
Defined.
