(* ===== verification/Handshake.v ===== *)
(** * The peer handshake ([src/peer_protocol/handshake.go])

    The extension bits, and the exchange that opens a connection.  [Handshake] runs with a
    goroutine that writes what it posts on a channel of four slots; both ends of a connection run
    it at once.  The model is a step relation on the two ends and the bytes in flight between
    them, with every interleaving of the four goroutines, any way the bytes arrive, and errors of
    the socket.  [None] is a panic. *)

From S2P Require Import Prelude.
Local Open Scope Z_scope.

(** ** Extension bits *)

Definition ExtensionBitDht : Z := 0.
Definition ExtensionBitFast : Z := 2.
Definition ExtensionBitV2Upgrade : Z := 4.
Definition ExtensionBitAzureusExtensionNegotiation1 : Z := 16.
Definition ExtensionBitAzureusExtensionNegotiation2 : Z := 17.
Definition ExtensionBitLtep : Z := 20.
Definition ExtensionBitLocationAwareProtocol : Z := 43.
Definition ExtensionBitAzureusMessagingProtocol : Z := 63.

(** [PeerExtensionBits] has eight bytes; the index is an unsigned subtraction. *)
Definition bit_index (bit : Z) : Z := wrapU 64 (7 - bit / 8).

Definition GetBit (pex : bytes) (bit : Z) : option bool :=
  c ← pex !! Z.to_nat (bit_index bit);
  Some (negb (Z.land (b2z c) (Z.shiftl 1 (bit mod 8)) =? 0)).

Definition SetBit (pex : bytes) (bit : Z) (on : bool) : option bytes :=
  c ← pex !! Z.to_nat (bit_index bit);
  let mask := Z.shiftl 1 (bit mod 8) in
  Some (<[Z.to_nat (bit_index bit) :=
           z2b (if on then Z.lor (b2z c) mask else Z.ldiff (b2z c) mask)]> pex).

Fixpoint setBits (pex : bytes) (bits : list Z) : option bytes :=
  match bits with
  | [] => Some pex
  | b :: bits' => pex ← SetBit pex b true; setBits pex bits'
  end.

Definition NewPeerExtensionBytes (bits : list Z) : option bytes := setBits (replicate 8 x00) bits.

Definition SupportsExtended (pex : bytes) : option bool := GetBit pex ExtensionBitLtep.
Definition SupportsDHT (pex : bytes) : option bool := GetBit pex ExtensionBitDht.
Definition SupportsFast (pex : bytes) : option bool := GetBit pex ExtensionBitFast.

(** ** One end *)

Definition Protocol : bytes := z2b 19 :: bs "BitTorrent protocol".

Record HandshakeResult := { res_Bits : bytes; res_PeerID : bytes; res_Hash : bytes }.

Inductive HandshakeError := WhileReading | UnexpectedProtocol | ErrorWriting.

(** The arguments: [ih] is [None] when the peer is to declare the info hash. *)
Record args := { ih : option bytes; peerID : bytes; extensions : bytes }.

Inductive writer := Writing | WriteDone (failed : bool).

(** [Reading] up to the end of [io.ReadFull]; [Closing] in the deferred function, the channel
    closed and the writer awaited. *)
Inductive phase :=
| Reading
| Closing (res : HandshakeResult)
| Returned (res : HandshakeResult + HandshakeError)
| Panicked.

Record conn := {
  c_args : args;
  postCh : list bytes;
  c_writer : writer;
  received : bytes;
  c_phase : phase;
}.

Definition postCap : nat := 4.

(** [panicif.SendBlocks] *)
Fixpoint post (ch : list bytes) (bbs : list bytes) : option (list bytes) :=
  match bbs with
  | [] => Some ch
  | bb :: bbs' => if (length ch <? postCap)%nat then post (ch ++ [bb]) bbs' else None
  end.

(** What is posted before reading, and after. *)
Definition first_posts (a : args) : list bytes :=
  [Protocol; extensions a] ++ match ih a with Some h => [h; peerID a] | None => [] end.

Definition last_posts (a : args) (res : HandshakeResult) : list bytes :=
  match ih a with Some _ => [] | None => [res_Hash res; peerID a] end.

Definition start (a : args) : conn :=
  match post [] (first_posts a) with
  | Some ch => {| c_args := a; postCh := ch; c_writer := Writing; received := []; c_phase := Reading |}
  | None => {| c_args := a; postCh := []; c_writer := Writing; received := []; c_phase := Panicked |}
  end.

(** Cutting up the 68 bytes; [None] is the wrong protocol string. *)
Definition parseHandshake (b : bytes) : option HandshakeResult :=
  let p := take (length Protocol) b in
  if negb (bool_decide (p = Protocol)) then None
  else
    let b := drop (length Protocol) b in
    Some {| res_Bits := take 8 b; res_Hash := take 20 (drop 8 b);
            res_PeerID := take 20 (drop 28 b) |}.

(** The rest of [Handshake] once the bytes are read. *)
Definition finish (c : conn) : conn :=
  match parseHandshake (received c) with
  | None =>
      {| c_args := c_args c; postCh := postCh c; c_writer := c_writer c; received := received c;
         c_phase := Returned (inr UnexpectedProtocol) |}
  | Some res =>
      match post (postCh c) (last_posts (c_args c) res) with
      | Some ch =>
          {| c_args := c_args c; postCh := ch; c_writer := c_writer c; received := received c;
             c_phase := Closing res |}
      | None =>
          {| c_args := c_args c; postCh := postCh c; c_writer := c_writer c; received := received c;
             c_phase := Panicked |}
      end
  end.

Definition closed (c : conn) : bool := match c_phase c with Reading => false | _ => true end.

Definition set_writer (c : conn) (ch : list bytes) (w : writer) : conn :=
  {| c_args := c_args c; postCh := ch; c_writer := w; received := received c; c_phase := c_phase c |}.

Definition set_phase (c : conn) (rcv : bytes) (ph : phase) : conn :=
  {| c_args := c_args c; postCh := postCh c; c_writer := c_writer c; received := rcv; c_phase := ph |}.

(** A step of one end: the end, the bytes on their way to it and the bytes it has sent.  The
    flag is whether the socket failed; a write that fails may have written some of its bytes. *)
Inductive step : bool -> conn * bytes * bytes -> conn * bytes * bytes -> Prop :=
| step_write c inp out b ch :
    c_writer c = Writing -> postCh c = b :: ch ->
    step false (c, inp, out) (set_writer c ch Writing, inp, out ++ b)
| step_write_fails c inp out b ch j :
    c_writer c = Writing -> postCh c = b :: ch ->
    step true (c, inp, out) (set_writer c ch (WriteDone true), inp, out ++ take j b)
| step_write_done c inp out :
    c_writer c = Writing -> postCh c = [] -> closed c = true ->
    step false (c, inp, out) (set_writer c [] (WriteDone false), inp, out)
| step_read c k inp out :
    c_phase c = Reading -> k <> [] -> (length (received c) + length k <= 68)%nat ->
    step false (c, k ++ inp, out) (set_phase c (received c ++ k) Reading, inp, out)
| step_read_fails c inp out :
    c_phase c = Reading -> (length (received c) < 68)%nat ->
    step true (c, inp, out) (set_phase c (received c) (Returned (inr WhileReading)), inp, out)
| step_finish c inp out :
    c_phase c = Reading -> length (received c) = 68%nat ->
    step false (c, inp, out) (finish c, inp, out)
| step_return c inp out res failed :
    c_phase c = Closing res -> c_writer c = WriteDone failed ->
    step false (c, inp, out)
      (set_phase c (received c) (Returned (if failed then inr ErrorWriting else inl res)), inp, out).

(** ** Both ends *)

Record system := { sys_A : conn; sys_B : conn; toA : bytes; toB : bytes }.

Inductive sys_step : bool -> system -> system -> Prop :=
| step_A f A B wa wb A' wa' wb' :
    step f (A, wa, wb) (A', wa', wb') ->
    sys_step f {| sys_A := A; sys_B := B; toA := wa; toB := wb |}
               {| sys_A := A'; sys_B := B; toA := wa'; toB := wb' |}
| step_B f A B wa wb B' wa' wb' :
    step f (B, wb, wa) (B', wb', wa') ->
    sys_step f {| sys_A := A; sys_B := B; toA := wa; toB := wb |}
               {| sys_A := A; sys_B := B'; toA := wa'; toB := wb' |}.

Definition initial (a b : args) : system :=
  {| sys_A := start a; sys_B := start b; toA := []; toB := [] |}.

(** Steps that may fail, and steps of sockets that do not. *)
Definition any_step (s s' : system) : Prop := exists f, sys_step f s s'.
Definition ok_step (s s' : system) : Prop := sys_step false s s'.
