(* ===== verification/HandshakeTheory.v ===== *)
(** * The handshake: agreement, progress and termination

    One invariant, stated once for an end and once for the bytes between an end and its peer,
    carries both theorems: what an end has received, what is on the wire and what its peer has
    still to write are together what the peer posted, up to what a failed write lost. *)

From stdpp Require Import relations.
From S2P Require Import Prelude Handshake.
Local Open Scope nat_scope.

#[local] Ltac Zify.zify_post_hook ::= Z.div_mod_to_equations.

(** ** Extension bits *)

Lemma bit_index_ok bit : (0 <= bit < 64)%Z -> Z.to_nat (bit_index bit) = 7 - Z.to_nat (bit / 8).
Proof.
  intros. unfold bit_index. assert (0 <= bit / 8 < 8)%Z by lia. rewrite wrapU_small; lia.
Qed.

Lemma bit_index_inj b b' :
  (0 <= b < 64)%Z -> (0 <= b' < 64)%Z ->
  Z.to_nat (bit_index b) = Z.to_nat (bit_index b') -> (b mod 8 = b' mod 8)%Z -> b = b'.
Proof. intros ??. rewrite !bit_index_ok by done. lia. Qed.

Lemma mask_test c k :
  (0 <= k)%Z -> negb (Z.land c (Z.shiftl 1 k) =? 0)%Z = Z.testbit c k.
Proof.
  intros Hk. rewrite Z.shiftl_1_l.
  destruct (Z.eqb_spec (Z.land c (2 ^ k)) 0) as [E|E]; simpl; symmetry.
  - apply (f_equal (fun z => Z.testbit z k)) in E.
    rewrite Z.land_spec, Z.pow2_bits_true, andb_true_r, Z.bits_0 in E by done. done.
  - destruct (Z.testbit c k) eqn:T; [done|]. contradict E. apply Z.bits_inj'. intros n Hn.
    rewrite Z.land_spec, Z.bits_0, Z.pow2_bits_eqb by done.
    destruct (Z.eqb_spec k n) as [<-|]; rewrite ?T, ?andb_false_r; done.
Qed.

Lemma testbit_byte z k : (0 <= k < 8)%Z -> Z.testbit (b2z (z2b z)) k = Z.testbit z k.
Proof. intros. rewrite b2z_z2b. change 256%Z with (2 ^ 8)%Z. apply Z.mod_pow2_bits_low. lia. Qed.

Lemma GetBit_testbit pex bit c :
  (0 <= bit < 64)%Z -> pex !! Z.to_nat (bit_index bit) = Some c ->
  GetBit pex bit = Some (Z.testbit (b2z c) (bit mod 8)).
Proof. intros ? Hc. unfold GetBit. rewrite Hc. cbn [mbind option_bind]. rewrite mask_test; [done|lia]. Qed.

Lemma masked_testbit c k k' on :
  (0 <= k)%Z -> (0 <= k')%Z ->
  Z.testbit (if on : bool then Z.lor c (Z.shiftl 1 k) else Z.ldiff c (Z.shiftl 1 k)) k' =
  if decide (k' = k) then on else Z.testbit c k'.
Proof.
  intros. rewrite Z.shiftl_1_l.
  destruct on; rewrite ?Z.lor_spec, ?Z.ldiff_spec, Z.pow2_bits_eqb by done;
    case_decide; destruct (Z.eqb_spec k k'); subst; try lia; simpl;
    by rewrite ?orb_true_r, ?orb_false_r, ?andb_false_r, ?andb_true_r.
Qed.

(** for every bit from 0 to 63, [SetBit] of a bit on the eight bytes succeeds, and then
    [GetBit] reads back the bit that was set and every other bit as it was; at 64 and above both
    panic. *)
Theorem getBit_setBit (pex : bytes) (bit bit' : Z) (on : bool)
    (Hpex : length pex = 8) (Hbit : (0 <= bit < 2 ^ 64)%Z) (Hbit' : (0 <= bit' < 64)%Z) :
  match SetBit pex bit on with
  | Some pex' =>
      (bit < 64)%Z /\ length pex' = 8 /\
      GetBit pex' bit' = (if decide (bit' = bit) then Some on else GetBit pex bit')
  | None => (64 <= bit)%Z /\ GetBit pex bit = None
  end.
Proof.
  unfold SetBit. destruct (decide (bit < 64)%Z) as [Hlt|Hge].
  - destruct (lookup_lt_is_Some_2 pex (Z.to_nat (bit_index bit))) as [c Hc].
    { rewrite Hpex, bit_index_ok; lia. }
    destruct (lookup_lt_is_Some_2 pex (Z.to_nat (bit_index bit'))) as [c' Hc'].
    { rewrite Hpex, bit_index_ok; lia. }
    rewrite Hc. cbn [mbind option_bind]. split_and!; [done|by rewrite length_insert|].
    rewrite (GetBit_testbit pex bit' c') by done.
    destruct (decide (Z.to_nat (bit_index bit') = Z.to_nat (bit_index bit))) as [E|E].
    + erewrite GetBit_testbit; [|done|rewrite E; apply list_lookup_insert_eq, lookup_lt_is_Some; eauto].
      rewrite testbit_byte, masked_testbit by lia.
      assert (c' = c) as -> by (rewrite E in Hc'; congruence).
      destruct (decide (bit' = bit)) as [->|Hne]; [by rewrite decide_True|].
      rewrite decide_False; [done|]. intros Em. apply Hne, bit_index_inj; [lia..|done|done].
    + erewrite GetBit_testbit; [|done|rewrite list_lookup_insert_ne by congruence; exact Hc'].
      rewrite decide_False; [done|]. intros ->. done.
  - assert (pex !! Z.to_nat (bit_index bit) = None) as E.
    { apply lookup_ge_None. rewrite Hpex. unfold bit_index, wrapU.
      rewrite <-(Z.mod_unique (7 - bit / 8) (2 ^ 64) (-1) (7 - bit / 8 + 2 ^ 64)); lia. }
    unfold GetBit. rewrite E. cbn [mbind option_bind]. split; [lia|done].
Qed.

Lemma getBit_setBit_witness :
  exists pex', SetBit (replicate 8 x00) ExtensionBitLtep true = Some pex' /\
               SupportsExtended pex' = Some true /\ SupportsDHT pex' = Some false.
Proof.
  eexists. split; [reflexivity|]. split.
  - exact (proj2 (proj2 (getBit_setBit (replicate 8 x00) ExtensionBitLtep ExtensionBitLtep true
      eq_refl ltac:(done) ltac:(done)))).
  - exact (proj2 (proj2 (getBit_setBit (replicate 8 x00) ExtensionBitLtep ExtensionBitDht true
      eq_refl ltac:(done) ltac:(done)))).
Defined.

(** ** The exchange *)

(** What is still to come from the writer, and whether the second posts were made. *)
Definition unsent (c : conn) : bytes :=
  match c_writer c with Writing => concat (postCh c) | WriteDone _ => [] end.

Definition posted_last (c : conn) : bool :=
  match c_phase c with
  | Closing _ | Returned (inl _) | Returned (inr ErrorWriting) => true
  | _ => false
  end.

Definition posted (x : args) (r : HandshakeResult) (c : conn) : bytes :=
  concat (first_posts x) ++ if posted_last c then concat (last_posts x r) else [].

Definition hello (x : args) (r : HandshakeResult) : bytes :=
  concat (first_posts x) ++ concat (last_posts x r).

(** An end with arguments [x] that can only return [r]; [cl] says that no socket has failed. *)
Definition side (cl : bool) (x : args) (r : HandshakeResult) (c : conn) : Prop :=
  c_args c = x /\
  length (postCh c) + (if closed c then 0 else length (last_posts x r)) <= 4 /\
  match c_phase c with
  | Reading => True
  | Closing r' | Returned (inl r') => r' = r
  | Returned (inr WhileReading) | Returned (inr ErrorWriting) => cl = false
  | Returned (inr UnexpectedProtocol) | Panicked => False
  end /\
  match c_writer c with
  | Writing => True
  | WriteDone true => cl = false
  | WriteDone false => closed c = true /\ postCh c = []
  end.

(** From [S], which was given [x] and returns [r], over the wire [w] to [R]: only a failed write
    loses bytes. *)
Definition flow (S R : conn) (w : bytes) (x : args) (r : HandshakeResult) : Prop :=
  exists lost, received R ++ w ++ unsent S ++ lost = posted x r S /\
               (c_writer S = WriteDone true \/ lost = []).

#[local] Opaque first_posts last_posts.

Lemma post_ok bbs ch : length ch + length bbs <= 4 -> post ch bbs = Some (ch ++ bbs).
Proof.
  revert ch. induction bbs as [|bb bbs IH]; intros ch Hlen; simpl in *.
  - by rewrite app_nil_r.
  - unfold postCap. rewrite (proj2 (Nat.ltb_lt _ _)) by lia.
    rewrite IH by (rewrite length_app; simpl; lia). by rewrite <-app_assoc.
Qed.

Section Ends.
Context (x y : args) (r s : HandshakeResult).
Hypothesis Hy_parse : parseHandshake (hello y s) = Some r.
Hypothesis Hy_len : length (hello y s) = 68.

Lemma posted_hello c : posted y s c `prefix_of` hello y s.
Proof.
  unfold posted, hello. destruct (posted_last c); [done|]. rewrite app_nil_r. by apply prefix_app_r.
Qed.

Lemma received_prefix S R w : flow S R w y s -> received R `prefix_of` hello y s.
Proof.
  intros (lost & E & _). etrans; [|apply (posted_hello S)]. rewrite <-E. by apply prefix_app_r.
Qed.

Lemma received_all S R w :
  flow S R w y s -> length (received R) = 68 -> received R = hello y s.
Proof.
  intros [k E]%received_prefix Hlen. rewrite E in Hy_len |- *.
  rewrite length_app in Hy_len. destruct k; simpl in *; [by rewrite app_nil_r|lia].
Qed.

Lemma finish_ok cl c :
  side cl x r c -> c_phase c = Reading -> received c = hello y s ->
  finish c = {| c_args := x; postCh := postCh c ++ last_posts x r; c_writer := c_writer c;
                received := received c; c_phase := Closing r |}.
Proof.
  intros (<- & Hlen & _) Hph Hrcv. unfold finish. rewrite Hrcv, Hy_parse.
  unfold closed in Hlen. rewrite Hph in Hlen. by rewrite post_ok.
Qed.

(** An end, its peer and the wires between them; every step of the end keeps this. *)
Definition around (cl : bool) (c T : conn) (inp out : bytes) : Prop :=
  side cl x r c /\ flow c T out x r /\ flow T c inp y s.

Lemma around_write cl c T inp out b ch :
  around cl c T inp out -> c_writer c = Writing -> postCh c = b :: ch ->
  around cl (set_writer c ch Writing) T inp (out ++ b).
Proof.
  intros ((? & Hlen & ? & _) & (lost & E & Hl) & Hin) Hw Hch.
  unfold unsent in E. rewrite Hw, Hch in *. split_and!; [|exists lost; split|]; try done.
  - split_and!; simpl in *; [done|unfold closed in *; simpl; lia|done..].
  - etrans; [|exact E]. simpl. by rewrite <-!app_assoc.
Qed.

Lemma around_write_fails cl c T inp out b ch j :
  around cl c T inp out -> c_writer c = Writing -> postCh c = b :: ch ->
  around false (set_writer c ch (WriteDone true)) T inp (out ++ take j b).
Proof.
  intros ((? & Hlen & Hph & _) & (lost & E & Hl) & Hin) Hw Hch.
  unfold unsent in E. rewrite Hw, Hch in *. split_and!; [|exists (drop j b ++ concat ch ++ lost); split|]; try done.
  - split_and!; simpl in *; [done|unfold closed in *; simpl; lia| |done]. by repeat case_match.
  - etrans; [|exact E]. simpl. rewrite <-(take_drop j b) at 3. by rewrite <-!app_assoc.
  - by left.
Qed.

Lemma around_write_done cl c T inp out :
  around cl c T inp out -> c_writer c = Writing -> postCh c = [] -> closed c = true ->
  around cl (set_writer c [] (WriteDone false)) T inp out.
Proof.
  intros ((? & Hlen & Hph & _) & (lost & E & Hl) & Hin) Hw Hch Hc.
  unfold unsent in E. rewrite Hw, Hch in *.
  split_and!; [|exists lost; split; [|naive_solver]|]; done.
Qed.

Lemma around_read cl c T k inp out :
  around cl c T (k ++ inp) out -> c_phase c = Reading ->
  around cl (set_phase c (received c ++ k) Reading) T inp out.
Proof.
  intros ((? & Hlen & _ & Hwr) & (lost & E & Hl) & (lost' & E' & Hl')) Hph.
  unfold closed in *. rewrite Hph in *.
  split_and!; [|exists lost; split|exists lost'; split]; try done.
  - unfold posted, posted_last in *. by rewrite Hph in E.
  - simpl. by rewrite <-E', <-!app_assoc.
Qed.

Lemma around_read_fails cl c T inp out :
  around cl c T inp out -> c_phase c = Reading ->
  around false (set_phase c (received c) (Returned (inr WhileReading))) T inp out.
Proof.
  intros ((? & Hlen & _ & Hwr) & (lost & E & Hl) & Hin) Hph.
  unfold closed in *. rewrite Hph in *.
  split_and!; [|exists lost; split|done]; try done.
  - unfold side, closed. simpl. split_and!; try done; [lia|]. destruct (c_writer c) as [|[]]; naive_solver.
  - unfold posted, posted_last in *. by rewrite Hph in E.
Qed.

Lemma around_finish cl c T inp out :
  around cl c T inp out -> c_phase c = Reading -> length (received c) = 68 ->
  around cl (finish c) T inp out.
Proof.
  intros (Hside & (lost & E & Hl) & Hin) Hph H68.
  rewrite (finish_ok cl) by (eauto using received_all). destruct Hside as (? & Hlen & _ & Hwr).
  unfold closed in *. rewrite Hph in *. unfold unsent, posted, posted_last in E. rewrite Hph, app_nil_r in E.
  assert (c_writer c = WriteDone true \/ c_writer c = Writing) as Hw
    by (destruct (c_writer c) as [|[]]; naive_solver).
  split_and!; [|exists (if c_writer c is Writing then [] else lost ++ concat (last_posts x r))|done].
  - unfold side. simpl. rewrite length_app. split_and!; [done|lia|done|].
    destruct (c_writer c) as [|[]]; naive_solver.
  - unfold unsent, posted. simpl. destruct Hw as [Hw|Hw]; rewrite Hw in *.
    + split; [|by left]. by rewrite <-E, <-!app_assoc.
    + destruct Hl as [| ->]; [done|]. split; [|by right].
      rewrite app_nil_r in *. by rewrite concat_app, <-E, <-!app_assoc.
Qed.

Lemma around_return cl c T inp out r' failed :
  around cl c T inp out -> c_phase c = Closing r' -> c_writer c = WriteDone failed ->
  around cl (set_phase c (received c) (Returned (if failed then inr ErrorWriting else inl r'))) T inp out.
Proof.
  intros ((? & Hlen & Hres & Hwr) & (lost & E & Hl) & Hin) Hph Hw.
  unfold closed in *. rewrite Hph, Hw in *.
  split_and!; [|exists lost; split|done].
  - unfold side, closed. simpl. rewrite Hw. destruct failed; naive_solver.
  - unfold unsent, posted, posted_last in *. simpl. rewrite Hph, Hw in *. by destruct failed.
  - simpl. by rewrite Hw.
Qed.

Lemma step_inv f cl c T inp out c' inp' out' :
  step f (c, inp, out) (c', inp', out') ->
  around cl c T inp out -> around (cl && negb f) c' T inp' out'.
Proof.
  intros Hstep Ha. inversion Hstep; subst; cbn [negb]; rewrite ?andb_true_r, ?andb_false_r;
    eauto using around_write, around_write_fails, around_write_done, around_read, around_read_fails,
      around_finish, around_return.
Qed.

(** An end that cannot move has written all it posted, and waits for bytes or has returned. *)
Lemma step_or_wait c T inp out :
  around true c T inp out ->
  (exists c' inp' out', step false (c, inp, out) (c', inp', out')) \/
  unsent c = [] /\
  (c_phase c = Reading /\ inp = [] /\ length (received c) < 68 \/ c_phase c = Returned (inl r)).
Proof.
  intros ((Hx & Hlen & Hph & Hwr) & Hout & Hin).
  pose proof (prefix_length _ _ (received_prefix _ _ _ Hin)) as Hrcv. rewrite Hy_len in Hrcv.
  destruct (c_writer c) as [|[]] eqn:Ew; [|done|].
  - destruct (postCh c) as [|p ch] eqn:Ech; [|left; eauto using step_write].
    destruct (closed c) eqn:Ec; [left; eauto 6 using step_write_done|].
    unfold closed in Ec. destruct (c_phase c) eqn:Ep; try done.
    destruct (decide (length (received c) = 68)); [left; eauto 6 using step_finish|].
    destruct inp as [|i inp]; [|left; exists (set_phase c (received c ++ [i]) Reading), inp, out].
    + right. unfold unsent. rewrite Ew, Ech. split; [done|]. left. split_and!; [done..|lia].
    + apply (step_read c [i]); simpl; [done..|lia].
  - unfold closed in Hwr. destruct (c_phase c) as [| |[|[]]|] eqn:Ep; destruct Hwr; try done.
    + left. subst. eauto 6 using step_return.
    + right. unfold unsent. rewrite Ew. naive_solver.
Qed.
End Ends.

(** ** Two ends: an initiator that knows the hash, and a receiver that is told it *)

Section Exchange.
Context (a b : args) (h : bytes).
Hypothesis Ha : ih a = Some h.
Hypothesis Hb : ih b = None.
Hypothesis Hh : length h = 20.
Hypothesis Hida : length (peerID a) = 20.
Hypothesis Hidb : length (peerID b) = 20.
Hypothesis Hexta : length (extensions a) = 8.
Hypothesis Hextb : length (extensions b) = 8.

(** What each end is to learn of the other. *)
Definition learns (z : args) : HandshakeResult :=
  {| res_Bits := extensions z; res_PeerID := peerID z; res_Hash := h |}.

#[local] Transparent first_posts last_posts.

Lemma hello_fields z r :
  (z = a \/ z = b /\ res_Hash r = h) -> hello z r = Protocol ++ extensions z ++ h ++ peerID z.
Proof.
  unfold hello, first_posts, last_posts. intros [->|[-> <-]]; rewrite ?Ha, ?Hb; simpl;
    by rewrite ?app_nil_r, <-?app_assoc.
Qed.

Lemma hello_ok z r :
  (z = a \/ z = b /\ res_Hash r = h) ->
  length (hello z r) = 68 /\ parseHandshake (hello z r) = Some (learns z).
Proof.
  intros Hz. rewrite (hello_fields _ _ Hz).
  assert (length (extensions z) = 8 /\ length (peerID z) = 20) as [He Hi] by naive_solver.
  split; [rewrite !length_app; change (length Protocol) with 20; lia|].
  unfold parseHandshake. rewrite take_app_length, drop_app_length, bool_decide_true by done. simpl.
  unfold learns. do 2 f_equal.
  - by apply take_app_length'.
  - rewrite app_assoc, drop_app_length' by (rewrite length_app; lia). rewrite take_ge; [done|lia].
  - rewrite drop_app_length' by done. by apply take_app_length'.
Qed.

Lemma hello_a : length (hello a (learns b)) = 68 /\ parseHandshake (hello a (learns b)) = Some (learns a).
Proof. apply hello_ok. by left. Qed.

Lemma hello_b : length (hello b (learns a)) = 68 /\ parseHandshake (hello b (learns a)) = Some (learns b).
Proof. apply hello_ok. by right. Qed.

Definition inv (cl : bool) (s : system) : Prop :=
  side cl a (learns b) (sys_A s) /\ side cl b (learns a) (sys_B s) /\
  flow (sys_A s) (sys_B s) (toB s) a (learns b) /\ flow (sys_B s) (sys_A s) (toA s) b (learns a).

Lemma side_weaken cl f x r c : side cl x r c -> side (cl && negb f) x r c.
Proof.
  intros (? & ? & Hph & Hw). split_and!; try done.
  - destruct (c_phase c) as [| |[|[]]|]; subst; try done.
  - destruct (c_writer c) as [|[]]; subst; done.
Qed.

Lemma inv_initial : inv true (initial a b).
Proof.
  unfold initial, start, first_posts. rewrite Ha, Hb.
  rewrite !post_ok by (simpl; lia).
  split_and!.
  1,2: split_and!; try done; unfold last_posts; rewrite ?Ha, ?Hb; simpl; lia.
  all: exists []; split; [|by right]; unfold posted, first_posts; rewrite ?Ha, ?Hb; simpl;
    by rewrite ?app_nil_r.
Qed.

Lemma inv_step cl f s s' : sys_step f s s' -> inv cl s -> inv (cl && negb f) s'.
Proof.
  intros Hs (HA & HB & HAB & HBA). destruct Hs as [f A B wa wb A' wa' wb' Hs|f A B wa wb B' wa' wb' Hs]; simpl in *.
  - destruct (step_inv a b (learns b) (learns a) (proj2 hello_b) (proj1 hello_b) f cl A B wa wb A' wa' wb' Hs)
      as (?&?&?); [done|]. split_and!; try done. by apply side_weaken.
  - destruct (step_inv b a (learns a) (learns b) (proj2 hello_a) (proj1 hello_a) f cl B A wb wa B' wb' wa' Hs)
      as (?&?&?); [done|]. split_and!; try done. by apply side_weaken.
Qed.

Lemma inv_reachable s : rtc any_step (initial a b) s -> exists cl, inv cl s.
Proof.
  apply (rtc_ind_r (fun s => exists cl, inv cl s)).
  - exists true. apply inv_initial.
  - intros ?? _ [f Hs] [cl Hi]. eauto using inv_step.
Qed.

Lemma inv_ok_reachable s : rtc ok_step (initial a b) s -> inv true s.
Proof.
  apply (rtc_ind_r (inv true)).
  - apply inv_initial.
  - intros ?? _ Hs Hi. exact (inv_step true false _ _ Hs Hi).
Qed.

Lemma posted_all_a c : posted a (learns b) c = hello a (learns b).
Proof. unfold posted, hello, last_posts. rewrite Ha. by destruct (posted_last c). Qed.

Lemma flow_drained R S x r : flow S R [] x r -> unsent S = [] -> side true x r S -> received R = posted x r S.
Proof.
  intros (lost & E & Hl) Hu (_ & _ & _ & Hw). rewrite Hu in E. simpl in E.
  destruct Hl as [Hl| ->]; [by rewrite Hl in Hw|]. by rewrite app_nil_r in E.
Qed.

Lemma progress s :
  inv true s ->
  (exists s', ok_step s s') \/
  c_phase (sys_A s) = Returned (inl (learns b)) /\ c_phase (sys_B s) = Returned (inl (learns a)).
Proof.
  intros (HA & HB & HAB & HBA). destruct s as [A B wa wb]; simpl in *.
  destruct hello_a as [HaL _], hello_b as [HbL _].
  destruct (step_or_wait a b (learns b) (learns a) HbL A B wa wb) as [(?&?&?&?)|[HuA HwA]]; [done| |].
  { left. eexists. by apply step_A. }
  destruct (step_or_wait b a (learns a) (learns b) HaL B A wb wa) as [(?&?&?&?)|[HuB HwB]]; [done| |].
  { left. eexists. by apply step_B. }
  assert (c_phase B = Returned (inl (learns a))) as HpB.
  { destruct HwB as [(_ & -> & Hlt)|]; [|done].
    rewrite (flow_drained B A a (learns b)), posted_all_a in Hlt by done. lia. }
  right. split; [|done]. destruct HwA as [(_ & -> & Hlt)|]; [|done].
  rewrite (flow_drained A B b (learns a)) in Hlt by done.
  unfold posted, posted_last in Hlt. rewrite HpB in Hlt. unfold hello in HbL. lia.
Qed.

(** Steps left: bytes posted count twice, on the wire once. *)
Definition weight (c : conn) : nat :=
  sum_list_with (fun bb => 1 + 2 * length bb) (postCh c) +
  match c_writer c with Writing => 1 | WriteDone _ => 0 end +
  match c_phase c with Reading => 100 | Closing _ => 1 | _ => 0 end.

Lemma last_posts_weight r x :
  length (res_Hash r) = 20 -> length (peerID x) = 20 ->
  sum_list_with (fun bb => 1 + 2 * length bb) (last_posts x r) <= 82.
Proof. intros E1 E2. unfold last_posts. destruct (ih x); simpl; rewrite ?E1, ?E2; lia. Qed.

Lemma step_weight f c inp out c' inp' out' x r y s :
  parseHandshake (hello y s) = Some r -> length (hello y s) = 68 ->
  length (res_Hash r) = 20 -> length (peerID x) = 20 ->
  step f (c, inp, out) (c', inp', out') -> forall T cl, around x y r s cl c T inp out ->
  weight c' + length inp' + length out' < weight c + length inp + length out.
Proof.
  intros Hp Hl Hr Hid Hstep T cl Hc. inversion Hstep; subst; unfold weight; cbn -[Nat.mul].
  all: repeat match goal with E : _ = _ |- _ => rewrite E end.
  all: rewrite ?length_app; cbn -[Nat.mul]; try lia.
  - rewrite length_take. lia.
  - assert (length k <> 0) by (by destruct k). lia.
  - rewrite (finish_ok x y r s Hp cl); [|apply Hc|done|].
    2: { eapply received_all; [done|apply Hc|done]. }
    cbn -[Nat.mul last_posts]. rewrite sum_list_with_app.
    pose proof (last_posts_weight r x Hr Hid) as Hw. cbn -[Nat.mul last_posts] in Hw. lia.
Qed.

Definition sys_weight (s : system) : nat :=
  weight (sys_A s) + weight (sys_B s) + length (toA s) + length (toB s).

Lemma sys_step_weight f cl s s' : sys_step f s s' -> inv cl s -> sys_weight s' < sys_weight s.
Proof.
  intros Hs (HA & HB & HAB & HBA). destruct hello_a, hello_b. unfold sys_weight.
  destruct Hs as [f A B wa wb A' wa' wb' Hs|f A B wa wb B' wa' wb' Hs]; simpl in *.
  - assert (weight A' + length wa' + length wb' < weight A + length wa + length wb); [|lia].
    by eapply (step_weight f A wa wb A' wa' wb' a (learns b) b (learns a)) with (T := B) (cl := cl).
  - assert (weight B' + length wb' + length wa' < weight B + length wb + length wa); [|lia].
    by eapply (step_weight f B wb wa B' wb' wa' b (learns a) a (learns b)) with (T := A) (cl := cl).
Qed.

Lemma initial_weight : sys_weight (initial a b) = 400.
Proof.
  unfold sys_weight, initial, start, first_posts. rewrite Ha, Hb, !post_ok by (simpl; lia).
  unfold weight. cbn -[Nat.mul Protocol]. change (length Protocol) with 20. lia.
Qed.

Lemma run_weight n s s' cl : inv cl s -> nsteps any_step n s s' -> n + sys_weight s' <= sys_weight s.
Proof.
  intros Hi Hn. revert cl Hi. induction Hn as [s|n s1 s2 s3 [f Hs] _ IH]; intros cl Hi; [lia|].
  pose proof (IH _ (inv_step _ _ _ _ Hs Hi)). pose proof (sys_step_weight _ _ _ _ Hs Hi). lia.
Qed.
End Exchange.

(** The arguments as the Go types have them. *)
Definition wf_args (x : args) : Prop :=
  length (peerID x) = 20 /\ length (extensions x) = 8 /\ forall h, ih x = Some h -> length h = 20.

(** A run in which each end writes everything before the other reads. *)
Definition exA : args :=
  {| ih := Some (replicate 20 x01); peerID := replicate 20 x0a; extensions := replicate 8 x10 |}.
Definition exB : args :=
  {| ih := None; peerID := replicate 20 x0b; extensions := replicate 8 x04 |}.

Definition done_with (c : conn) (peer : args) : bool :=
  match c_phase c with
  | Returned (inl res) => bool_decide (res_PeerID res = peerID peer) && bool_decide (res_Hash res = replicate 20 x01)
  | _ => false
  end.

Lemma step_read_all c inp out :
  c_phase c = Reading -> inp <> [] -> (length (received c) + length inp <=? 68) = true ->
  step false (c, inp, out) (set_phase c (received c ++ inp) Reading, [], out).
Proof. intros ?? ?%Nat.leb_le. rewrite <-(app_nil_r inp) at 1. by apply step_read. Qed.

Ltac run_end E step := eapply nsteps_l; [apply E; eapply step; first [reflexivity|done]|cbn].

Lemma example_run :
  exists s, nsteps ok_step 16 (initial exA exB) s /\
            done_with (sys_A s) exB = true /\ done_with (sys_B s) exA = true.
Proof.
  eexists. split.
  - unfold initial. cbn. do 4 (run_end step_A step_write). 
    run_end step_B step_read_all.
    run_end step_B step_finish. do 4 (run_end step_B step_write).
    run_end step_A step_read_all.
    run_end step_A step_finish. run_end step_A step_write_done. run_end step_A step_return.
    run_end step_B step_write_done. run_end step_B step_return. apply nsteps_O.
  - done.
Qed.

(** C12: however the goroutines of both ends interleave, however the bytes arrive and whichever
    reads and writes fail, an initiator for the hash [h] and a receiver never panic on the
    channel nor see a wrong protocol string, and an end that returns without error has the other
    end's extension bits and peer ID, and both have the hash [h]. *)
Theorem handshake_agreement (a b : args) (h : bytes) (s : system)
    (Ha : ih a = Some h) (Hb : ih b = None) (Hwa : wf_args a) (Hwb : wf_args b)
    (Hreach : rtc any_step (initial a b) s) :
  let agreed (c : conn) (peer : args) :=
    match c_phase c with
    | Closing res | Returned (inl res) =>
        res = {| res_Bits := extensions peer; res_PeerID := peerID peer; res_Hash := h |}
    | Returned (inr UnexpectedProtocol) | Panicked => False
    | _ => True
    end in
  agreed (sys_A s) b /\ agreed (sys_B s) a.
Proof.
  destruct Hwa as (? & ? & Hh), Hwb as (? & ? & _).
  destruct (inv_reachable a b h) with (s := s) as [cl ((_&_&HA&_)&(_&_&HB&_)&_)]; auto.
  split; [destruct (c_phase (sys_A s)) as [| |[|[]]|]|destruct (c_phase (sys_B s)) as [| |[|[]]|]]; done.
Qed.

Lemma handshake_agreement_witness :
  exists s, rtc any_step (initial exA exB) s /\ done_with (sys_A s) exB = true /\
    match c_phase (sys_A s) with
    | Returned (inl res) => res_Bits res = replicate 8 x04
    | _ => True
    end.
Proof.
  destruct example_run as (s & Hrun & HA & _). exists s.
  assert (rtc any_step (initial exA exB) s) as Hr.
  { apply rtc_nsteps_2 in Hrun. eapply rtc_subrel; [|done]. intros ???. by exists false. }
  split_and!; [done..|].
  assert (wf_args exA) by (split_and!; [done..|intros ? [= <-]; done]).
  assert (wf_args exB) by (split_and!; done).
  destruct (handshake_agreement exA exB (replicate 20 x01) s) as [Hag _]; [done..|].
  destruct (c_phase (sys_A s)) as [| |[]|]; [done..| |done|done]. by rewrite Hag.
Defined.

(** C28: while no read or write fails, the exchange between an initiator for [h] and a receiver
    cannot deadlock: it makes at most 400 steps, and where no step is left both ends have
    returned, each with what the other was given. *)
Theorem handshake_completes (a b : args) (h : bytes) (n : nat) (s : system)
    (Ha : ih a = Some h) (Hb : ih b = None) (Hwa : wf_args a) (Hwb : wf_args b)
    (Hrun : nsteps ok_step n (initial a b) s) :
  (n <= 400) /\
  ((exists s', ok_step s s') \/
   c_phase (sys_A s) = Returned (inl {| res_Bits := extensions b; res_PeerID := peerID b; res_Hash := h |}) /\
   c_phase (sys_B s) = Returned (inl {| res_Bits := extensions a; res_PeerID := peerID a; res_Hash := h |})).
Proof.
  destruct Hwa as (? & ? & Hh), Hwb as (? & ? & _). split.
  - assert (nsteps any_step n (initial a b) s) as Hrun'.
    { clear -Hrun. induction Hrun; econstructor; [by exists false|done]. }
    apply (run_weight a b h) with (cl := true) in Hrun'; auto using inv_initial.
    rewrite (initial_weight a b h) in Hrun'; auto. lia.
  - apply (progress a b h); auto. apply inv_ok_reachable; auto. eapply rtc_nsteps_2; eauto.
Qed.

Lemma handshake_completes_witness :
  exists s, nsteps ok_step 16 (initial exA exB) s /\ 16 <= 400.
Proof.
  destruct example_run as (s & Hrun & _). exists s. split; [done|].
  assert (wf_args exA) by (split_and!; [done..|intros ? [= <-]; done]).
  assert (wf_args exB) by (split_and!; done).
  by destruct (handshake_completes exA exB (replicate 20 x01) 16 s) as [Hag _].
Defined.
