(* ===== verification/Mse.v ===== *)
(** * Encrypted connections ([src/mse/mse.go], [handleEncryption] of [src/handshake.go])

    The handshake of Message Stream Encryption: a Diffie-Hellman exchange, padding to synchronize
    past, the proof that both ends know the secret key, and the choice between RC4 and plain text.
    An end is a process that posts what its writer goroutine is to write and reads exactly so many
    bytes; two of them with their writers, and the bytes between them, are a transition system.
    What is drawn from [crypto/rand] is an argument.  The count of methods provided, a statistic,
    is left out. *)

From Stdlib Require Import Zpow_facts.
From S2P Require Import Prelude Sha1 Rc4 Handshake.
Local Open Scope Z_scope.

(** ** Numbers and hashes *)

Definition maxPadLen : Z := 512.
Definition CryptoMethodPlaintext : Z := 1.
Definition CryptoMethodRC4 : Z := 2.
Definition AllSupportedCrypto : Z := Z.lor CryptoMethodPlaintext CryptoMethodRC4.

Definition p : Z := 0xFFFFFFFFFFFFFFFFC90FDAA22168C234C4C6628B80DC1CD129024E088A67CC74020BBEA63B139B22514A08798E3404DDEF9519B3CD3A431B302B0A6DF25F14374FE1356D6D51C245E485B576625E7EC6F44C42E9A63A36210000000000090563.
Definition specG : Z := 2.
Definition req1 : bytes := bs "req1".
Definition req2 : bytes := bs "req2".
Definition req3 : bytes := bs "req3".
Definition vc : bytes := replicate 8 x00.
Definition zeroPad : bytes := replicate 512 x00.

(** [big.Int]: [SetBytes] is [be_get]; [Bytes] has no leading zeros. *)
Definition big_Bytes (z : Z) : bytes := be_put (if z =? 0 then 0 else Z.to_nat (Z.log2 z / 8 + 1)) z.
Definition big_Exp (x y m : Z) : Z := Zpow_mod x y m.

Definition hash (parts : list bytes) : bytes := Sum1 (concat parts).

Definition xor (a b : bytes) : bytes := zip_with xorb8 a b.

(** [None] is a panic, here and below. *)
Definition newEncrypt (initer : bool) (s skey : bytes) : option Cipher :=
  c ← NewCipher (hash [bs (if initer then "keyA" else "keyB"); s; skey]);
  Some (XORKeyStream c (replicate 1024 x00)).2.

Definition paddedLeft (b : bytes) (len : nat) : option bytes :=
  if (length b =? len)%nat then Some b
  else if (len <? length b)%nat then None
  else Some (replicate (len - length b) x00 ++ b).

(** A number drawn for [newPadLen]. *)
Definition newPadLen (i : Z) : option Z := if (i <? 0) || (maxPadLen <? i) then None else Some i.

(** ** Looking for a byte string *)

(** The inner loop: [j] bytes from the end of [b[:i]] and of [a] are equal. *)
Fixpoint suffix_matches (n j i : nat) (a b : bytes) : bool :=
  match n with
  | O => true
  | S n' =>
      if bool_decide (b !! (i - 1 - j)%nat = a !! (length a - 1 - j)%nat) then suffix_matches n' (j + 1) i a b
      else false
  end.

Fixpoint suffixMatchLen_loop (i : nat) (a b : bytes) : nat :=
  match i with
  | O => 0
  | S i' => if suffix_matches i 0 i a b then i else suffixMatchLen_loop i' a b
  end.

Definition suffixMatchLen (a b : bytes) : nat :=
  let b := if (length a <? length b)%nat then take (length a) b else b in
  suffixMatchLen_loop (length b) a b.

(** ** Processes *)

Inductive IoError := EOF | UnexpectedEOF | Failed.

(** A process that talks to the connection: [PostWrite] hands bytes to the writer, and learns
    whether a write has failed; [ReadN] reads until it has so many bytes or the connection fails. *)
Inductive proc (R : Type) : Type :=
| Return (r : R)
| Panics
| OutOfFuel
| PostWrite (b : bytes) (k : option IoError -> proc R)
| ReadN (n : nat) (k : bytes -> option IoError -> proc R).
Arguments Return {R} r.
Arguments Panics {R}.
Arguments OutOfFuel {R}.
Arguments PostWrite {R} b k.
Arguments ReadN {R} n k.

Fixpoint proc_then {A B} (f : A -> proc B) (m : proc A) : proc B :=
  match m with
  | Return a => f a
  | Panics => Panics
  | OutOfFuel => OutOfFuel
  | PostWrite b k => PostWrite b (fun e => proc_then f (k e))
  | ReadN n k => ReadN n (fun got e => proc_then f (k got e))
  end.

#[export] Instance proc_ret : MRet proc := fun A a => Return a.
#[export] Instance proc_bind : MBind proc := @proc_then.

Definition orPanic {A} (o : option A) : proc A := match o with Some a => Return a | None => Panics end.

Definition postWrite (b : bytes) : proc (option IoError) := PostWrite b Return.

(** The error of [io.ReadFull] that got some bytes. *)
Definition readFullError (got : bytes) (e : IoError) : IoError :=
  match got, e with _ :: _, EOF => UnexpectedEOF | _, _ => e end.

Definition ReadFull (n : nat) : proc (bytes + IoError) :=
  ReadN n (fun got e => Return match e with None => inl got | Some e => inr (readFullError got e) end).

(** The loop of [readUntil] on a [LimitReader] with [limit] bytes left: [b1] is the window, of
    which [i] bytes match. *)
Fixpoint readUntil_loop (fuel : nat) (limit : nat) (b b1 : bytes) (i : nat) : proc (option IoError) :=
  match fuel with
  | O => OutOfFuel
  | S fuel' =>
      let n := (length b1 - i)%nat in
      if (limit <? n)%nat then
        ReadN limit (fun got e => Return (Some (readFullError got (match e with None => EOF | Some e => e end))))
      else
        r ← ReadFull n;
        match r with
        | inr e => Return (Some e)
        | inl got =>
            let b1 := take i b1 ++ got in
            let i := suffixMatchLen b1 b in
            if (i =? length b)%nat then Return None
            else readUntil_loop fuel' (limit - n) b (drop (length b1 - i) b1 ++ drop i b1) i
        end
  end.

Definition readUntil (limit : nat) (b : bytes) : proc (option IoError) :=
  readUntil_loop (limit + 1) limit b (replicate (length b) x00) 0.

(** ** Encrypted readers and writers *)

(** Reading [n] bytes in full through a [cipherReader]: what was read is decrypted, whether or not
    there was an error. *)
Definition cipherReadFull (c : Cipher) (n : nat) : proc ((bytes + IoError) * Cipher) :=
  ReadN n (fun got e =>
    let '(plain, c) := XORKeyStream c got in
    Return (match e with None => inl plain | Some e => inr (readFullError got e) end, c)).

(** [binary.Read] of an unsigned integer. *)
Definition readUint (c : Cipher) (n : nat) : proc ((Z + IoError) * Cipher) :=
  '(r, c) ← cipherReadFull c n;
  Return (match r with inl b => inl (be_get b) | inr e => inr e end, c).

(** [io.CopyN(io.Discard, r, n)] *)
Definition copyDiscard (c : Cipher) (n : Z) : proc (option IoError * Cipher) :=
  ReadN (Z.to_nat n) (fun got e => Return (e, (XORKeyStream c got).2)).

(** [cipherWriter]: the cipher is lost once a write was short. *)
Record cipherWriter := { cw_c : option Cipher; cw_b : bytes }.

Section CipherWriter.
Context {W : Type} (write : W -> bytes -> (nat * option IoError) * W).

Definition cipherWriter_Write (cr : cipherWriter) (w : W) (b : bytes) : option ((nat * option IoError) * cipherWriter * W) :=
  let '(be, rest) := if (length (cw_b cr) <? length b)%nat then (replicate (length b) x00, cw_b cr) else (cw_b cr, []) in
  '(be, c) ← match b, cw_c cr with
             | [], c => Some (be, c)
             | _, None => None
             | _, Some c => let '(dst, c) := XORKeyStream c b in Some (dst ++ drop (length b) be, Some c)
             end;
  let '((n, err), w) := write w (take (length b) be) in
  Some ((n, err), {| cw_c := if (n =? length b)%nat then c else None;
                     cw_b := if (length rest <? length be)%nat then be else rest |}, w).
End CipherWriter.

(** [bytes.Buffer] *)
Definition buffer_Write (buf : bytes) (b : bytes) : (nat * option IoError) * bytes := ((length b, None), buf ++ b).

(** What is marshalled: [binary.Write] of bytes and of unsigned integers. *)
Inductive datum := DBytes (b : bytes) | DUint16 (z : Z) | DUint32 (z : Z).

Definition binary_Bytes (d : datum) : bytes :=
  match d with DBytes b => b | DUint16 z => be_put 2 z | DUint32 z => be_put 4 z end.

(** [marshal] to a buffer, and through a [cipherWriter] to a buffer. *)
Definition marshal (data : list datum) : bytes := concat (map binary_Bytes data).

Fixpoint marshalTo (w : cipherWriter) (buf : bytes) (data : list datum) : option (cipherWriter * bytes) :=
  match data with
  | [] => Some (w, buf)
  | d :: data' =>
      '(_, w, buf) ← cipherWriter_Write buffer_Write w buf (binary_Bytes d);
      marshalTo w buf data'
  end.

(** The stream a handshake returns: bytes that are delivered first, and the ciphers to read and to
    write the connection with, if it is encrypted. *)
Record ReadWriter := { rw_front : bytes; rw_in : option Cipher; rw_out : option cipherWriter }.

(** [cipherReader.Read], given what the connection read; without a cipher, the connection's [Read]. *)
Definition cipherReader_Read (c : option Cipher) (chunk : bytes) : bytes * option Cipher :=
  match c with
  | Some c => let '(b, c) := XORKeyStream c chunk in (b, Some c)
  | None => (chunk, None)
  end.

(** [Read] of [want] bytes when [avail] of those on the way have arrived: a [MultiReader] of the
    front and the connection. *)
Definition rw_Read (rw : ReadWriter) (want avail : nat) (inp : bytes) : bytes * ReadWriter * bytes :=
  match rw_front rw with
  | [] =>
      let n := Nat.min want avail in
      let '(b, c) := cipherReader_Read (rw_in rw) (take n inp) in
      (b, {| rw_front := []; rw_in := c; rw_out := rw_out rw |}, drop n inp)
  | front => (take want front, {| rw_front := drop want front; rw_in := rw_in rw; rw_out := rw_out rw |}, inp)
  end.

(** [Write] to a connection that takes all of it. *)
Definition rw_Write (rw : ReadWriter) (wire b : bytes) : option (ReadWriter * bytes) :=
  match rw_out rw with
  | Some w =>
      '(_, w, wire) ← cipherWriter_Write buffer_Write w wire b;
      Some ({| rw_front := rw_front rw; rw_in := rw_in rw; rw_out := Some w |}, wire)
  | None => Some (rw, wire ++ b)
  end.

(** ** The handshake of one end *)

Inductive MseError :=
| ReadingY (e : IoError)
| Io (e : IoError)
| PayloadTooLarge
| NoSyncOnVC
| UntilVC (e : IoError)
| UnsupportedMethod (method : Z)
| NoSyncOnS
| ErrNoSecretKeyMatch
| ChosenUnsupported
| UnexpectedProtocolString.

(** What is drawn from [crypto/rand]: the private key, the padding after the public key, and the
    length of the padding later on. *)
Record Draws := { d_X : bytes; d_pad : bytes; d_padLen : Z }.

Record handshake := {
  h_initer : bool;
  h_skeys : list bytes;
  h_skey : bytes;
  h_ia : bytes;
  h_chooseMethod : Z -> Z;
  h_cryptoProvides : Z;
}.

(** The results of [Do], and the secret key it leaves. *)
Record Out := { o_ret : option ReadWriter; o_method : Z; o_err : option MseError; o_skey : bytes }.

Definition failWith (h : handshake) (method : Z) (e : MseError) : Out :=
  {| o_ret := None; o_method := method; o_err := Some e; o_skey := h_skey h |}.

(** [postY]: the error of [postWrite] is not looked at by the caller. *)
Definition postY (x : Z) : proc (option IoError) :=
  b ← orPanic (paddedLeft (big_Bytes (big_Exp specG x p)) 96);
  postWrite b.

(** The array [h.s], zeroes where [copy] does not write. *)
Definition establishS (d : Draws) : proc (bytes + IoError) :=
  let x := be_get (d_X d) in
  _ ← postY x;
  r ← ReadFull 96;
  match r with
  | inr e => Return (inr e)
  | inl b =>
      let sBytes := big_Bytes (big_Exp (be_get b) x p) in
      s ← orPanic (if (96 <? length sBytes)%nat then None else Some (replicate (96 - length sBytes) x00 ++ sBytes));
      Return (inl s)
  end.

(** The end of [initerSteps], once all is posted: what the receiver answers, after its padding. *)
Definition initerEnd (h : handshake) (e bC : Cipher) (eVC : bytes) : proc Out :=
  err ← readUntil 520 eVC;
  match err with
  | Some EOF => Return (failWith h 0 NoSyncOnVC)
  | Some e => Return (failWith h 0 (UntilVC e))
  | None =>
  '(r, bC) ← readUint bC 4;
  match r with
  | inr e => Return (failWith h 0 (Io e))
  | inl method =>
  '(r, bC) ← readUint bC 2;
  match r with
  | inr e => Return (failWith h 0 (Io e))
  | inl padLen =>
  '(err, bC) ← copyDiscard bC padLen;
  match err with
  | Some e => Return (failWith h 0 (Io e))
  | None =>
      let selected := Z.land method (h_cryptoProvides h) in
      if selected =? CryptoMethodRC4 then
        Return {| o_ret := Some {| rw_front := []; rw_in := Some bC; rw_out := Some {| cw_c := Some e; cw_b := [] |} |};
                  o_method := selected; o_err := None; o_skey := h_skey h |}
      else if selected =? CryptoMethodPlaintext then
        Return {| o_ret := Some {| rw_front := []; rw_in := None; rw_out := None |};
                  o_method := selected; o_err := None; o_skey := h_skey h |}
      else Return (failWith h selected (UnsupportedMethod method))
  end end end end.

Definition initerSteps (d : Draws) (h : handshake) (s : bytes) : proc Out :=
  _ ← postWrite (hash [req1; s]);
  _ ← postWrite (xor (hash [req2; h_skey h]) (hash [req3; s]));
  padLen ← orPanic (newPadLen (d_padLen d));
  let padLen := wrapU 16 padLen in
  if 65535 <? Z.of_nat (length (h_ia h)) then Return (failWith h 0 PayloadTooLarge) else
  let buf := marshal [DBytes vc; DUint32 (h_cryptoProvides h); DUint16 padLen; DBytes (take (Z.to_nat padLen) zeroPad);
                      DUint16 (wrapU 16 (Z.of_nat (length (h_ia h)))); DBytes (h_ia h)] in
  e ← orPanic (newEncrypt true s (h_skey h));
  let '(be, e) := XORKeyStream e buf in
  _ ← postWrite be;
  bC ← orPanic (newEncrypt false s (h_skey h));
  let '(eVC, bC) := XORKeyStream bC vc in
  initerEnd h e bC eVC.

(** The loop over the secret keys. *)
Fixpoint findSkey (skeys : list bytes) (expectedHash b : bytes) : option bytes :=
  match skeys with
  | [] => None
  | skey :: skeys' =>
      if bool_decide (xor (hash [req2; skey]) expectedHash = b) then Some skey else findSkey skeys' expectedHash b
  end.

(** The end of [receiverSteps], with the ciphers to read with and to write with. *)
Definition receiverEnd (d : Draws) (h : handshake) (s rvc ia : bytes) (chosen : Z) (cipher : Cipher) : proc Out :=
  c ← orPanic (newEncrypt false s (h_skey h));
  padLen ← orPanic (newPadLen (d_padLen d));
  let padLen := wrapU 16 padLen in
  '(w, buf) ← orPanic (marshalTo {| cw_c := Some c; cw_b := [] |} []
                        [DBytes rvc; DUint32 chosen; DUint16 padLen; DBytes (take (Z.to_nat padLen) zeroPad)]);
  err ← postWrite buf;
  match err with
  | Some e => Return (failWith h chosen (Io e))
  | None =>
      if chosen =? CryptoMethodRC4 then
        Return {| o_ret := Some {| rw_front := ia; rw_in := Some cipher; rw_out := Some {| cw_c := cw_c w; cw_b := [] |} |};
                  o_method := chosen; o_err := None; o_skey := h_skey h |}
      else if chosen =? CryptoMethodPlaintext then
        Return {| o_ret := Some {| rw_front := ia; rw_in := None; rw_out := None |};
                  o_method := chosen; o_err := None; o_skey := h_skey h |}
      else Return (failWith h chosen ChosenUnsupported)
  end.

(** The initial payload: errors are not looked at, and leave the length zero, or the bytes. *)
Definition readIA (cipher : Cipher) : proc (bytes * Cipher) :=
  '(r, cipher) ← readUint cipher 2;
  let lenIA := match r with inl z => z | inr _ => 0 end in
  if lenIA =? 0 then Return ([], cipher)
  else
    '(r, cipher) ← cipherReadFull cipher (Z.to_nat lenIA);
    Return (match r with inl ia => ia | inr _ => replicate (Z.to_nat lenIA) x00 end, cipher).

Definition set_skey (h : handshake) (skey : bytes) : handshake :=
  {| h_initer := h_initer h; h_skeys := h_skeys h; h_skey := skey; h_ia := h_ia h;
     h_chooseMethod := h_chooseMethod h; h_cryptoProvides := h_cryptoProvides h |}.

Definition receiverSteps (d : Draws) (h : handshake) (s : bytes) : proc Out :=
  err ← readUntil 532 (hash [req1; s]);
  match err with
  | Some EOF => Return (failWith h 0 NoSyncOnS)
  | Some e => Return (failWith h 0 (Io e))
  | None =>
  r ← ReadFull 20;
  match r with
  | inr e => Return (failWith h 0 (Io e))
  | inl b =>
  match findSkey (h_skeys h) (hash [req3; s]) b with
  | None => Return (failWith h 0 ErrNoSecretKeyMatch)
  | Some skey =>
  let h := set_skey h skey in
  cipher ← orPanic (newEncrypt true s (h_skey h));
  '(r, cipher) ← cipherReadFull cipher 8;
  match r with
  | inr e => Return (failWith h 0 (Io e))
  | inl rvc =>
  '(r, cipher) ← readUint cipher 4;
  match r with
  | inr e => Return (failWith h 0 (Io e))
  | inl provides =>
  '(r, cipher) ← readUint cipher 2;
  match r with
  | inr e => Return (failWith h 0 (Io e))
  | inl padLen =>
  let chosen := h_chooseMethod h provides in
  '(err, cipher) ← copyDiscard cipher padLen;
  match err with
  | Some e => Return (failWith h chosen (Io e))
  | None =>
  '(ia, cipher) ← readIA cipher;
  receiverEnd d h s rvc ia chosen cipher
  end end end end end end end.

(** [Do] up to the deferred wait for the writer. *)
Definition Do (d : Draws) (h : handshake) : proc Out :=
  r ← establishS d;
  match r with
  | inr e => Return (failWith h 0 (ReadingY e))
  | inl s =>
      err ← postWrite (d_pad d);
      match err with
      | Some e => Return (failWith h 0 (Io e))
      | None => if h_initer h then initerSteps d h s else receiverSteps d h s
      end
  end.

Definition InitiateHandshake (d : Draws) (skey initialPayload : bytes) (cryptoProvides : Z) : proc Out :=
  Do d {| h_initer := true; h_skeys := []; h_skey := skey; h_ia := initialPayload;
          h_chooseMethod := fun _ => 0; h_cryptoProvides := cryptoProvides |}.

Definition ReceiveHandshakeEx (d : Draws) (skeys : list bytes) (selectCrypto : Z -> Z) : proc Out :=
  Do d {| h_initer := false; h_skeys := skeys; h_skey := []; h_ia := [];
          h_chooseMethod := selectCrypto; h_cryptoProvides := 0 |}.

Definition DefaultCryptoSelector (provided : Z) : Z :=
  if negb (Z.land provided CryptoMethodPlaintext =? 0) then CryptoMethodPlaintext else CryptoMethodRC4.

(** ** Telling encrypted connections from others: [handleEncryption] *)

Record HeaderObfuscationPolicy := { RequirePreferred : bool; Preferred : bool }.

(** [io.MultiReader(bytes.NewReader(front), rw)]: what is read comes from [front] first. *)
Fixpoint unread {R} (front : bytes) (m : proc R) : proc R :=
  match m with
  | PostWrite b k => PostWrite b (fun e => unread front (k e))
  | ReadN n k =>
      if (n <=? length front)%nat then unread (drop n front) (k (take n front) None)
      else ReadN (n - length front) (fun got e => unread [] (k (front ++ got) e))
  | _ => m
  end.

(** The stream, whether the header is encrypted, and the results of the handshake. *)
Definition handleEncryption (d : Draws) (skeys : list bytes) (policy : HeaderObfuscationPolicy) (selector : Z -> Z) :
    proc (bool * Out) :=
  let receive front := o ← unread front (ReceiveHandshakeEx d skeys selector); Return (true, o) in
  let plain front err := {| o_ret := if err : option MseError then None else Some {| rw_front := front; rw_in := None; rw_out := None |};
                            o_method := 0; o_err := err; o_skey := [] |} in
  if negb (RequirePreferred policy) || negb (Preferred policy) then
    r ← ReadFull (length Protocol);
    match r with
    | inr e => Return (false, plain [] (Some (Io e)))
    | inl protocol =>
        if bool_decide (protocol = Protocol) then Return (false, plain protocol None)
        else if RequirePreferred policy then Return (false, plain [] (Some UnexpectedProtocolString))
        else receive protocol
    end
  else receive [].

(** ** Two ends *)

(** The goroutine of [Do]: running, with what it has read of the bytes it waits for; in the
    deferred function, waiting for the writer; done. *)
Inductive main (R : Type) := Running (m : proc R) (got : bytes) | Finishing (r : R) | Done (r : R).
Arguments Running {R} m got.
Arguments Finishing {R} r.
Arguments Done {R} r.

(** The queue [writes], the rest of the buffer that [Write] was called with, and [writerDone]. *)
Record endpoint (R : Type) := {
  ep_main : main R;
  ep_writes : list bytes;
  ep_writing : option bytes;
  ep_writeErr : option IoError;
  ep_writerDone : bool;
}.
Arguments ep_main {R} e.
Arguments ep_writes {R} e.
Arguments ep_writing {R} e.
Arguments ep_writeErr {R} e.
Arguments ep_writerDone {R} e.

Definition begin {R} (m : proc R) : endpoint R :=
  {| ep_main := Running m []; ep_writes := []; ep_writing := None; ep_writeErr := None; ep_writerDone := false |}.

Definition with_main {R} (e : endpoint R) (m : main R) : endpoint R :=
  {| ep_main := m; ep_writes := ep_writes e; ep_writing := ep_writing e; ep_writeErr := ep_writeErr e;
     ep_writerDone := ep_writerDone e |}.

Definition with_writer {R} (e : endpoint R) (ws : list bytes) (w : option bytes) (err : option IoError) (done : bool) : endpoint R :=
  {| ep_main := ep_main e; ep_writes := ws; ep_writing := w; ep_writeErr := err; ep_writerDone := done |}.

(** A step of the goroutine of [Do], on the bytes that have arrived; [orError] is the end of the
    deferred function. *)
Definition main_step {R} (orError : R -> option IoError -> R) (e : endpoint R) (inp : bytes) : option (endpoint R * bytes) :=
  match ep_main e with
  | Running (PostWrite b k) _ =>
      match ep_writeErr e with
      | Some err => Some (with_main e (Running (k (Some err)) []), inp)
      | None => Some (with_writer (with_main e (Running (k None) [])) (ep_writes e ++ [b]) (ep_writing e) None (ep_writerDone e), inp)
      end
  | Running (ReadN n k) got =>
      if (length got <? n)%nat then
        match inp with
        | [] => None
        | c :: inp' => Some (with_main e (Running (ReadN n k) (got ++ [c])), inp')
        end
      else Some (with_main e (Running (k got None) []), inp)
  | Running (Return r) _ => Some (with_main e (Finishing r), inp)
  | Finishing r => if ep_writerDone e then Some (with_main e (Done (orError r (ep_writeErr e))), inp) else None
  | _ => None
  end.

(** A step of the writer, with room for [cap] bytes on the way to the peer. *)
Definition writer_step {R} (cap : nat) (e : endpoint R) (out : bytes) : option (endpoint R * bytes) :=
  if ep_writerDone e then None else
  match ep_writing e with
  | Some (c :: rest) =>
      if (length out <? cap)%nat then Some (with_writer e (ep_writes e) (Some rest) (ep_writeErr e) false, out ++ [c]) else None
  | Some [] => Some (with_writer e (ep_writes e) None (ep_writeErr e) false, out)
  | None =>
      match ep_writes e with
      | b :: ws => Some (with_writer e ws (Some b) (ep_writeErr e) false, out)
      | [] =>
          match ep_main e with
          | Finishing _ => Some (with_writer e [] None (ep_writeErr e) true, out)
          | _ => None
          end
      end
  end.

(** Failures of the connection: of a read, before it is complete, and of a write. *)
Definition read_fails {R} (err : IoError) (e : endpoint R) : option (endpoint R) :=
  match ep_main e with
  | Running (ReadN n k) got => if (length got <? n)%nat then Some (with_main e (Running (k got (Some err)) [])) else None
  | _ => None
  end.

Definition write_fails {R} (err : IoError) (e : endpoint R) : option (endpoint R) :=
  if ep_writerDone e then None else
  match ep_writing e with
  | Some _ => Some (with_writer e (ep_writes e) None (Some err) true)
  | None => None
  end.

(** The end of [Do]: [if err == nil { err = h.writeErr }]. *)
Definition orWriteErr (o : Out) (e : option IoError) : Out :=
  {| o_ret := o_ret o; o_method := o_method o;
     o_err := match o_err o with Some x => Some x | None => Io <$> e end; o_skey := o_skey o |}.

(** The initiator and the receiver, and the bytes on the way to each. *)
Record Mse := { initiator : endpoint Out; receiver : endpoint (bool * Out); toInitiator : bytes; toReceiver : bytes }.

Inductive mse_step (cap : nat) : Mse -> Mse -> Prop :=
| step_initiator i r wi wr i' wi' :
    main_step orWriteErr i wi = Some (i', wi') ->
    mse_step cap {| initiator := i; receiver := r; toInitiator := wi; toReceiver := wr |}
                 {| initiator := i'; receiver := r; toInitiator := wi'; toReceiver := wr |}
| step_initiator_writer i r wi wr i' wr' :
    writer_step cap i wr = Some (i', wr') ->
    mse_step cap {| initiator := i; receiver := r; toInitiator := wi; toReceiver := wr |}
                 {| initiator := i'; receiver := r; toInitiator := wi; toReceiver := wr' |}
| step_receiver i r wi wr r' wr' :
    main_step (fun bo e => (bo.1, orWriteErr bo.2 e)) r wr = Some (r', wr') ->
    mse_step cap {| initiator := i; receiver := r; toInitiator := wi; toReceiver := wr |}
                 {| initiator := i; receiver := r'; toInitiator := wi; toReceiver := wr' |}
| step_receiver_writer i r wi wr r' wi' :
    writer_step cap r wi = Some (r', wi') ->
    mse_step cap {| initiator := i; receiver := r; toInitiator := wi; toReceiver := wr |}
                 {| initiator := i; receiver := r'; toInitiator := wi'; toReceiver := wr |}.

Definition mse_start (i : proc Out) (r : proc (bool * Out)) : Mse :=
  {| initiator := begin i; receiver := begin r; toInitiator := []; toReceiver := [] |}.
