(* ===== verification/MseRuns.v ===== *)
(** * Encrypted connections: runs of two ends

    Any two steps that are possible in a state can be taken in either order, to the same state.  So
    when one run of the two ends comes to an end, all do, in the same state ([uniform]); it remains
    to follow one of them, which [runs] does a turn of one end at a time. *)

From stdpp Require Import relations.
From S2P Require Import Prelude Sha1 Rc4 Handshake Mse.

(** ** Steps commute *)

Section Uniform.
Context {A : Type} (R : relation A).
Context (diamond : forall s a b, R s a -> R s b -> a = b \/ exists c, R a c /\ R b c).

Lemma uniform_once n s t nf : nsteps R n s nf -> (forall x, ~ R nf x) -> R s t -> exists m, n = S m /\ nsteps R m t nf.
Proof using diamond.
  intros Hn Hnf. revert t. induction Hn as [s|n s a nf Ha Hn IH]; intros t Ht; [by destruct (Hnf t)|].
  exists n. split; [done|]. destruct (diamond s a t Ha Ht) as [->|(c & Hac & Htc)]; [done|].
  destruct (IH Hnf c Hac) as (m & -> & Hm). by econstructor.
Qed.

(** Every run is the beginning of one that ends in the state [nf], after as many steps as the first. *)
Lemma uniform n k s t nf : nsteps R n s nf -> (forall x, ~ R nf x) -> nsteps R k s t -> exists m, n = k + m /\ nsteps R m t nf.
Proof using diamond.
  intros Hn Hnf Hk. revert n Hn. induction Hk as [s|k s a t Ha Hk IH]; intros n Hn; [by exists n|].
  destruct (uniform_once n s a nf Hn Hnf Ha) as (m & -> & Hm). destruct (IH m Hm) as (m' & -> & H'). by exists m'.
Qed.
End Uniform.

(** The goroutine of one end takes no more than a byte from what has arrived, whatever comes after it. *)
Lemma main_step_frame {R} f (e e1 : endpoint R) inp inp1 x :
  main_step f e inp = Some (e1, inp1) -> main_step f e (inp ++ x) = Some (e1, inp1 ++ x).
Proof.
  unfold main_step. intros H. repeat break_match_hyp H; simplify_eq; try done.
Qed.

Lemma main_step_takes {R} f (e e1 : endpoint R) inp inp1 :
  main_step f e inp = Some (e1, inp1) -> exists pre, inp = pre ++ inp1.
Proof. unfold main_step. intros H. repeat case_match; simplify_eq; (by exists []) || by eexists [_]. Qed.

(** Its writer adds to what is on the way, and does not mind if there is less of it. *)
Lemma writer_step_frame {R} cap (e e1 : endpoint R) pre out o :
  writer_step cap e (pre ++ out) = Some (e1, o) -> exists suf, o = pre ++ out ++ suf /\ writer_step cap e out = Some (e1, out ++ suf).
Proof.
  unfold writer_step. intros H. repeat case_match; simplify_eq; bool_to_prop;
    try (exists []; rewrite !app_nil_r; done); [|rewrite length_app in *; lia].
  eexists. by rewrite app_assoc.
Qed.

(** The goroutine does not look at the writer's state, except in the deferred function. *)
Lemma main_step_any {R} f m ws w err (e1 : endpoint R) inp inp1 :
  main_step f (Build_endpoint _ m ws w err false) inp = Some (e1, inp1) ->
  (forall r, m <> Finishing r) /\ exists m1 ps, forall ws w,
    main_step f (Build_endpoint _ m ws w err false) inp = Some (Build_endpoint _ m1 (ws ++ ps) w err false, inp1).
Proof.
  unfold main_step, with_writer, with_main. cbn. intros H.
  repeat break_match_hyp H; simplify_eq; (split; [done|]);
    (eexists _, []; intros; rewrite app_nil_r; reflexivity) || (eexists _, [_]; intros; reflexivity).
Qed.

Lemma main_writer {R} f cap (e e1 e2 : endpoint R) inp inp1 out out1 :
  main_step f e inp = Some (e1, inp1) -> writer_step cap e out = Some (e2, out1) ->
  exists e3, main_step f e2 inp = Some (e3, inp1) /\ writer_step cap e1 out = Some (e3, out1).
Proof.
  destruct e as [m ws w err d]. intros H1 H2. destruct d; [done|].
  destruct (main_step_any f m ws w err e1 inp inp1 H1) as (Hm & m1 & ps & Hany). rewrite Hany in H1. injection H1 as <-.
  unfold writer_step, with_writer in *. cbn in *. destruct w as [[|c rest]|].
  - simplify_eq. eauto.
  - case_match; simplify_eq. eauto.
  - destruct ws as [|b ws]; simplify_eq; cbn; [|eauto]. destruct m; [done| |done]. by destruct (Hm r).
Qed.

Lemma main_peer_writer {R R'} f cap (e e1 : endpoint R) (e' e2 : endpoint R') w w1 w2 :
  main_step f e w = Some (e1, w1) -> writer_step cap e' w = Some (e2, w2) ->
  exists w3, main_step f e w2 = Some (e1, w3) /\ writer_step cap e' w1 = Some (e2, w3).
Proof.
  intros H1 H2. destruct (main_step_takes f e e1 w w1 H1) as [pre ->].
  destruct (writer_step_frame cap e' e2 pre w1 w2 H2) as (suf & -> & H2'). exists (w1 ++ suf). split; [|done].
  rewrite app_assoc. by apply main_step_frame.
Qed.

Lemma mse_diamond cap s a b : mse_step cap s a -> mse_step cap s b -> a = b \/ exists c, mse_step cap a c /\ mse_step cap b c.
Proof.
  intros H1 H2. destruct H1 as [i r wi wr i1 wi1 H1|i r wi wr i1 wr1 H1|i r wi wr r1 wr1 H1|i r wi wr r1 wi1 H1];
    inversion H2 as [? ? ? ? i2 wi2 H3|? ? ? ? i2 wr2 H3|? ? ? ? r2 wr2 H3|? ? ? ? r2 wi2 H3]; subst; clear H2;
    try (left; congruence); right.
  - destruct (main_writer _ _ _ _ _ _ _ _ _ H1 H3) as (i3 & ? & ?). eexists. split; by constructor.
  - eexists. split; by constructor.
  - destruct (main_peer_writer _ _ _ _ _ _ _ _ _ H1 H3) as (wi3 & ? & ?). eexists. split; by constructor.
  - destruct (main_writer _ _ _ _ _ _ _ _ _ H3 H1) as (i3 & ? & ?). eexists. split; by constructor.
  - destruct (main_peer_writer _ _ _ _ _ _ _ _ _ H3 H1) as (wi3 & ? & ?). eexists. split; by constructor.
  - eexists. split; by constructor.
  - eexists. split; by constructor.
  - destruct (main_peer_writer _ _ _ _ _ _ _ _ _ H1 H3) as (wi3 & ? & ?). eexists. split; by constructor.
  - destruct (main_writer _ _ _ _ _ _ _ _ _ H1 H3) as (i3 & ? & ?). eexists. split; by constructor.
  - destruct (main_peer_writer _ _ _ _ _ _ _ _ _ H3 H1) as (wi3 & ? & ?). eexists. split; by constructor.
  - eexists. split; by constructor.
  - destruct (main_writer _ _ _ _ _ _ _ _ _ H3 H1) as (i3 & ? & ?). eexists. split; by constructor.
Qed.

(** ** Turns of one end *)

(** [m] reads from [inp], of which [rest] is left, posts [ps] and becomes [m']. *)
Inductive runs {R} : proc R -> bytes -> list bytes -> proc R -> bytes -> Prop :=
| runs_nil m inp : runs m inp [] m inp
| runs_post b k inp ps m' rest : runs (k None) inp ps m' rest -> runs (PostWrite b k) inp (b :: ps) m' rest
| runs_read n k x inp ps m' rest : length x = n -> runs (k x None) inp ps m' rest -> runs (ReadN n k) (x ++ inp) ps m' rest.

Lemma runs_trans {R} (m m' m'' : proc R) inp ps rest ps' rest' :
  runs m inp ps m' rest -> runs m' rest ps' m'' rest' -> runs m inp (ps ++ ps') m'' rest'.
Proof. induction 1; intros; [done|constructor; auto..]. Qed.

(** A part of a process that runs to its end, and what comes after it. *)
Lemma runs_then {A B} (f : A -> proc B) m a inp ps rest ps' m' rest' :
  runs m inp ps (Return a) rest -> runs (f a) rest ps' m' rest' -> runs (proc_then f m) inp (ps ++ ps') m' rest'.
Proof. intros H1. remember (Return a) as r eqn:E. induction H1; intros; subst; [done|cbn; constructor; auto..]. Qed.

Lemma runs_in {A B} (f : A -> proc B) m m' inp ps rest : runs m inp ps m' rest -> runs (proc_then f m) inp ps (proc_then f m') rest.
Proof. induction 1; cbn; by constructor. Qed.

Lemma runs_frame {R} (m m' : proc R) inp ps rest x : runs m inp ps m' rest -> runs m (inp ++ x) ps m' (rest ++ x).
Proof. induction 1; [constructor|by constructor|]. rewrite <-app_assoc. by constructor. Qed.

Lemma runs_before {R} (m m' : proc R) inp ps x : runs m inp ps m' [] -> runs m (inp ++ x) ps m' x.
Proof. apply runs_frame. Qed.

(** An end that nothing has happened to in the connection, with its queue. *)
Definition ready {R} (m : main R) (ws : list bytes) (done : bool) : endpoint R :=
  {| ep_main := m; ep_writes := ws; ep_writing := None; ep_writeErr := None; ep_writerDone := done |}.

Ltac ep_simpl := cbn [fst snd ready with_main with_writer ep_main ep_writes ep_writing ep_writeErr ep_writerDone].

Definition main_rel {R} f (x y : endpoint R * bytes) : Prop := main_step f x.1 x.2 = Some y.
Definition writer_rel {R} cap (x y : endpoint R * bytes) : Prop := writer_step cap x.1 x.2 = Some y.

Lemma read_main {R} f n k ws d x got inp :
  length got + length x = n ->
  rtc (main_rel (R:=R) f) (ready (Running (ReadN n k) got) ws d, x ++ inp) (ready (Running (k (got ++ x) None) []) ws d, inp).
Proof.
  revert got. induction x as [|c x IH]; intros got Hn; cbn in Hn.
  - apply rtc_once. unfold main_rel, main_step. ep_simpl. by rewrite (proj2 (Nat.ltb_ge _ _)), app_nil_r by lia.
  - eapply rtc_l; [|rewrite (cons_middle c got x), app_assoc; apply IH; rewrite length_app; simpl; lia].
    unfold main_rel, main_step. ep_simpl. by rewrite (proj2 (Nat.ltb_lt _ _)) by lia.
Qed.

Lemma runs_main {R} f (m m' : proc R) ws d inp ps rest :
  runs m inp ps m' rest ->
  rtc (main_rel f) (ready (Running m []) ws d, inp) (ready (Running m' []) (ws ++ ps) d, rest).
Proof.
  intros Hr. revert ws. induction Hr as [m inp|b k inp ps m' rest H IH|n k x inp ps m' rest Hn H IH]; intros ws.
  - by rewrite app_nil_r.
  - rewrite (cons_middle b ws ps), app_assoc. eapply rtc_l; [|apply IH]. done.
  - etrans; [by apply read_main|]. apply IH.
Qed.

Lemma write_buffer {R} cap (m : main R) ws b out :
  length out + length b <= cap ->
  rtc (writer_rel cap) (Build_endpoint _ m ws (Some b) None false, out) (ready m ws false, out ++ b).
Proof.
  revert out. induction b as [|c b IH]; intros out Hc; cbn in Hc.
  - rewrite app_nil_r. by apply rtc_once.
  - eapply rtc_l; [|rewrite (cons_middle c out b), app_assoc; apply IH; rewrite length_app; simpl; lia].
    unfold writer_rel, writer_step. ep_simpl. by rewrite (proj2 (Nat.ltb_lt _ _)) by lia.
Qed.

Lemma flush {R} cap (m : main R) ws out :
  length out + length (concat ws) <= cap ->
  rtc (writer_rel cap) (ready m ws false, out) (ready m [] false, out ++ concat ws).
Proof.
  revert out. induction ws as [|b ws IH]; intros out Hc; [cbn; by rewrite app_nil_r|].
  cbn in *. rewrite length_app in Hc. apply rtc_l with (Build_endpoint _ m ws (Some b) None false, out); [done|]. etrans; [apply write_buffer; lia|].
  rewrite app_assoc. apply IH. rewrite length_app. lia.
Qed.

(** A turn of the initiator or of the receiver: it runs, and what it posts is written. *)
Section Turns.
Context (cap : nat).

Lemma turn_initiator m m' r wi wr ps rest wr' :
  runs m wi ps m' rest -> wr ++ concat ps = wr' -> length wr' <= cap ->
  rtc (mse_step cap) {| initiator := ready (Running m []) [] false; receiver := r; toInitiator := wi; toReceiver := wr |}
    {| initiator := ready (Running m' []) [] false; receiver := r; toInitiator := rest; toReceiver := wr' |}.
Proof.
  intros H <- Hc. rewrite length_app in Hc. etrans.
  - apply (rtc_congruence (R:=main_rel orWriteErr) (fun x => {| initiator := x.1; receiver := r; toInitiator := x.2; toReceiver := wr |})
      _ (ready (Running m []) [] false, wi) (ready (Running m' []) ps false, rest)); [|exact (runs_main orWriteErr m m' [] false wi ps rest H)].
    intros [??] [??] Hs. by constructor.
  - apply (rtc_congruence (R:=writer_rel cap) (fun x => {| initiator := x.1; receiver := r; toInitiator := rest; toReceiver := x.2 |})
      _ (ready (Running m' []) ps false, wr) (ready (Running m' []) [] false, wr ++ concat ps)); [|by apply (flush cap)].
    intros [??] [??] Hs. by constructor.
Qed.

Lemma turn_receiver m m' i wi wr ps rest wi' :
  runs m wr ps m' rest -> wi ++ concat ps = wi' -> length wi' <= cap ->
  rtc (mse_step cap) {| initiator := i; receiver := ready (Running m []) [] false; toInitiator := wi; toReceiver := wr |}
    {| initiator := i; receiver := ready (Running m' []) [] false; toInitiator := wi'; toReceiver := rest |}.
Proof.
  intros H <- Hc. rewrite length_app in Hc. etrans.
  - apply (rtc_congruence (R:=main_rel (fun bo e => (bo.1, orWriteErr bo.2 e))) (fun x => {| initiator := i; receiver := x.1; toInitiator := wi; toReceiver := x.2 |})
      _ (ready (Running m []) [] false, wr) (ready (Running m' []) ps false, rest)); [|exact (runs_main (fun bo e => (bo.1, orWriteErr bo.2 e)) m m' [] false wr ps rest H)].
    intros [??] [??] Hs. by constructor.
  - apply (rtc_congruence (R:=writer_rel cap) (fun x => {| initiator := i; receiver := x.1; toInitiator := x.2; toReceiver := rest |})
      _ (ready (Running m' []) ps false, wi) (ready (Running m' []) [] false, wi ++ concat ps)); [|by apply (flush cap)].
    intros [??] [??] Hs. by constructor.
Qed.

Lemma orWriteErr_none o : orWriteErr o None = o.
Proof. destruct o as [? ? [?|] ?]; done. Qed.

Lemma finish_initiator o r wi wr :
  rtc (mse_step cap) {| initiator := ready (Running (Return o) []) [] false; receiver := r; toInitiator := wi; toReceiver := wr |}
    {| initiator := ready (Done o) [] true; receiver := r; toInitiator := wi; toReceiver := wr |}.
Proof.
  eapply rtc_l; [by apply step_initiator|]. eapply rtc_l; [by apply step_initiator_writer|]. apply rtc_once, step_initiator.
  unfold main_step. cbn. by rewrite orWriteErr_none.
Qed.

Lemma finish_receiver o i wi wr :
  rtc (mse_step cap) {| initiator := i; receiver := ready (Running (Return o) []) [] false; toInitiator := wi; toReceiver := wr |}
    {| initiator := i; receiver := ready (Done o) [] true; toInitiator := wi; toReceiver := wr |}.
Proof.
  eapply rtc_l; [by apply step_receiver|]. eapply rtc_l; [by apply step_receiver_writer|]. apply rtc_once, step_receiver.
  unfold main_step. cbn. rewrite orWriteErr_none. by destruct o.
Qed.

(** Two ends that are done have no more steps. *)
Lemma done_stuck oi or x :
  ~ mse_step cap {| initiator := ready (Done oi) [] true; receiver := ready (Done or) [] true; toInitiator := []; toReceiver := [] |} x.
Proof. inversion 1; done. Qed.
End Turns.

(** ** Less room on the way *)

(** The goroutine will not read any more. *)
Definition finished {R} (m : main R) : bool :=
  match m with
  | Running (PostWrite _ _) _ | Running (ReadN _ _) _ | Running (Return _) _ => false
  | _ => true
  end.

Lemma finished_main {R} f (e e1 : endpoint R) inp inp1 :
  main_step f e inp = Some (e1, inp1) -> finished (ep_main e) = true -> finished (ep_main e1) = true /\ inp1 = inp.
Proof. unfold main_step. intros H. repeat break_match_hyp H; simplify_eq; done. Qed.

Lemma writer_step_main {R} cap (e e1 : endpoint R) out out1 :
  writer_step cap e out = Some (e1, out1) -> ep_main e1 = ep_main e /\ (out <> [] -> out1 <> []).
Proof. unfold writer_step. intros H. repeat break_match_hyp H; simplify_eq; (split; [done|]); try done. by destruct out. Qed.

(** Bytes on the way to an end that has finished stay there. *)
Lemma finished_stays cap s t : mse_step cap s t ->
  (finished (ep_main (receiver s)) = true /\ toReceiver s <> [] -> finished (ep_main (receiver t)) = true /\ toReceiver t <> []) /\
  (finished (ep_main (initiator s)) = true /\ toInitiator s <> [] -> finished (ep_main (initiator t)) = true /\ toInitiator t <> []).
Proof.
  destruct 1 as [i r wi wr i1 wi1 H|i r wi wr i1 wr1 H|i r wi wr r1 wr1 H|i r wi wr r1 wi1 H]; cbn; split; intros [H1 H2]; try done.
  - by destruct (finished_main _ _ _ _ _ H H1) as [? ->].
  - split; [done|]. by apply (writer_step_main _ _ _ _ _ H).
  - destruct (writer_step_main _ _ _ _ _ H) as [-> _]. done.
  - by destruct (finished_main _ _ _ _ _ H H1) as [? ->].
  - destruct (writer_step_main _ _ _ _ _ H) as [-> _]. done.
  - split; [done|]. by apply (writer_step_main _ _ _ _ _ H).
Qed.

Lemma writer_step_room {R} cap K (e e1 : endpoint R) out out1 : 1 <= cap ->
  writer_step K e out = Some (e1, out1) -> writer_step cap e out = Some (e1, out1) \/ out <> [].
Proof.
  intros Hc. unfold writer_step. intros H. repeat break_match_hyp H; simplify_eq; bool_to_prop; try (left; done).
  destruct out as [|x out]; [|by right]. left. by rewrite (proj2 (Nat.ltb_lt _ _)).
Qed.

Lemma main_blocked {R} f (e : endpoint R) inp : main_step f e inp = None -> inp <> [] -> finished (ep_main e) = true.
Proof. unfold main_step. intros H Hi. repeat break_match_hyp H; simplify_eq; done. Qed.

Lemma writer_step_mono {R} cap K (e : endpoint R) out x : cap <= K -> writer_step cap e out = Some x -> writer_step K e out = Some x.
Proof.
  intros Hc. unfold writer_step. intros H. repeat break_match_hyp H; simplify_eq; bool_to_prop; try done.
  by rewrite (proj2 (Nat.ltb_lt _ _)) by lia.
Qed.

Lemma mse_step_mono cap K s t : cap <= K -> mse_step cap s t -> mse_step K s t.
Proof. intros Hc. destruct 1; constructor; try done; by eapply writer_step_mono. Qed.

(** Less room does not make the ends stop before they would with more, provided there is some, and
    all that is sent is read. *)
Lemma stuck_room cap K s oi or :
  1 <= cap <= K -> (forall t, ~ mse_step cap s t) ->
  rtc (mse_step K) s {| initiator := ready (Done oi) [] true; receiver := ready (Done or) [] true; toInitiator := []; toReceiver := [] |} ->
  forall t, ~ mse_step K s t.
Proof.
  intros [H1 HK] Hs Hr t Ht. set (nf := Build_Mse _ _ _ _) in Hr.
  assert (~ (finished (ep_main (receiver s)) = true /\ toReceiver s <> []) /\ ~ (finished (ep_main (initiator s)) = true /\ toInitiator s <> [])) as [HR HI].
  { split; intros H.
    - assert (finished (ep_main (receiver nf)) = true /\ toReceiver nf <> []) as [_ ?]; [|done].
      clear -H Hr. induction Hr as [|s s' nf Hs Hr IH]; [done|]. apply IH. by apply (finished_stays K s s' Hs).
    - assert (finished (ep_main (initiator nf)) = true /\ toInitiator nf <> []) as [_ ?]; [|done].
      clear -H Hr. induction Hr as [|s s' nf Hs Hr IH]; [done|]. apply IH. by apply (finished_stays K s s' Hs). }
  destruct Ht as [i r wi wr i1 wi1 H|i r wi wr i1 wr1 H|i r wi wr r1 wr1 H|i r wi wr r1 wi1 H]; cbn in HR, HI.
  - by eapply Hs, step_initiator.
  - destruct (writer_step_room cap K _ _ _ _ H1 H) as [H'|Hw]; [by eapply Hs, step_initiator_writer|].
    apply HR. split; [|done]. eapply main_blocked; [|done].
    destruct (main_step (fun bo e => (bo.1, orWriteErr bo.2 e)) r wr) as [[??]|] eqn:E; [|exact E]. exfalso. by eapply Hs, step_receiver.
  - by eapply Hs, step_receiver.
  - destruct (writer_step_room cap K _ _ _ _ H1 H) as [H'|Hw]; [by eapply Hs, step_receiver_writer|].
    apply HI. split; [|done]. eapply main_blocked; [|done].
    destruct (main_step orWriteErr i wi) as [[??]|] eqn:E; [|exact E]. exfalso. by eapply Hs, step_initiator.
Qed.

(** With any room: if one run ends with both done and nothing on the way, every run does. *)
Lemma all_runs_end cap K s oi or :
  1 <= cap <= K ->
  rtc (mse_step K) s {| initiator := ready (Done oi) [] true; receiver := ready (Done or) [] true; toInitiator := []; toReceiver := [] |} ->
  exists n, forall k t, nsteps (mse_step cap) k s t -> k <= n /\
    ((forall t', ~ mse_step cap t t') -> ep_main (initiator t) = Done oi /\ ep_main (receiver t) = Done or /\ toInitiator t = [] /\ toReceiver t = []).
Proof.
  intros Hc [n Hn]%rtc_nsteps_1. exists n. intros k t Hk.
  assert (nsteps (mse_step K) k s t) as Hk'.
  { clear -Hk Hc. induction Hk; [constructor|]. econstructor; [|done]. eapply mse_step_mono; [|done]. lia. }
  destruct (uniform (mse_step K) (mse_diamond K) n k s t _ Hn (done_stuck K oi or) Hk') as (m & -> & Hm). split; [lia|]. intros Hs.
  pose proof (stuck_room cap K t oi or Hc Hs (rtc_nsteps_2 _ _ _ Hm)) as HsK.
  inversion Hm as [|? ? t' ? Ht]; subst; [done|]. by destruct (HsK t').
Qed.

(** ** One end, whatever it is connected to *)

(** Any bytes may arrive, reads and writes may fail; the number counts the bytes that were read. *)
Inductive env_step {R} f : endpoint R * nat -> endpoint R * nat -> Prop :=
| env_main e inp e' inp' c : main_step f e inp = Some (e', inp') -> env_step f (e, c) (e', c + (length inp - length inp'))
| env_writer cap e out e' out' c : writer_step cap e out = Some (e', out') -> env_step f (e, c) (e', c)
| env_read_fails err e e' c : read_fails err e = Some e' -> env_step f (e, c) (e', c)
| env_write_fails err e e' c : write_fails err e = Some e' -> env_step f (e, c) (e', c).

(** Whatever it reads, the process does not panic, nor ask for more than [budget] bytes, and what it
    returns satisfies [Q]. *)
Fixpoint total {R} (budget : nat) (Q : R -> Prop) (m : proc R) : Prop :=
  match m with
  | Return r => Q r
  | Panics | OutOfFuel => False
  | PostWrite b k => forall e, total budget Q (k e)
  | ReadN n k =>
      n <= budget /\ (forall got, length got = n -> total (budget - n) Q (k got None)) /\
      forall got e, length got < n -> total (budget - length got) Q (k got (Some e))
  end.

Lemma total_mono {R} b b' (Q Q' : R -> Prop) m : total b Q m -> b <= b' -> (forall r, Q r -> Q' r) -> total b' Q' m.
Proof.
  revert b b'. induction m as [r| | |w k IH|n k IH]; cbn; intros b b' H Hb HQ; [by apply HQ|done|done| |].
  - intros e. by apply (IH e b).
  - destruct H as (H1 & H2 & H3). split; [lia|]. split.
    + intros got Hg. apply (IH got None (b - n)); [by apply H2|lia|done].
    + intros got e Hg. apply (IH got (Some e) (b - length got)); [by apply H3|lia|done].
Qed.

Lemma total_then {A B} b1 b2 (P : A -> Prop) (Q : B -> Prop) m f :
  total b1 P m -> (forall a, P a -> total b2 Q (f a)) -> total (b1 + b2) Q (proc_then f m).
Proof.
  intros H Hf. revert b1 H. induction m as [r| | |w k IH|n k IH]; cbn; intros b1 H; [|done|done| |].
  - eapply total_mono; [by apply Hf|lia|done].
  - intros e. by apply IH.
  - destruct H as (H1 & H2 & H3). split; [lia|]. split.
    + intros got Hg. replace (b1 + b2 - n) with (b1 - n + b2) by lia. by apply IH, H2.
    + intros got e Hg. replace (b1 + b2 - length got) with (b1 - length got + b2) by lia. by apply IH, H3.
Qed.

Lemma total_unread {R} b (Q : R -> Prop) m front : total b Q m -> total (b - length front) Q (unread front m).
Proof.
  revert b front. induction m as [r| | |w k IH|n k IH]; cbn [total unread]; intros b front H; [done|done|done| |].
  - intros e. by apply IH.
  - destruct H as (H1 & H2 & H3). destruct (Nat.leb_spec n (length front)).
    + replace (b - length front) with (b - n - length (drop n front)) by (rewrite length_drop; lia).
      apply IH, H2. rewrite length_take. lia.
    + cbn [total]. split; [lia|]. split.
      * intros got Hg. eapply total_mono; [apply (IH _ None (b - n) []), H2; rewrite length_app; lia|cbn; lia|done].
      * intros got e Hg. eapply total_mono; [apply (IH _ (Some e) (b - length (front ++ got)) []), H3; rewrite length_app; lia|cbn; rewrite length_app; lia|done].
Qed.

(** The goroutine of an end, while [c] bytes were read. *)
Definition main_total {R} (bound : nat) (Q : R -> Prop) (m : main R) (c : nat) : Prop :=
  c <= bound /\
  match m with
  | Running m got => length got <= c /\ total (bound - (c - length got)) Q m /\ match m with ReadN n _ => length got <= n | _ => got = [] end
  | _ => True
  end.

Lemma main_total_next {R} bound (Q : R -> Prop) m c : c <= bound -> total (bound - c) Q m -> main_total bound Q (Running m []) c.
Proof. intros Hc Ht. split; [done|]. cbn [length]. rewrite Nat.sub_0_r. split; [lia|]. split; [done|]. destruct m; cbn; done || lia. Qed.

Lemma env_total {R} f bound (Q : R -> Prop) x y :
  env_step f x y -> main_total bound Q (ep_main x.1) x.2 -> main_total bound Q (ep_main y.1) y.2.
Proof.
  destruct 1 as [e inp e' inp' c Hs|cap e out e' out' c Hs|err e e' c Hs|err e e' c Hs]; cbn [fst snd].
  - unfold main_step in Hs. destruct e as [[[r| | |b k|n k] got|r|r] ws w werr d]; cbn [ep_main ep_writeErr ep_writerDone] in Hs |- *; try done.
    + simplify_eq. rewrite Nat.sub_diag, Nat.add_0_r. by intros [? _].
    + intros (Hc & Hg & Ht & ->). cbn in Ht. rewrite Nat.sub_0_r in Ht.
      destruct werr; simplify_eq; rewrite Nat.sub_diag, Nat.add_0_r; by apply main_total_next.
    + intros (Hc & Hg & (H1 & H2 & H3) & Hn). destruct (Nat.ltb_spec (length got) n).
      * destruct inp as [|x inp]; [done|]. simplify_eq. unfold main_total. cbn [with_main ep_main]. rewrite length_app. cbn [length].
        replace (S (length inp') - length inp') with 1 by lia. replace (c + 1 - (length got + 1)) with (c - length got) by lia. split; [lia|].
        split; [lia|]. split; [done|lia].
      * simplify_eq. rewrite Nat.sub_diag, Nat.add_0_r. apply main_total_next; [done|].
        replace (bound - c) with (bound - (c - length got) - n) by lia. apply H2. lia.
    + intros [Hc _]. destruct d; simplify_eq. by rewrite Nat.sub_diag, Nat.add_0_r.
  - by destruct (writer_step_main _ _ _ _ _ Hs) as [-> _].
  - unfold read_fails in Hs. destruct e as [[[r| | |b k|n k] got|r|r] ws w werr d]; cbn [ep_main] in Hs |- *; try done.
    intros (Hc & Hg & (H1 & H2 & H3) & Hn). destruct (Nat.ltb_spec (length got) n); simplify_eq. apply main_total_next; [done|].
    replace (bound - c) with (bound - (c - length got) - length got) by lia. by apply H3.
  - unfold write_fails in Hs. repeat break_match_hyp Hs; simplify_eq. done.
Qed.

(** *** Histories are finite *)

(** How much the writer has still to do. *)
Definition writer_work {R} (e : endpoint R) : nat :=
  if ep_writerDone e then 0
  else 1 + length (concat (ep_writes e)) + 2 * length (ep_writes e) + match ep_writing e with Some b => 1 + length b | None => 0 end.

Lemma writer_works {R} cap (e e' : endpoint R) out out' :
  writer_step cap e out = Some (e', out') -> ep_main e' = ep_main e /\ writer_work e' < writer_work e.
Proof.
  intros H. split; [by apply (writer_step_main _ _ _ _ _ H)|]. destruct e as [m ws w werr d]. unfold writer_step, writer_work in *. cbn in H |- *.
  repeat break_match_hyp H; simplify_eq; cbn; rewrite ?length_app; lia.
Qed.

Lemma write_fails_works {R} err (e e' : endpoint R) :
  write_fails err e = Some e' -> ep_main e' = ep_main e /\ writer_work e' < writer_work e.
Proof.
  destruct e as [m ws w werr d]. unfold write_fails, writer_work. cbn. intros H. repeat break_match_hyp H; simplify_eq; cbn. split; [done|lia].
Qed.

Section Finite.
Context {R : Type} (f : R -> option IoError -> R).
#[local] Notation finite := (Acc (fun y x => env_step f x y)).

(** It is enough that the goroutine's own steps lead to states with finite histories. *)
Lemma finite_writer (m : main R) :
  (forall e c x, ep_main e = m -> (exists inp e' inp', main_step f e inp = Some (e', inp') /\ x = (e', c + (length inp - length inp'))) \/
                 (exists err e', read_fails err e = Some e' /\ x = (e', c)) -> finite x) ->
  forall e c, ep_main e = m -> finite (e, c).
Proof.
  intros Hm e. induction e as [e IH] using (induction_ltof1 _ writer_work). unfold ltof in IH. intros c Ee. constructor. intros x Hx.
  inversion Hx as [? inp e' inp' ? Hs|? ? ? e' ? ? Hs|err ? e' ? Hs|? ? e' ? Hs]; subst.
  - apply (Hm e c); [done|]. left. by exists inp, e', inp'.
  - destruct (writer_works _ _ _ _ _ Hs) as [E Hw]. apply IH; [done|by rewrite E].
  - apply (Hm e c); [done|]. right. by exists err, e'.
  - destruct (write_fails_works _ _ _ Hs) as [E Hw]. apply IH; [done|by rewrite E].
Qed.

(** A step of the goroutine's own, in a state that is known. *)
Ltac own_step :=
  intros e c x Ee [(inp & e' & inp' & Hs & ->)|(err & e' & Hs & ->)]; unfold main_step, read_fails in Hs; rewrite Ee in Hs.

Lemma finite_done r e c : ep_main e = Done r -> finite (e, c).
Proof using.
  apply finite_writer. clear. by own_step.
Qed.

Lemma finite_finishing r e c : ep_main e = Finishing r -> finite (e, c).
Proof using.
  apply finite_writer. clear. own_step; [|done]. destruct (ep_writerDone e); simplify_eq. by eapply finite_done.
Qed.

Lemma finite_running (m : proc R) got e c : ep_main e = Running m got -> finite (e, c).
Proof using.
  revert got e c. induction m as [r| | |b k IH|n k IH]; intros got.
  - intros e c. apply finite_writer. clear. own_step; [|done]. simplify_eq. by eapply finite_finishing.
  - intros e c. apply finite_writer. clear. by own_step.
  - intros e c. apply finite_writer. clear. by own_step.
  - intros e c. apply finite_writer. clear e c. own_step; [|done]. destruct (ep_writeErr e); simplify_eq; by eapply IH.
  - remember (n - length got) as k' eqn:Ek. revert got Ek. induction k' as [k' IHk] using lt_wf_ind. intros got Ek e c.
    apply finite_writer. clear e c. own_step; destruct (Nat.ltb_spec (length got) n); simplify_eq; try (by eapply IH).
    destruct inp as [|x inp]; simplify_eq. eapply IHk; [|done|done]. rewrite length_app. cbn. lia.
Qed.
Lemma finite_any e c : finite (e, c).
Proof using.
  destruct (ep_main e) as [m got|r|r] eqn:Ee; [by eapply finite_running|by eapply finite_finishing|by eapply finite_done].
Qed.
End Finite.
