(* ===== verification/MseTheory.v ===== *)
(** * Encrypted connections: the handshake completes and agrees

    The numbers of the key exchange, [readUntil] against the first occurrence of what it looks for,
    what one end does with arbitrary input, and the handshake of two ends. *)

From Stdlib Require Import Zpow_facts.
From stdpp Require Import relations.
From S2P Require Import Prelude Sha1 Rc4 Handshake Mse MseRuns.

(** ** Numbers *)

Lemma p_range : (1 < p < 2 ^ 768)%Z.
Proof. by vm_compute. Qed.

#[local] Opaque p.

Lemma big_Bytes_length z n : (0 <= z < 2 ^ (8 * Z.of_nat n))%Z -> length (big_Bytes z) <= n.
Proof.
  intros Hz. unfold big_Bytes. rewrite be_put_length. destruct (Z.eqb_spec z 0); [lia|].
  assert (Z.log2 z < 8 * Z.of_nat n)%Z by (apply Z.log2_lt_pow2; lia). pose proof (Z.log2_nonneg z).
  assert (Z.log2 z / 8 < Z.of_nat n)%Z by (apply Z.div_lt_upper_bound; lia). pose proof (Z.div_pos (Z.log2 z) 8). lia.
Qed.

Lemma be_get_big_Bytes z : (0 <= z)%Z -> be_get (big_Bytes z) = z.
Proof.
  intros Hz. unfold big_Bytes. destruct (Z.eqb_spec z 0) as [->|]; [done|]. apply be_get_put_small. split; [done|].
  pose proof (Z.log2_nonneg z). pose proof (Z.div_pos (Z.log2 z) 8). pose proof (Z.log2_spec z).
  eapply Z.lt_le_trans; [apply H1; lia|]. apply Z.pow_le_mono_r; [done|].
  pose proof (Z.mul_succ_div_gt (Z.log2 z) 8). lia.
Qed.

Lemma be_get_zeros n b : be_get (replicate n x00 ++ b) = be_get b.
Proof.
  unfold be_get. rewrite fold_left_app. f_equal. induction n as [|n IH]; [done|]. done.
Qed.

(** Zeroes before a number up to a fixed width. *)
Lemma zeros_big_Bytes z n : (0 <= z < 2 ^ (8 * Z.of_nat n))%Z ->
  replicate (n - length (big_Bytes z)) x00 ++ big_Bytes z = be_put n z.
Proof.
  intros Hz. pose proof (big_Bytes_length z n Hz). rewrite <-(be_put_get n (replicate _ _ ++ _)).
  - by rewrite be_get_zeros, be_get_big_Bytes by lia.
  - rewrite length_app, length_replicate. lia.
Qed.

Lemma paddedLeft_ok z n : (0 <= z < 2 ^ (8 * Z.of_nat n))%Z -> paddedLeft (big_Bytes z) n = Some (be_put n z).
Proof.
  intros Hz. pose proof (big_Bytes_length z n Hz). rewrite <-(zeros_big_Bytes z n Hz). unfold paddedLeft.
  destruct (Nat.eqb_spec (length (big_Bytes z)) n) as [->|]; [by rewrite Nat.sub_diag|].
  by destruct (Nat.ltb_spec n (length (big_Bytes z))); [lia|].
Qed.

Lemma big_Exp_range x y : (0 <= big_Exp x y p < 2 ^ (8 * Z.of_nat 96))%Z.
Proof.
  unfold big_Exp. rewrite Zpow_mod_correct by (pose proof p_range; lia). pose proof p_range.
  pose proof (Z.mod_pos_bound (x ^ y) p). change (8 * Z.of_nat 96)%Z with 768%Z. lia.
Qed.

(** The public key, and the secret that one end computes from the key of the other. *)
Definition public (d : Draws) : bytes := be_put 96 (big_Exp specG (be_get (d_X d)) p).
Definition secret (d : Draws) (Y : bytes) : bytes := be_put 96 (big_Exp (be_get Y) (be_get (d_X d)) p).

Lemma public_length d : length (public d) = 96.
Proof. apply be_put_length. Qed.

(** Both compute the same. *)
Lemma secret_shared d d' : secret d (public d') = secret d' (public d).
Proof.
  unfold secret, public. f_equal. rewrite !be_get_put_small by apply big_Exp_range. unfold big_Exp.
  pose proof p_range. pose proof (be_get_bound (d_X d)). pose proof (be_get_bound (d_X d')).
  rewrite !Zpow_mod_correct, <-!Zpower_mod, <-!Z.pow_mul_r by lia. by rewrite (Z.mul_comm (be_get (d_X d))).
Qed.

(** ** Looking for a byte string *)

Lemma suffix_matches_spec n j i (a b : bytes) : n + j = i ->
  suffix_matches n j i a b = true <-> forall t, j <= t < i -> b !! (i - 1 - t) = a !! (length a - 1 - t).
Proof.
  revert j. induction n as [|n IH]; intros j E; cbn [suffix_matches].
  - split; [intros _ t Ht; lia|done].
  - case_bool_decide as Hb.
    + rewrite IH by lia. split; intros H t Ht; [|apply H; lia]. destruct (decide (t = j)) as [->|]; [done|]. apply H; lia.
    + split; [done|]. intros H. destruct Hb. apply H. lia.
Qed.

Lemma suffix_matches_iff i (a b : bytes) : i <= length a -> i <= length b ->
  suffix_matches i 0 i a b = true <-> take i b = drop (length a - i) a.
Proof.
  intros Ha Hb. rewrite suffix_matches_spec by lia. split.
  - intros H. apply list_eq. intros q. destruct (decide (q < i)) as [Hq|].
    + rewrite lookup_take_lt, lookup_drop by lia. specialize (H (i - 1 - q)).
      replace (i - 1 - (i - 1 - q)) with q in H by lia. rewrite H by lia. f_equal. lia.
    + rewrite lookup_take_ge by lia. symmetry. apply lookup_ge_None. rewrite length_drop. lia.
  - intros H t Ht. apply (f_equal (lookup (i - 1 - t))) in H. rewrite lookup_take_lt, lookup_drop in H by lia. rewrite H. f_equal. lia.
Qed.

(** The longest beginning of [b] that [a] ends with. *)
Lemma suffixMatchLen_loop_spec i (a b : bytes) : i <= length a -> i <= length b ->
  let r := suffixMatchLen_loop i a b in
  r <= i /\ take r b = drop (length a - r) a /\ forall j, j <= i -> take j b = drop (length a - j) a -> j <= r.
Proof.
  induction i as [|i IH]; intros Ha Hb r; subst r.
  - split; [done|]. split; [cbn; by rewrite Nat.sub_0_r, drop_ge by lia|lia].
  - cbn [suffixMatchLen_loop]. destruct (suffix_matches (S i) 0 (S i) a b) eqn:E.
    + apply suffix_matches_iff in E; [|done..]. done.
    + destruct IH as (H1 & H2 & H3); [lia..|]. split; [lia|]. split; [done|]. intros j Hj Ej.
      destruct (decide (j = S i)) as [->|]; [|apply H3; [lia|done]].
      apply (suffix_matches_iff (S i) a b Ha Hb) in Ej. congruence.
Qed.

Lemma suffixMatchLen_spec (a b : bytes) : length a = length b ->
  let r := suffixMatchLen a b in
  r <= length b /\ take r b = drop (length a - r) a /\ forall j, j <= length b -> take j b = drop (length a - j) a -> j <= r.
Proof. intros E. unfold suffixMatchLen. rewrite (proj2 (Nat.ltb_ge (length a) (length b))) by lia. apply suffixMatchLen_loop_spec; lia. Qed.

(** [b] does not occur in [u ++ b] before its end. *)
Definition first_at (u b : bytes) : bool :=
  forallb (fun i => negb (bool_decide (take (length b) (drop i (u ++ b)) = b))) (seq 0 (length u)).

Lemma first_at_end u b : first_at u b = true -> forall u' v, u ++ b = u' ++ b ++ v -> v = [].
Proof.
  intros H u' v E. destruct (decide (length u' < length u)) as [Hl|Hl].
  - unfold first_at in H. rewrite forallb_forall in H. specialize (H (length u')).
    rewrite E, drop_app_length, take_app_length, bool_decide_true in H by done. exfalso. apply diff_false_true, H, in_seq. lia.
  - apply (f_equal length) in E. rewrite !length_app in E. apply length_zero_iff_nil. lia.
Qed.

(** A round of the loop: the window holds the last bytes that were read, [c], of which the last [i]
    are a beginning of [b]. *)
Record window (b b1 : bytes) (i : nat) (c : bytes) : Prop := {
  wi_length : length b1 = length b;
  wi_short : i < length b;
  wi_read : i <= length c;
  wi_match : take i b1 = drop (length c - i) c;
}.

Lemma window_start (b : bytes) : b <> [] -> window b (replicate (length b) x00) 0 [].
Proof. intros Hb. constructor; [by rewrite length_replicate| |done|done]. destruct b; [done|]. cbn. lia. Qed.

(** After [got] is read, either [b] has been seen, or the longest beginning of it that is at the end. *)
Lemma window_next (b b1 : bytes) i c got : window b b1 i c -> length got = length b - i ->
  let b1' := take i b1 ++ got in
  let i' := suffixMatchLen b1' b in
  if i' =? length b then exists u, c ++ got = u ++ b
  else window b (drop (length b1' - i') b1' ++ drop i' b1') i' (c ++ got) /\
       forall u v, (exists r, c ++ got ++ r = u ++ b ++ v) -> length c <= length u + i -> length c + length got <= length u + length b ->
         length (c ++ got) <= length u + i'.
Proof.
  intros [H1 H2 H3 H4] Hg b1' i'.
  assert (length b1' = length b) as Hl by (unfold b1'; rewrite length_app, length_take; lia).
  assert (b1' = drop (length (c ++ got) - length b) (c ++ got)) as Eb.
  { unfold b1'. rewrite H4, length_app. replace (length c + length got - length b) with (length c - i) by lia.
    by rewrite drop_app_le by lia. }
  destruct (suffixMatchLen_spec b1' b Hl) as (S1 & S2 & S3). fold i' in S1, S2, S3.
  destruct (Nat.eqb_spec i' (length b)) as [E|E].
  - exists (take (length (c ++ got) - length b) (c ++ got)). rewrite E, firstn_all, Hl, Nat.sub_diag in S2. cbn in S2.
    rewrite <-(take_drop (length (c ++ got) - length b) (c ++ got)) at 1. f_equal. rewrite drop_0 in S2. congruence.
  - split.
    + constructor; [rewrite length_app, !length_drop; lia|lia|rewrite length_app; lia|].
      rewrite take_app_le, take_ge by (rewrite length_drop; lia). rewrite Eb, drop_drop. f_equal. rewrite length_drop, length_app. lia.
    + intros u v [r Er] Hu Hend. rewrite length_app. destruct (decide (length c + length got <= length u)); [lia|].
      set (L := length c + length got - length u). assert (L <= i'); [|lia]. apply S3; [lia|].
      assert (c ++ got = u ++ take L b) as Ec.
      { apply (f_equal (take (length (c ++ got)))) in Er. rewrite app_assoc, take_app_length in Er. rewrite Er, length_app.
        replace (length c + length got) with (length u + L) by lia. by rewrite take_app_add, take_app_le by lia. }
      rewrite Hl, Eb, drop_drop, length_app. replace (_ + _) with (length u) by lia. by rewrite Ec, drop_app_length.
Qed.

(** What a process returns when the connection is closed after [inp], and what it has not read. *)
Fixpoint on_stream {R} (m : proc R) (inp : bytes) : option (R * bytes) :=
  match m with
  | Return r => Some (r, inp)
  | Panics | OutOfFuel => None
  | PostWrite b k => on_stream (k None) inp
  | ReadN n k => if n <=? length inp then on_stream (k (take n inp) None) (drop n inp) else on_stream (k inp (Some EOF)) []
  end.

Lemma runs_on_stream {R} (m : proc R) inp ps r rest : runs m inp ps (Return r) rest -> on_stream m inp = Some (r, rest).
Proof.
  intros H. remember (Return r) as m' eqn:E. induction H as [m inp|b k inp ps m' rest H IH|n k x inp ps m' rest Hn H IH]; subst; [done|by apply IH|].
  cbn. rewrite (proj2 (Nat.leb_le _ _)) by (rewrite length_app; lia). rewrite take_app_length, drop_app_length. by apply IH.
Qed.

Lemma readUntil_loop_runs fuel limit b b1 i c r u :
  window b b1 i c -> c ++ r = u ++ b -> (forall u' v, u ++ b = u' ++ b ++ v -> v = []) ->
  length c <= length u + i -> length r <= limit -> length r < fuel ->
  runs (readUntil_loop fuel limit b b1 i) r [] (Return None) [].
Proof.
  intros Hw E Hfirst. revert limit b1 i c r Hw E. induction fuel as [|fuel IH]; intros limit b1 i c r Hw E Hc Hl Hf; [lia|].
  pose proof (wi_length _ _ _ _ Hw) as H1. pose proof (wi_short _ _ _ _ Hw) as H2.
  pose proof (f_equal length E) as El. rewrite !length_app in El. cbn [readUntil_loop].
  rewrite (proj2 (Nat.ltb_ge _ _)) by lia. unfold ReadFull. rewrite <-(take_drop (length b1 - i) r).
  set (got := take (length b1 - i) r). set (r' := drop (length b1 - i) r).
  assert (length got = length b - i) as Hg by (unfold got; rewrite length_take; lia).
  apply runs_read; [lia|]. cbn [mbind proc_bind proc_then].
  pose proof (window_next b b1 i c got Hw Hg) as Hn. cbv zeta in Hn. set (b1' := take i b1 ++ got) in *. set (i' := suffixMatchLen b1' b) in *.
  assert (c ++ got ++ r' = u ++ b) as E' by (unfold got, r'; by rewrite take_drop).
  assert (length r' = length r - (length b - i)) as Hr' by (unfold r'; rewrite length_drop; lia).
  destruct (i' =? length b).
  - destruct Hn as [u' Hu]. rewrite app_assoc, Hu, <-app_assoc in E'. rewrite (Hfirst u' r' (eq_sym E')). constructor.
  - destruct Hn as [Hw' Hn]. apply (IH _ _ _ (c ++ got)); [done|by rewrite <-app_assoc| |lia..].
    apply (Hn u []); [exists r'; by rewrite app_nil_r|done|]. lia.
Qed.

Lemma readUntil_runs limit b u :
  b <> [] -> (forall u' v, u ++ b = u' ++ b ++ v -> v = []) -> length u + length b <= limit ->
  runs (readUntil limit b) (u ++ b) [] (Return None) [].
Proof.
  intros Hb Hfirst Hl. apply readUntil_loop_runs with (c := []) (u := u); [by apply window_start|done|done|cbn; lia|rewrite length_app; lia..].
Qed.

Lemma readUntil_loop_misses fuel limit b b1 i c r :
  window b b1 i c -> (forall u v, c ++ r = u ++ b ++ v -> length c + limit < length u + length b) -> limit < fuel ->
  exists e, on_stream (readUntil_loop fuel limit b b1 i) r = Some (Some e, drop limit r).
Proof.
  revert limit b1 i c r. induction fuel as [|fuel IH]; intros limit b1 i c r Hw Hno Hf; [lia|].
  pose proof (wi_length _ _ _ _ Hw) as H1. pose proof (wi_short _ _ _ _ Hw) as H2. cbn [readUntil_loop].
  destruct (Nat.ltb_spec limit (length b1 - i)).
  { cbn. destruct (Nat.leb_spec limit (length r)); [by eexists|]. eexists. rewrite drop_ge by lia. done. }
  unfold ReadFull. cbn [mbind proc_bind proc_then on_stream]. destruct (Nat.leb_spec (length b1 - i) (length r)).
  2: { cbn. eexists. rewrite (drop_ge r) by lia. done. }
  set (got := take (length b1 - i) r). set (r' := drop (length b1 - i) r).
  assert (length got = length b - i) as Hg by (unfold got; rewrite length_take; lia).
  assert (got ++ r' = r) as Er by (unfold got, r'; by rewrite take_drop).
  pose proof (window_next b b1 i c got Hw Hg) as Hn. cbv zeta in Hn. set (b1' := take i b1 ++ got) in *. set (i' := suffixMatchLen b1' b) in *.
  destruct (i' =? length b).
  - destruct Hn as [u Hu]. specialize (Hno u r'). rewrite <-Er, !app_assoc, Hu in Hno. specialize (Hno eq_refl).
    apply (f_equal length) in Hu. rewrite !length_app in Hu. lia.
  - destruct Hn as [Hw' _]. destruct (IH (limit - (length b1 - i)) _ _ (c ++ got) r' Hw') as [e He]; [|lia|].
    + intros u v E. rewrite <-app_assoc, Er in E. specialize (Hno u v E). rewrite length_app. lia.
    + exists e. rewrite He. unfold r'. rewrite drop_drop. do 3 f_equal. lia.
Qed.

(** C32: [readUntil] on a reader of at most [limit] bytes stops right after the first occurrence of
    what it looks for, when that is within the limit, and otherwise fails having read up to it, or to
    the end of the stream. *)
Theorem readUntil_first limit b inp : b <> [] ->
  (forall u v, inp = u ++ b ++ v -> first_at u b = true -> length u + length b <= limit ->
    on_stream (readUntil limit b) inp = Some (None, v)) /\
  ((forall u v, inp = u ++ b ++ v -> limit < length u + length b) ->
    exists e, on_stream (readUntil limit b) inp = Some (Some e, drop limit inp)).
Proof.
  intros Hb. split.
  - intros u v -> Hfirst Hl. pose proof (first_at_end u b Hfirst). rewrite app_assoc. eapply runs_on_stream, (runs_frame _ _ _ _ []). by apply readUntil_runs.
  - intros Hno. apply readUntil_loop_misses with (c := []); [by apply window_start|done|lia].
Qed.

Lemma readUntil_first_witness : on_stream (readUntil 100 (bs "abc")) (bs "feakjfeafeafegbaabc00") = Some (None, bs "00").
Proof.
  refine (proj1 (readUntil_first 100 (bs "abc") (bs "feakjfeafeafegbaabc00") _) (bs "feakjfeafeafegba") (bs "00") eq_refl _ _); [done|vm_compute; reflexivity|cbn; lia].
Defined.

(** ** Ciphers *)

Lemma XORKeyStream_both c src : XORKeyStream c src = ((XORKeyStream c src).1, skip (length src) c).
Proof. rewrite <-XORKeyStream_state. apply surjective_pairing. Qed.

Lemma runs_cipherRead c x inp :
  runs (cipherReadFull c (length x)) ((XORKeyStream c x).1 ++ inp) [] (Return (inl x, skip (length x) c)) inp.
Proof.
  unfold cipherReadFull. apply runs_read; [apply XORKeyStream_length|].
  rewrite XORKeyStream_both, XORKeyStream_twice, XORKeyStream_length. constructor.
Qed.

Lemma runs_readUint c n z inp : (0 <= z < 2 ^ (8 * Z.of_nat n))%Z ->
  runs (readUint c n) ((XORKeyStream c (be_put n z)).1 ++ inp) [] (Return (inl z, skip n c)) inp.
Proof.
  intros Hz. unfold readUint. apply (runs_then _ (cipherReadFull c n) (inl (be_put n z), skip n c) _ [] inp).
  - pose proof (runs_cipherRead c (be_put n z) inp) as H. by rewrite be_put_length in H.
  - rewrite be_get_put_small by done. constructor.
Qed.

Lemma runs_copyDiscard c x inp :
  runs (copyDiscard c (Z.of_nat (length x))) ((XORKeyStream c x).1 ++ inp) [] (Return (None, skip (length x) c)) inp.
Proof.
  unfold copyDiscard. rewrite Nat2Z.id. apply runs_read; [apply XORKeyStream_length|].
  rewrite XORKeyStream_state, XORKeyStream_length. constructor.
Qed.

Lemma runs_readIA c ia inp : (Z.of_nat (length ia) <= 65535)%Z ->
  runs (readIA c) ((XORKeyStream c (be_put 2 (Z.of_nat (length ia)) ++ ia)).1 ++ inp) [] (Return (ia, skip (2 + length ia) c)) inp.
Proof.
  intros Hl. unfold readIA. rewrite XORKeyStream_app, be_put_length, <-app_assoc.
  eapply (runs_then _ _ _ _ []); [apply runs_readUint; cbn; lia|]. cbn beta iota.
  destruct (Z.eqb_spec (Z.of_nat (length ia)) 0) as [E|E]; [destruct ia; [constructor|done]|].
  rewrite Nat2Z.id. eapply (runs_then _ _ _ _ []); [apply runs_cipherRead|]. cbn beta iota. rewrite skip_add. constructor.
Qed.

Lemma cipherWriter_buffer c b0 w b : exists b1,
  cipherWriter_Write buffer_Write {| cw_c := Some c; cw_b := b0 |} w b =
    Some ((length b, None), {| cw_c := Some (skip (length b) c); cw_b := b1 |}, w ++ (XORKeyStream c b).1).
Proof.
  unfold cipherWriter_Write. cbn [cw_b cw_c].
  destruct (if length b0 <? length b then _ else _) as [be rest] eqn:Ebe.
  assert (length b <= length be) as Hl.
  { destruct (Nat.ltb_spec (length b0) (length b)); simplify_eq; [by rewrite length_replicate|done]. }
  destruct b as [|v b].
  - cbn. rewrite take_0. by eexists.
  - rewrite XORKeyStream_both. cbn [mbind option_bind buffer_Write]. rewrite take_app_le, take_ge by (rewrite XORKeyStream_length; lia).
    rewrite XORKeyStream_length, Nat.eqb_refl. by eexists.
Qed.

Lemma marshalTo_ok c b0 buf data : exists b1,
  marshalTo {| cw_c := Some c; cw_b := b0 |} buf data =
    Some ({| cw_c := Some (skip (length (marshal data)) c); cw_b := b1 |}, buf ++ (XORKeyStream c (marshal data)).1).
Proof.
  revert c b0 buf. induction data as [|x data IH]; intros c b0 buf; [eexists; by rewrite app_nil_r|].
  cbn [marshalTo marshal map concat]. destruct (cipherWriter_buffer c b0 buf (binary_Bytes x)) as [b1 ->]. cbn [mbind option_bind].
  destruct (IH (skip (length (binary_Bytes x)) c) b1 (buf ++ (XORKeyStream c (binary_Bytes x)).1)) as [b2 ->]. exists b2.
  by rewrite length_app, skip_add, XORKeyStream_app, <-app_assoc.
Qed.

Lemma newEncrypt_some initer s skey : exists c, newEncrypt initer s skey = Some c.
Proof. unfold newEncrypt, NewCipher, hash. rewrite Sum1_length. by eexists. Qed.

(** ** Secret keys *)

Lemma xor_length a b : length a = length b -> length (xor a b) = length a.
Proof. intros. unfold xor. by rewrite length_zip_with_l by lia. Qed.

Lemma xor_inj a a' b : length a = length b -> length a' = length b -> xor a b = xor a' b -> a = a'.
Proof.
  revert a a'. induction b as [|k b IH]; intros [|x a] [|x' a']; try done. cbn. intros Ha Ha' [= E1 E2]. f_equal; [|apply IH; lia || done].
  by rewrite <-(xorb8_twice x k), E1, xorb8_twice.
Qed.

(** The key is found when the hashes of the keys are different. *)
Lemma findSkey_ok skeys skey s : skey ∈ skeys -> (forall k, k ∈ skeys -> hash [req2; k] = hash [req2; skey] -> k = skey) ->
  findSkey skeys (hash [req3; s]) (xor (hash [req2; skey]) (hash [req3; s])) = Some skey.
Proof.
  induction skeys as [|k skeys IH]; intros Hin Hinj; [by apply elem_of_nil in Hin|]. cbn [findSkey]. case_bool_decide as E.
  - f_equal. apply Hinj; [by left|]. apply xor_inj in E; [done|by unfold hash; rewrite !Sum1_length..].
  - apply IH; [|intros k' Hk'; apply Hinj; by right]. apply elem_of_cons in Hin as [->|]; [|done]. by destruct E.
Qed.

(** ** Streams *)

Fixpoint writeAll (rw : ReadWriter) (wire : bytes) (ds : list bytes) : option (ReadWriter * bytes) :=
  match ds with
  | [] => Some (rw, wire)
  | d :: ds' => '(rw, wire) ← rw_Write rw wire d; writeAll rw wire ds'
  end.

(** Reads, each with the number of bytes that are asked for and of those that have arrived. *)
Fixpoint readAll (rw : ReadWriter) (inp : bytes) (reads : list (nat * nat)) : bytes * ReadWriter * bytes :=
  match reads with
  | [] => ([], rw, inp)
  | (want, avail) :: reads' =>
      let '(b, rw, inp) := rw_Read rw want avail inp in
      let '(bs, rw, inp) := readAll rw inp reads' in
      (b ++ bs, rw, inp)
  end.

(** What is to be read from a stream when [inp] is on the way. *)
Definition unread_text (rw : ReadWriter) (inp : bytes) : bytes := rw_front rw ++ (cipherReader_Read (rw_in rw) inp).1.

(** Whatever is written to [w], in whatever pieces, can be read from [r] after its front, in whatever
    pieces: what has been read and what is yet to be read are together what was written. *)
Definition delivers (w r : ReadWriter) : Prop := forall ds, exists w' wire,
  writeAll w [] ds = Some (w', wire) /\
  forall reads, let '(got, r', rest) := readAll r wire reads in got ++ unread_text r' rest = rw_front r ++ concat ds.

Lemma cipherReader_some c x : cipherReader_Read (Some c) x = ((XORKeyStream c x).1, Some (skip (length x) c)).
Proof. unfold cipherReader_Read. by rewrite XORKeyStream_both. Qed.

Lemma rw_Read_text rw want avail inp :
  let '(b, rw', rest) := rw_Read rw want avail inp in b ++ unread_text rw' rest = unread_text rw inp.
Proof.
  unfold rw_Read, unread_text. destruct (rw_front rw) as [|x front] eqn:Ef.
  - set (n := _ `min` _). destruct (rw_in rw) as [c|].
    + rewrite !cipherReader_some. cbn [rw_front rw_in app]. rewrite cipherReader_some. cbn [fst].
      by rewrite <-XORKeyStream_app, take_drop.
    + cbn. by rewrite take_drop.
  - cbn [rw_front rw_in]. by rewrite app_assoc, take_drop.
Qed.

Lemma readAll_text rw inp reads : let '(got, rw', rest) := readAll rw inp reads in got ++ unread_text rw' rest = unread_text rw inp.
Proof.
  revert rw inp. induction reads as [|[want avail] reads IH]; intros rw inp; [done|]. cbn [readAll].
  pose proof (rw_Read_text rw want avail inp) as H. destruct (rw_Read rw want avail inp) as [[b rw1] inp1].
  specialize (IH rw1 inp1). destruct (readAll rw1 inp1 reads) as [[bs rw2] inp2]. by rewrite <-app_assoc, IH.
Qed.

(** The reader has the cipher of the writer, or neither has one. *)
Definition paired (w r : ReadWriter) : Prop :=
  match rw_out w, rw_in r with
  | Some cw, Some c => cw_c cw = Some c
  | None, None => True
  | _, _ => False
  end.

Lemma paired_delivers w r : paired w r -> delivers w r.
Proof.
  intros Hp ds. assert (forall front inn b0 c wire, exists w',
    writeAll {| rw_front := front; rw_in := inn; rw_out := Some {| cw_c := Some c; cw_b := b0 |} |} wire ds = Some (w', wire ++ (XORKeyStream c (concat ds)).1)) as Henc.
  { induction ds as [|d ds IH]; intros front inn b0 c wire; [eexists; cbn; by rewrite app_nil_r|]. cbn [writeAll concat rw_Write rw_out].
    unfold rw_Write. cbn [rw_out]. destruct (cipherWriter_buffer c b0 wire d) as [b1 ->]. cbn [mbind option_bind rw_front rw_in].
    destruct (IH front inn b1 (skip (length d) c) (wire ++ (XORKeyStream c d).1)) as [w' ->]. exists w'. by rewrite XORKeyStream_app, <-app_assoc. }
  assert (forall front inn wire, exists w', writeAll {| rw_front := front; rw_in := inn; rw_out := None |} wire ds = Some (w', wire ++ concat ds)) as Hplain.
  { clear. induction ds as [|d ds IH]; intros front inn wire; [eexists; cbn; by rewrite app_nil_r|]. cbn [writeAll concat rw_Write rw_out mbind option_bind].
    destruct (IH front inn (wire ++ d)) as [w' ->]. exists w'. by rewrite <-app_assoc. }
  unfold paired in Hp. destruct w as [wf wi [[wc wb]|]]; cbn [rw_out cw_c] in Hp; destruct r as [rf [c|] ro]; cbn [rw_in] in Hp; try done.
  - subst wc. destruct (Henc wf wi wb c []) as [w' E]. exists w', (XORKeyStream c (concat ds)).1. split; [done|]. intros reads.
    pose proof (readAll_text {| rw_front := rf; rw_in := Some c; rw_out := ro |} (XORKeyStream c (concat ds)).1 reads) as H.
    destruct (readAll _ _ reads) as [[got r'] rest]. rewrite H. unfold unread_text. cbn [rw_front rw_in].
    by rewrite cipherReader_some, XORKeyStream_twice.
  - destruct (Hplain wf wi []) as [w' E]. exists w', (concat ds). split; [done|]. intros reads.
    pose proof (readAll_text {| rw_front := rf; rw_in := None; rw_out := ro |} (concat ds) reads) as H.
    by destruct (readAll _ _ reads) as [[got r'] rest].
Qed.

(** ** What processes ask for *)

Lemma total_Read n : total n (fun r => match r with inl b => length b = n | inr _ => True end) (ReadFull n).
Proof. cbn. split; [done|]. split; intros; done. Qed.

Lemma total_cipherRead c n : total n (fun r => match r.1 with inl b => length b = n | inr _ => True end) (cipherReadFull c n).
Proof.
  cbn [cipherReadFull total]. split; [done|]. split; intros; rewrite XORKeyStream_both; cbn; [by rewrite XORKeyStream_length|done].
Qed.

Lemma total_readUint c n :
  total n (fun r => match r.1 with inl z => (0 <= z < 2 ^ (8 * Z.of_nat n))%Z | inr _ => True end) (readUint c n).
Proof.
  unfold readUint. rewrite <-(Nat.add_0_r n) at 1. eapply total_then; [apply total_cipherRead|]. intros [[b|e] c'] Hb; cbn in *; [|done].
  subst n. apply be_get_bound.
Qed.

Lemma total_copyDiscard c n : total (Z.to_nat n) (fun _ => True) (copyDiscard c n).
Proof. cbn. split; [done|]. split; intros; done. Qed.

Lemma total_orPanic {A} (a : A) o b (Q : A -> Prop) : o = Some a -> Q a -> total b Q (orPanic o).
Proof. by intros ->. Qed.

Lemma total_readUntil_loop fuel limit b b1 i :
  length b1 = length b -> i < length b -> limit < fuel -> total limit (fun _ => True) (readUntil_loop fuel limit b b1 i).
Proof.
  revert limit b1 i. induction fuel as [|fuel IH]; intros limit b1 i Hl Hi Hf; [lia|]. cbn [readUntil_loop].
  destruct (Nat.ltb_spec limit (length b1 - i)); [cbn; split; [done|]; split; intros; done|].
  replace limit with ((length b1 - i) + (limit - (length b1 - i))) at 1 by lia. eapply total_then; [apply total_Read|].
  intros [got|e] Hg; [|done]. cbn in Hg. cbv zeta.
  assert (length (take i b1 ++ got) = length b) as Hl' by (rewrite length_app, length_take; lia).
  destruct (suffixMatchLen_spec _ b Hl') as (S1 & _ & _). set (i' := suffixMatchLen _ b) in *.
  destruct (Nat.eqb_spec i' (length b)); [done|]. apply IH; [|lia..]. rewrite length_app, !length_drop. lia.
Qed.

Lemma total_readUntil limit b : b <> [] -> total limit (fun _ => True) (readUntil limit b).
Proof.
  intros Hb. apply total_readUntil_loop; [by rewrite length_replicate| |lia]. destruct b; [done|cbn; lia].
Qed.

(** The budget of a process, part by part. *)
Ltac total_bind L := eapply total_then; [apply L|].
