(* ===== verification/MseSafety.v ===== *)
(** * Encrypted connections: the theorems

    What one end does, whatever comes over the connection; and that two ends with working sockets
    complete the handshake in every interleaving and agree on everything, so that what one writes
    to its stream the other reads. *)

From stdpp Require Import relations.
From S2P Require Import Prelude Sha1 Rc4 Handshake Mse MseRuns MseTheory.

#[local] Opaque p readUntil XORKeyStream Sum1 skip.

(** Binds of processes, without looking into what they bind. *)
Ltac proc_simpl := cbn [mbind proc_bind proc_then orPanic postWrite fst snd].

Lemma orPanic_some {A B} (a : A) (f : A -> proc B) : (x ← orPanic (Some a); f x) = f a.
Proof. reflexivity. Qed.

Lemma postWrite_bind {B} b (f : option IoError -> proc B) : (e ← postWrite b; f e) = PostWrite b f.
Proof. reflexivity. Qed.

(** ** One run of two ends *)

(** [Do] after its public key is posted. *)
Definition afterY (d : Draws) (h : handshake) : proc Out :=
  r ← (r ← ReadFull 96;
       match r with
       | inr e => Return (inr e)
       | inl b =>
           let sBytes := big_Bytes (big_Exp (be_get b) (be_get (d_X d)) p) in
           s ← orPanic (if 96 <? length sBytes then None else Some (replicate (96 - length sBytes) x00 ++ sBytes));
           Return (inl s)
       end);
  match r with
  | inr e => Return (failWith h 0 (ReadingY e))
  | inl s =>
      err ← postWrite (d_pad d);
      match err with
      | Some e => Return (failWith h 0 (Io e))
      | None => if h_initer h then initerSteps d h s else receiverSteps d h s
      end
  end.

Lemma Do_posts d h : Do d h = PostWrite (public d) (fun _ => afterY d h).
Proof.
  unfold Do, establishS, postY. cbv zeta. rewrite (paddedLeft_ok _ 96 (big_Exp_range _ _)).
  cbn [mbind proc_bind proc_then orPanic postWrite]. reflexivity.
Qed.

Lemma runs_afterY d h Y inp : length Y = 96 ->
  runs (afterY d h) (Y ++ inp) [d_pad d] (if h_initer h then initerSteps d h (secret d Y) else receiverSteps d h (secret d Y)) inp.
Proof.
  intros HY. unfold afterY, ReadFull. cbn [mbind proc_bind proc_then]. apply runs_read; [done|]. cbn [mbind proc_bind proc_then].
  pose proof (big_Bytes_length _ 96 (big_Exp_range (be_get Y) (be_get (d_X d)))) as Hl.
  rewrite (proj2 (Nat.ltb_ge _ _)), zeros_big_Bytes by (done || apply big_Exp_range). cbn [orPanic proc_then].
  apply runs_post. cbn [proc_then]. apply runs_nil.
Qed.

(** Reading from what was put back, and then from the connection. *)
Lemma runs_unread {R} (m m' : proc R) inp0 ps rest front inp :
  runs m inp0 ps m' rest -> inp0 = front ++ inp ->
  exists front' rest', rest = front' ++ rest' /\ runs (unread front m) inp ps (unread front' m') rest'.
Proof.
  intros H. revert front inp. induction H as [m inp0|b k inp0 ps m' rest H IH|n k x inp0 ps m' rest Hn H IH]; intros front inp E.
  - exists front, inp. split; [done|]. constructor.
  - destruct (IH front inp E) as (front' & rest' & -> & Hr). exists front', rest'. split; [done|]. by constructor.
  - cbn [unread]. destruct (Nat.leb_spec n (length front)) as [Hl|Hl].
    + assert (x = take n front /\ inp0 = drop n front ++ inp) as [-> E0].
      { apply (f_equal (fun l => (take n l, drop n l))) in E. rewrite <-Hn, take_app_length, drop_app_length, Hn, take_app_le, drop_app_le in E by lia.
        by injection E. }
      by apply IH.
    + assert (exists y, x = front ++ y /\ inp = y ++ inp0) as (y & -> & ->).
      { exists (drop (length front) x). apply (f_equal (fun l => (take (length front) l, drop (length front) l))) in E.
        rewrite take_app_le, drop_app_le, take_app_length, drop_app_length in E by lia. injection E as E1 E2.
        split; [|done]. by rewrite <-E1 at 1; rewrite take_drop. }
      rewrite length_app in Hn. destruct (IH [] inp0 eq_refl) as (front' & rest' & -> & Hr). exists front', rest'. split; [done|].
      apply runs_read; [lia|done].
Qed.

Lemma runs_unread_nil {R} (m m' : proc R) inp ps : runs m inp ps m' [] -> forall front inp', inp = front ++ inp' ->
  runs (unread front m) inp' ps (unread [] m') [].
Proof.
  intros H front inp' E. destruct (runs_unread m m' inp ps [] front inp' H E) as (front' & rest' & E' & Hr).
  symmetry in E'. apply app_eq_nil in E' as [-> ->]. done.
Qed.

(** *** Streams that end *)

Lemma on_stream_runs {R} (m m' : proc R) inp ps rest : runs m inp ps m' rest -> on_stream m inp = on_stream m' rest.
Proof.
  induction 1 as [| |n k x inp ps m' rest Hn H IH]; [done..|]. cbn [on_stream].
  rewrite (proj2 (Nat.leb_le _ _)) by (rewrite length_app; lia). by rewrite <-Hn, take_app_length, drop_app_length.
Qed.

Lemma on_stream_then {A B} (f : A -> proc B) m inp :
  on_stream (proc_then f m) inp = ('(a, rest) ← on_stream m inp; on_stream (f a) rest).
Proof.
  revert inp. induction m as [r| | |b k IH|n k IH]; intros inp; cbn [proc_then on_stream]; [done..|apply IH|].
  destruct (n <=? length inp); apply IH.
Qed.

Lemma on_stream_return {A B} (f : A -> B) m inp a rest :
  on_stream m inp = Some (a, rest) -> on_stream (proc_then (fun a => Return (f a)) m) inp = Some (f a, rest).
Proof. intros E. by rewrite on_stream_then, E. Qed.

Lemma on_stream_unread {R} (m : proc R) inp : on_stream (unread [] m) inp = on_stream m inp.
Proof.
  revert inp. induction m as [r| | |b k IH|n k IH]; intros inp; cbn [unread on_stream]; [done..|apply IH|].
  destruct (Nat.leb_spec n (length (@nil byte))) as [Hn|Hn]; cbn [length] in Hn.
  - replace n with 0 by lia. cbn [Nat.leb take drop]. rewrite drop_0. apply IH.
  - cbn [on_stream length app]. rewrite Nat.sub_0_r. destruct (n <=? length inp); apply IH.
Qed.

(** What the initiator sends encrypted, and what the receiver answers. *)
Definition proposal (provides padLen : Z) (ia : bytes) : bytes :=
  vc ++ be_put 4 provides ++ be_put 2 padLen ++ replicate (Z.to_nat padLen) x00 ++ be_put 2 (Z.of_nat (length ia)) ++ ia.
Definition proposal_head (provides padLen : Z) : bytes :=
  vc ++ be_put 4 provides ++ be_put 2 padLen ++ replicate (Z.to_nat padLen) x00.
Definition answer (chosen padLen : Z) : bytes := vc ++ be_put 4 chosen ++ be_put 2 padLen ++ replicate (Z.to_nat padLen) x00.

Lemma marshal_proposal provides padLen ia :
  marshal [DBytes vc; DUint32 provides; DUint16 padLen; DBytes (replicate (Z.to_nat padLen) x00); DUint16 (Z.of_nat (length ia)); DBytes ia] =
  proposal provides padLen ia.
Proof. unfold marshal, proposal. cbn [map concat binary_Bytes]. by rewrite app_nil_r. Qed.

Lemma proposal_split provides padLen ia :
  proposal provides padLen ia = proposal_head provides padLen ++ be_put 2 (Z.of_nat (length ia)) ++ ia.
Proof. unfold proposal, proposal_head. by rewrite <-!app_assoc. Qed.

Lemma marshal_answer chosen padLen :
  marshal [DBytes vc; DUint32 chosen; DUint16 padLen; DBytes (replicate (Z.to_nat padLen) x00)] = answer chosen padLen.
Proof. unfold marshal, answer. cbn [map concat binary_Bytes]. by rewrite app_nil_r. Qed.

Lemma take_zeroPad n : (0 <= n <= 512)%Z -> take (Z.to_nat n) zeroPad = replicate (Z.to_nat n) x00.
Proof. intros. unfold zeroPad. rewrite take_replicate. f_equal. lia. Qed.

Lemma newPadLen_ok n : (0 <= n <= 512)%Z -> newPadLen n = Some n /\ wrapU 16 n = n.
Proof.
  intros. split; [|apply wrapU_small; lia]. unfold newPadLen, maxPadLen. destruct (Z.ltb_spec n 0); [lia|]. by destruct (Z.ltb_spec 512 n); [lia|].
Qed.

(** The streams they return. *)
Definition returned (method : Z) (front : bytes) (cin cout : Cipher) : option ReadWriter :=
  if (method =? CryptoMethodRC4)%Z then Some {| rw_front := front; rw_in := Some cin; rw_out := Some {| cw_c := Some cout; cw_b := [] |} |}
  else if (method =? CryptoMethodPlaintext)%Z then Some {| rw_front := front; rw_in := None; rw_out := None |}
  else None.

Definition resultOf (method : Z) (front skey : bytes) (cin cout : Cipher) (e : MseError) : Out :=
  {| o_ret := returned method front cin cout; o_method := method;
     o_err := if returned method front cin cout then None else Some e; o_skey := skey |}.

Section Handshake.
Context (dI dR : Draws) (skeys : list bytes) (skey ia : bytes) (provides : Z) (selector : Z -> Z).
Context (HpadI : length (d_pad dI) <= 512) (HpadR : length (d_pad dR) <= 512).
Context (HlenI : (0 <= d_padLen dI <= 512)%Z) (HlenR : (0 <= d_padLen dR <= 512)%Z).
Context (Hprovides : (0 <= provides < 2 ^ 32)%Z) (Hselector : (0 <= selector provides < 2 ^ 32)%Z).
Context (Hia : (Z.of_nat (length ia) <= 65535)%Z).
Context (Hskey : skey ∈ skeys) (Hinj : forall k, k ∈ skeys -> hash [req2; k] = hash [req2; skey] -> k = skey).
Context (s : bytes) (Hs : s = secret dI (public dR)).
Context (cA cB : Cipher) (HA : newEncrypt true s skey = Some cA) (HB : newEncrypt false s skey = Some cB).
Context (HsyncR : first_at (d_pad dI) (hash [req1; s]) = true).
Context (HsyncI : first_at (d_pad dR) (XORKeyStream cB vc).1 = true).

Let hI := {| h_initer := true; h_skeys := []; h_skey := skey; h_ia := ia; h_chooseMethod := fun _ => 0%Z; h_cryptoProvides := provides |}.
Let hR := {| h_initer := false; h_skeys := skeys; h_skey := []; h_ia := []; h_chooseMethod := selector; h_cryptoProvides := 0%Z |}.
#[local] Notation chosen := (selector provides).
#[local] Notation sent := (proposal provides (d_padLen dI) ia).
#[local] Notation reply := (answer (selector provides) (d_padLen dR)).
#[local] Notation endA := (skip (length sent) cA).
#[local] Notation endB := (skip (length reply) cB).

Lemma initerSteps_posts :
  initerSteps dI hI s =
    PostWrite (hash [req1; s]) (fun _ => PostWrite (xor (hash [req2; skey]) (hash [req3; s])) (fun _ => PostWrite (XORKeyStream cA sent).1 (fun _ =>
      initerEnd hI endA (skip (length vc) cB) (XORKeyStream cB vc).1))).
Proof using HlenI Hia HA HB.
  clear - HlenI Hia HA HB. unfold initerSteps. destruct (newPadLen_ok (d_padLen dI) HlenI) as [-> Ew].
  change (h_ia hI) with ia. change (h_skey hI) with skey. change (h_cryptoProvides hI) with provides.
  rewrite HA, HB, (proj2 (Z.ltb_ge _ _)) by done. proc_simpl. cbv zeta. rewrite Ew, take_zeroPad, wrapU_small, marshal_proposal by lia.
  rewrite <-!XORKeyStream_state. destruct (XORKeyStream cA sent), (XORKeyStream cB vc). reflexivity.
Qed.

Lemma runs_initerEnd :
  runs (initerEnd hI endA (skip (length vc) cB) (XORKeyStream cB vc).1) (d_pad dR ++ (XORKeyStream cB reply).1) []
    (Return (resultOf (Z.land chosen provides) [] skey endB endA (UnsupportedMethod chosen))) [].
Proof using HpadR HlenR Hselector HsyncI.
  clear HpadI HlenI Hprovides Hia Hinj Hskey HsyncR.
  unfold initerEnd, answer. rewrite XORKeyStream_app, app_assoc, !length_app, !skip_add, !be_put_length.
  set (c1 := skip (length vc) cB). rewrite XORKeyStream_app, be_put_length. set (c2 := skip 4 c1).
  rewrite XORKeyStream_app, be_put_length. set (c3 := skip 2 c2). set (zeros := replicate (Z.to_nat (d_padLen dR)) x00).
  eapply (runs_then _ _ _ _ []); [eapply runs_before, readUntil_runs|].
  { intros E%(f_equal length). by rewrite XORKeyStream_length in E. }
  { by apply first_at_end. }
  { rewrite XORKeyStream_length. cbn. lia. }
  eapply (runs_then _ _ _ _ []); [by apply runs_readUint|]. cbn beta iota.
  eapply (runs_then _ _ _ _ []); [apply runs_readUint; cbn; lia|]. cbn beta iota.
  replace (d_padLen dR) with (Z.of_nat (length zeros)) by (unfold zeros; rewrite length_replicate; lia).
  rewrite <-(app_nil_r (XORKeyStream c3 zeros).1).
  eapply (runs_then _ _ _ _ []); [apply runs_copyDiscard|]. cbn beta iota zeta. unfold resultOf, returned.
  cbn [hI h_cryptoProvides h_skey]. destruct (_ =? CryptoMethodRC4)%Z; [apply runs_nil|]. destruct (_ =? CryptoMethodPlaintext)%Z; apply runs_nil.
Qed.
Lemma runs_receiverEnd front cin :
  runs (receiverEnd dR (set_skey hR skey) s vc front chosen cin) [] [(XORKeyStream cB reply).1]
    (Return (resultOf chosen front skey cin endB ChosenUnsupported)) [].
Proof using HlenR HB.
  clear - HlenR HB. unfold receiverEnd. change (h_skey (set_skey hR skey)) with skey. rewrite HB, orPanic_some.
  destruct (newPadLen_ok (d_padLen dR) HlenR) as [-> Ew]. rewrite orPanic_some, Ew, take_zeroPad by done.
  destruct (marshalTo_ok cB [] [] [DBytes vc; DUint32 chosen; DUint16 (d_padLen dR); DBytes (replicate (Z.to_nat (d_padLen dR)) x00)]) as [b1 ->].
  rewrite orPanic_some, app_nil_l, marshal_answer, postWrite_bind. apply runs_post. unfold resultOf, returned. cbn [cw_c].
  destruct (_ =? CryptoMethodRC4)%Z; [apply runs_nil|]. destruct (_ =? CryptoMethodPlaintext)%Z; apply runs_nil.
Qed.

(** The receiver up to the initial payload. *)
Lemma runs_receiverSteps_head tail :
  runs (receiverSteps dR hR s)
    (d_pad dI ++ hash [req1; s] ++ xor (hash [req2; skey]) (hash [req3; s]) ++ (XORKeyStream cA (proposal_head provides (d_padLen dI))).1 ++ tail) []
    (proc_then (fun '(ia, c) => receiverEnd dR (set_skey hR skey) s vc ia chosen c) (readIA (skip (length (proposal_head provides (d_padLen dI))) cA))) tail.
Proof using HpadI HlenI Hprovides Hinj Hskey HA HsyncR.
  clear HpadR Hselector HsyncI HlenR HB Hia. unfold receiverSteps. rewrite app_assoc.
  eapply (runs_then _ _ _ _ []); [eapply runs_before, readUntil_runs|].
  { unfold hash. intros E%(f_equal length). by rewrite Sum1_length in E. }
  { by apply first_at_end. }
  { unfold hash. rewrite Sum1_length. lia. }
  eapply (runs_then _ _ _ _ []).
  { apply (runs_read 20 _ (xor (hash [req2; skey]) (hash [req3; s]))); [rewrite xor_length; unfold hash; by rewrite !Sum1_length|apply runs_nil]. }
  change (h_skeys hR) with skeys. cbn beta iota zeta. rewrite findSkey_ok by done.
  change (h_skey (set_skey hR skey)) with skey. rewrite HA, orPanic_some.
  unfold proposal_head. set (zeros := replicate (Z.to_nat (d_padLen dI)) x00).
  rewrite !length_app, !be_put_length, XORKeyStream_app, !skip_add. set (c1 := skip (length vc) cA).
  rewrite XORKeyStream_app, be_put_length. set (c2 := skip 4 c1). rewrite XORKeyStream_app, be_put_length. set (c3 := skip 2 c2).
  rewrite <-!app_assoc.
  eapply (runs_then _ _ _ _ []); [apply (runs_cipherRead cA vc)|]. cbn beta iota.
  eapply (runs_then _ _ _ _ []); [by apply runs_readUint|]. cbn beta iota.
  eapply (runs_then _ _ _ _ []); [apply runs_readUint; cbn; lia|]. cbn beta iota zeta.
  replace (d_padLen dI) with (Z.of_nat (length zeros)) by (unfold zeros; rewrite length_replicate; lia).
  eapply (runs_then _ _ _ _ []); [apply runs_copyDiscard|]. cbn beta iota. apply runs_nil.
Qed.

Lemma runs_receiverSteps :
  runs (receiverSteps dR hR s) (d_pad dI ++ hash [req1; s] ++ xor (hash [req2; skey]) (hash [req3; s]) ++ (XORKeyStream cA sent).1)
    [(XORKeyStream cB reply).1] (Return (resultOf chosen ia skey endA endB ChosenUnsupported)) [].
Proof using HpadI HlenI HlenR Hprovides Hia Hinj Hskey HA HB HsyncR.
  clear HpadR Hselector HsyncI Hs. rewrite proposal_split, XORKeyStream_app, length_app, skip_add.
  eapply (runs_trans _ _ _ _ [] _ [_]); [apply runs_receiverSteps_head|].
  rewrite <-(app_nil_r (XORKeyStream _ (be_put 2 _ ++ _)).1), length_app, be_put_length.
  eapply (runs_then _ _ _ _ []); [by apply runs_readIA|]. cbn beta iota. apply runs_receiverEnd.
Qed.

(** When the connection ends within the payload, zeroes take its place. *)
Lemma receiverSteps_cut short : length short < length ia ->
  on_stream (receiverSteps dR hR s)
    (d_pad dI ++ hash [req1; s] ++ xor (hash [req2; skey]) (hash [req3; s]) ++
     (XORKeyStream cA (proposal_head provides (d_padLen dI) ++ be_put 2 (Z.of_nat (length ia)) ++ short)).1) =
  Some (resultOf chosen (replicate (length ia) x00) skey (skip (length (proposal_head provides (d_padLen dI)) + (2 + length short)) cA) endB ChosenUnsupported, []).
Proof using HpadI HlenI HlenR Hprovides Hia Hinj Hskey HA HB HsyncR.
  clear HpadR Hselector HsyncI Hs. intros Hsh. rewrite XORKeyStream_app. erewrite on_stream_runs; [|apply runs_receiverSteps_head].
  rewrite on_stream_then. set (c4 := skip _ cA).
  assert (on_stream (readIA c4) (XORKeyStream c4 (be_put 2 (Z.of_nat (length ia)) ++ short)).1 =
          Some ((replicate (length ia) x00, skip (2 + length short) c4), [])) as ->.
  { unfold readIA. rewrite XORKeyStream_app, be_put_length. unfold mbind, proc_bind. rewrite on_stream_then.
    erewrite on_stream_runs; [|apply runs_readUint; cbn; lia]. cbn [on_stream mbind option_bind].
    destruct (Z.eqb_spec (Z.of_nat (length ia)) 0); [lia|]. unfold cipherReadFull. cbn [proc_then on_stream].
    rewrite Nat2Z.id, XORKeyStream_length, (proj2 (Nat.leb_gt _ _)) by done.
    rewrite XORKeyStream_both, XORKeyStream_length. cbn [proc_then on_stream]. by rewrite skip_add. }
  cbn [mbind option_bind]. erewrite on_stream_runs; [|apply runs_receiverEnd]. unfold c4. by rewrite <-skip_add.
Qed.

Lemma runs_receive front inp : front ++ inp = public dI ->
  runs (unread front (ReceiveHandshakeEx dR skeys selector)) inp [public dR; d_pad dR] (unread [] (receiverSteps dR hR s)) [].
Proof using Hs.
  intros E. apply (runs_unread_nil _ _ (public dI)); [|done]. unfold ReceiveHandshakeEx. fold hR. rewrite Do_posts. apply runs_post.
  rewrite Hs, secret_shared, <-(app_nil_r (public dI)) at 1. apply (runs_afterY dR hR), public_length.
Qed.

(** The policy lets encrypted connections in, and the public key is not taken for the protocol's name. *)
Definition lets_in (policy : HeaderObfuscationPolicy) : Prop :=
  (RequirePreferred policy = true -> Preferred policy = true) /\
  (RequirePreferred policy = false -> take (length Protocol) (public dI) <> Protocol).

Lemma runs_handleEncryption policy : lets_in policy ->
  runs (handleEncryption dR skeys policy selector) (public dI) [public dR; d_pad dR]
    (proc_then (fun o => Return (true, o)) (unread [] (receiverSteps dR hR s))) [].
Proof using Hs.
  intros [H1 H2]. unfold handleEncryption. destruct (RequirePreferred policy) eqn:Er.
  - rewrite H1 by done. cbn [negb orb]. apply runs_in, runs_receive. apply app_nil_l.
  - cbn [negb orb]. rewrite <-(take_drop (length Protocol) (public dI)) at 1.
    eapply (runs_then _ _ _ _ []); [apply runs_read; [rewrite length_take, public_length; done|apply runs_nil]|].
    cbn beta iota. rewrite bool_decide_false by (by apply H2). apply runs_in, runs_receive. apply take_drop.
Qed.
(** One run, with room for all that is sent. *)
Lemma handshake_run cap policy : lets_in policy -> exists K, cap <= K /\
  rtc (mse_step K) (mse_start (InitiateHandshake dI skey ia provides) (handleEncryption dR skeys policy selector))
    {| initiator := ready (Done (resultOf (Z.land chosen provides) [] skey endB endA (UnsupportedMethod chosen))) [] true;
       receiver := ready (Done (true, resultOf chosen ia skey endA endB ChosenUnsupported)) [] true; toInitiator := []; toReceiver := [] |}.
Proof using All.
  intros Hp. set (be := (XORKeyStream cA sent).1). set (resp := (XORKeyStream cB reply).1).
  set (toR := d_pad dI ++ hash [req1; s] ++ xor (hash [req2; skey]) (hash [req3; s]) ++ be).
  exists (cap + length (public dI) + length (public dR ++ d_pad dR) + length toR + length (d_pad dR ++ resp)). split; [lia|].
  unfold mse_start, begin, InitiateHandshake. fold hI. rewrite Do_posts.
  etrans; [eapply turn_initiator with (wr' := public dI); [apply runs_post, runs_nil|apply app_nil_r|lia]|].
  etrans; [eapply turn_receiver with (wi' := public dR ++ d_pad dR); [by apply runs_handleEncryption|cbn [concat]; by rewrite app_nil_r|lia]|].
  etrans; [eapply turn_initiator with (wr' := toR)|].
  { eapply runs_trans; [apply (runs_afterY dI hI), public_length|]. cbn [hI h_initer]. rewrite <-Hs, initerSteps_posts. do 3 apply runs_post. apply runs_nil. }
  { rewrite app_nil_l. rewrite concat_app. cbn [concat]. by rewrite !app_nil_r. }
  { lia. }
  etrans; [eapply turn_receiver with (wi' := d_pad dR ++ resp)|].
  { eapply (runs_then _ _ _ _ [resp] []); [|apply runs_nil]. apply (runs_unread_nil (receiverSteps dR hR s) (Return _) toR); [apply runs_receiverSteps|by rewrite app_nil_l]. }
  { rewrite app_nil_r. cbn [concat]. by rewrite app_nil_r. }
  { lia. }
  etrans; [apply finish_receiver|].
  etrans; [eapply turn_initiator with (wr' := []); [apply runs_initerEnd|apply app_nil_l|cbn; lia]|]. apply finish_initiator.
Qed.
End Handshake.

(** ** The theorems *)

(** The verification constant as the receiver encrypts it. *)
Definition encryptedVC (s skey : bytes) : bytes :=
  match newEncrypt false s skey with Some c => (XORKeyStream c vc).1 | None => [] end.

Definition draws_ok (d : Draws) : Prop := length (d_X d) = 20 /\ length (d_pad d) <= 512 /\ (0 <= d_padLen d <= 512)%Z.

Definition supported (method : Z) : Prop := method = CryptoMethodPlaintext \/ method = CryptoMethodRC4.

Lemma returned_supported method front cin cout : (exists rw, returned method front cin cout = Some rw) <-> supported method.
Proof.
  unfold returned, supported. destruct (Z.eqb_spec method CryptoMethodRC4); [naive_solver|].
  destruct (Z.eqb_spec method CryptoMethodPlaintext); naive_solver.
Qed.

Lemma resultOf_ok method front skey cin cout e : o_err (resultOf method front skey cin cout e) = None <-> supported method.
Proof.
  rewrite <-(returned_supported method front cin cout). unfold resultOf. cbn [o_err]. destruct (returned _ _ _ _); naive_solver.
Qed.

(** *** One end, with anything at the other *)


Definition maxInitiatorRead : nat := 96 + (520 + (4 + (2 + Z.to_nat 65535))).
Definition maxReceiverRead : nat := 96 + (532 + (20 + (8 + (4 + (2 + (Z.to_nat 65535 + (2 + Z.to_nat 65535))))))).

Lemma total_return {R} b (Q : R -> Prop) r : Q r -> total b Q (Return r).
Proof. done. Qed.

Lemma total_post {R} b w (Q : R -> Prop) k : (forall e, total b Q (k e)) -> total b Q (e ← postWrite w; k e).
Proof. done. Qed.

Lemma total_some {A R} b (Q : R -> Prop) (a : A) o k : o = Some a -> total b Q (k a) -> total b Q (x ← orPanic o; k x).
Proof. by intros ->. Qed.

Lemma total_initerEnd h e c eVC : eVC <> [] -> total (520 + (4 + (2 + Z.to_nat 65535))) (fun _ => True) (initerEnd h e c eVC).
Proof.
  intros HV. unfold initerEnd. total_bind total_readUntil; [done|]. intros [[]|] _; [done..|].
  total_bind total_readUint. intros [[method|e'] c1] Hm; [|done].
  total_bind total_readUint. intros [[padLen|e'] c2] Hl; [|done]. cbn in Hl.
  rewrite <-(Nat.add_0_r (Z.to_nat 65535)). eapply total_then.
  { eapply total_mono; [apply total_copyDiscard|lia|done]. }
  intros [[e'|] c3] _; [done|]. cbv zeta. by repeat case_match.
Qed.

Lemma total_initerSteps d h s : (0 <= d_padLen d <= 512)%Z -> total (520 + (4 + (2 + Z.to_nat 65535))) (fun _ => True) (initerSteps d h s).
Proof.
  intros Hd. unfold initerSteps. do 2 (apply total_post; intros _). eapply total_some; [by apply newPadLen_ok|]. cbv zeta.
  destruct (65535 <? _)%Z; [done|]. destruct (newEncrypt_some true s (h_skey h)) as [cA HA]. eapply total_some; [done|].
  rewrite XORKeyStream_both. apply total_post. intros _. destruct (newEncrypt_some false s (h_skey h)) as [cB HB]. eapply total_some; [done|].
  rewrite XORKeyStream_both. apply total_initerEnd. intros E%(f_equal length). by rewrite XORKeyStream_length in E.
Qed.

Lemma total_readIA c : total (2 + Z.to_nat 65535) (fun _ => True) (readIA c).
Proof.
  unfold readIA. total_bind total_readUint. intros [r c1] Hr. cbv zeta beta iota. destruct (Z.eqb_spec (match r with inl z => z | inr _ => 0 end) 0)%Z; [done|].
  rewrite <-(Nat.add_0_r (Z.to_nat 65535)). eapply total_then; [|by intros [r2 c2] _].
  eapply total_mono; [apply total_cipherRead| |done]. cbn in Hr. destruct r; lia.
Qed.

Lemma total_receiverEnd d h s rvc ia chosen c : (0 <= d_padLen d <= 512)%Z -> total 0 (fun _ => True) (receiverEnd d h s rvc ia chosen c).
Proof.
  intros Hd. unfold receiverEnd. destruct (newEncrypt_some false s (h_skey h)) as [cB HB]. eapply total_some; [done|].
  eapply total_some; [by apply newPadLen_ok|]. cbv zeta. edestruct marshalTo_ok as [b1 Hb]. eapply total_some; [apply Hb|]. cbv beta iota.
  apply total_post. intros [e|]; [done|]. by repeat case_match.
Qed.

Lemma total_receiverSteps d h s : (0 <= d_padLen d <= 512)%Z ->
  total (532 + (20 + (8 + (4 + (2 + (Z.to_nat 65535 + (2 + Z.to_nat 65535))))))) (fun _ => True) (receiverSteps d h s).
Proof.
  intros Hd. unfold receiverSteps. total_bind total_readUntil.
  { unfold hash. intros E%(f_equal length). by rewrite Sum1_length in E. }
  intros [[]|] _; [done..|]. total_bind total_Read. intros [b|e] _; [|done]. destruct (findSkey _ _ _) as [skey|]; [|done]. cbv zeta.
  destruct (newEncrypt_some true s (h_skey (set_skey h skey))) as [cA HA]. eapply total_some; [done|].
  total_bind total_cipherRead. intros [[rvc|e] c1] _; [|done]. total_bind total_readUint. intros [[provides|e] c2] _; [|done].
  total_bind total_readUint. intros [[padLen|e] c3] Hl; [|done]. cbn in Hl. cbv zeta. eapply total_then.
  { eapply total_mono; [apply total_copyDiscard|lia|done]. }
  intros [[e|] c4] _; [done|]. rewrite <-(Nat.add_0_r (2 + Z.to_nat 65535)). total_bind total_readIA. intros [ia c5] _.
  by apply total_receiverEnd.
Qed.

Lemma total_Do d h n : (0 <= d_padLen d <= 512)%Z ->
  (forall s, total n (fun _ => True) (if h_initer h then initerSteps d h s else receiverSteps d h s)) ->
  total (96 + n) (fun _ => True) (Do d h).
Proof.
  intros Hd Hn. rewrite Do_posts. intros _. unfold afterY. eapply total_then.
  - rewrite <-(Nat.add_0_r 96). eapply total_then with (Q := fun _ => True); [apply total_Read|]. intros [Y|e] _; [|done]. cbv zeta.
    eapply total_some; [|done]. rewrite (proj2 (Nat.ltb_ge _ _)) by (apply big_Bytes_length, big_Exp_range). done.
  - intros [s|e] _; [|done]. apply total_post. intros [e|]; [done|]. apply Hn.
Qed.

Lemma total_InitiateHandshake d skey ia provides : (0 <= d_padLen d <= 512)%Z ->
  total maxInitiatorRead (fun _ => True) (InitiateHandshake d skey ia provides).
Proof. intros Hd. apply total_Do; [done|]. intros s. by apply total_initerSteps. Qed.

Lemma total_handleEncryption d skeys policy selector : (0 <= d_padLen d <= 512)%Z ->
  total maxReceiverRead (fun _ => True) (handleEncryption d skeys policy selector).
Proof.
  intros Hd. assert (forall front, total (maxReceiverRead - length front) (fun _ : Out => True) (unread front (ReceiveHandshakeEx d skeys selector))) as Hr.
  { intros front. apply total_unread, total_Do; [done|]. intros s. by apply total_receiverSteps. }
  assert (forall front, total (maxReceiverRead - length front) (fun _ => True)
    (o ← unread front (ReceiveHandshakeEx d skeys selector); Return (true, o))) as Hr'.
  { intros front. rewrite <-(Nat.add_0_r (_ - _)). by eapply total_then. }
  unfold handleEncryption. destruct (_ || _); [|rewrite <-(Nat.sub_0_r maxReceiverRead); apply (Hr' [])].
  replace maxReceiverRead with (length Protocol + (maxReceiverRead - length Protocol)) by (change (length Protocol) with 20; unfold maxReceiverRead; lia).
  total_bind total_Read. intros [protocol|e] Hp; [|done]. rewrite <-Hp. do 2 (case_match; [done|]). apply Hr'.
Qed.

(** An end that has not panicked and can go on, unless it is done. *)
Definition alive {R} f (x : endpoint R * nat) : Prop :=
  match ep_main x.1 with
  | Running Panics _ | Running OutOfFuel _ => False
  | Done _ => True
  | _ => exists y, env_step f x y
  end.

Lemma total_alive {R} f bound (Q : R -> Prop) x : main_total bound Q (ep_main x.1) x.2 -> alive f x.
Proof.
  destruct x as [[m ws w werr d] c]. unfold alive. cbn [fst snd ep_main].
  destruct m as [[r| | |b k|n k] got|r|r]; intros (Hc & Hm); try (by destruct Hm as (_ & [] & _)); [..|done].
  - eexists. by eapply (env_main f _ []).
  - destruct werr; eexists; by eapply (env_main f _ []).
  - destruct (decide (length got < n)) as [Hl|Hl].
    + eexists. eapply (env_main f _ [x00]). unfold main_step. cbn [ep_main]. by rewrite (proj2 (Nat.ltb_lt _ _)).
    + eexists. eapply (env_main f _ []). unfold main_step. cbn [ep_main]. by rewrite (proj2 (Nat.ltb_ge _ _)) by lia.
  - destruct d; [eexists; by eapply (env_main f _ [])|]. destruct w as [[|b w]|]; [|..|destruct ws as [|b ws]]; eexists; by eapply (env_writer f 1 _ []).
Qed.

Lemma total_histories {R} f bound (m : proc R) x : total bound (fun _ => True) m -> rtc (env_step f) (begin m, 0) x -> alive f x /\ x.2 <= bound.
Proof.
  intros Ht Hx. assert (main_total bound (fun _ => True) (ep_main x.1) x.2) as Hm; [|split; [by eapply total_alive|apply Hm]].
  assert (main_total bound (fun _ => True) (ep_main (begin m)) 0) as H0 by (apply main_total_next; [lia|by rewrite Nat.sub_0_r]).
  change (begin m) with (begin m, 0).1 in H0. change 0 with (begin m, 0).2 in H0 at 2. revert H0. generalize (begin m, 0) x Hx. clear.
  intros s x Hx. induction Hx as [|s y x Hs Hx IH]; [done|]. intros H. by eapply IH, env_total.
Qed.

(** C13: an end of the encryption handshake, initiator or receiver, whatever the other sends, however
    reads and writes fail: it never panics nor stops before it returns, every one of its histories
    ends, and it reads at most so many bytes as the format has at most. *)
Theorem mse_total d skey ia provides skeys policy selector : draws_ok d ->
  (forall x, rtc (env_step orWriteErr) (begin (InitiateHandshake d skey ia provides), 0) x ->
    alive orWriteErr x /\ Acc (fun y x => env_step orWriteErr x y) x /\ x.2 <= maxInitiatorRead) /\
  (forall x, rtc (env_step (fun bo e => (bo.1, orWriteErr bo.2 e))) (begin (handleEncryption d skeys policy selector), 0) x ->
    alive (fun bo e => (bo.1, orWriteErr bo.2 e)) x /\ Acc (fun y x => env_step (fun bo e => (bo.1, orWriteErr bo.2 e)) x y) x /\ x.2 <= maxReceiverRead).
Proof.
  intros (_ & _ & Hd). split; intros x Hx.
  - destruct (total_histories _ maxInitiatorRead _ x (total_InitiateHandshake _ _ _ _ Hd) Hx) as [Ha Hb].
    split; [done|]. split; [|done]. destruct x as [e c]. apply finite_any.
  - destruct (total_histories _ maxReceiverRead _ x (total_handleEncryption _ _ _ _ Hd) Hx) as [Ha Hb].
    split; [done|]. split; [|done]. destruct x as [e c]. apply finite_any.
Qed.

(** *** Two ends *)

Lemma supported_land method provides : supported method -> supported (Z.land method provides) -> Z.land method provides = method.
Proof.
  intros [-> | ->] [E|E]; [done| | |done].
  - apply (f_equal (fun z => Z.testbit z 1)) in E. by rewrite Z.land_spec in E.
  - apply (f_equal (fun z => Z.testbit z 0)) in E. by rewrite Z.land_spec in E.
Qed.

(** Ends that use the same method have streams that go together. *)
Lemma returned_paired method front front' cA cB : supported method -> exists rw rw',
  returned method front cB cA = Some rw /\ returned method front' cA cB = Some rw' /\
  rw_front rw = front /\ rw_front rw' = front' /\ delivers rw rw' /\ delivers rw' rw.
Proof. intros [-> | ->]; eexists _, _; (do 4 (split; [reflexivity|])); split; by apply paired_delivers. Qed.

(** C11: an initiator and a receiver, whatever room there is on the way between them and in every
    interleaving with their writers: every run ends, and when it has, both have returned, all that
    was sent was read, the receiver has found the secret key, and each has the method that the
    receiver chose, and an error exactly when it cannot use it.  If neither has, both have the same
    method, and what one writes to its stream the other reads, after the initial payload.  The
    padding must not hold what the other end synchronizes on, nor the secret keys have the same
    hash; the receiver's policy must not refuse encryption. *)
Theorem mse_handshake cap dI dR skeys skey ia provides selector policy :
  1 <= cap -> draws_ok dI -> draws_ok dR -> (0 <= provides < 2 ^ 32)%Z -> (0 <= selector provides < 2 ^ 32)%Z ->
  (Z.of_nat (length ia) <= 65535)%Z -> skey ∈ skeys -> (forall k, k ∈ skeys -> hash [req2; k] = hash [req2; skey] -> k = skey) ->
  let s := secret dI (public dR) in
  first_at (d_pad dI) (hash [req1; s]) = true -> first_at (d_pad dR) (encryptedVC s skey) = true -> lets_in dI policy ->
  exists n, forall k t,
    nsteps (mse_step cap) k (mse_start (InitiateHandshake dI skey ia provides) (handleEncryption dR skeys policy selector)) t ->
    k <= n /\ ((forall t', ~ mse_step cap t t') ->
      let chosen := selector provides in
      exists oI oR, ep_main (initiator t) = Done oI /\ ep_main (receiver t) = Done (true, oR) /\ toInitiator t = [] /\ toReceiver t = [] /\
        o_skey oR = skey /\ o_method oI = Z.land chosen provides /\ o_method oR = chosen /\
        (o_err oI = None <-> supported (Z.land chosen provides)) /\ (o_err oR = None <-> supported chosen) /\
        (o_err oI = None -> o_err oR = None -> o_method oI = o_method oR /\
          exists rwI rwR, o_ret oI = Some rwI /\ o_ret oR = Some rwR /\ rw_front rwI = [] /\ rw_front rwR = ia /\ delivers rwI rwR /\ delivers rwR rwI)).
Proof.
  intros Hcap (_ & HpI & HlI) (_ & HpR & HlR) Hprov Hsel Hia Hskey Hinj s HsR HsI Hp.
  destruct (newEncrypt_some true s skey) as [cA HA]. destruct (newEncrypt_some false s skey) as [cB HB]. unfold encryptedVC in HsI. rewrite HB in HsI.
  destruct (handshake_run dI dR skeys skey ia provides selector HpI HpR HlI HlR Hprov Hsel Hia Hskey Hinj s eq_refl cA cB HA HB HsR HsI cap policy Hp) as (K & HK & Hrun).
  destruct (all_runs_end cap K _ _ _ (conj Hcap HK) Hrun) as [n Hn]. exists n. intros k t Hk. destruct (Hn k t Hk) as [Hle Hend]. split; [done|].
  intros Hstuck chosen. destruct (Hend Hstuck) as (HI & HR & Hw). eexists _, _. split; [exact HI|]. split; [exact HR|].
  split; [apply Hw|]. split; [apply Hw|]. do 3 (split; [done|]). split; [apply resultOf_ok|]. split; [apply resultOf_ok|].
  rewrite !resultOf_ok. intros SI SR. fold chosen in SI, SR. pose proof (supported_land chosen provides SR SI) as Em. cbn [resultOf o_method o_ret].
  fold chosen. rewrite Em. split; [done|]. by apply returned_paired.
Qed.

(** An initiator with a payload and a receiver that knows three keys, with small private keys. *)
Definition sampleI : Draws := {| d_X := replicate 19 x00 ++ [x05]; d_pad := bs "padding"; d_padLen := 3 |}.
Definition sampleR : Draws := {| d_X := replicate 19 x00 ++ [x07]; d_pad := bs "more padding"; d_padLen := 2 |}.
Definition sampleKeys : list bytes := [bs "nope"; bs "yep"; bs "maybe"].
Definition anyHeader : HeaderObfuscationPolicy := {| RequirePreferred := false; Preferred := true |}.

Lemma sample_inj k : k ∈ sampleKeys -> hash [req2; k] = hash [req2; bs "yep"] -> k = bs "yep".
Proof.
  intros Hk E. assert (forallb (fun k => bool_decide (hash [req2; k] = hash [req2; bs "yep"] -> k = bs "yep")) sampleKeys = true) as H by (vm_compute; reflexivity).
  rewrite forallb_forall in H. apply list_elem_of_In in Hk. specialize (H k Hk). by apply bool_decide_eq_true in H; apply H.
Qed.

Lemma mse_total_witness :
  (forall x, rtc (env_step orWriteErr) (begin (InitiateHandshake sampleI (bs "yep") (bs "jump the gun") AllSupportedCrypto), 0) x ->
    alive orWriteErr x /\ Acc (fun y x => env_step orWriteErr x y) x /\ x.2 <= maxInitiatorRead) /\
  (forall x, rtc (env_step (fun bo e => (bo.1, orWriteErr bo.2 e))) (begin (handleEncryption sampleI sampleKeys anyHeader DefaultCryptoSelector), 0) x ->
    alive (fun bo e => (bo.1, orWriteErr bo.2 e)) x /\ Acc (fun y x => env_step (fun bo e => (bo.1, orWriteErr bo.2 e)) x y) x /\ x.2 <= maxReceiverRead).
Proof.
  assert (draws_ok sampleI) as H by (split_and!; cbn; lia).
  exact (mse_total sampleI (bs "yep") (bs "jump the gun") AllSupportedCrypto sampleKeys anyHeader DefaultCryptoSelector H).
Defined.

Lemma mse_handshake_witness : exists n, forall k t,
  nsteps (mse_step 1) k (mse_start (InitiateHandshake sampleI (bs "yep") (bs "jump the gun") AllSupportedCrypto)
    (handleEncryption sampleR sampleKeys anyHeader DefaultCryptoSelector)) t -> k <= n.
Proof.
  assert (0 <= AllSupportedCrypto < 2 ^ 32 /\ 0 <= DefaultCryptoSelector AllSupportedCrypto < 2 ^ 32)%Z as [H8 H9] by done.
  assert (Z.of_nat (length (bs "jump the gun")) <= 65535)%Z as H10 by (cbn; lia).
  assert (first_at (d_pad sampleI) (hash [req1; secret sampleI (public sampleR)]) = true) as H1 by (vm_compute; reflexivity).
  assert (first_at (d_pad sampleR) (encryptedVC (secret sampleI (public sampleR)) (bs "yep")) = true) as H2 by (vm_compute; reflexivity).
  assert (bool_decide (take (length Protocol) (public sampleI) = Protocol) = false) as H3%bool_decide_eq_false by (vm_compute; reflexivity).
  assert (draws_ok sampleI /\ draws_ok sampleR) as [H4 H5] by (split; split_and!; cbn; lia).
  assert (bs "yep" ∈ sampleKeys) as H6 by (apply list_elem_of_In; right; left; reflexivity).
  assert (lets_in sampleI anyHeader) as H7 by (split; [intros [=]|intros _; exact H3]).
  destruct (mse_handshake 1 sampleI sampleR sampleKeys (bs "yep") (bs "jump the gun") AllSupportedCrypto DefaultCryptoSelector anyHeader
    (le_n 1) H4 H5 H8 H9 H10 H6 sample_inj H1 H2 H7) as [n Hn].
  exists n. intros k t Hk. exact (proj1 (Hn k t Hk)).
Defined.

(** All that the initiator sends. *)
Definition initiatorBytes (dI dR : Draws) (skey ia : bytes) (provides : Z) : bytes :=
  let s := secret dI (public dR) in
  public dI ++ d_pad dI ++ hash [req1; s] ++ xor (hash [req2; skey]) (hash [req3; s]) ++
  match newEncrypt true s skey with Some c => (XORKeyStream c (proposal provides (d_padLen dI) ia)).1 | None => [] end.

Lemma XORKeyStream_take c x n : n <= length x -> take n (XORKeyStream c x).1 = (XORKeyStream c (take n x)).1.
Proof.
  intros Hn. rewrite <-(take_drop n x) at 1. rewrite XORKeyStream_app, take_app_le, take_ge; [done|..];
    rewrite XORKeyStream_length, length_take; lia.
Qed.

Lemma returned_front method front cin cout : supported method ->
  exists rw, returned method front cin cout = Some rw /\ rw_front rw = front.
Proof. intros [->| ->]; eexists; split; reflexivity. Qed.

Lemma take_last5 (a b c d e : bytes) m : m <= length e ->
  take (length (a ++ b ++ c ++ d ++ e) - m) (a ++ b ++ c ++ d ++ e) = a ++ b ++ c ++ d ++ take (length e - m) e.
Proof.
  intros Hm. rewrite !length_app.
  replace (_ - m) with (length a + (length b + (length c + (length d + (length e - m))))) by lia.
  by rewrite !take_app_add.
Qed.


