(* ===== verification/PeerProtocol.v ===== *)
(** * The peer wire protocol ([src/peer_protocol]: [msg.go], [decoder.go], [int.go],
    [protocol.go], [reqspec.go])

    Messages, their serialization through any [MessageWriter] (a byte buffer, or the writer that
    only counts), and the length-limited decoder reading from a buffered byte source.  An
    [Integer] is a [uint32], kept as a [Z] between 0 and [IntegerMax]. *)

From S2P Require Import Prelude.
Local Open Scope Z_scope.

(** ** Message types ([protocol.go]) *)

Definition IntegerMax : Z := max_uint 32.

Definition mtChoke : Z := 0.
Definition mtUnchoke : Z := 1.
Definition mtInterested : Z := 2.
Definition mtNotInterested : Z := 3.
Definition mtHave : Z := 4.
Definition mtBitfield : Z := 5.
Definition mtRequest : Z := 6.
Definition mtPiece : Z := 7.
Definition mtCancel : Z := 8.
Definition mtPort : Z := 9.
Definition mtSuggest : Z := 13.
Definition mtHaveAll : Z := 14.
Definition mtHaveNone : Z := 15.
Definition mtReject : Z := 16.
Definition mtAllowedFast : Z := 17.
Definition mtExtended : Z := 20.
Definition mtHashRequest : Z := 21.
Definition mtHashes : Z := 22.
Definition mtHashReject : Z := 23.

Definition FastExtension (mt : Z) : bool := (mtSuggest <=? mt) && (mt <=? mtAllowedFast).

(** The cases of the switches over the message type, in source order. *)
Inductive msg_class := CNone | CIndex | CRequest | CBitfield | CPiece | CExtended | CPort
  | CHash | CHashes | CUnknown.

Definition class_of (t : Z) : msg_class :=
  if existsb (Z.eqb t) [mtChoke; mtUnchoke; mtInterested; mtNotInterested; mtHaveAll; mtHaveNone]
  then CNone
  else if existsb (Z.eqb t) [mtHave; mtAllowedFast; mtSuggest] then CIndex
  else if existsb (Z.eqb t) [mtRequest; mtCancel; mtReject] then CRequest
  else if t =? mtBitfield then CBitfield
  else if t =? mtPiece then CPiece
  else if t =? mtExtended then CExtended
  else if t =? mtPort then CPort
  else if existsb (Z.eqb t) [mtHashRequest; mtHashReject] then CHash
  else if t =? mtHashes then CHashes
  else CUnknown.

(** ** Messages ([msg.go]) *)

(** [PiecePtr] is whether [Piece] was taken from the decoder's pool. *)
Record Message := {
  PiecesRoot : bytes;
  Piece : bytes;
  PiecePtr : bool;
  Bitfield : list bool;
  ExtendedPayload : bytes;
  Hashes : list bytes;
  Index : Z;
  Begin : Z;
  Length : Z;
  BaseLayer : Z;
  ProofLayers : Z;
  Port : Z;
  Type_ : Z;
  ExtendedID : Z;
  Keepalive : bool;
}.

(** The zero [Message]. *)
Definition zeroMessage : Message := {|
  PiecesRoot := replicate 32 x00; Piece := []; PiecePtr := false; Bitfield := [];
  ExtendedPayload := []; Hashes := []; Index := 0; Begin := 0; Length := 0; BaseLayer := 0;
  ProofLayers := 0; Port := 0; Type_ := 0; ExtendedID := 0; Keepalive := false |}.

Record RequestSpec := { rs_Index : Z; rs_Begin : Z; rs_Length : Z }.

Definition MakeCancelMessage (piece offset length : Z) : Message := {|
  PiecesRoot := replicate 32 x00; Piece := []; PiecePtr := false; Bitfield := [];
  ExtendedPayload := []; Hashes := []; Index := piece; Begin := offset; Length := length;
  BaseLayer := 0; ProofLayers := 0; Port := 0; Type_ := mtCancel; ExtendedID := 0;
  Keepalive := false |}.

Definition RequestSpec_of (msg : Message) : RequestSpec := {|
  rs_Index := Index msg;
  rs_Begin := Begin msg;
  rs_Length := if Type_ msg =? mtPiece then wrapU 32 (Z.of_nat (length (Piece msg)))
               else Length msg |}.

(** ** Bit fields *)

(** [b[i/8] |= 1 << (7-i%8)] for each set bit, over a slice of [(len(bf)+7)/8] zero bytes. *)
Fixpoint marshalBitfield_loop (i : nat) (bf : list bool) (b : bytes) : bytes :=
  match bf with
  | [] => b
  | have :: bf' =>
      let b' :=
        if have then
          alter (fun c => z2b (Z.lor (b2z c) (Z.shiftl 1 (7 - Z.of_nat (i mod 8))))) (i / 8)%nat b
        else b in
      marshalBitfield_loop (S i) bf' b'
  end.

Definition marshalBitfield (bf : list bool) : bytes :=
  marshalBitfield_loop 0 bf (replicate ((length bf + 7) / 8) x00).

Definition byte_bits (c : byte) : list bool :=
  map (fun i => Z.land (Z.shiftr (b2z c) i) 1 =? 1) [7; 6; 5; 4; 3; 2; 1; 0].

Definition unmarshalBitfield (b : bytes) : list bool := concat (map byte_bits b).

(** ** Writing *)

(** What [writePayloadTo] needs of the writer: both methods report whether they failed, and
    [Write] how many bytes it took. *)
Class MessageWriter (W : Type) := {
  w_WriteByte : byte -> W -> W * bool;
  w_Write : bytes -> W -> W * (Z * bool);
}.

(** [bytes.Buffer] *)
#[export] Instance Buffer_writer : MessageWriter bytes := {
  w_WriteByte c w := (w ++ [c], true);
  w_Write p w := (w ++ p, (Z.of_nat (length p), true));
}.

(** [lengthWriter]: a [uint32] counter *)
Record lengthWriter := { lw_n : Z }.

#[export] Instance lengthWriter_writer : MessageWriter lengthWriter := {
  w_WriteByte c l := ({| lw_n := wrapU 32 (lw_n l + 1) |}, true);
  w_Write p l := ({| lw_n := wrapU 32 (lw_n l + wrapU 32 (Z.of_nat (length p))) |},
                  (Z.of_nat (length p), true));
}.

Inductive write_result := WOk | WFailed | WUnknownType | WPanic.

Definition write_op (W : Type) : Type := W -> W * write_result.

(** Run the next write unless the previous one did not succeed. *)
Definition wthen {W} (m k : write_op W) : write_op W := fun w =>
  match m w with
  | (w', WOk) => k w'
  | res => res
  end.

Definition wskip {W} : write_op W := fun w => (w, WOk).

Definition writeByte_ {W} `{MessageWriter W} (c : byte) : write_op W := fun w =>
  let '(w', ok) := w_WriteByte c w in (w', if ok then WOk else WFailed).

Definition write_ {W} `{MessageWriter W} (p : bytes) : write_op W := fun w =>
  let '(w', (_, ok)) := w_Write p w in (w', if ok then WOk else WFailed).

(** [binary.Write(buf, binary.BigEndian, i)] of an [Integer] *)
Definition writeInteger {W} `{MessageWriter W} (i : Z) : write_op W := write_ (be_put 4 i).

Fixpoint writeIntegers {W} `{MessageWriter W} (l : list Z) : write_op W :=
  match l with
  | [] => wskip
  | i :: l' => wthen (writeInteger i) (writeIntegers l')
  end.

Fixpoint writeAll {W} `{MessageWriter W} (l : list bytes) : write_op W :=
  match l with
  | [] => wskip
  | p :: l' => wthen (write_ p) (writeAll l')
  end.

Definition writeHashCommon {W} `{MessageWriter W} (msg : Message) : write_op W :=
  wthen (write_ (PiecesRoot msg))
    (writeIntegers [BaseLayer msg; Index msg; Length msg; ProofLayers msg]).

(** The last write of a piece message: its error is bound to a shadowing variable and lost. *)
Definition writePieceData {W} `{MessageWriter W} (p : bytes) : write_op W := fun w =>
  let '(w', (n, ok)) := w_Write p w in
  if negb ok then (w', WOk)
  else if negb (n =? Z.of_nat (length p)) then (w', WPanic)
  else (w', WOk).

Definition writePayloadTo {W} `{MessageWriter W} (msg : Message) : write_op W :=
  if Keepalive msg then wskip
  else
    wthen (writeByte_ (z2b (Type_ msg)))
      match class_of (Type_ msg) with
      | CNone => wskip
      | CIndex => writeInteger (Index msg)
      | CRequest => writeIntegers [Index msg; Begin msg; Length msg]
      | CBitfield => write_ (marshalBitfield (Bitfield msg))
      | CPiece => wthen (writeIntegers [Index msg; Begin msg]) (writePieceData (Piece msg))
      | CExtended => wthen (writeByte_ (z2b (ExtendedID msg))) (write_ (ExtendedPayload msg))
      | CPort => write_ (be_put 2 (Port msg))
      | CHash => writeHashCommon msg
      | CHashes => wthen (writeHashCommon msg) (writeAll (Hashes msg))
      | CUnknown => fun w => (w, WUnknownType)
      end.

Definition getPayloadLength (msg : Message) : Z * write_result :=
  let '(lw, res) := writePayloadTo msg {| lw_n := 0 |} in (lw_n lw, res).

Definition WriteTo {W} `{MessageWriter W} (msg : Message) : write_op W := fun w =>
  match getPayloadLength msg with
  | (length, WOk) => wthen (writeInteger length) (writePayloadTo msg) w
  | (_, res) => (w, res)
  end.

Definition MarshalBinary (msg : Message) : bytes * write_result := WriteTo msg [].

(** ** Reading ([decoder.go], [int.go]) *)

Inductive DecErr :=
| EOF
| ErrUnexpectedEOF
| ErrMessageTooLong
| ErrUnhandledType
| ErrPieceTooLong
| ErrUnusedBytes (n : Z)
| ErrTrailingBytes (n : Z)
| ErrReadingLength (e : DecErr)
| ErrReadingFields (t : Z) (e : DecErr)
| ErrReadingHashes (e : DecErr).

(** [Pool] is the buffer [Get] would return, to its capacity; [None] without a pool. *)
Record Decoder := { MaxLength : Z; Pool : option bytes }.

(** The state of a decode: the message being filled in, how much of it is unread, and the
    bytes left in the source (which ends after them). *)
Record rstate := { rs_msg : Message; rs_N : Z; rs_br : bytes }.

Notation R := (go rstate DecErr).

Definition set_msg (f : Message -> Message) : R unit :=
  modify (fun s => {| rs_msg := f (rs_msg s); rs_N := rs_N s; rs_br := rs_br s |}).

(** [expectReader.ReadByte]: the end of the message and of the source are both unexpected. *)
Definition er_ReadByte : R byte := fun s =>
  if rs_N s <=? 0 then Panic ErrUnexpectedEOF s
  else match rs_br s with
       | [] => Panic ErrUnexpectedEOF s
       | c :: br => Ret c {| rs_msg := rs_msg s; rs_N := rs_N s - 1; rs_br := br |}
       end.

(** [io.ReadFull(r, b)] into a buffer: the buffer afterwards and whether it was filled.  What is
    available of the message and of the source is consumed either way. *)
Definition er_ReadFull (b : bytes) : R (bytes * bool) := fun s =>
  let avail := Z.to_nat (Z.min (rs_N s) (Z.of_nat (length (rs_br s)))) in
  let n := Nat.min (length b) avail in
  Ret (take n (rs_br s) ++ drop n b, (n =? length b)%nat)
      {| rs_msg := rs_msg s; rs_N := rs_N s - Z.of_nat n; rs_br := drop n (rs_br s) |}.

(** [io.ReadFull] into a fresh array, when a failure ends the decode. *)
Definition er_Read (n : nat) : R bytes :=
  '(b, ok) ← er_ReadFull (replicate n x00);
  if (ok : bool) then mret b else panic ErrUnexpectedEOF.

(** [Integer.Read] *)
Definition Integer_Read (set : Z -> Message -> Message) : R unit :=
  b ← er_Read 4; set_msg (set (be_get b)).

Definition UnreadLength : R Z := s ← get; mret (rs_N s).

Definition set_Index x m := {| PiecesRoot := PiecesRoot m; Piece := Piece m; PiecePtr := PiecePtr m;
  Bitfield := Bitfield m; ExtendedPayload := ExtendedPayload m; Hashes := Hashes m; Index := x;
  Begin := Begin m; Length := Length m; BaseLayer := BaseLayer m; ProofLayers := ProofLayers m;
  Port := Port m; Type_ := Type_ m; ExtendedID := ExtendedID m; Keepalive := Keepalive m |}.
Definition set_Begin x m := {| PiecesRoot := PiecesRoot m; Piece := Piece m; PiecePtr := PiecePtr m;
  Bitfield := Bitfield m; ExtendedPayload := ExtendedPayload m; Hashes := Hashes m; Index := Index m;
  Begin := x; Length := Length m; BaseLayer := BaseLayer m; ProofLayers := ProofLayers m;
  Port := Port m; Type_ := Type_ m; ExtendedID := ExtendedID m; Keepalive := Keepalive m |}.
Definition set_Length x m := {| PiecesRoot := PiecesRoot m; Piece := Piece m; PiecePtr := PiecePtr m;
  Bitfield := Bitfield m; ExtendedPayload := ExtendedPayload m; Hashes := Hashes m; Index := Index m;
  Begin := Begin m; Length := x; BaseLayer := BaseLayer m; ProofLayers := ProofLayers m;
  Port := Port m; Type_ := Type_ m; ExtendedID := ExtendedID m; Keepalive := Keepalive m |}.
Definition set_BaseLayer x m := {| PiecesRoot := PiecesRoot m; Piece := Piece m;
  PiecePtr := PiecePtr m; Bitfield := Bitfield m; ExtendedPayload := ExtendedPayload m;
  Hashes := Hashes m; Index := Index m; Begin := Begin m; Length := Length m; BaseLayer := x;
  ProofLayers := ProofLayers m; Port := Port m; Type_ := Type_ m; ExtendedID := ExtendedID m;
  Keepalive := Keepalive m |}.
Definition set_ProofLayers x m := {| PiecesRoot := PiecesRoot m; Piece := Piece m;
  PiecePtr := PiecePtr m; Bitfield := Bitfield m; ExtendedPayload := ExtendedPayload m;
  Hashes := Hashes m; Index := Index m; Begin := Begin m; Length := Length m;
  BaseLayer := BaseLayer m; ProofLayers := x; Port := Port m; Type_ := Type_ m;
  ExtendedID := ExtendedID m; Keepalive := Keepalive m |}.
Definition set_Port x m := {| PiecesRoot := PiecesRoot m; Piece := Piece m; PiecePtr := PiecePtr m;
  Bitfield := Bitfield m; ExtendedPayload := ExtendedPayload m; Hashes := Hashes m; Index := Index m;
  Begin := Begin m; Length := Length m; BaseLayer := BaseLayer m; ProofLayers := ProofLayers m;
  Port := x; Type_ := Type_ m; ExtendedID := ExtendedID m; Keepalive := Keepalive m |}.
Definition set_Type x m := {| PiecesRoot := PiecesRoot m; Piece := Piece m; PiecePtr := PiecePtr m;
  Bitfield := Bitfield m; ExtendedPayload := ExtendedPayload m; Hashes := Hashes m; Index := Index m;
  Begin := Begin m; Length := Length m; BaseLayer := BaseLayer m; ProofLayers := ProofLayers m;
  Port := Port m; Type_ := x; ExtendedID := ExtendedID m; Keepalive := Keepalive m |}.
Definition set_Keepalive x m := {| PiecesRoot := PiecesRoot m; Piece := Piece m;
  PiecePtr := PiecePtr m; Bitfield := Bitfield m; ExtendedPayload := ExtendedPayload m;
  Hashes := Hashes m; Index := Index m; Begin := Begin m; Length := Length m;
  BaseLayer := BaseLayer m; ProofLayers := ProofLayers m; Port := Port m; Type_ := Type_ m;
  ExtendedID := ExtendedID m; Keepalive := x |}.
Definition set_PiecesRoot x m := {| PiecesRoot := x; Piece := Piece m; PiecePtr := PiecePtr m;
  Bitfield := Bitfield m; ExtendedPayload := ExtendedPayload m; Hashes := Hashes m; Index := Index m;
  Begin := Begin m; Length := Length m; BaseLayer := BaseLayer m; ProofLayers := ProofLayers m;
  Port := Port m; Type_ := Type_ m; ExtendedID := ExtendedID m; Keepalive := Keepalive m |}.
Definition set_Hashes x m := {| PiecesRoot := PiecesRoot m; Piece := Piece m; PiecePtr := PiecePtr m;
  Bitfield := Bitfield m; ExtendedPayload := ExtendedPayload m; Hashes := x; Index := Index m;
  Begin := Begin m; Length := Length m; BaseLayer := BaseLayer m; ProofLayers := ProofLayers m;
  Port := Port m; Type_ := Type_ m; ExtendedID := ExtendedID m; Keepalive := Keepalive m |}.
Definition set_Bitfield x m := {| PiecesRoot := PiecesRoot m; Piece := Piece m;
  PiecePtr := PiecePtr m; Bitfield := x; ExtendedPayload := ExtendedPayload m; Hashes := Hashes m;
  Index := Index m; Begin := Begin m; Length := Length m; BaseLayer := BaseLayer m;
  ProofLayers := ProofLayers m; Port := Port m; Type_ := Type_ m; ExtendedID := ExtendedID m;
  Keepalive := Keepalive m |}.
Definition set_Piece x p m := {| PiecesRoot := PiecesRoot m; Piece := x; PiecePtr := p;
  Bitfield := Bitfield m; ExtendedPayload := ExtendedPayload m; Hashes := Hashes m; Index := Index m;
  Begin := Begin m; Length := Length m; BaseLayer := BaseLayer m; ProofLayers := ProofLayers m;
  Port := Port m; Type_ := Type_ m; ExtendedID := ExtendedID m; Keepalive := Keepalive m |}.
Definition set_Extended i x m := {| PiecesRoot := PiecesRoot m; Piece := Piece m;
  PiecePtr := PiecePtr m; Bitfield := Bitfield m; ExtendedPayload := x; Hashes := Hashes m;
  Index := Index m; Begin := Begin m; Length := Length m; BaseLayer := BaseLayer m;
  ProofLayers := ProofLayers m; Port := Port m; Type_ := Type_ m; ExtendedID := i;
  Keepalive := Keepalive m |}.

Definition okOr (ok : bool) : R unit := if ok then mret tt else panic ErrUnexpectedEOF.

Definition readHashRequest : R unit :=
  s ← get;
  '(b, ok) ← er_ReadFull (PiecesRoot (rs_msg s));
  set_msg (set_PiecesRoot b);;
  okOr ok;;
  Integer_Read set_BaseLayer;;
  Integer_Read set_Index;;
  Integer_Read set_Length;;
  Integer_Read set_ProofLayers.

(** [for range numHashes] *)
Fixpoint readHashes (numHashes : nat) : R unit :=
  match numHashes with
  | O => mret tt
  | S n =>
      '(b, ok) ← er_ReadFull (replicate 32 x00);
      (if (ok : bool) then mret tt else panic (ErrReadingHashes ErrUnexpectedEOF));;
      set_msg (fun m => set_Hashes (Hashes m ++ [b]) m);;
      readHashes n
  end.

(** The error of a step as a value, the way [err = f()] keeps it. *)
Definition catch {A} (m : R A) : R (option DecErr) := fun s =>
  match m s with
  | Ret _ s' => Ret None s'
  | Panic e s' => Ret (Some e) s'
  | NoFuel => NoFuel
  end.

Definition throw (err : option DecErr) : R unit :=
  match err with None => mret tt | Some e => panic e end.

Definition readMessageAfterType (pool : option bytes) : R unit :=
  s0 ← get;
  match class_of (Type_ (rs_msg s0)) with
  | CNone => mret tt
  | CIndex => Integer_Read set_Index
  | CRequest => Integer_Read set_Index;; Integer_Read set_Begin;; Integer_Read set_Length
  | CBitfield =>
      n ← UnreadLength;
      '(b, ok) ← er_ReadFull (replicate (Z.to_nat n) x00);
      set_msg (set_Bitfield (unmarshalBitfield b));;
      okOr ok
  | CPiece =>
      Integer_Read set_Index;;
      Integer_Read set_Begin;;
      dataLen ← UnreadLength;
      match pool with
      | None => set_msg (fun m => set_Piece (replicate (Z.to_nat dataLen) x00) (PiecePtr m) m)
      | Some p =>
          if Z.of_nat (length p) <? dataLen
          then set_msg (fun m => set_Piece p (PiecePtr m) m);; panic ErrPieceTooLong
          else set_msg (set_Piece (take (Z.to_nat dataLen) p) true)
      end;;
      s ← get;
      '(b, ok) ← er_ReadFull (Piece (rs_msg s));
      set_msg (fun m => set_Piece b (PiecePtr m) m);;
      okOr ok
  | CExtended =>
      b ← er_ReadByte;
      n ← UnreadLength;
      '(p, ok) ← er_ReadFull (replicate (Z.to_nat n) x00);
      set_msg (set_Extended (b2z b) p);;
      okOr ok
  | CPort => b ← er_Read 2; set_msg (set_Port (be_get b))
  | CHash => readHashRequest
  | CHashes =>
      err ← catch readHashRequest;
      n ← UnreadLength;
      let numHashes := (n + 31) / 32 in
      set_msg (set_Hashes []);;
      if 0 <? numHashes then readHashes (Z.to_nat numHashes) else throw err
  | CUnknown => panic ErrUnhandledType
  end.

(** [length.Read(d.R)] on the source itself: nothing left is a clean end. *)
Definition readLength : R Z := fun s =>
  match rs_br s with
  | [] => Panic (ErrReadingLength EOF) s
  | _ =>
      if (length (rs_br s) <? 4)%nat
      then Panic (ErrReadingLength ErrUnexpectedEOF)
             {| rs_msg := rs_msg s; rs_N := rs_N s; rs_br := [] |}
      else Ret (be_get (take 4 (rs_br s)))
             {| rs_msg := rs_msg s; rs_N := rs_N s; rs_br := drop 4 (rs_br s) |}
  end.

Definition wrapErr {A} (f : Message -> DecErr -> DecErr) (m : R A) : R A := fun s =>
  match m s with
  | Panic e s' => Panic (f (rs_msg s') e) s'
  | res => res
  end.

Definition Decode_body (d : Decoder) : R unit :=
  length ← readLength;
  if MaxLength d <? length then panic ErrMessageTooLong
  else if length =? 0 then set_msg (set_Keepalive true)
  else
    modify (fun s => {| rs_msg := rs_msg s; rs_N := length; rs_br := rs_br s |});;
    c ← er_ReadByte;
    set_msg (set_Type (b2z c));;
    wrapErr (fun m => ErrReadingFields (Type_ m)) (readMessageAfterType (Pool d));;
    n ← UnreadLength;
    if n =? 0 then mret tt else panic (ErrUnusedBytes n).

(** [Decoder.Decode(msg)]: the error returned, the message afterwards, and what is left of the
    source. *)
Definition Decode (d : Decoder) (msg : Message) (br : bytes) : option DecErr * Message * bytes :=
  match Decode_body d {| rs_msg := msg; rs_N := 0; rs_br := br |} with
  | Ret _ s => (None, rs_msg s, rs_br s)
  | Panic e s => (Some e, rs_msg s, rs_br s)
  | NoFuel => (None, msg, br)
  end.

(** The buffer of [bufio.NewReader] *)
Definition bufioSize : Z := 4096.

(** [Message.UnmarshalBinary]: the decoder it makes has the zero [MaxLength]. *)
Definition UnmarshalBinary (msg : Message) (b : bytes) : option DecErr * Message :=
  match Decode {| MaxLength := 0; Pool := None |} msg b with
  | (Some e, m, _) => (Some e, m)
  | (None, m, rest) =>
      let consumed := Z.of_nat (length b - length rest) in
      let buffered := Z.min (Z.of_nat (length b)) bufioSize - consumed in
      if buffered =? 0 then (None, m) else (Some (ErrTrailingBytes buffered), m)
  end.
