(* ===== verification/PeerProtocolTheory.v ===== *)
(** * Properties of the peer wire protocol

    Bit fields, the agreement of the counting writer with the buffer, and the round trips
    between messages and their wire form through the length-limited decoder. *)

From S2P Require Import Prelude PeerProtocol.
Local Open Scope Z_scope.

(** ** Bit fields *)

Lemma land_shiftr_testbit a i : 0 <= i -> (Z.land (Z.shiftr a i) 1 =? 1) = Z.testbit a i.
Proof.
  intros Hi. rewrite Z.testbit_odd by done. change 1 with (Z.ones 1) at 1.
  rewrite Z.land_ones by lia. change (2 ^ 1) with 2. rewrite Zmod_odd.
  by destruct (Z.odd _).
Qed.

Lemma b2z_testbit_high c i : 8 <= i -> Z.testbit (b2z c) i = false.
Proof.
  intros Hi. pose proof (b2z_range c). destruct (decide (b2z c = 0)) as [->|]; [apply Z.bits_0|].
  apply Z.bits_above_log2; [lia|]. apply Z.log2_lt_pow2; [lia|].
  apply Z.lt_le_trans with (2 ^ 8); [simpl; lia|]. apply Z.pow_le_mono_r; lia.
Qed.

(** Bit [k] of a byte string, most significant first, as BEP 3 numbers pieces. *)
Definition getbit (b : bytes) (k : nat) : bool :=
  match b !! (k / 8)%nat with
  | Some c => Z.testbit (b2z c) (7 - Z.of_nat (k mod 8))
  | None => false
  end.

Lemma byte_bits_lookup c j :
  (j < 8)%nat -> byte_bits c !! j = Some (Z.testbit (b2z c) (7 - Z.of_nat j)).
Proof.
  intros Hj. unfold byte_bits.
  do 8 (destruct j as [|j]; [simpl; by rewrite land_shiftr_testbit|]). lia.
Qed.

Lemma unmarshalBitfield_length b : length (unmarshalBitfield b) = (8 * length b)%nat.
Proof. induction b as [|c b IH]; [done|]. cbn [unmarshalBitfield map concat] in *.
  unfold unmarshalBitfield in *. simpl. rewrite IH. lia. Qed.

Lemma unmarshalBitfield_lookup b k :
  (k < 8 * length b)%nat -> unmarshalBitfield b !! k = Some (getbit b k).
Proof.
  revert k. induction b as [|c b IH]; intros k Hk; [simpl in Hk; lia|].
  change (unmarshalBitfield (c :: b)) with (byte_bits c ++ unmarshalBitfield b).
  destruct (decide (k < 8)%nat).
  - rewrite lookup_app_l by done. rewrite byte_bits_lookup by done. unfold getbit.
    rewrite Nat.div_small, Nat.mod_small by done. done.
  - rewrite lookup_app_r by (simpl; lia). simpl length.
    rewrite IH by (simpl in Hk; lia). unfold getbit. f_equal.
    assert (exists j, k = j + 1 * 8)%nat as [j ->] by (exists (k - 8)%nat; lia).
    rewrite Nat.div_add, Nat.Div0.mod_add, Nat.add_1_r by lia.
    by replace (j + 1 * 8 - 8)%nat with j by lia.
Qed.

Lemma getbit_alter b i k f :
  (i / 8 < length b)%nat ->
  (forall c, f c = z2b (Z.lor (b2z c) (Z.shiftl 1 (7 - Z.of_nat (i mod 8))))) ->
  getbit (alter f (i / 8)%nat b) k = getbit b k || bool_decide (k = i).
Proof.
  intros Hi Hf. unfold getbit.
  assert (Hmod : forall x, (x mod 8 < 8)%nat) by (intros x; apply Nat.mod_upper_bound; lia).
  pose proof (Hmod i). pose proof (Hmod k).
  destruct (decide (k / 8 = i / 8)%nat) as [Heq|Hne].
  - rewrite Heq, list_lookup_alter_eq.
    destruct (b !! (i / 8)%nat) as [c|] eqn:Ec; [|apply lookup_ge_None in Ec; lia].
    cbn [fmap option_fmap option_map]. rewrite Hf, b2z_z2b, Z.shiftl_1_l.
    assert (0 <= Z.lor (b2z c) (2 ^ (7 - Z.of_nat (i mod 8))) < 2 ^ 8) as Hr.
    { pose proof (b2z_range c). split.
      - apply Z.lor_nonneg. split; [lia|]. apply Z.pow_nonneg. lia.
      - destruct (Z.eq_dec (Z.lor (b2z c) (2 ^ (7 - Z.of_nat (i mod 8)))) 0) as [->|]; [done|].
        assert (0 <= Z.lor (b2z c) (2 ^ (7 - Z.of_nat (i mod 8)))).
        { apply Z.lor_nonneg. split; [lia|]. apply Z.pow_nonneg. lia. }
        apply Z.log2_lt_pow2; [lia|]. rewrite Z.log2_lor by (try apply Z.pow_nonneg; lia).
        apply Z.max_lub_lt.
        + destruct (decide (b2z c = 0)) as [->|]; [done|].
          apply Z.log2_lt_pow2; simpl; lia.
        + rewrite Z.log2_pow2 by lia. lia. }
    rewrite Z.mod_small by (change 256 with (2 ^ 8); lia). rewrite Z.lor_spec.
    f_equal. rewrite Z.pow2_bits_eqb by lia.
    destruct (decide (k = i)) as [->|Hk].
    + rewrite bool_decide_true by done. apply Z.eqb_refl.
    + rewrite bool_decide_false by done. apply Z.eqb_neq. intros E. apply Hk.
      assert (i mod 8 = k mod 8)%nat by lia.
      pose proof (Nat.div_mod_eq k 8). pose proof (Nat.div_mod_eq i 8). lia.
  - rewrite list_lookup_alter_ne by done. rewrite bool_decide_false by congruence.
    by rewrite orb_false_r.
Qed.

Lemma marshalBitfield_loop_length i bf b : length (marshalBitfield_loop i bf b) = length b.
Proof.
  revert i b. induction bf as [|h bf IH]; intros i b; [done|]. simpl. rewrite IH.
  destruct h; [apply length_alter|done].
Qed.

Lemma marshalBitfield_loop_getbit i bf b k :
  (i + length bf <= 8 * length b)%nat ->
  getbit (marshalBitfield_loop i bf b) k =
  getbit b k || match (if decide (i <= k)%nat then bf !! (k - i)%nat else None) with
                | Some h => h | None => false end.
Proof.
  revert i b. induction bf as [|h bf IH]; intros i b Hl.
  { simpl. case_decide; by rewrite orb_false_r. }
  cbn [marshalBitfield_loop length] in *. rewrite IH.
  2: { destruct h; rewrite ?length_alter; lia. }
  destruct (decide (k = i)) as [->|Hne].
  - rewrite (decide_False (P := (S i <= i)%nat)) by lia. rewrite (decide_True (P := (i <= i)%nat)) by lia.
    rewrite Nat.sub_diag. cbn [lookup list_lookup]. rewrite orb_false_r. destruct h.
    + rewrite (getbit_alter _ i) by (try done; apply Nat.Div0.div_lt_upper_bound; lia).
      by rewrite bool_decide_true.
    + by rewrite orb_false_r.
  - assert (getbit (if h then alter (λ c : byte, z2b (Z.lor (b2z c)
      (Z.shiftl 1 (7 - Z.of_nat (i mod 8))))) (i / 8)%nat b else b) k = getbit b k) as ->.
    { destruct h; [|done].
      rewrite (getbit_alter _ i) by (try done; apply Nat.Div0.div_lt_upper_bound; lia).
      by rewrite bool_decide_false, orb_false_r. }
    f_equal. destruct (decide (i <= k)%nat).
    + rewrite decide_True by lia. replace (k - i)%nat with (S (k - S i)) by lia. done.
    + by rewrite decide_False by lia.
Qed.

Lemma bytes_bits_ext b1 b2 :
  length b1 = length b2 -> (forall k, (k < 8 * length b1)%nat -> getbit b1 k = getbit b2 k) -> b1 = b2.
Proof.
  intros Hl Hb. apply list_eq_same_length with (length b1); [done..|].
  intros i x y Hi Hx Hy. apply b2z_inj, Z.bits_inj'. intros n Hn.
  destruct (decide (n < 8)) as [H8|H8]; [|rewrite !b2z_testbit_high by lia; done].
  assert (7 - Z.to_nat n < 8)%nat as Hj by lia.
  specialize (Hb (8 * i + (7 - Z.to_nat n))%nat ltac:(lia)). unfold getbit in Hb.
  rewrite (Nat.mul_comm 8 i), Nat.div_add_l, Nat.div_small, Nat.add_0_r in Hb by lia.
  rewrite Nat.add_comm, Nat.Div0.mod_add, Nat.mod_small in Hb by lia. rewrite Hx, Hy in Hb.
  replace (7 - Z.of_nat (7 - Z.to_nat n)) with n in Hb by lia. done.
Qed.

(** Padding to whole bytes. *)
Definition pad8 (bf : list bool) : list bool :=
  bf ++ replicate (8 * ((length bf + 7) / 8) - length bf) false.

Lemma marshalBitfield_length bf : length (marshalBitfield bf) = ((length bf + 7) / 8)%nat.
Proof. unfold marshalBitfield. by rewrite marshalBitfield_loop_length, length_replicate. Qed.

Lemma getbit_zeros n k : getbit (replicate n x00) k = false.
Proof.
  unfold getbit. destruct (replicate n x00 !! (k / 8)%nat) as [c|] eqn:E; [|done].
  apply lookup_replicate in E as [-> _]. apply Z.bits_0.
Qed.

Lemma div8_up n : (n <= 8 * ((n + 7) / 8))%nat.
Proof. pose proof (Nat.div_mod_eq (n + 7) 8). pose proof (Nat.mod_upper_bound (n + 7) 8). lia. Qed.

Lemma getbit_marshalBitfield bf k :
  getbit (marshalBitfield bf) k = default false (bf !! k).
Proof.
  unfold marshalBitfield. rewrite marshalBitfield_loop_getbit.
  - rewrite getbit_zeros, decide_True, Nat.sub_0_r by lia. simpl. by destruct (bf !! k).
  - rewrite length_replicate. pose proof (div8_up (length bf)). lia.
Qed.

Lemma unmarshal_marshalBitfield bf : unmarshalBitfield (marshalBitfield bf) = pad8 bf.
Proof.
  unfold pad8. apply list_eq_same_length with (8 * ((length bf + 7) / 8))%nat.
  - rewrite length_app, length_replicate. pose proof (div8_up (length bf)). lia.
  - by rewrite unmarshalBitfield_length, marshalBitfield_length.
  - intros k x y Hk Hx Hy.
    rewrite unmarshalBitfield_lookup in Hx by (rewrite marshalBitfield_length; done).
    rewrite getbit_marshalBitfield in Hx. inversion Hx; subst x.
    destruct (decide (k < length bf)%nat).
    + rewrite lookup_app_l in Hy by done. by rewrite Hy.
    + rewrite lookup_app_r in Hy by lia. apply lookup_replicate in Hy as [-> _].
      by rewrite lookup_ge_None_2 by lia.
Qed.

Lemma marshal_unmarshalBitfield b : marshalBitfield (unmarshalBitfield b) = b.
Proof.
  assert (length (marshalBitfield (unmarshalBitfield b)) = length b) as Hl.
  { rewrite marshalBitfield_length, unmarshalBitfield_length.
    rewrite Nat.mul_comm, Nat.div_add_l by lia. simpl. lia. }
  apply bytes_bits_ext; [done|]. intros k Hk. rewrite Hl in Hk.
  by rewrite getbit_marshalBitfield, unmarshalBitfield_lookup.
Qed.

(** Unpacking a packed bit field gives the bits back, padded with zeros to whole bytes, and
    packing an unpacked byte string gives the bytes back; bit [k] is bit [7 - k mod 8] of byte
    [k / 8]. *)
Theorem bitfield_roundtrip (bf : list bool) (b : bytes) :
  unmarshalBitfield (marshalBitfield bf) = pad8 bf /\ marshalBitfield (unmarshalBitfield b) = b /\
  (forall k, getbit (marshalBitfield bf) k = default false (bf !! k)).
Proof.
  split_and!; [apply unmarshal_marshalBitfield|apply marshal_unmarshalBitfield|].
  apply getbit_marshalBitfield.
Qed.

(** ** The wire form *)

(** The fields a message carries after its type. *)
Definition payload_fields (msg : Message) : bytes :=
  match class_of (Type_ msg) with
  | CNone | CUnknown => []
  | CIndex => be_put 4 (Index msg)
  | CRequest => be_put 4 (Index msg) ++ be_put 4 (Begin msg) ++ be_put 4 (Length msg)
  | CBitfield => marshalBitfield (Bitfield msg)
  | CPiece => be_put 4 (Index msg) ++ be_put 4 (Begin msg) ++ Piece msg
  | CExtended => z2b (ExtendedID msg) :: ExtendedPayload msg
  | CPort => be_put 2 (Port msg)
  | CHash => PiecesRoot msg ++ be_put 4 (BaseLayer msg) ++ be_put 4 (Index msg) ++
             be_put 4 (Length msg) ++ be_put 4 (ProofLayers msg)
  | CHashes => PiecesRoot msg ++ be_put 4 (BaseLayer msg) ++ be_put 4 (Index msg) ++
             be_put 4 (Length msg) ++ be_put 4 (ProofLayers msg) ++ concat (Hashes msg)
  end.

Definition payload (msg : Message) : bytes :=
  if Keepalive msg then [] else z2b (Type_ msg) :: payload_fields msg.

Definition known (msg : Message) : bool :=
  Keepalive msg || match class_of (Type_ msg) with CUnknown => false | _ => true end.

(** What the message code relies on in a writer that does not fail: [wput] is its effect. *)
Class ReliableWriter (W : Type) `{MessageWriter W} := {
  wput : W -> bytes -> W;
  w_valid : W -> Prop;
  w_valid_wput w p : w_valid w -> w_valid (wput w p);
  wput_nil w : w_valid w -> wput w [] = w;
  wput_app w p q : wput (wput w p) q = wput w (p ++ q);
  w_WriteByte_ok w c : w_WriteByte c w = (wput w [c], true);
  w_Write_ok w p : w_Write p w = (wput w p, (Z.of_nat (length p), true));
}.

#[export] Program Instance Buffer_reliable : ReliableWriter bytes := {
  wput w p := w ++ p;
  w_valid _ := True;
}.
Next Obligation. done. Qed.
Next Obligation. intros. by rewrite app_nil_r. Qed.
Next Obligation. intros. by rewrite <- app_assoc. Qed.
Next Obligation. done. Qed.
Next Obligation. done. Qed.

#[export] Program Instance lengthWriter_reliable : ReliableWriter lengthWriter := {
  wput l p := {| lw_n := wrapU 32 (lw_n l + Z.of_nat (length p)) |};
  w_valid l := 0 <= lw_n l < 2 ^ 32;
}.
Next Obligation. intros. simpl. by apply wrapU_range. Qed.
Next Obligation. intros [n] Hn. simpl. by rewrite Z.add_0_r, wrapU_small. Qed.
Next Obligation.
  intros. simpl. unfold wrapU. rewrite length_app, Nat2Z.inj_add, Z.add_assoc.
  by rewrite Z.add_mod_idemp_l.
Qed.
Next Obligation. done. Qed.
Next Obligation.
  intros. simpl. unfold wrapU. by rewrite Z.add_mod_idemp_r.
Qed.

Section Writing.
Context {W : Type} `{ReliableWriter W}.

(** [m] succeeds and writes [p]. *)
Definition writes (m : write_op W) (p : bytes) : Prop :=
  forall w, w_valid w -> m w = (wput w p, WOk).

Lemma writes_skip : writes wskip [].
Proof. intros w Hw. unfold wskip. by rewrite wput_nil. Qed.

Lemma writes_then m k p q : writes m p -> writes k q -> writes (wthen m k) (p ++ q).
Proof.
  intros Hm Hk w Hw. unfold wthen. rewrite Hm by done. rewrite Hk by (by apply w_valid_wput).
  by rewrite wput_app.
Qed.

Lemma writes_byte c : writes (writeByte_ c) [c].
Proof. intros w Hw. unfold writeByte_. by rewrite w_WriteByte_ok. Qed.

Lemma writes_write p : writes (write_ p) p.
Proof. intros w Hw. unfold write_. by rewrite w_Write_ok. Qed.

Lemma writes_integer i : writes (writeInteger i) (be_put 4 i).
Proof. apply writes_write. Qed.

Lemma writes_integers l : writes (writeIntegers l) (concat (map (be_put 4) l)).
Proof.
  induction l as [|i l IH]; [apply writes_skip|]. cbn [writeIntegers map concat]. apply writes_then; [|done].
  apply writes_integer.
Qed.

Lemma writes_all l : writes (writeAll l) (concat l).
Proof.
  induction l as [|p l IH]; [apply writes_skip|]. cbn [writeAll concat]. apply writes_then; [|done].
  apply writes_write.
Qed.

Lemma writes_piece p : writes (writePieceData p) p.
Proof. intros w Hw. unfold writePieceData. rewrite w_Write_ok. simpl. by rewrite Z.eqb_refl. Qed.

Lemma writes_hash_common msg :
  writes (writeHashCommon msg)
    (PiecesRoot msg ++ be_put 4 (BaseLayer msg) ++ be_put 4 (Index msg) ++
     be_put 4 (Length msg) ++ be_put 4 (ProofLayers msg)).
Proof.
  apply writes_then; [apply writes_write|].
  pose proof (writes_integers [BaseLayer msg; Index msg; Length msg; ProofLayers msg]) as Hw.
  cbn [map concat] in Hw. by rewrite app_nil_r in Hw.
Qed.

Lemma writes_payload msg : known msg = true -> writes (writePayloadTo msg) (payload msg).
Proof.
  unfold known, payload, writePayloadTo. destruct (Keepalive msg); [intros _; apply writes_skip|].
  simpl. intros Hk. change (z2b (Type_ msg) :: payload_fields msg) with
    ([z2b (Type_ msg)] ++ payload_fields msg). apply writes_then; [apply writes_byte|].
  unfold payload_fields. destruct (class_of (Type_ msg)); try done.
  - apply writes_skip.
  - apply writes_integer.
  - pose proof (writes_integers [Index msg; Begin msg; Length msg]) as Hw.
    cbn [map concat] in Hw. by rewrite app_nil_r in Hw.
  - apply writes_write.
  - rewrite app_assoc. apply writes_then; [|apply writes_piece].
    pose proof (writes_integers [Index msg; Begin msg]) as Hw.
    cbn [map concat] in Hw. by rewrite app_nil_r in Hw.
  - apply (writes_then _ _ [z2b (ExtendedID msg)]); [apply writes_byte|apply writes_write].
  - apply writes_write.
  - apply writes_hash_common.
  - rewrite !(app_assoc _ _ (concat (Hashes msg))). rewrite <- !app_assoc.
    pose proof (writes_then _ _ _ _ (writes_hash_common msg) (writes_all (Hashes msg))) as Hw.
    by rewrite <- !app_assoc in Hw.
Qed.
End Writing.

Lemma getPayloadLength_known msg :
  known msg = true -> getPayloadLength msg = (wrapU 32 (Z.of_nat (length (payload msg))), WOk).
Proof. intros Hk. unfold getPayloadLength. rewrite (writes_payload _ Hk) by done. done. Qed.

Lemma MarshalBinary_known msg :
  known msg = true ->
  MarshalBinary msg = (be_put 4 (wrapU 32 (Z.of_nat (length (payload msg)))) ++ payload msg, WOk).
Proof.
  intros Hk. unfold MarshalBinary, WriteTo. rewrite getPayloadLength_known by done.
  rewrite (writes_then _ _ _ _ (writes_integer _) (writes_payload _ Hk)) by done. done.
Qed.

(** ** Reading what was written *)

(** The fields of a [Message] at their Go widths. *)
Definition uint (w : Z) (z : Z) : bool := (0 <=? z) && (z <? 2 ^ w).

Definition wf_message (msg : Message) : bool :=
  forallb (uint 32) [Index msg; Begin msg; Length msg; BaseLayer msg; ProofLayers msg] &&
  uint 16 (Port msg) && uint 8 (Type_ msg) && uint 8 (ExtendedID msg) &&
  (length (PiecesRoot msg) =? 32)%nat && forallb (fun h => length h =? 32)%nat (Hashes msg).

Lemma uint_spec w z : uint w z = true <-> 0 <= z < 2 ^ w.
Proof. unfold uint. rewrite andb_true_iff, Z.leb_le, Z.ltb_lt. done. Qed.

(** The message a decoder makes of [msg]: the fields of its type, the bit field rounded up to
    whole bytes. *)
Definition received (pooled : bool) (msg : Message) : Message :=
  if Keepalive msg then set_Keepalive true zeroMessage
  else
    let m := set_Type (Type_ msg) zeroMessage in
    let hash m := set_ProofLayers (ProofLayers msg) (set_Length (Length msg)
      (set_Index (Index msg) (set_BaseLayer (BaseLayer msg) (set_PiecesRoot (PiecesRoot msg) m)))) in
    match class_of (Type_ msg) with
    | CNone | CUnknown => m
    | CIndex => set_Index (Index msg) m
    | CRequest => set_Length (Length msg) (set_Begin (Begin msg) (set_Index (Index msg) m))
    | CBitfield => set_Bitfield (pad8 (Bitfield msg)) m
    | CPiece => set_Piece (Piece msg) pooled (set_Begin (Begin msg) (set_Index (Index msg) m))
    | CExtended => set_Extended (ExtendedID msg) (ExtendedPayload msg) m
    | CPort => set_Port (Port msg) m
    | CHash => hash m
    | CHashes => set_Hashes (Hashes msg) (hash m)
    end.

Notation st m n br := {| rs_msg := m; rs_N := n; rs_br := br |}.

Lemma er_ReadFull_ok b p m n rest :
  length b = length p -> 0 <= n ->
  er_ReadFull b (st m (Z.of_nat (length p) + n) (p ++ rest)) = Ret (p, true) (st m n rest).
Proof.
  intros Hb Hn. unfold er_ReadFull. cbn [rs_N rs_br rs_msg]. rewrite length_app.
  replace (Nat.min (length b) _) with (length p) by lia.
  rewrite take_app_length, drop_app_length, Hb, Nat.eqb_refl.
  rewrite drop_ge by lia. rewrite app_nil_r. do 2 f_equal. lia.
Qed.

Lemma er_Read_ok p m n rest :
  0 <= n ->
  er_Read (length p) (st m (Z.of_nat (length p) + n) (p ++ rest)) = Ret p (st m n rest).
Proof.
  intros Hn. unfold er_Read. erewrite bind_step; [|by apply er_ReadFull_ok; [rewrite length_replicate|]].
  done.
Qed.

Lemma Integer_Read_ok set x m n rest :
  uint 32 x = true -> 4 <= n ->
  Integer_Read set (st m n (be_put 4 x ++ rest)) = Ret tt (st (set x m) (n - 4) rest).
Proof.
  intros Hx%uint_spec Hn. unfold Integer_Read. pose proof (be_put_length 4 x) as Hl.
  pose proof (er_Read_ok (be_put 4 x) m (n - 4) rest ltac:(lia)) as E. rewrite Hl in E.
  replace (Z.of_nat 4 + (n - 4)) with n in E by lia. erewrite bind_step by exact E.
  unfold set_msg, modify. by rewrite be_get_put_small.
Qed.

Lemma er_ReadByte_ok c m n rest :
  0 < n -> er_ReadByte (st m n (c :: rest)) = Ret c (st m (n - 1) rest).
Proof. intros Hn. unfold er_ReadByte. cbn. by destruct (Z.leb_spec n 0); [lia|]. Qed.

Lemma set_msg_ok f m n br : set_msg f (st m n br) = Ret tt (st (f m) n br).
Proof. done. Qed.

Lemma UnreadLength_ok m n br : UnreadLength (st m n br) = Ret n (st m n br).
Proof. done. Qed.

Lemma readLength_ok x m n rest :
  uint 32 x = true -> readLength (st m n (be_put 4 x ++ rest)) = Ret x (st m n rest).
Proof.
  intros Hx%uint_spec. unfold readLength. cbn [rs_br rs_N rs_msg].
  pose proof (be_put_length 4 x) as Hl. destruct (be_put 4 x ++ rest) as [|c l] eqn:E.
  - destruct (be_put 4 x); [done|discriminate E].
  - rewrite <- E, length_app, Hl. simpl (_ <? _)%nat. cbv iota.
    rewrite take_app_length', drop_app_length' by done. by rewrite be_get_put_small.
Qed.

#[local] Arguments er_ReadFull : simpl never.
#[local] Arguments Integer_Read : simpl never.
#[local] Arguments be_put : simpl never.

Lemma readHashes_ok hs m rest :
  forallb (fun h => length h =? 32)%nat hs = true ->
  readHashes (length hs) (st m (32 * Z.of_nat (length hs)) (concat hs ++ rest)) =
  Ret tt (st (if decide (hs = []) then m else set_Hashes (Hashes m ++ hs) m) 0 rest).
Proof.
  revert m. induction hs as [|h hs IH]; intros m Hl; [by rewrite decide_True|].
  cbn [forallb] in Hl. apply andb_true_iff in Hl as [Hh%Nat.eqb_eq Hl].
  cbn [length readHashes concat]. rewrite <- app_assoc.
  replace (32 * Z.of_nat (S (length hs))) with (Z.of_nat (length h) + 32 * Z.of_nat (length hs)) by lia.
  erewrite bind_step by (apply er_ReadFull_ok; [by rewrite length_replicate|lia]).
  cbv iota beta. erewrite bind_step by done. erewrite bind_step by done. cbn [rs_msg rs_N rs_br].
  rewrite IH by done. destruct (decide (hs = [])) as [->|]; [done|].
  rewrite decide_False by done. do 2 f_equal. unfold set_Hashes. f_equal. cbn.
  by rewrite <- app_assoc.
Qed.

Lemma concat_length32 hs :
  forallb (fun h : bytes => length h =? 32)%nat hs = true ->
  Z.of_nat (length (concat hs)) = 32 * Z.of_nat (length hs).
Proof.
  induction hs as [|h hs IH]; [done|]. cbn [forallb concat length].
  intros [Hh%Nat.eqb_eq Hl]%andb_true_iff.
  rewrite length_app, Nat2Z.inj_add, IH by done. lia.
Qed.

Definition pool_fits (pool : option bytes) (p : bytes) : bool :=
  match pool with Some b => (length p <=? length b)%nat | None => true end.

Definition pooled (pool : option bytes) : bool := if pool then true else false.

Ltac read_int :=
  rewrite <- ?app_assoc; erewrite bind_step by (apply Integer_Read_ok; [assumption|lia]).

Lemma readHashRequest_ok msg m n rest :
  wf_message msg = true -> length (PiecesRoot m) = 32%nat -> 0 <= n ->
  readHashRequest (st m (48 + n)
    (PiecesRoot msg ++ be_put 4 (BaseLayer msg) ++ be_put 4 (Index msg) ++
     be_put 4 (Length msg) ++ be_put 4 (ProofLayers msg) ++ rest)) =
  Ret tt (st (set_ProofLayers (ProofLayers msg) (set_Length (Length msg)
      (set_Index (Index msg) (set_BaseLayer (BaseLayer msg) (set_PiecesRoot (PiecesRoot msg) m)))))
      n rest).
Proof.
  unfold wf_message, readHashRequest. cbn [forallb]. intros Hwf Hr Hn. bool_to_prop.
  match goal with H : length (PiecesRoot msg) = _ |- _ => rename H into Hl end.
  erewrite bind_step by done. cbn [rs_msg].
  replace (48 + n) with (Z.of_nat (length (PiecesRoot msg)) + (16 + n)) by lia.
  erewrite bind_step by (apply er_ReadFull_ok; lia). cbv iota beta.
  erewrite bind_step by apply set_msg_ok. erewrite bind_step by done.
  do 3 read_int. rewrite Integer_Read_ok by (done || lia). do 2 f_equal. lia.
Qed.

Lemma er_ReadFull_rest k p m rest :
  k = length p ->
  er_ReadFull (replicate k x00) (st m (Z.of_nat (length p)) (p ++ rest)) =
  Ret (p, true) (st m 0 rest).
Proof.
  intros ->. rewrite <- (Z.add_0_r (Z.of_nat _)) at 1.
  apply er_ReadFull_ok; [apply length_replicate|done].
Qed.

Lemma read_piece_data pool m p rest :
  pool_fits pool p = true -> PiecePtr m = false ->
  ((dataLen ← UnreadLength;
    match pool with
    | None => set_msg (fun m => set_Piece (replicate (Z.to_nat dataLen) x00) (PiecePtr m) m)
    | Some b =>
        if Z.of_nat (length b) <? dataLen
        then set_msg (fun m => set_Piece b (PiecePtr m) m);; panic ErrPieceTooLong
        else set_msg (set_Piece (take (Z.to_nat dataLen) b) true)
    end;;
    s ← get;
    '(b, ok) ← er_ReadFull (Piece (rs_msg s));
    set_msg (fun m => set_Piece b (PiecePtr m) m);;
    okOr ok) : R unit) (st m (Z.of_nat (length p)) (p ++ rest)) =
  Ret tt (st (set_Piece p (pooled pool) m) 0 rest).
Proof.
  intros Hp Hm. erewrite bind_step by apply UnreadLength_ok. rewrite Nat2Z.id.
  destruct pool as [b|]; simpl in Hp.
  - apply Nat.leb_le in Hp. destruct (Z.ltb_spec (Z.of_nat (length b)) (Z.of_nat (length p))); [lia|].
    erewrite bind_step by apply set_msg_ok. erewrite bind_step by done. cbn [rs_msg Piece set_Piece].
    rewrite <- (Z.add_0_r (Z.of_nat (length p))) at 1.
    erewrite bind_step by (apply er_ReadFull_ok; [apply length_take_le|]; lia). done.
  - erewrite bind_step by apply set_msg_ok. erewrite bind_step by done. cbn [rs_msg Piece set_Piece].
    erewrite bind_step by (by apply er_ReadFull_rest). cbv iota beta. cbn. by rewrite Hm.
Qed.

Lemma read_hashes_message msg m rest :
  wf_message msg = true -> length (PiecesRoot m) = 32%nat -> Hashes m = [] ->
  ((err ← catch readHashRequest;
    n ← UnreadLength;
    let numHashes := (n + 31) / 32 in
    set_msg (set_Hashes []);;
    if 0 <? numHashes then readHashes (Z.to_nat numHashes) else throw err) : R unit)
    (st m (48 + 32 * Z.of_nat (length (Hashes msg)))
      (PiecesRoot msg ++ be_put 4 (BaseLayer msg) ++ be_put 4 (Index msg) ++
       be_put 4 (Length msg) ++ be_put 4 (ProofLayers msg) ++ concat (Hashes msg) ++ rest)) =
  Ret tt (st (set_Hashes (Hashes msg) (set_ProofLayers (ProofLayers msg) (set_Length (Length msg)
      (set_Index (Index msg) (set_BaseLayer (BaseLayer msg) (set_PiecesRoot (PiecesRoot msg) m))))))
      0 rest).
Proof.
  intros Hwf Hr Hh. erewrite bind_step; [|unfold catch; by rewrite readHashRequest_ok by (done || lia)].
  erewrite bind_step by apply UnreadLength_ok. cbv zeta. erewrite bind_step by apply set_msg_ok.
  unfold wf_message in Hwf. bool_to_prop.
  replace ((32 * _ + 31) / 32) with (Z.of_nat (length (Hashes msg)))
    by (rewrite Z.mul_comm, Z.div_add_l by lia; change (31 / 32) with 0; lia).
  rewrite Nat2Z.id. destruct (Z.ltb_spec 0 (Z.of_nat (length (Hashes msg)))).
  - rewrite readHashes_ok by done. rewrite decide_False; [done|]. by intros E; rewrite E in *.
  - destruct (Hashes msg); [|simpl in *; lia]. done.
Qed.

Lemma readMessageAfterType_ok pool msg rest :
  wf_message msg = true -> Keepalive msg = false -> known msg = true ->
  pool_fits pool (Piece msg) = true ->
  readMessageAfterType pool (st (set_Type (Type_ msg) zeroMessage)
    (Z.of_nat (length (payload_fields msg))) (payload_fields msg ++ rest)) =
  Ret tt (st (received (pooled pool) msg) 0 rest).
Proof.
  intros Hwf Hka Hk Hp. unfold known in Hk. rewrite Hka in Hk. simpl in Hk.
  unfold readMessageAfterType, received, payload_fields. erewrite bind_step by done.
  rewrite Hka. cbn [rs_msg Type_ set_Type].
  assert (Hwf' := Hwf). unfold wf_message in Hwf'. cbn [forallb] in Hwf'. bool_to_prop.
  destruct (class_of (Type_ msg)) eqn:Hc; try done;
    rewrite ?length_app, ?be_put_length, ?Nat2Z.inj_add.
  - by rewrite Integer_Read_ok.
  - do 2 read_int. rewrite Integer_Read_ok by (done || lia). done.
  - erewrite bind_step by apply UnreadLength_ok.
    erewrite bind_step by (apply er_ReadFull_rest; apply Nat2Z.id). cbv iota beta.
    erewrite bind_step by apply set_msg_ok. by rewrite unmarshal_marshalBitfield.
  - do 2 read_int. replace (_ - 4 - 4) with (Z.of_nat (length (Piece msg))) by lia.
    by apply read_piece_data.
  - cbn [app]. erewrite bind_step by (apply er_ReadByte_ok; cbn; lia).
    erewrite bind_step by apply UnreadLength_ok.
    replace (_ - 1) with (Z.of_nat (length (ExtendedPayload msg))) by (cbn; lia).
    erewrite bind_step by (apply er_ReadFull_rest; apply Nat2Z.id). cbv iota beta.
    erewrite bind_step by apply set_msg_ok. rewrite b2z_z2b, Z.mod_small; [done|].
    by apply (uint_spec 8).
  - erewrite bind_step; [|apply (er_Read_ok (be_put 2 (Port msg)) _ 0); done].
    rewrite be_get_put_small by (by apply (uint_spec 16)). done.
  - rewrite <- !app_assoc.
    match goal with H : length (PiecesRoot msg) = _ |- _ => rewrite H end.
    by apply (readHashRequest_ok msg _ 0).
  - match goal with H : length (PiecesRoot msg) = _ |- _ => rewrite H end.
    rewrite concat_length32 by done.
    replace (Z.of_nat 32 + _) with (48 + 32 * Z.of_nat (length (Hashes msg))) by lia.
    rewrite <- !app_assoc. by apply read_hashes_message.
Qed.

Lemma payload_length_pos msg : Keepalive msg = false -> 0 < Z.of_nat (length (payload msg)).
Proof. unfold payload. intros ->. simpl. lia. Qed.

Lemma Decode_ok d msg rest :
  wf_message msg = true -> known msg = true -> pool_fits (Pool d) (Piece msg) = true ->
  Z.of_nat (length (payload msg)) < 2 ^ 32 -> Z.of_nat (length (payload msg)) <= MaxLength d ->
  Decode d zeroMessage
    (be_put 4 (wrapU 32 (Z.of_nat (length (payload msg)))) ++ payload msg ++ rest) =
  (None, received (pooled (Pool d)) msg, rest).
Proof.
  intros Hwf Hk Hp Hlen Hmax. unfold Decode, Decode_body. rewrite wrapU_small by lia.
  erewrite bind_step by (apply readLength_ok, uint_spec; lia).
  destruct (Z.ltb_spec (MaxLength d) (Z.of_nat (length (payload msg)))); [lia|].
  unfold payload in *. destruct (Keepalive msg) eqn:Hka.
  { cbn. unfold received. by rewrite Hka. }
  destruct (Z.eqb_spec (Z.of_nat (length (z2b (Type_ msg) :: payload_fields msg))) 0) as [E|_];
    [simpl in E; lia|].
  erewrite bind_step by done. cbn [rs_msg rs_N rs_br app].
  erewrite bind_step by (apply er_ReadByte_ok; cbn [length]; lia).
  erewrite bind_step by apply set_msg_ok.
  assert (b2z (z2b (Type_ msg)) = Type_ msg) as ->.
  { assert (Hwf' := Hwf). unfold wf_message in Hwf'. bool_to_prop.
    rewrite b2z_z2b. apply Z.mod_small. by apply (uint_spec 8). }
  replace (_ - 1) with (Z.of_nat (length (payload_fields msg))) by (cbn [length]; lia).
  erewrite bind_step by (unfold wrapErr; by rewrite readMessageAfterType_ok). done.
Qed.

(** C9: every message of a known type that the decoder's limits admit survives the wire:
    [MarshalBinary] writes its length and its payload, and [Decode] reads exactly those bytes
    back into the message's own fields, leaving what follows. *)
Theorem message_roundtrip (d : Decoder) (msg : Message) (rest : bytes) :
  wf_message msg = true -> known msg = true -> pool_fits (Pool d) (Piece msg) = true ->
  Z.of_nat (length (payload msg)) < 2 ^ 32 -> Z.of_nat (length (payload msg)) <= MaxLength d ->
  exists enc, MarshalBinary msg = (enc, WOk) /\
    enc = be_put 4 (Z.of_nat (length (payload msg))) ++ payload msg /\
    Decode d zeroMessage (enc ++ rest) = (None, received (pooled (Pool d)) msg, rest).
Proof.
  intros Hwf Hk Hp Hlen Hmax. eexists. split; [by apply MarshalBinary_known|].
  split; [by rewrite wrapU_small by lia|]. rewrite <- app_assoc. by apply Decode_ok.
Qed.

Definition samplePiece : Message :=
  set_Type mtPiece (set_Piece (bs "data") false (set_Begin 16384 (set_Index 7 zeroMessage))).

Lemma message_roundtrip_witness :
  exists enc, MarshalBinary samplePiece = (enc, WOk) /\
    enc = be_put 4 13 ++ payload samplePiece /\
    Decode {| MaxLength := 100; Pool := Some (replicate 16 x00) |} zeroMessage (enc ++ bs "next") =
    (None, set_Piece (bs "data") true samplePiece, bs "next").
Proof.
  apply (message_roundtrip {| MaxLength := 100; Pool := Some (replicate 16 x00) |}
           samplePiece (bs "next")); vm_compute; done.
Defined.

(** ** What is read can be written *)

(** [s'] is [s] after reading [p] and nothing more, with the message [m]. *)
Definition took (s : rstate) (p : bytes) (m : Message) (s' : rstate) : Prop :=
  rs_br s = p ++ rs_br s' /\ rs_N s = Z.of_nat (length p) + rs_N s' /\ 0 <= rs_N s' /\ rs_msg s' = m.

(** Nothing of the message, or of the source, is left. *)
Definition exhausted (s : rstate) : Prop := rs_N s <= 0 \/ rs_br s = [].

Lemma took_trans s p m s1 q m' s2 :
  took s p m s1 -> took s1 q m' s2 -> took s (p ++ q) m' s2.
Proof.
  intros (E1 & N1 & _ & _) (E2 & N2 & ? & ?). unfold took. rewrite E1, E2, <- app_assoc, length_app.
  split_and!; [done|lia..|done].
Qed.

Lemma took_nil s m : 0 <= rs_N s -> rs_msg s = m -> took s [] m s.
Proof. intros. unfold took. split_and!; done || (simpl; lia). Qed.

Lemma er_ReadFull_inv b s p ok s' :
  er_ReadFull b s = Ret (p, ok) s' -> 0 <= rs_N s ->
  if ok then length p = length b /\ took s p (rs_msg s) s' else exhausted s'.
Proof.
  unfold er_ReadFull. intros [=Hp <- <-] HN. 
  set (n := Nat.min _ _) in *. destruct (Nat.eqb_spec n (length b)) as [E|E].
  - rewrite drop_ge, app_nil_r in Hp by lia. subst p. unfold took. cbn.
    rewrite length_take, take_drop. split_and!; (done || lia).
  - unfold exhausted. cbn. destruct (decide (rs_N s <= Z.of_nat (length (rs_br s)))); [left; lia|].
    right. apply drop_ge. lia.
Qed.

Lemma er_ReadByte_inv s c s' :
  er_ReadByte s = Ret c s' -> 0 <= rs_N s -> took s [c] (rs_msg s) s'.
Proof.
  unfold er_ReadByte, took. destruct (Z.leb_spec (rs_N s) 0); [done|].
  destruct (rs_br s); [done|]. intros [= <- <-] _. cbn. split_and!; [done|lia..|done].
Qed.

Lemma er_Read_inv n s p s' :
  er_Read n s = Ret p s' -> 0 <= rs_N s -> length p = n /\ took s p (rs_msg s) s'.
Proof.
  unfold er_Read. intros ([b ok] & s1 & E & E2)%bind_Ret HN. destruct ok; [|done].
  injection E2 as -> ->. apply er_ReadFull_inv in E; [|done]. by rewrite length_replicate in E.
Qed.

Lemma er_Read_panic n s e s' : er_Read n s = Panic e s' -> 0 <= rs_N s -> exhausted s'.
Proof.
  unfold er_Read. intros [E|([b ok] & s1 & E & E2)]%bind_Panic HN; [done|]. destruct ok; [done|].
  injection E2 as _ <-. by apply er_ReadFull_inv in E.
Qed.

Lemma set_msg_inv f s u s' : set_msg f s = Ret u s' -> s' = st (f (rs_msg s)) (rs_N s) (rs_br s).
Proof. unfold set_msg, modify. by intros [= _ <-]. Qed.

Lemma Integer_Read_inv set s u s' :
  Integer_Read set s = Ret u s' -> 0 <= rs_N s ->
  exists x, uint 32 x = true /\ took s (be_put 4 x) (set x (rs_msg s)) s'.
Proof.
  unfold Integer_Read. intros (p & s1 & E & ->%set_msg_inv)%bind_Ret HN.
  apply er_Read_inv in E as [Hl (E1 & E2 & E3 & E4)]; [|done]. exists (be_get p).
  split; [apply uint_spec; pose proof (be_get_bound p) as Hb; by rewrite Hl in Hb|].
  unfold took. cbn. rewrite be_put_get, E4 by done. done.
Qed.

Lemma Integer_Read_panic set s e s' :
  Integer_Read set s = Panic e s' -> 0 <= rs_N s -> exhausted s'.
Proof.
  unfold Integer_Read. intros [E|(p & s1 & E & E2)]%bind_Panic HN; [|done].
  by eapply er_Read_panic.
Qed.

Lemma took_N s p m s' : took s p m s' -> 0 <= rs_N s'.
Proof. by intros (_ & _ & ? & _). Qed.
Lemma took_msg s p m s' : took s p m s' -> rs_msg s' = m.
Proof. by intros (_ & _ & _ & ?). Qed.
#[local] Hint Resolve took_N took_msg : core.

Lemma bind_Integer_Read {A} set (k : unit -> R A) s a s' p m s0 :
  (u ← Integer_Read set; k u) s = Ret a s' -> took s0 p m s ->
  exists x s1, uint 32 x = true /\ took s0 (p ++ be_put 4 x) (set x m) s1 /\ k tt s1 = Ret a s'.
Proof.
  intros ([] & s1 & E & Hk)%bind_Ret Hs.
  apply Integer_Read_inv in E as (x & Hx & T); [|by eauto].
  rewrite (took_msg _ _ _ _ Hs) in T. exists x, s1. split_and!; [done| |done]. by eapply took_trans.
Qed.

Lemma last_Integer_Read set s u s' p m s0 :
  Integer_Read set s = Ret u s' -> took s0 p m s ->
  exists x, uint 32 x = true /\ took s0 (p ++ be_put 4 x) (set x m) s'.
Proof.
  intros E Hs. apply Integer_Read_inv in E as (x & Hx & T); [|by eauto].
  rewrite (took_msg _ _ _ _ Hs) in T. exists x. split; [done|]. by eapply took_trans.
Qed.

Lemma bind_Integer_panic {A} set (k : unit -> R A) s e s' :
  (u ← Integer_Read set; k u) s = Panic e s' -> 0 <= rs_N s ->
  exhausted s' \/ exists s1, 0 <= rs_N s1 /\ k tt s1 = Panic e s'.
Proof.
  intros [E|([] & s1 & E & Hk)]%bind_Panic HN; [left; by eapply Integer_Read_panic|right].
  apply Integer_Read_inv in E as (x & _ & T); [|done]. exists s1. by eauto.
Qed.

(** A buffer that was filled and stored in the message. *)
Lemma took_set s p m s1 f :
  took s p m s1 -> took s p (f m) (st (f (rs_msg s1)) (rs_N s1) (rs_br s1)).
Proof. intros (? & ? & ? & ->). done. Qed.

Lemma readHashRequest_inv s u s' :
  readHashRequest s = Ret u s' -> 0 <= rs_N s -> length (PiecesRoot (rs_msg s)) = 32%nat ->
  exists root bl ix ln pl, forallb (uint 32) [bl; ix; ln; pl] = true /\ length root = 32%nat /\
    took s (root ++ be_put 4 bl ++ be_put 4 ix ++ be_put 4 ln ++ be_put 4 pl)
      (set_ProofLayers pl (set_Length ln (set_Index ix (set_BaseLayer bl
         (set_PiecesRoot root (rs_msg s)))))) s'.
Proof.
  unfold readHashRequest. intros H HN Hr. apply bind_Ret in H as (? & ? & [= <- <-] & H).
  apply bind_Ret in H as ([root ok] & s1 & E & H). apply er_ReadFull_inv in E; [|done].
  apply bind_Ret in H as (? & s2 & ->%set_msg_inv & H).
  apply bind_Ret in H as (? & s3 & E1 & H). destruct ok; [|done]. injection E1 as _ <-.
  destruct E as [Hl E]. eapply (took_set _ _ _ _ (set_PiecesRoot root)) in E.
  eapply bind_Integer_Read in H as (bl & ? & Hbl & T1 & H); [|exact E].
  eapply bind_Integer_Read in H as (ix & ? & Hix & T2 & H); [|exact T1].
  eapply bind_Integer_Read in H as (ln & ? & Hln & T3 & H); [|exact T2].
  eapply last_Integer_Read in H as (pl & Hpl & T); [|exact T3].
  rewrite <- !app_assoc in T. exists root, bl, ix, ln, pl.
  cbn [forallb]. rewrite Hbl, Hix, Hln, Hpl, Hl, Hr. done.
Qed.

Lemma readHashRequest_panic s e s' :
  readHashRequest s = Panic e s' -> 0 <= rs_N s -> exhausted s'.
Proof.
  unfold readHashRequest. intros H HN. apply bind_Panic in H as [H|(? & ? & [= <- <-] & H)]; [done|].
  apply bind_Panic in H as [H|([root ok] & s1 & E & H)]; [done|]. apply er_ReadFull_inv in E; [|done].
  apply bind_Panic in H as [H|(? & s2 & ->%set_msg_inv & H)]; [done|].
  apply bind_Panic in H as [H|(? & s3 & E1 & H)].
  { destruct ok; [done|]. injection H as _ <-. done. }
  destruct ok; [|done]. injection E1 as _ <-. destruct E as [_ E].
  eapply (took_set _ _ _ _ (set_PiecesRoot root)) in E. apply took_N in E.
  apply bind_Integer_panic in H as [|(? & E1 & H)]; [done| |done].
  apply bind_Integer_panic in H as [|(? & E2 & H)]; [done| |done].
  apply bind_Integer_panic in H as [|(? & E3 & H)]; [done| |done].
  by eapply Integer_Read_panic.
Qed.

Lemma readHashes_inv n s u s' :
  readHashes n s = Ret u s' -> 0 <= rs_N s -> Hashes (rs_msg s) = [] \/ (0 < n)%nat ->
  exists hs, forallb (fun h => length h =? 32)%nat hs = true /\ length hs = n /\
    took s (concat hs) (set_Hashes (Hashes (rs_msg s) ++ hs) (rs_msg s)) s'.
Proof.
  revert s. induction n as [|n IH]; intros s H HN Hn.
  - injection H as _ <-. destruct Hn as [Hn|]; [|lia]. exists []. split_and!; [done..|].
    apply took_nil; [done|]. rewrite Hn. destruct (rs_msg s); cbn in *. by rewrite Hn.
  - cbn [readHashes] in H. apply bind_Ret in H as ([b ok] & s1 & E & H).
    apply er_ReadFull_inv in E; [|done]. apply bind_Ret in H as (? & s2 & E2 & H).
    destruct ok; [|done]. injection E2 as _ <-. destruct E as [Hl E].
    apply bind_Ret in H as (? & s3 & ->%set_msg_inv & H).
    eapply (took_set _ _ _ _ (fun m => set_Hashes (Hashes m ++ [b]) m)) in E. cbv beta in E.
    destruct n as [|n].
    + injection H as _ <-. exists [b]. cbn [forallb concat]. rewrite Hl, app_nil_r. done.
    + apply IH in H as (hs & Hhs & Hlen & T); [|by eauto|right; lia]. exists (b :: hs).
      cbn [forallb concat length]. rewrite Hl, Hhs, Hlen. split_and!; [done..|].
      pose proof (took_trans _ _ _ _ _ _ _ E T) as T2. rewrite (took_msg _ _ _ _ E) in T2.
      unfold set_Hashes at 1 2 3 in T2. cbn in T2. by rewrite <- app_assoc in T2.
Qed.

(** An error in the fields of a hashes message cannot be lost: nothing is left to read then. *)
Lemma readHashes_exhausted n s u s' :
  exhausted s -> 0 < rs_N s -> (0 < n)%nat -> readHashes n s <> Ret u s'.
Proof.
  intros [?|He] HN Hn E; [lia|]. destruct n as [|n]; [lia|]. cbn [readHashes] in E.
  apply bind_Ret in E as ([b ok] & s1 & E & H). unfold er_ReadFull in E. rewrite He in E.
  cbn [length] in E. rewrite Z.min_r in E by lia. cbn in E. by injection E as <- <- <-.
Qed.

Lemma read_hashes_inv s u s' t :
  rs_msg s = set_Type t zeroMessage -> 0 <= rs_N s ->
  (err ← catch readHashRequest;
   n ← UnreadLength;
   let numHashes := (n + 31) / 32 in
   set_msg (set_Hashes []);;
   if 0 <? numHashes then readHashes (Z.to_nat numHashes) else throw err) s = Ret u s' ->
  exists root bl ix ln pl hs, forallb (uint 32) [bl; ix; ln; pl] = true /\ length root = 32%nat /\
    forallb (fun h => length h =? 32)%nat hs = true /\
    took s (root ++ be_put 4 bl ++ be_put 4 ix ++ be_put 4 ln ++ be_put 4 pl ++ concat hs)
      (set_Hashes hs (set_ProofLayers pl (set_Length ln (set_Index ix (set_BaseLayer bl
         (set_PiecesRoot root (rs_msg s))))))) s'.
Proof.
  intros Hs HN H. apply bind_Ret in H as (err & s1 & E & H).
  apply bind_Ret in H as (? & ? & [= <- <-] & H). cbv zeta in H.
  apply bind_Ret in H as (? & s2 & ->%set_msg_inv & H). unfold catch in E.
  destruct (readHashRequest s) as [[] s1'|e s1'|] eqn:E1; [| |done]; injection E as <- <-.
  - apply readHashRequest_inv in E1 as (root & bl & ix & ln & pl & Hu & Hr & T); [|done|by rewrite Hs].
    assert (rs_N s1' = 0 \/ 0 < rs_N s1') as HN1 by (apply took_N in T; lia).
    eapply (took_set _ _ _ _ (set_Hashes [])) in T. destruct (Z.ltb_spec 0 ((rs_N s1' + 31) / 32)).
    + apply readHashes_inv in H as (hs & Hhs & _ & T2); [|by eauto|by left].
      exists root, bl, ix, ln, pl, hs. split_and!; [done..|].
      pose proof (took_trans _ _ _ _ _ _ _ T T2) as T3. rewrite (took_msg _ _ _ _ T) in T3.
      rewrite <- !app_assoc in T3. exact T3.
    + injection H as _ <-. exists root, bl, ix, ln, pl, []. cbn [concat]. by rewrite app_nil_r.
  - apply readHashRequest_panic in E1; [|done]. exfalso. revert H.
    destruct (Z.ltb_spec 0 ((rs_N s1' + 31) / 32)) as [Hpos|]; [|done].
    apply readHashes_exhausted; cbn; [done| |lia].
    destruct (decide (0 < rs_N s1')); [done|].
    pose proof (Z.div_lt_upper_bound (rs_N s1' + 31) 32 1). lia.
Qed.

Lemma read_piece_inv pool s u s' :
  0 <= rs_N s ->
  (dataLen ← UnreadLength;
   match pool with
   | None => set_msg (fun m => set_Piece (replicate (Z.to_nat dataLen) x00) (PiecePtr m) m)
   | Some b =>
       if Z.of_nat (length b) <? dataLen
       then set_msg (fun m => set_Piece b (PiecePtr m) m);; panic ErrPieceTooLong
       else set_msg (set_Piece (take (Z.to_nat dataLen) b) true)
   end;;
   s ← get;
   '(b, ok) ← er_ReadFull (Piece (rs_msg s));
   set_msg (fun m => set_Piece b (PiecePtr m) m);;
   okOr ok) s = Ret u s' ->
  exists p ptr, took s p (set_Piece p ptr (rs_msg s)) s'.
Proof.
  intros HN H. apply bind_Ret in H as (? & ? & [= <- <-] & H).
  apply bind_Ret in H as (? & s1 & E & H).
  assert (exists p ptr, s1 = st (set_Piece p ptr (rs_msg s)) (rs_N s) (rs_br s)) as (p & ptr & ->).
  { destruct pool as [b|]; [destruct (_ <? _)|]; [done| |]; apply set_msg_inv in E as ->; by eauto. }
  apply bind_Ret in H as (? & ? & [= <- <-] & H). apply bind_Ret in H as ([b ok] & s2 & E2 & H).
  apply er_ReadFull_inv in E2; [|done]. apply bind_Ret in H as (? & s3 & ->%set_msg_inv & H).
  destruct ok; [|done]. injection H as _ <-. destruct E2 as [_ T].
  eapply (took_set _ _ _ _ (fun m => set_Piece b (PiecePtr m) m)) in T.
  exists b, ptr. unfold took in *. cbn in T |- *. exact T.
Qed.

(** What a completed message holds: it is in range and is spelled by the bytes read. *)
Definition spelled (t : Z) (s s' : rstate) : Prop :=
  Type_ (rs_msg s') = t /\ wf_message (rs_msg s') = true /\ known (rs_msg s') = true /\ Keepalive (rs_msg s') = false /\
  rs_br s = payload_fields (rs_msg s') ++ rs_br s' /\
  rs_N s = Z.of_nat (length (payload_fields (rs_msg s'))) + rs_N s'.

Lemma wf_message_intro m :
  forallb (uint 32) [Index m; Begin m; Length m; BaseLayer m; ProofLayers m] = true ->
  uint 16 (Port m) = true -> uint 8 (Type_ m) = true -> uint 8 (ExtendedID m) = true ->
  length (PiecesRoot m) = 32%nat -> forallb (fun h => length h =? 32)%nat (Hashes m) = true ->
  wf_message m = true.
Proof.
  unfold wf_message. intros Hf Hport Ht He Hr Hh. rewrite Hf, Hport, Ht, He, Hr, Hh. done.
Qed.

Lemma took_spelled s p m s' :
  took s p m s' -> payload_fields m = p -> wf_message m = true -> Keepalive m = false ->
  class_of (Type_ m) <> CUnknown -> spelled (Type_ m) s s'.
Proof.
  intros (E1 & E2 & _ & <-) <- Hwf Hka Hk. unfold spelled, known. rewrite Hka.
  split_and!; [done|done| |done..]. by destruct (class_of _).
Qed.

Ltac spell Hc T :=
  eapply (took_spelled _ _ _ _ T); [| |done|cbn; by rewrite Hc];
  [unfold payload_fields; cbn; by rewrite Hc|
   apply wf_message_intro; cbn [forallb] in *; bool_to_prop; cbn; rewrite ?andb_true_iff; done].

Lemma readMessageAfterType_inv pool t s u s' :
  rs_msg s = set_Type t zeroMessage -> uint 8 t = true -> 0 <= rs_N s ->
  readMessageAfterType pool s = Ret u s' -> spelled t s s'.
Proof.
  intros Hs Ht HN. unfold readMessageAfterType. intros (? & ? & [= <- <-] & H)%bind_Ret.
  pose proof (took_nil s _ HN Hs) as T0. rewrite Hs in H. cbn [Type_ set_Type] in H.
  destruct (class_of t) eqn:Hc; [..|done].
  - injection H as _ <-. spell Hc T0.
  - eapply last_Integer_Read in H as (x & Hx & T); [|exact T0]. spell Hc T.
  - eapply bind_Integer_Read in H as (x & ? & Hx & T1 & H); [|exact T0].
    eapply bind_Integer_Read in H as (y & ? & Hy & T2 & H); [|exact T1].
    eapply last_Integer_Read in H as (z & Hz & T); [|exact T2].
    rewrite <- !app_assoc in T. spell Hc T.
  - apply bind_Ret in H as (? & ? & [= <- <-] & H). apply bind_Ret in H as ([b ok] & s1 & E & H).
    apply er_ReadFull_inv in E; [|done]. apply bind_Ret in H as (? & s2 & ->%set_msg_inv & H).
    destruct ok; [|done]. injection H as _ <-. destruct E as [_ T].
    eapply (took_set _ _ _ _ (set_Bitfield (unmarshalBitfield b))) in T. rewrite Hs in T.
    eapply (took_spelled _ _ _ _ T); [| |done|cbn; by rewrite Hc].
    + unfold payload_fields. cbn. rewrite Hc. apply marshal_unmarshalBitfield.
    + apply wf_message_intro; cbn; done.
  - eapply bind_Integer_Read in H as (x & ? & Hx & T1 & H); [|exact T0].
    eapply bind_Integer_Read in H as (y & ? & Hy & T2 & H); [|exact T1].
    apply read_piece_inv in H as (p & ptr & T3); [|by eauto].
    pose proof (took_trans _ _ _ _ _ _ _ T2 T3) as T. rewrite (took_msg _ _ _ _ T2) in T.
    rewrite <- !app_assoc in T. spell Hc T.
  - apply bind_Ret in H as (c & s1 & T1%er_ReadByte_inv & H); [|done].
    apply bind_Ret in H as (? & ? & [= <- <-] & H). apply bind_Ret in H as ([p ok] & s2 & E & H).
    apply er_ReadFull_inv in E; [|by eauto]. apply bind_Ret in H as (? & s3 & ->%set_msg_inv & H).
    destruct ok; [|done]. injection H as _ <-. destruct E as [_ T2].
    pose proof (took_trans _ _ _ _ _ _ _ T1 T2) as T.
    eapply (took_set _ _ _ _ (set_Extended (b2z c) p)) in T.
    rewrite (took_msg _ _ _ _ T1), Hs in T.
    eapply (took_spelled _ _ _ _ T); [| |done|cbn; by rewrite Hc].
    + unfold payload_fields. cbn. by rewrite Hc, z2b_b2z.
    + apply wf_message_intro; cbn; try done. apply uint_spec, b2z_range.
  - apply bind_Ret in H as (b & s1 & E & ->%set_msg_inv).
    apply er_Read_inv in E as [Hl T]; [|done].
    eapply (took_set _ _ _ _ (set_Port (be_get b))) in T. rewrite Hs in T.
    eapply (took_spelled _ _ _ _ T); [| |done|cbn; by rewrite Hc].
    + unfold payload_fields. cbn [Type_ set_Port set_Type Port]. rewrite Hc. by apply be_put_get.
    + apply wf_message_intro; cbn; try done. apply uint_spec.
      pose proof (be_get_bound b) as Hb. by rewrite Hl in Hb.
  - apply readHashRequest_inv in H as (root & bl & ix & ln & pl & Hu & Hr & T);
      [|done|by rewrite Hs]. rewrite Hs in T. spell Hc T.
  - apply (read_hashes_inv _ _ _ t) in H as (root & bl & ix & ln & pl & hs & Hu & Hr & Hh & T);
      [|done..]. rewrite Hs in T. spell Hc T.
Qed.

Lemma readLength_inv s x s' :
  readLength s = Ret x s' ->
  uint 32 x = true /\ rs_br s = be_put 4 x ++ rs_br s' /\ rs_msg s' = rs_msg s.
Proof.
  unfold readLength. remember (rs_br s) as br eqn:E. destruct br as [|c l]; [done|].
  set (br := c :: l). destruct (Nat.ltb_spec (length br) 4) as [|Hlen]; [done|].
  clearbody br. intros [= <- <-]. cbn [rs_br rs_msg].
  assert (length (take 4 br) = 4%nat) as Hl by (rewrite length_take; lia).
  rewrite be_put_get by done. split_and!; [|by rewrite take_drop|done]. apply uint_spec.
  pose proof (be_get_bound (take 4 br)) as Hb. by rewrite Hl in Hb.
Qed.

(** No loop of the decoder is cut short. *)
Definition total {A} (m : R A) : Prop := forall s, m s <> NoFuel.

Lemma total_bind {A B} (m : R A) (k : A -> R B) :
  total m -> (forall a, total (k a)) -> total (x ← m; k x).
Proof. intros Hm Hk s. unfold mbind, go_bind. specialize (Hm s). destruct (m s); [apply Hk|done..]. Qed.

Lemma total_catch {A} (m : R A) : total m -> total (catch m).
Proof. intros Hm s. unfold catch. specialize (Hm s). by destruct (m s). Qed.

Lemma total_wrapErr {A} f (m : R A) : total m -> total (wrapErr f m).
Proof. intros Hm s. unfold wrapErr. specialize (Hm s). by destruct (m s). Qed.

Ltac total_step :=
  first [apply total_bind | apply total_catch | apply total_wrapErr
        | progress intros | break_match_goal | by intros ?].

Lemma Integer_Read_total set : total (Integer_Read set).
Proof. unfold Integer_Read, er_Read. repeat total_step. Qed.

Lemma readHashRequest_total : total readHashRequest.
Proof. unfold readHashRequest, okOr. repeat (apply Integer_Read_total || total_step). Qed.

Lemma readHashes_total n : total (readHashes n).
Proof. induction n as [|n IH]; cbn [readHashes]; repeat (apply IH || total_step). Qed.

Lemma er_ReadByte_total : total er_ReadByte.
Proof. intros s. unfold er_ReadByte. by repeat break_match_goal. Qed.

Lemma readLength_total : total readLength.
Proof. intros s. unfold readLength. by repeat break_match_goal. Qed.

Lemma Decode_body_total d : total (Decode_body d).
Proof.
  unfold Decode_body, readMessageAfterType, er_Read, okOr, throw.
  repeat (apply Integer_Read_total || apply readHashRequest_total || apply readHashes_total
          || apply readLength_total || apply er_ReadByte_total || total_step).
Qed.

Lemma Decode_inv d input m rest :
  Decode d zeroMessage input = (None, m, rest) ->
  wf_message m = true /\ known m = true /\ Z.of_nat (length (payload m)) <= MaxLength d /\
  Z.of_nat (length (payload m)) < 2 ^ 32 /\
  input = be_put 4 (Z.of_nat (length (payload m))) ++ payload m ++ rest.
Proof.
  unfold Decode. pose proof (Decode_body_total d (st zeroMessage 0 input)) as Htot.
  destruct (Decode_body d _) as [u s|e s|] eqn:H; [|done|done]. intros [= <- <-].
  unfold Decode_body in H. apply bind_Ret in H as (len & s1 & E & H).
  apply readLength_inv in E as (Hlen%uint_spec & Hbr & Hmsg). cbn in Hbr, Hmsg.
  destruct (Z.ltb_spec (MaxLength d) len); [done|]. destruct (Z.eqb_spec len 0) as [->|].
  { apply set_msg_inv in H as ->. cbn. rewrite Hmsg. unfold payload. cbn. split_and!; done || lia. }
  apply bind_Ret in H as (? & s2 & [= _ <-] & H).
  apply bind_Ret in H as (c & s3 & T%er_ReadByte_inv & H); [|cbn; lia].
  destruct T as (E1 & E2 & E3 & E4). cbn in E1, E2, E4.
  apply bind_Ret in H as (? & s4 & ->%set_msg_inv & H).
  apply bind_Ret in H as (v & s5 & E & H). unfold wrapErr in E.
  destruct (readMessageAfterType _ _) as [u' s'|? ?|] eqn:R; [|done|done].
  injection E as -> ->. apply bind_Ret in H as (? & ? & [= <- <-] & H).
  eapply readMessageAfterType_inv in R as (Ht & Hwf & Hk & Hka & E5 & E6); cbn;
    [|by rewrite E4, Hmsg|apply uint_spec, b2z_range|done].
  destruct (Z.eqb_spec (rs_N s5) 0) as [E0|]; [|done]. injection H as _ <-.
  assert (payload (rs_msg s5) = c :: payload_fields (rs_msg s5)) as Hp
    by (unfold payload; by rewrite Hka, Ht, z2b_b2z).
  cbn in E5, E6. rewrite Hp. cbn [length]. split_and!; [done|done|lia|lia|].
  rewrite Hbr, E1, E5. cbn. do 2 f_equal. lia.
Qed.

(** The bit field of a decoded message has whole bytes. *)
Lemma Decode_bitfield d input m rest : Decode d zeroMessage input = (None, m, rest) -> Keepalive m = false ->
  class_of (Type_ m) = CBitfield -> Z.of_nat (length (Bitfield m)) mod 8 = 0.
Proof.
  intros H Hka Ht. pose proof H as (Hwf & Hk & Hmax & Hlen & Hin)%Decode_inv. set (m0 := set_Piece [] false m).
  assert (payload m0 = payload m) as Ep by (unfold payload, payload_fields; cbn; by rewrite Ht).
  pose proof (Decode_ok d m0 rest) as Hok. rewrite Ep, wrapU_small, <-Hin, H in Hok by lia.
  assert (m = received (pooled (Pool d)) m0) as E by (injection Hok; [done..|by destruct (Pool d)|done|done]).
  apply (f_equal Bitfield) in E. unfold received in E. cbn -[pad8] in E. rewrite Hka, Ht in E. cbn -[pad8] in E. rewrite E. unfold pad8.
  rewrite length_app, length_replicate. generalize (length (Bitfield m)). intros k.
  pose proof (Nat.div_mod (k + 7) 8 ltac:(done)). pose proof (Nat.mod_upper_bound (k + 7) 8 ltac:(done)).
  assert (k + (8 * ((k + 7) / 8) - k) = 8 * ((k + 7) / 8))%nat as -> by lia. rewrite Nat2Z.inj_mul, Z.mul_comm. by apply Z.mod_mul.
Qed.

(** C10: a decoder accepts only canonical messages: whatever [Decode] accepts, from any input and
    with or without a pool, is a message in range, of a known type and within [MaxLength], and
    [MarshalBinary] of it is exactly the bytes consumed. *)
Theorem decode_canonical (d : Decoder) (input : bytes) (m : Message) (rest : bytes) :
  Decode d zeroMessage input = (None, m, rest) ->
  wf_message m = true /\ Z.of_nat (length (payload m)) <= MaxLength d /\
  exists enc, MarshalBinary m = (enc, WOk) /\ input = enc ++ rest.
Proof.
  intros (Hwf & Hk & Hmax & Hlen & Hin)%Decode_inv. split_and!; [done..|]. eexists.
  split; [by apply MarshalBinary_known|]. by rewrite wrapU_small, <- app_assoc by lia.
Qed.

Lemma decode_canonical_witness :
  let m := set_Type mtHave (set_Index 258 zeroMessage) in
  wf_message m = true /\ Z.of_nat (length (payload m)) <= 5 /\
  exists enc, MarshalBinary m = (enc, WOk) /\
    map z2b [0; 0; 0; 5; 4; 0; 0; 1; 2; 9] = enc ++ [z2b 9].
Proof.
  apply (decode_canonical {| MaxLength := 5; Pool := None |}
           (map z2b [0; 0; 0; 5; 4; 0; 0; 1; 2; 9])). reflexivity.
Defined.

(** C33: [Message.UnmarshalBinary] never sets a maximum length, so the only bytes it accepts are a
    keepalive. *)
Lemma unmarshalBinary_keepalive_only msg b :
  fst (UnmarshalBinary msg b) = None <-> b = be_put 4 0.
Proof.
  unfold UnmarshalBinary, Decode, Decode_body. split.
  - destruct ((x ← readLength; _) _) as [u s|e s|] eqn:H; [|done|].
    2: { by apply (Decode_body_total {| MaxLength := 0; Pool := None |}) in H. }
    apply bind_Ret in H as (len & s1 & E & H).
    apply readLength_inv in E as (Hlen%uint_spec & Hbr & _). cbn in Hbr, H.
    destruct (Z.ltb_spec 0 len); [done|]. assert (len = 0) as -> by lia.
    apply set_msg_inv in H as ->. cbn [rs_msg rs_br]. rewrite Hbr, length_app, be_put_length.
    unfold bufioSize. destruct (Z.eqb_spec (Z.min (Z.of_nat (4 + length (rs_br s1))) 4096 -
      Z.of_nat (4 + length (rs_br s1) - length (rs_br s1))) 0) as [E|]; [|done].
    destruct (rs_br s1); [by rewrite app_nil_r|]. cbn [length] in E. lia.
  - by intros ->.
Qed.

(** A writer with room for so many bytes. *)
Record boundedWriter := { bw_room : nat; bw_data : bytes }.

#[local] Instance boundedWriter_writer : MessageWriter boundedWriter := {
  w_WriteByte c w :=
    match bw_room w with
    | O => (w, false)
    | S n => ({| bw_room := n; bw_data := bw_data w ++ [c] |}, true)
    end;
  w_Write p w :=
    let q := take (bw_room w) p in
    ({| bw_room := bw_room w - length q; bw_data := bw_data w ++ q |},
     (Z.of_nat (length q), (length q =? length p)%nat));
}.

(** The error of writing a piece's data is lost: [WriteTo] reports success on a writer that
    accepted only part of the message. *)
Example writeTo_loses_piece_error :
  exists w, WriteTo samplePiece {| bw_room := 15; bw_data := [] |} = (w, WOk) /\
    bw_data w = take 15 (fst (MarshalBinary samplePiece)) /\
    length (fst (MarshalBinary samplePiece)) = 17%nat.
Proof. eexists. vm_compute. split_and!; reflexivity. Qed.
