(* ===== verification/Types.v ===== *)
(** * Types shared by the client and the request strategy ([src/types/types.go]) *)

From S2P Require Import Prelude PeerProtocol.
Local Open Scope Z_scope.

Record ChunkSpec := { cs_Begin : Z; cs_Length : Z }.
Record Request := { req_Index : Z; req_Chunk : ChunkSpec }.

#[global] Instance ChunkSpec_eq_dec : EqDecision ChunkSpec.
Proof. solve_decision. Defined.
#[global] Instance Request_eq_dec : EqDecision Request.
Proof. solve_decision. Defined.

#[global] Instance Request_countable : Countable Request.
Proof.
  refine (inj_countable'
    (fun r => (req_Index r, cs_Begin (req_Chunk r), cs_Length (req_Chunk r)))
    (fun p => {| req_Index := p.1.1; req_Chunk := {| cs_Begin := p.1.2; cs_Length := p.2 |} |}) _).
  by intros [? []].
Defined.

(** [PiecePriority] *)
Definition PiecePriorityNone : Z := 0.
Definition PiecePriorityNormal : Z := 1.
Definition PiecePriorityHigh : Z := 2.
Definition PiecePriorityReadahead : Z := 3.
Definition PiecePriorityNext : Z := 4.
Definition PiecePriorityNow : Z := 5.

(** The new priority, and whether it was raised. *)
Definition Raise (pp maybe : Z) : Z * bool := if maybe >? pp then (maybe, true) else (pp, false).

Lemma Raise_max pp maybe : (Raise pp maybe).1 = Z.max pp maybe.
Proof. unfold Raise. destruct (Z.gtb_spec maybe pp); simpl; lia. Qed.

(** [Request.ToMsg] *)
Definition ToMsg (r : Request) (mt : Z) : Message := {|
  PiecesRoot := PiecesRoot zeroMessage; Piece := []; PiecePtr := false; Bitfield := [];
  ExtendedPayload := []; Hashes := []; Index := req_Index r; Begin := cs_Begin (req_Chunk r);
  Length := cs_Length (req_Chunk r); BaseLayer := 0; ProofLayers := 0; Port := 0; Type_ := mt;
  ExtendedID := 0; Keepalive := false |}.
