(* ===== verification/Bitmap.v ===== *)
(** * Bitmaps ([src/typed-roaring], [src/undirtied-chunks-iter.go])

    The bitmaps of package roaring are third-party: a class of operations on an abstract type,
    with the documented behaviour of each as a law about the set of [uint32]s it holds.  The
    wrappers of [typed-roaring] convert their arguments to [uint32]. *)

From S2P Require Import Prelude.
Local Open Scope Z_scope.

(** An iterator is the ascending list of values it has still to return. *)
Class Roaring := {
  rb : Type;
  rb_New : rb;
  rb_Contains : Z -> rb -> bool;
  rb_Add : Z -> rb -> rb;
  rb_Remove : Z -> rb -> rb;
  rb_CheckedAdd : Z -> rb -> rb * bool;
  rb_CheckedRemove : Z -> rb -> rb * bool;
  rb_AddRange : Z -> Z -> rb -> rb;
  rb_RemoveRange : Z -> Z -> rb -> rb;
  rb_CardinalityInRange : Z -> Z -> rb -> Z;
  rb_GetCardinality : rb -> Z;
  rb_IsEmpty : rb -> bool;
  rb_Equals : rb -> rb -> bool;
  rb_Xor : rb -> rb -> rb;
  rb_AndNot : rb -> rb -> rb;
  rb_Intersects : rb -> rb -> bool;
  (* panics on an empty bitmap *)
  rb_Maximum : rb -> option Z;
  rb_Clear : rb -> rb;
  rb_iterator : rb -> list Z;
  it_AdvanceIfNeeded : Z -> list Z -> list Z;
}.

(** The integers of a half-open range. *)
Definition range (lo hi : Z) : gset Z := list_to_set (seqZ lo (hi - lo)).

Class RoaringLaws (R : Roaring) := {
  rb_elems : rb -> gset Z;
  rb_New_elems : rb_elems rb_New = ∅;
  rb_Contains_elems x b : rb_Contains x b = bool_decide (x ∈ rb_elems b);
  rb_Add_elems x b : rb_elems (rb_Add x b) = {[x]} ∪ rb_elems b;
  rb_Remove_elems x b : rb_elems (rb_Remove x b) = rb_elems b ∖ {[x]};
  rb_CheckedAdd_elems x b : rb_elems (rb_CheckedAdd x b).1 = {[x]} ∪ rb_elems b;
  rb_CheckedAdd_ok x b : (rb_CheckedAdd x b).2 = bool_decide (x ∉ rb_elems b);
  rb_CheckedRemove_elems x b : rb_elems (rb_CheckedRemove x b).1 = rb_elems b ∖ {[x]};
  rb_CheckedRemove_ok x b : (rb_CheckedRemove x b).2 = bool_decide (x ∈ rb_elems b);
  rb_AddRange_elems lo hi b : rb_elems (rb_AddRange lo hi b) = rb_elems b ∪ range lo hi;
  rb_RemoveRange_elems lo hi b : rb_elems (rb_RemoveRange lo hi b) = rb_elems b ∖ range lo hi;
  rb_CardinalityInRange_elems lo hi b :
    rb_CardinalityInRange lo hi b = Z.of_nat (size (filter (fun x => lo <= x < hi) (rb_elems b)));
  rb_GetCardinality_elems b : rb_GetCardinality b = Z.of_nat (size (rb_elems b));
  rb_IsEmpty_elems b : rb_IsEmpty b = bool_decide (rb_elems b = ∅);
  rb_Equals_elems b c : rb_Equals b c = bool_decide (rb_elems b = rb_elems c);
  rb_Xor_elems b c : rb_elems (rb_Xor b c) = (rb_elems b ∖ rb_elems c) ∪ (rb_elems c ∖ rb_elems b);
  rb_AndNot_elems b c : rb_elems (rb_AndNot b c) = rb_elems b ∖ rb_elems c;
  rb_Intersects_elems b c : rb_Intersects b c = bool_decide (rb_elems b ∩ rb_elems c <> ∅);
  rb_Maximum_elems b : match rb_Maximum b with
    | Some x => x ∈ rb_elems b /\ forall y, y ∈ rb_elems b -> y <= x
    | None => rb_elems b = ∅ end;
  rb_Clear_elems b : rb_elems (rb_Clear b) = ∅;
  rb_iterator_sorted b : StronglySorted Z.lt (rb_iterator b);
  rb_iterator_elems b x : x ∈ rb_iterator b <-> x ∈ rb_elems b;
  it_AdvanceIfNeeded_filter m l :
    StronglySorted Z.lt l -> it_AdvanceIfNeeded m l = filter (fun x => m <= x) l;
}.

#[export] Hint Rewrite @rb_New_elems @rb_Contains_elems @rb_Add_elems @rb_Remove_elems
  @rb_CheckedAdd_elems @rb_CheckedAdd_ok @rb_CheckedRemove_elems @rb_CheckedRemove_ok
  @rb_AddRange_elems @rb_RemoveRange_elems @rb_Clear_elems @rb_Xor_elems @rb_AndNot_elems
  using (typeclasses eauto) : bitmap.

(** The greatest element of a set. *)
Definition set_max (b : gset Z) : option Z :=
  foldr (fun x acc => Some (match acc with Some y => Z.max x y | None => x end)) None (elements b).

Lemma set_max_spec (b : gset Z) :
  match set_max b with Some x => x ∈ b /\ forall y, y ∈ b -> y <= x | None => b = ∅ end.
Proof.
  assert (forall l : list Z, match foldr (fun x acc => Some (match acc with Some y => Z.max x y | None => x end)) None l with
    | Some x => x ∈ l /\ forall y, y ∈ l -> y <= x | None => l = [] end) as H.
  { induction l as [|x l IH]; [done|]. cbn. destruct (foldr _ None l) as [y|].
    - destruct IH as [Hy Hl]. split; [destruct (Z.max_spec x y) as [[_ ->]|[_ ->]]; set_solver|].
      intros z [->|Hz]%elem_of_cons; [lia|]. specialize (Hl z Hz). lia.
    - subst l. split; [by left|]. intros z ?%list_elem_of_singleton. lia. }
  specialize (H (elements b)). unfold set_max. destruct (foldr _ None (elements b)) as [x|].
  - destruct H as [Hx Hl]. split; [by apply elem_of_elements|]. intros y Hy. by apply Hl, elem_of_elements.
  - apply set_eq. intros x. rewrite <-elem_of_elements, H. set_solver.
Qed.

(** The behaviour can be had: sets of integers. *)
#[global] Instance gset_roaring : Roaring := {|
  rb := gset Z;
  rb_New := ∅;
  rb_Contains x b := bool_decide (x ∈ b);
  rb_Add x b := {[x]} ∪ b;
  rb_Remove x b := b ∖ {[x]};
  rb_CheckedAdd x b := ({[x]} ∪ b, bool_decide (x ∉ b));
  rb_CheckedRemove x b := (b ∖ {[x]}, bool_decide (x ∈ b));
  rb_AddRange lo hi b := b ∪ range lo hi;
  rb_RemoveRange lo hi b := filter (fun x => ~ (lo <= x < hi)) b;
  rb_CardinalityInRange lo hi b := Z.of_nat (size (filter (fun x => lo <= x < hi) b));
  rb_GetCardinality b := Z.of_nat (size b);
  rb_IsEmpty b := bool_decide (b = ∅);
  rb_Equals b c := bool_decide (b = c);
  rb_Xor b c := (b ∖ c) ∪ (c ∖ b);
  rb_AndNot b c := b ∖ c;
  rb_Intersects b c := bool_decide (b ∩ c <> ∅);
  rb_Maximum b := set_max b;
  rb_Clear _ := ∅;
  rb_iterator b := merge_sort Z.le (elements b);
  it_AdvanceIfNeeded m l := filter (fun x => m <= x) l;
|}.

Lemma elem_of_range lo hi x : x ∈ range lo hi <-> lo <= x < hi.
Proof. unfold range. rewrite elem_of_list_to_set, elem_of_seqZ. lia. Qed.

Lemma size_range lo hi : size (range lo hi) = Z.to_nat (hi - lo).
Proof. unfold range. rewrite size_list_to_set by apply NoDup_seqZ. apply length_seqZ. Qed.

Lemma sorted_le_lt (l : list Z) : NoDup l -> StronglySorted Z.le l -> StronglySorted Z.lt l.
Proof.
  intros Hn Hs. induction Hs as [|x l Hs IH Hx]; [constructor|]. apply NoDup_cons in Hn as [Hx' Hn].
  constructor; [auto|]. rewrite Forall_forall in Hx |- *. intros y Hy. specialize (Hx y Hy).
  assert (x <> y) by (by intros ->). lia.
Qed.

#[global] Instance gset_roaring_laws : RoaringLaws gset_roaring.
Proof.
  refine {| rb_elems := fun b : @rb gset_roaring => (b : gset Z) |}; try reflexivity.
  - intros lo hi b. apply set_eq. intros x. cbn. rewrite elem_of_filter, elem_of_difference, elem_of_range. tauto.
  - apply set_max_spec.
  - intros b. apply sorted_le_lt.
    + cbn. rewrite merge_sort_Permutation. apply NoDup_elements.
    + apply (StronglySorted_merge_sort Z.le).
  - intros b x. cbn. rewrite merge_sort_Permutation. apply elem_of_elements.
Defined.

(** ** [typed-roaring] *)

Section Typed.
Context {R : Roaring}.

Definition tb_Contains (x : Z) (me : rb) : bool := rb_Contains (wrapU 32 x) me.
Definition tb_Iterate (me : rb) : list Z := rb_iterator me.
Definition tb_Add (x : Z) (me : rb) : rb := rb_Add (wrapU 32 x) me.
Definition tb_CheckedRemove (x : Z) (me : rb) : rb * bool := rb_CheckedRemove (wrapU 32 x) me.
Definition tb_CheckedAdd (x : Z) (me : rb) : rb * bool := rb_CheckedAdd (wrapU 32 x) me.
Definition tb_Remove (x : Z) (me : rb) : rb := rb_Remove (wrapU 32 x) me.
Definition tb_RangeCardinality (start end_ : Z) (me : rb) : Z :=
  rb_CardinalityInRange (wrapU 64 start) (wrapU 64 end_) me.

(** ** [iterBitmapUnsetInRange] on [uint32]: what it passes to [f], in order *)

Fixpoint unset_loop (it : list Z) (end_ lastDirty : Z) : list Z :=
  let upto (e : Z) := let b := wrapU 32 (lastDirty + 1) in seqZ b (e - b) in
  match it with
  | [] => upto end_
  | next :: it' => if next >=? end_ then upto end_ else upto next ++ unset_loop it' end_ next
  end.

Definition iterBitmapUnsetInRange (it : list Z) (start end_ : Z) : list Z :=
  unset_loop (it_AdvanceIfNeeded start it) end_ (wrapU 32 (start - 1)).

End Typed.
#[global] Arguments tb_Contains : simpl never.
#[global] Arguments tb_Add : simpl never.
#[global] Arguments tb_Remove : simpl never.

Section TypedTheory.
Context {R : Roaring} {RL : RoaringLaws R}.

(** [filter] of a range above and below a point. *)
Lemma seqZ_split lo mid hi : lo <= mid <= hi -> seqZ lo (hi - lo) = seqZ lo (mid - lo) ++ seqZ mid (hi - mid).
Proof.
  intros H. replace (hi - lo) with ((mid - lo) + (hi - mid)) by lia. rewrite seqZ_app by lia.
  by replace (lo + (mid - lo)) with mid by lia.
Qed.

Lemma filter_all {A} (P : A -> Prop) `{!forall x, Decision (P x)} (l : list A) : Forall P l -> filter P l = l.
Proof. induction 1; [done|]. by rewrite filter_cons_True, IHForall. Qed.

Lemma filter_none {A} (P : A -> Prop) `{!forall x, Decision (P x)} (l : list A) :
  Forall (fun x => ~ P x) l -> filter P l = [].
Proof. induction 1; [done|]. by rewrite filter_cons_False. Qed.

Lemma filter_ext_in {A} (P Q : A -> Prop) `{!forall x, Decision (P x), !forall x, Decision (Q x)} (l : list A) :
  Forall (fun x => P x <-> Q x) l -> filter P l = filter Q l.
Proof.
  induction 1 as [|x l HPQ _ IH]; [done|]. destruct (decide (P x)) as [HP|HP].
  - rewrite !filter_cons_True by tauto. by rewrite IH.
  - by rewrite !filter_cons_False by tauto.
Qed.

Lemma unset_loop_spec it end_ b :
  0 <= b -> end_ < 2 ^ 32 -> StronglySorted Z.lt it -> Forall (fun x => b <= x) it ->
  forall last, wrapU 32 (last + 1) = b ->
  unset_loop it end_ last = filter (fun x => x ∉ it) (seqZ b (end_ - b)).
Proof.
  intros Hb He Hs Hf last Hl. revert b last Hb Hf Hl.
  induction it as [|x it IH]; intros b last Hb Hf Hl; simpl; rewrite Hl.
  - symmetry. apply filter_all, Forall_forall. set_solver.
  - apply StronglySorted_inv in Hs as [Hs' Hx]. apply Forall_cons in Hf as [Hxb Hf'].
    assert (Forall (fun y => ~ y < x + 1) it) as Hgt.
    { eapply Forall_impl; [exact Hx|]. simpl. lia. }
    rewrite Forall_forall in Hgt. rewrite Z.geb_leb. destruct (Z.leb_spec end_ x) as [Hle|Hlt].
    + symmetry. apply filter_all, Forall_forall. intros y Hy%elem_of_seqZ.
      rewrite elem_of_cons. intros [->|Hin]; [lia|]. by apply (Hgt y Hin); lia.
    + rewrite (seqZ_split b x end_) by lia. rewrite filter_app. f_equal.
      * symmetry. apply filter_all, Forall_forall. intros y Hy%elem_of_seqZ.
        rewrite elem_of_cons. intros [->|Hin]; [lia|]. by apply (Hgt y Hin); lia.
      * rewrite (seqZ_cons x) by lia. rewrite filter_cons_False by set_solver.
        rewrite (IH Hs' (x + 1) x); [| lia | |rewrite wrapU_small; lia].
        -- replace (Z.pred (end_ - x)) with (end_ - (x + 1)) by lia. unfold Z.succ.
           apply filter_ext_in, Forall_forall. intros y Hy%elem_of_seqZ. rewrite elem_of_cons.
           assert (y <> x) by lia. tauto.
        -- eapply Forall_impl; [exact Hx|]. simpl. lia.
Qed.

(** An iterator at the beginning of a bitmap gives the values of the range that are not in it. *)
Lemma iterBitmapUnset_spec (b : rb) start end_ :
  0 <= start <= end_ -> end_ < 2 ^ 32 ->
  iterBitmapUnsetInRange (rb_iterator b) start end_ =
    filter (fun x => x ∉ rb_elems b) (seqZ start (end_ - start)).
Proof.
  intros Hs He. unfold iterBitmapUnsetInRange. pose proof (rb_iterator_sorted b) as Hsort.
  rewrite it_AdvanceIfNeeded_filter by done. rewrite (unset_loop_spec _ _ start).
  - apply filter_ext_in, Forall_forall. intros x Hx%elem_of_seqZ. rewrite list_elem_of_filter, rb_iterator_elems.
    tauto || naive_solver lia.
  - lia.
  - done.
  - clear -Hsort. induction Hsort as [|x l Hl IH Hx]; [constructor|]. destruct (decide (start <= x)).
    + rewrite filter_cons_True by done. constructor; [done|]. apply Forall_forall.
      intros y Hy%list_elem_of_filter. rewrite Forall_forall in Hx. by apply Hx, Hy.
    + by rewrite filter_cons_False.
  - apply Forall_forall. by intros x [? _]%list_elem_of_filter.
  - unfold wrapU. rewrite Zplus_mod_idemp_l. replace (start - 1 + 1) with start by lia. apply Z.mod_small. lia.
Qed.
End TypedTheory.
