(* ===== verification/OrderedBitmap.v ===== *)
(** * Ordered bitmaps ([src/ordered-bitmap.go])

    The requests outstanding with a peer: a bitmap, and a linked list that keeps the order in which
    its members were added.  The linked list is third-party (package list of
    [generic-list-go]): a class with the documented behaviour of its methods. *)

From S2P Require Import Prelude Bitmap.
Local Open Scope Z_scope.

(** [list.List]; an element is a pointer into it. *)
Class GenericList := {
  gl_List : Type;
  gl_Element : Type;
  list_zero : gl_List;
  PushBack : Z -> gl_List -> gl_List * gl_Element;
  list_Remove : gl_Element -> gl_List -> gl_List;
  list_Len : gl_List -> Z;
  (* the values from [Front] on *)
  list_Values : gl_List -> list Z;
}.

Class GenericListLaws (G : GenericList) := {
  (* lists made by the methods *)
  list_ok : gl_List -> Prop;
  items : gl_List -> list (gl_Element * Z);
  items_NoDup l : list_ok l -> NoDup (items l).*1;
  zero_ok : list_ok list_zero;
  items_zero : items list_zero = [];
  PushBack_ok v l : list_ok l -> list_ok (PushBack v l).1;
  PushBack_items v l : list_ok l -> items (PushBack v l).1 = items l ++ [((PushBack v l).2, v)];
  list_Remove_ok el l : list_ok l -> list_ok (list_Remove el l);
  list_Remove_items pre el v post l :
    list_ok l -> items l = pre ++ (el, v) :: post -> items (list_Remove el l) = pre ++ post;
  list_Len_items l : list_Len l = Z.of_nat (length (items l));
  list_Values_items l : list_Values l = (items l).*2;
}.

(** The behaviour can be had: numbered elements. *)
#[global] Instance counted_list : GenericList := {|
  gl_List := nat * list (nat * Z);
  gl_Element := nat;
  list_zero := (0%nat, []);
  PushBack v l := ((S l.1, l.2 ++ [(l.1, v)]), l.1);
  list_Remove el l := (l.1, filter (fun p => p.1 <> el) l.2);
  list_Len l := Z.of_nat (length l.2);
  list_Values l := l.2.*2;
|}.

#[global] Instance counted_list_laws : GenericListLaws counted_list.
Proof.
  refine {| list_ok := fun l : @gl_List counted_list => NoDup l.2.*1 /\ forall p, p ∈ l.2 -> (p.1 < l.1)%nat;
            items := fun l : @gl_List counted_list => l.2 |}; try done.
  - by intros l [? _].
  - split; [constructor|set_solver].
  - intros v [k l] [Hn Hlt]. cbn in *. split.
    + rewrite fmap_app. apply NoDup_app. split; [done|]. split; [|apply NoDup_singleton].
      intros x (p & -> & Hp)%list_elem_of_fmap. cbn. rewrite list_elem_of_singleton. specialize (Hlt p Hp). lia.
    + intros p [Hp|Hp%list_elem_of_singleton]%elem_of_app; [specialize (Hlt p Hp)|subst p]; cbn; lia.
  - intros el [k l] [Hn Hlt]. cbn in *. split.
    + eapply sublist_NoDup; [exact Hn|]. apply fmap_sublist, sublist_filter.
    + intros p [_ Hp]%list_elem_of_filter. by apply Hlt.
  - intros pre el v post [k l] [Hn Hlt] El. cbn in *. subst l. rewrite fmap_app in Hn. cbn in Hn.
    apply NoDup_app in Hn as (_ & Hn2 & [Hn3 _]%NoDup_cons). rewrite filter_app, filter_cons_False by (by cbn; intros ?).
    rewrite !filter_all; [done| |]; apply Forall_forall; intros p Hp Ep.
    + apply Hn3. rewrite <-Ep. by apply list_elem_of_fmap_2.
    + apply (Hn2 p.1); [by apply list_elem_of_fmap_2|]. rewrite Ep. by left.
Qed.

Section Bitmap.
Context {R : Roaring} {G : GenericList}.

Record orderedBitmap := { ob_bitmap : rb; ob_order : gl_List; ob_elements : gmap Z gl_Element }.

Definition ob_zero : orderedBitmap := {| ob_bitmap := rb_New; ob_order := list_zero; ob_elements := ∅ |}.

(** What [IterateSnapshot], [Iterate] and [Iterator] visit, in order. *)
Definition ob_IterateSnapshot (o : orderedBitmap) : list Z := rb_iterator (ob_bitmap o).
Definition ob_Iterate (o : orderedBitmap) : list Z := list_Values (ob_order o).

Definition ob_IsEmpty (o : orderedBitmap) : bool := rb_IsEmpty (ob_bitmap o).
Definition ob_GetCardinality (o : orderedBitmap) : Z := wrapU 64 (list_Len (ob_order o)).
Definition ob_Contains (index : Z) (o : orderedBitmap) : bool := tb_Contains index (ob_bitmap o).

Definition ob_Add (index : Z) (o : orderedBitmap) : orderedBitmap :=
  let bitmap := tb_Add index (ob_bitmap o) in
  match ob_elements o !! index with
  | Some _ => {| ob_bitmap := bitmap; ob_order := ob_order o; ob_elements := ob_elements o |}
  | None =>
      let '(order, el) := PushBack index (ob_order o) in
      {| ob_bitmap := bitmap; ob_order := order; ob_elements := <[index := el]> (ob_elements o) |}
  end.

(** Removing a nil element from the list panics. *)
Definition ob_CheckedRemove (index : Z) (o : orderedBitmap) : option (orderedBitmap * bool) :=
  let '(bitmap, removed) := tb_CheckedRemove index (ob_bitmap o) in
  if negb removed then Some ({| ob_bitmap := bitmap; ob_order := ob_order o; ob_elements := ob_elements o |}, false)
  else
    el ← ob_elements o !! index;
    Some ({| ob_bitmap := bitmap; ob_order := list_Remove el (ob_order o);
             ob_elements := delete index (ob_elements o) |}, true).

Definition ob_RangeCardinality (start end_ : Z) (o : orderedBitmap) : Z := tb_RangeCardinality start end_ (ob_bitmap o).

(** ** An ordered bitmap is a list without duplicates *)

Context {RL : RoaringLaws R} {GL : GenericListLaws G}.

(** [o] holds the request indexes [l], in the order they were added. *)
Record holds (o : orderedBitmap) (l : list Z) : Prop := {
  h_order : list_ok (ob_order o);
  h_values : ob_Iterate o = l;
  h_NoDup : NoDup l;
  h_range x : x ∈ l -> 0 <= x < 2 ^ 32;
  h_bitmap x : x ∈ rb_elems (ob_bitmap o) <-> x ∈ l;
  h_elements x el : ob_elements o !! x = Some el <-> (el, x) ∈ items (ob_order o);
}.

Lemma zero_holds : holds ob_zero [].
Proof.
  split; cbn.
  - apply zero_ok.
  - unfold ob_Iterate. cbn. by rewrite list_Values_items, items_zero.
  - constructor.
  - set_solver.
  - intros x. rewrite rb_New_elems. set_solver.
  - intros x el. rewrite items_zero, lookup_empty. set_solver.
Qed.

Lemma holds_items o l : holds o l -> (items (ob_order o)).*2 = l.
Proof. intros H. rewrite <-list_Values_items. apply H. Qed.

Lemma holds_element o l x : holds o l -> x ∈ l <-> is_Some (ob_elements o !! x).
Proof.
  intros H. rewrite <-(holds_items o l H), list_elem_of_fmap. split.
  - intros ([el y] & -> & Hin). exists el. by apply (h_elements o l H).
  - intros [el Hel]. exists (el, x). split; [done|]. by apply (h_elements o l H).
Qed.

Lemma ob_Contains_holds o l x : holds o l -> 0 <= x < 2 ^ 32 -> ob_Contains x o = bool_decide (x ∈ l).
Proof.
  intros H Hx. unfold ob_Contains, tb_Contains. rewrite rb_Contains_elems, wrapU_small by done.
  apply bool_decide_ext, (h_bitmap o l H).
Qed.

Lemma ob_IsEmpty_holds o l : holds o l -> ob_IsEmpty o = bool_decide (l = []).
Proof.
  intros H. unfold ob_IsEmpty. rewrite rb_IsEmpty_elems. apply bool_decide_ext. split.
  - intros E. destruct l as [|x l]; [done|]. pose proof (proj2 (h_bitmap o _ H x) (list_elem_of_here _ _)). set_solver.
  - intros ->. apply set_eq. intros x. rewrite (h_bitmap o _ H). set_solver.
Qed.

Lemma ob_GetCardinality_holds o l : holds o l -> Z.of_nat (length l) < 2 ^ 64 -> ob_GetCardinality o = Z.of_nat (length l).
Proof.
  intros H Hl. unfold ob_GetCardinality. rewrite list_Len_items, <-(holds_items o l H), length_fmap in *. by rewrite wrapU_small by lia.
Qed.

Lemma ob_Snapshot_holds o l : holds o l -> ob_IterateSnapshot o ≡ₚ l /\ StronglySorted Z.lt (ob_IterateSnapshot o).
Proof.
  intros H. split; [|apply rb_iterator_sorted]. apply NoDup_Permutation; [|apply H|].
  - unfold ob_IterateSnapshot. pose proof (rb_iterator_sorted (ob_bitmap o)) as Hs. induction Hs as [|x k Hk IH Hx]; constructor; [|done].
    intros Hin. rewrite Forall_forall in Hx. specialize (Hx x Hin). lia.
  - intros x. unfold ob_IterateSnapshot. by rewrite rb_iterator_elems, (h_bitmap o l H).
Qed.

Lemma ob_Add_holds o l x : holds o l -> 0 <= x < 2 ^ 32 -> holds (ob_Add x o) (if decide (x ∈ l) then l else l ++ [x]).
Proof.
  intros H Hx. pose proof (holds_element o l x H) as He. unfold ob_Add. destruct (ob_elements o !! x) as [el|] eqn:E.
  - rewrite decide_True by (apply He; eauto). destruct H. split; cbn; try done. intros y. unfold tb_Add.
    rewrite rb_Add_elems, wrapU_small by done. set_unfold. assert (x ∈ l) by (apply He; eauto). naive_solver.
  - assert (x ∉ l) as Hn by (rewrite He; by intros []). rewrite decide_False by done.
    destruct (PushBack x (ob_order o)) as [order el] eqn:Ep. pose proof (PushBack_items x (ob_order o) (h_order o l H)) as Hi.
    pose proof (PushBack_ok x (ob_order o) (h_order o l H)) as Hok. rewrite Ep in Hi, Hok. cbn in Hi, Hok.
    pose proof (items_NoDup order Hok) as Hnd. rewrite Hi, fmap_app in Hnd. cbn in Hnd. apply NoDup_app in Hnd as (_ & Hd & _).
    destruct H. split; cbn; [done|..].
    + unfold ob_Iterate in *. cbn. by rewrite list_Values_items, Hi, fmap_app, <-list_Values_items, h_values0.
    + apply NoDup_app. split; [done|]. split; [set_solver|apply NoDup_singleton].
    + set_solver.
    + intros y. unfold tb_Add. rewrite rb_Add_elems, wrapU_small by done. set_unfold. naive_solver.
    + intros y el'. rewrite Hi, elem_of_app, list_elem_of_singleton. destruct (decide (y = x)) as [->|].
      * rewrite lookup_insert_eq. split; [intros [= ->]; by right|]. intros [Hin|[= ->]]; [|done]. apply h_elements0 in Hin. congruence.
      * rewrite lookup_insert_ne by done. rewrite h_elements0. naive_solver.
Qed.

Lemma remove_holds o l pre x post el :
  holds o l -> 0 <= x < 2 ^ 32 -> items (ob_order o) = pre ++ (el, x) :: post ->
  holds {| ob_bitmap := (tb_CheckedRemove x (ob_bitmap o)).1; ob_order := list_Remove el (ob_order o);
           ob_elements := delete x (ob_elements o) |} (pre.*2 ++ post.*2) /\ l = pre.*2 ++ x :: post.*2.
Proof.
  intros H Hx Hi. pose proof (holds_items o l H) as El. rewrite Hi, fmap_app in El. cbn in El. split; [|done].
  pose proof (list_Remove_items pre el x post (ob_order o) (h_order o l H) Hi) as Hr. destruct H as [Hok Hv Hn Hrg Hb He]. rewrite <-El in Hn.
  apply NoDup_app in Hn as (Hn1 & Hn2 & [Hn3 Hn4]%NoDup_cons). split; cbn; [by apply list_Remove_ok|..].
  - unfold ob_Iterate. cbn. by rewrite list_Values_items, Hr, fmap_app.
  - apply NoDup_app. split; [done|]. split; [|done]. intros y Hy Hy2. apply (Hn2 y Hy). by right.
  - intros y Hy. apply Hrg. rewrite <-El. set_solver.
  - intros y. unfold tb_CheckedRemove. rewrite rb_CheckedRemove_elems, wrapU_small by done.
    rewrite elem_of_difference, elem_of_singleton, Hb, <-El. rewrite !elem_of_app, elem_of_cons. split; [naive_solver|].
    intros Hy. split; [naive_solver|]. intros ->. destruct Hy as [Hy|Hy]; [|done]. apply (Hn2 x Hy). by left.
  - intros y el'. rewrite Hr. destruct (decide (y = x)) as [->|Hne].
    + rewrite lookup_delete_eq. split; [done|]. intros Hin. exfalso.
      assert (x ∈ (pre ++ post).*2) as Hx2 by (apply list_elem_of_fmap; by exists (el', x)).
      rewrite fmap_app in Hx2. apply elem_of_app in Hx2 as [Hy|Hy]; [apply (Hn2 x Hy); by left|done].
    + rewrite lookup_delete_ne by done. rewrite He, Hi. rewrite !elem_of_app, elem_of_cons. naive_solver.
Qed.

Lemma ob_CheckedRemove_holds o l x : holds o l -> 0 <= x < 2 ^ 32 ->
  exists o', ob_CheckedRemove x o = Some (o', bool_decide (x ∈ l)) /\ holds o' (filter (fun y => y <> x) l).
Proof.
  intros H Hx. unfold ob_CheckedRemove, tb_CheckedRemove. pose proof (rb_CheckedRemove_ok (wrapU 32 x) (ob_bitmap o)) as Hok.
  pose proof (rb_CheckedRemove_elems (wrapU 32 x) (ob_bitmap o)) as Hel.
  destruct (rb_CheckedRemove (wrapU 32 x) (ob_bitmap o)) as [bitmap removed] eqn:Er. cbn in Hok, Hel. rewrite wrapU_small in Hok, Hel by done.
  destruct (decide (x ∈ l)) as [Hin|Hin].
  - rewrite bool_decide_true in Hok by (by apply (h_bitmap o l H)). subst removed. cbn [negb].
    destruct (proj1 (holds_element o l x H) Hin) as [el E]. rewrite E. cbn.
    apply (h_elements o l H) in E as Ei. apply list_elem_of_split in Ei as (pre & post & Ei).
    destruct (remove_holds o l pre x post el H Hx Ei) as [Hh El].
    unfold tb_CheckedRemove in Hh. rewrite wrapU_small in Hh by done. rewrite wrapU_small in Er by done. rewrite Er in Hh. eexists. split.
    + by rewrite bool_decide_true.
    + assert (NoDup l) as Hn by apply H. rewrite El in Hn |- *. apply NoDup_app in Hn as (_ & Hn2 & [Hn3 _]%NoDup_cons).
      rewrite filter_app, filter_cons_False by naive_solver. rewrite !filter_all; [done| |].
      * apply Forall_forall. intros y Hy ->. done.
      * apply Forall_forall. intros y Hy ->. apply (Hn2 x Hy). by left.
  - rewrite bool_decide_false in Hok by (by rewrite (h_bitmap o l H)). subst removed. cbn [negb].
    eexists. split; [by rewrite bool_decide_false|].
    rewrite filter_all by (apply Forall_forall; intros y Hy ->; done). destruct H as [Hok' Hv Hn Hrg Hb He]. split; cbn; try done.
    intros y. rewrite Hel, <-Hb. rewrite elem_of_difference, elem_of_singleton. split; [naive_solver|].
    intros Hy. split; [done|]. intros ->. by apply Hin, Hb.
Qed.

Lemma ob_RangeCardinality_holds o l lo hi : holds o l -> 0 <= lo < 2 ^ 32 -> 0 <= hi < 2 ^ 32 ->
  ob_RangeCardinality lo hi o = Z.of_nat (length (filter (fun x => lo <= x < hi) l)).
Proof.
  intros H Hlo Hhi. unfold ob_RangeCardinality, tb_RangeCardinality. rewrite rb_CardinalityInRange_elems, !wrapU_small by lia. f_equal.
  rewrite <-(size_list_to_set (C := gset Z)) by (apply NoDup_filter, H). f_equal. apply set_eq. intros x.
  by rewrite elem_of_filter, elem_of_list_to_set, list_elem_of_filter, (h_bitmap o l H).
Qed.
End Bitmap.
