(* ===== verification/RequestOrder.v ===== *)
(** * The order in which pieces are requested ([src/internal/request-strategy])

    [PieceRequestOrder] keeps the pieces of all torrents that share a storage in an ordered tree,
    beside a map with the state each piece was filed under.  The trees are third-party sets behind
    the interface [Btree]; the sets are parameters, with their documented behaviour in
    [set_laws]. [GetRequestablePieces] walks the order within the limits of the storage and of
    the unverified bytes.  [None] is a panic. *)

From S2P Require Import Prelude Multiless.
Local Open Scope Z_scope.

Record PieceRequestOrderKey := { key_InfoHash : bytes; key_Index : Z }.
Record PieceRequestOrderState := { st_Availability : Z; st_Priority : Z; st_Partial : bool }.
Record PieceRequestOrderItem := { item_Key : PieceRequestOrderKey; item_State : PieceRequestOrderState }.

#[global] Instance PieceRequestOrderKey_eq_dec : EqDecision PieceRequestOrderKey.
Proof. solve_decision. Defined.
#[global] Instance PieceRequestOrderState_eq_dec : EqDecision PieceRequestOrderState.
Proof. solve_decision. Defined.
#[global] Instance PieceRequestOrderItem_eq_dec : EqDecision PieceRequestOrderItem.
Proof. solve_decision. Defined.
#[global] Instance PieceRequestOrderKey_countable : Countable PieceRequestOrderKey.
Proof.
  refine (inj_countable' (fun k => (key_InfoHash k, key_Index k))
    (fun p => {| key_InfoHash := p.1; key_Index := p.2 |}) _). by intros [].
Defined.

Definition zeroState : PieceRequestOrderState :=
  {| st_Availability := 0; st_Priority := 0; st_Partial := false |}.

Section Order.
Context {M : Multiless}.

Definition pieceOrderLess (i j : PieceRequestOrderItem) : Computation :=
  let c := ml_Int (st_Priority (item_State j)) (st_Priority (item_State i)) ml_New in
  let c := ml_Bool (st_Partial (item_State j)) (st_Partial (item_State i)) c in
  let c := ml_Int (st_Availability (item_State i)) (st_Availability (item_State j)) c in
  let c := ml_Int (key_Index (item_Key i)) (key_Index (item_Key j)) c in
  ml_Lazy (fun _ =>
    let a := key_InfoHash (item_Key i) in
    let b := key_InfoHash (item_Key j) in
    ml_Cmp (sign_of (bytes_compare a b)) ml_New) c.

Definition Item_Less (me other : PieceRequestOrderItem) : bool := ml_Less (pieceOrderLess me other).

End Order.

(** ** The trees *)

Class Btree (T : Type) := {
  bt_Delete : PieceRequestOrderItem -> T -> option T;
  bt_Add : PieceRequestOrderItem -> T -> option T;
  (* the items in the order [Scan] yields them *)
  bt_Scan : T -> list PieceRequestOrderItem;
  bt_Contains : PieceRequestOrderItem -> T -> bool;
}.

(** [mustValue] *)
Definition mustValue {T} (b : bool) (t : T) : option T := if b then Some t else None.

(** [btree.Set] of [github.com/anacrolix/btree]. *)
Class AjwernerSet := {
  aj_set : Type;
  aj_MakeSet : (PieceRequestOrderItem -> PieceRequestOrderItem -> Z) -> aj_set;
  aj_Get : PieceRequestOrderItem -> aj_set -> option PieceRequestOrderItem;
  aj_Delete : PieceRequestOrderItem -> aj_set -> aj_set * bool;
  aj_Upsert : PieceRequestOrderItem -> aj_set -> aj_set * option PieceRequestOrderItem;
  aj_items : aj_set -> list PieceRequestOrderItem;
}.

(** [btree.BTreeG] of [github.com/tidwall/btree]; path hints only make it faster. *)
Class TidwallBTreeG := {
  tw_tree : Type;
  tw_NewBTreeG : (PieceRequestOrderItem -> PieceRequestOrderItem -> bool) -> tw_tree;
  tw_Get : PieceRequestOrderItem -> tw_tree -> option PieceRequestOrderItem;
  tw_DeleteHint : PieceRequestOrderItem -> tw_tree -> tw_tree * option PieceRequestOrderItem;
  tw_SetHint : PieceRequestOrderItem -> tw_tree -> tw_tree * option PieceRequestOrderItem;
  tw_Scan : tw_tree -> list PieceRequestOrderItem;
}.

Section Wrappers.
Context {M : Multiless}.

Definition ajwernerBtree_Contains `{AjwernerSet} (item : PieceRequestOrderItem) (a : aj_set) : bool :=
  match aj_Get item a with Some _ => true | None => false end.

Definition NewAjwernerBtree `{AjwernerSet} : aj_set :=
  aj_MakeSet (fun t t2 => ml_OrderingInt (pieceOrderLess t t2)).

Definition ajwernerBtree_Delete `{AjwernerSet} (item : PieceRequestOrderItem) (a : aj_set) : option aj_set :=
  let '(a, ok) := aj_Delete item a in mustValue ok a.

Definition ajwernerBtree_Add `{AjwernerSet} (item : PieceRequestOrderItem) (a : aj_set) : option aj_set :=
  let '(a, replaced) := aj_Upsert item a in
  let overwrote := match replaced with Some _ => true | None => false end in
  mustValue (negb overwrote) a.

#[global] Instance ajwernerBtree `{AjwernerSet} : Btree aj_set := {|
  bt_Delete := ajwernerBtree_Delete;
  bt_Add := ajwernerBtree_Add;
  bt_Scan := aj_items;
  bt_Contains := ajwernerBtree_Contains;
|}.

Definition NewTidwallBtree `{TidwallBTreeG} : tw_tree := tw_NewBTreeG Item_Less.

Definition tidwallBtree_Add `{TidwallBTreeG} (item : PieceRequestOrderItem) (t : tw_tree) : option tw_tree :=
  match tw_SetHint item t with (_, Some _) => None | (t, None) => Some t end.

Definition tidwallBtree_Delete `{TidwallBTreeG} (item : PieceRequestOrderItem) (t : tw_tree) : option tw_tree :=
  let '(t, deleted) := tw_DeleteHint item t in
  mustValue (match deleted with Some _ => true | None => false end) t.

Definition tidwallBtree_Contains `{TidwallBTreeG} (item : PieceRequestOrderItem) (t : tw_tree) : bool :=
  match tw_Get item t with Some _ => true | None => false end.

#[global] Instance tidwallBtree `{TidwallBTreeG} : Btree tw_tree := {|
  bt_Delete := tidwallBtree_Delete;
  bt_Add := tidwallBtree_Add;
  bt_Scan := tw_Scan;
  bt_Contains := tidwallBtree_Contains;
|}.

End Wrappers.

(** ** [PieceRequestOrder] *)

Section PieceRequestOrder.
Context {T : Type} `{Btree T}.

Record PieceRequestOrder := {
  pro_tree : T;
  pro_keys : gmap PieceRequestOrderKey PieceRequestOrderState;
}.

Definition mkItem (key : PieceRequestOrderKey) (state : PieceRequestOrderState) : PieceRequestOrderItem :=
  {| item_Key := key; item_State := state |}.

Definition NewPieceOrder (btree : T) : PieceRequestOrder := {| pro_tree := btree; pro_keys := ∅ |}.

(** The old state, if the key was present. *)
Definition Add (key : PieceRequestOrderKey) (state : PieceRequestOrderState) (me : PieceRequestOrder) :
    option (PieceRequestOrder * option PieceRequestOrderState) :=
  let add (tree : T) (old : option PieceRequestOrderState) :=
    tree ← bt_Add (mkItem key state) tree;
    Some ({| pro_tree := tree; pro_keys := <[key := state]> (pro_keys me) |}, old) in
  match pro_keys me !! key with
  | Some old =>
      if decide (state = old) then Some (me, Some old)
      else tree ← bt_Delete (mkItem key old) (pro_tree me); add tree (Some old)
  | None => add (pro_tree me) None
  end.

Definition Update (key : PieceRequestOrderKey) (state : PieceRequestOrderState) (me : PieceRequestOrder) :
    option (PieceRequestOrder * bool) :=
  '(me, old) ← Add key state me;
  match old with
  | None => None
  | Some old => Some (me, negb (bool_decide (old = state)))
  end.

Definition Delete (key : PieceRequestOrderKey) (me : PieceRequestOrder) : option (PieceRequestOrder * bool) :=
  match pro_keys me !! key with
  | None => Some (me, false)
  | Some state =>
      tree ← bt_Delete (mkItem key state) (pro_tree me);
      Some ({| pro_tree := tree; pro_keys := delete key (pro_keys me) |}, true)
  end.

Definition Len (me : PieceRequestOrder) : nat := size (pro_keys me).

Definition Iter (me : PieceRequestOrder) : list PieceRequestOrderItem := bt_Scan (pro_tree me).

Definition Get (key : PieceRequestOrderKey) (me : PieceRequestOrder) :
    option (option PieceRequestOrderState) :=
  let ret := pro_keys me !! key in
  let ok := match ret with Some _ => true | None => false end in
  if Bool.eqb ok (bt_Contains (mkItem key (default zeroState ret)) (pro_tree me)) then Some ret else None.

End PieceRequestOrder.
Arguments PieceRequestOrder T : clear implicits.

(** ** [GetRequestablePieces] *)

(** The interface [Torrent]; its methods read the caller's state [S]. *)
Record StrategyTorrent {S E : Type} := {
  t_PieceRequest : Z -> go S E bool;
  t_PieceCountUnverified : Z -> go S E bool;
  t_PieceLength : Z;
}.
#[global] Arguments StrategyTorrent : clear implicits.

Record Input {S E : Type} := {
  in_Torrent : bytes -> StrategyTorrent S E;
  (* [Some] when the storage is capped *)
  in_Capacity : option Z;
  in_MaxUnverifiedBytes : Z;
}.
#[global] Arguments Input : clear implicits.

Section GetRequestable.
Local Open Scope go_scope.
Context {S E V : Type} (input : Input S E).
(** The callback, with the variables it assigns to. *)
Context (requestPiece : bytes -> Z -> PieceRequestOrderState -> V -> go S E (V * bool)).

Fixpoint requestable_loop (items : list PieceRequestOrderItem) (storageLeft : option Z)
    (allTorrentsUnverifiedBytes : Z) (v : V) : go S E (V * bool) :=
  match items with
  | [] => mret (v, true)
  | item :: items' =>
      let ih := key_InfoHash (item_Key item) in
      let index := key_Index (item_Key item) in
      let t := in_Torrent input ih in
      let pieceLength := t_PieceLength t in
      let body (storageLeft : option Z) :=
        let count (v : V) :=
          let unverified := allTorrentsUnverifiedBytes +! pieceLength in
          if (negb (in_MaxUnverifiedBytes input =? 0) && (unverified >=? in_MaxUnverifiedBytes input))%Z
          then mret (v, true)
          else requestable_loop items' storageLeft unverified v in
        request ← t_PieceRequest t index;
        if request : bool then
          r ← requestPiece ih index (item_State item) v;
          if r.2 : bool then count r.1 else mret (r.1, false)
        else
          counts ← t_PieceCountUnverified t index;
          if negb counts then requestable_loop items' storageLeft allTorrentsUnverifiedBytes v
          else count v in
      match storageLeft with
      | Some cap => if (cap <? pieceLength)%Z then mret (v, true) else body (Some (cap -! pieceLength))
      | None => body None
      end
  end.

Definition GetRequestablePieces {T} `{Btree T} (pro : PieceRequestOrder T) (v : V) : go S E (V * bool) :=
  requestable_loop (bt_Scan (pro_tree pro)) (in_Capacity input) 0 v.

(** What a callback that does not stop keeps up, for the pieces before, holds at the end; without
    limits these are all pieces. *)
Lemma requestable_wp {T} `{Btree T} (I : list PieceRequestOrderItem -> V -> S -> Prop) (pro : PieceRequestOrder T) v s :
  I [] v s ->
  (forall pre it post v s, bt_Scan (pro_tree pro) = pre ++ it :: post -> I pre v s ->
     let t := in_Torrent input (key_InfoHash (item_Key it)) in
     wp (t_PieceRequest t (key_Index (item_Key it))) (fun b s' => I pre v s' /\ if b : bool then
       wp (requestPiece (key_InfoHash (item_Key it)) (key_Index (item_Key it)) (item_State it) v) (fun r s'' => I (pre ++ [it]) r.1 s'' /\ r.2 = true) s'
     else wp (t_PieceCountUnverified t (key_Index (item_Key it))) (fun _ s' => I (pre ++ [it]) v s') s') s) ->
  wp (GetRequestablePieces pro v) (fun r s' => exists pre, I pre r.1 s' /\ (in_Capacity input = None -> in_MaxUnverifiedBytes input = 0 -> pre = bt_Scan (pro_tree pro))) s.
Proof.
  intros HI Hstep. unfold GetRequestablePieces.
  set (Q (r : V * bool) s' := exists pre, I pre r.1 s' /\ (in_Capacity input = None -> in_MaxUnverifiedBytes input = 0 -> pre = bt_Scan (pro_tree pro))).
  change (wp (requestable_loop (bt_Scan (pro_tree pro)) (in_Capacity input) 0 v) Q s). generalize 0%Z.
  set (pre := @nil PieceRequestOrderItem) in HI. set (items := bt_Scan (pro_tree pro)) at 1.
  assert (bt_Scan (pro_tree pro) = pre ++ items) as Es by done. clearbody pre items.
  set (cap := in_Capacity input) at 1. assert (in_Capacity input = None -> cap = None) as Hcap by done. clearbody cap.
  revert pre Es v s HI cap Hcap. induction items as [|it items IH]; intros pre Es v s HI cap Hcap u; cbn [requestable_loop].
  { apply wp_ret. exists pre. split; [done|]. by rewrite Es, app_nil_r. }
  assert (forall u' v s, I (pre ++ [it]) v s -> forall cap, (in_Capacity input = None -> cap = None) -> wp (requestable_loop items cap u' v) Q s) as Hnext.
  { intros u' v' s' HI' cap' Hcap'. apply (IH (pre ++ [it])); [by rewrite <-app_assoc|done..]. }
  assert (forall cap' v s, (in_Capacity input = None -> cap' = None) -> I (pre ++ [it]) v s -> wp (
    if (negb (in_MaxUnverifiedBytes input =? 0) && (u +! t_PieceLength (in_Torrent input (key_InfoHash (item_Key it))) >=? in_MaxUnverifiedBytes input))%Z
    then mret (v, true)
    else requestable_loop items cap' (u +! t_PieceLength (in_Torrent input (key_InfoHash (item_Key it)))) v) Q s) as Hcount.
  { intros cap' v' s' Hcap' HI'. apply wp_if; intros Hb; [|by apply Hnext]. apply wp_ret. exists (pre ++ [it]). split; [done|]. intros _ Em.
    by rewrite Em in Hb. }
  specialize (Hstep pre it items v s Es HI). cbn zeta in Hstep.
  destruct cap as [cap|]; [apply wp_if; intros _; [apply wp_ret; exists pre; split; [done|]; intros Ec; by specialize (Hcap Ec)|]|].
  all: apply wp_bind; eapply wp_mono; [exact Hstep|]; cbn beta; intros [] s1 [HI1 Hcall].
  all: apply wp_bind; eapply wp_mono; [exact Hcall|]; cbn beta.
  1, 3: intros [v2 b2] s2 [HI2 E2]; cbn in E2; subst b2; apply Hcount; [|done]; intros Ec; by specialize (Hcap Ec).
  all: intros b2 s2 HI2; apply wp_if; intros _; [apply Hnext|apply Hcount]; try done; intros Ec; by specialize (Hcap Ec).
Qed.

End GetRequestable.
