(* ===== verification/RequestOrderTheory.v ===== *)
(** * The piece request order refines a map

    The order of items is total, whatever library computes the comparisons; the wrapped trees
    keep the contract of the interface; and [PieceRequestOrder], on any tree that keeps it,
    behaves as a finite map whose entries are enumerated in that order. *)

From S2P Require Import Prelude Multiless RequestOrder.
Local Open Scope Z_scope.

(** ** The order *)

(** What [pieceOrderLess] compares, most significant first. *)
Definition item_compare (i j : PieceRequestOrderItem) : comparison :=
  thenc (st_Priority (item_State j) ?= st_Priority (item_State i))
  (thenc (bool_compare (st_Partial (item_State j)) (st_Partial (item_State i)))
  (thenc (st_Availability (item_State i) ?= st_Availability (item_State j))
  (thenc (key_Index (item_Key i) ?= key_Index (item_Key j))
         (bytes_compare (key_InfoHash (item_Key i)) (key_InfoHash (item_Key j)))))).

Lemma item_compare_ordered : Ordered item_compare.
Proof.
  unfold item_compare.
  apply Ordered_thenc; [exact (Ordered_flip _ (Ordered_key _ _ Ordered_Z))|].
  apply Ordered_thenc; [exact (Ordered_flip _ (Ordered_key _ _ Ordered_bool))|].
  apply Ordered_thenc; [exact (Ordered_key _ _ Ordered_Z)|].
  apply Ordered_thenc; [exact (Ordered_key _ _ Ordered_Z)|].
  exact (Ordered_key _ _ Ordered_bytes).
Qed.

Lemma item_compare_Eq i j : item_compare i j = Eq <-> i = j.
Proof.
  unfold item_compare. autorewrite with multiless.
  destruct i as [[] []], j as [[] []]; simpl. naive_solver.
Qed.

Lemma pieceOrderLess_ord {M : Multiless} {L : MultilessLaws M} i j :
  ml_ord (pieceOrderLess i j) = item_compare i j.
Proof.
  unfold pieceOrderLess, item_compare. autorewrite with multiless. by rewrite !thenc_assoc.
Qed.

(** The strict order of the trees. *)
Definition before (i j : PieceRequestOrderItem) : Prop := item_compare i j = Lt.

#[global] Instance before_dec i j : Decision (before i j).
Proof. unfold before. apply _. Defined.

#[global] Instance before_trans : Transitive before.
Proof. intros i j k. apply (cmp_trans _ item_compare_ordered). Qed.

#[global] Instance before_irrefl : Irreflexive before.
Proof. intros i. unfold complement, before. by rewrite (proj2 (item_compare_Eq i i)). Qed.

Lemma before_total i j : before i j \/ i = j \/ before j i.
Proof.
  unfold before. rewrite (cmp_anti _ item_compare_ordered i j), <-item_compare_Eq.
  destruct (item_compare i j); naive_solver.
Qed.

(** ** Contracts *)

(** What the documentation of the set libraries promises of [get], [delete] and [upsert], for
    any strict order [lt]: [rep t l] says that the set holds the items [l], in order. *)
Definition eqv (lt : PieceRequestOrderItem -> PieceRequestOrderItem -> Prop) x y : Prop :=
  ~ lt x y /\ ~ lt y x.

Definition strict_weak (lt : PieceRequestOrderItem -> PieceRequestOrderItem -> Prop) : Prop :=
  StrictOrder lt /\ forall x y z, lt x y -> lt x z \/ lt z y.

Record set_laws {T} (lt : PieceRequestOrderItem -> PieceRequestOrderItem -> Prop)
    (rep : T -> list PieceRequestOrderItem -> Prop) (empty : T)
    (get : PieceRequestOrderItem -> T -> option PieceRequestOrderItem)
    (del : PieceRequestOrderItem -> T -> T * bool)
    (ups : PieceRequestOrderItem -> T -> T * option PieceRequestOrderItem)
    (items : T -> list PieceRequestOrderItem) : Prop := {
  sl_empty : rep empty [];
  sl_sorted t l : rep t l -> StronglySorted lt l;
  sl_items t l : rep t l -> items t = l;
  sl_get t l x :
    rep t l ->
    match get x t with
    | Some y => y ∈ l /\ eqv lt x y
    | None => forall y, y ∈ l -> ~ eqv lt x y
    end;
  sl_del t l x :
    rep t l ->
    match del x t with
    | (t', true) => exists y l', eqv lt x y /\ rep t' l' /\ l ≡ₚ y :: l'
    | (t', false) => rep t' l /\ forall y, y ∈ l -> ~ eqv lt x y
    end;
  sl_ups t l x :
    rep t l ->
    match ups x t with
    | (t', Some y) => eqv lt x y /\ exists l0 l', rep t' l' /\ l ≡ₚ y :: l0 /\ l' ≡ₚ x :: l0
    | (t', None) => (forall y, y ∈ l -> ~ eqv lt x y) /\ exists l', rep t' l' /\ l' ≡ₚ x :: l
    end;
}.

(** What the interface promises to [PieceRequestOrder]. *)
Class BtreeLaws (T : Type) `{Btree T} (empty : T) := {
  bt_rep : T -> list PieceRequestOrderItem -> Prop;
  bt_empty : bt_rep empty [];
  bt_sorted t l : bt_rep t l -> StronglySorted before l;
  bt_scan t l : bt_rep t l -> bt_Scan t = l;
  bt_contains t l x : bt_rep t l -> bt_Contains x t = bool_decide (x ∈ l);
  bt_delete t l x : bt_rep t l -> x ∈ l -> exists t' l', bt_Delete x t = Some t' /\ bt_rep t' l' /\ l ≡ₚ x :: l';
  bt_add t l x : bt_rep t l -> x ∉ l -> exists t' l', bt_Add x t = Some t' /\ bt_rep t' l' /\ l' ≡ₚ x :: l;
}.

Lemma eqv_before x y : eqv before x y <-> x = y.
Proof.
  unfold eqv. split.
  - intros [Hx Hy]. by destruct (before_total x y) as [|[|]].
  - intros ->. by split; apply irreflexivity; apply _.
Qed.

Section WrapperLaws.
Context {M : Multiless} {L : MultilessLaws M}.

(** The order handed to each library. *)
Lemma OrderingInt_before i j : ml_OrderingInt (pieceOrderLess i j) < 0 <-> before i j.
Proof.
  rewrite ml_OrderingInt_ord, pieceOrderLess_ord. unfold before. by destruct (item_compare i j).
Qed.

Lemma Item_Less_before i j : Item_Less i j = true <-> before i j.
Proof.
  unfold Item_Less. rewrite ml_Less_ord, pieceOrderLess_ord. by rewrite bool_decide_eq_true.
Qed.

(** The libraries' promises, for a strict weak order given to the constructor. *)
Class AjwernerLaws (A : AjwernerSet) := {
  aj_rep : (PieceRequestOrderItem -> PieceRequestOrderItem -> Z) ->
           aj_set -> list PieceRequestOrderItem -> Prop;
  aj_laws cmp :
    strict_weak (fun x y => cmp x y < 0) ->
    set_laws (fun x y => cmp x y < 0) (aj_rep cmp) (aj_MakeSet cmp) aj_Get
      aj_Delete aj_Upsert aj_items;
}.

Class TidwallLaws (A : TidwallBTreeG) := {
  tw_rep : (PieceRequestOrderItem -> PieceRequestOrderItem -> bool) ->
           tw_tree -> list PieceRequestOrderItem -> Prop;
  tw_laws less :
    strict_weak (fun x y => less x y = true) ->
    set_laws (fun x y => less x y = true) (tw_rep less) (tw_NewBTreeG less) tw_Get
      (fun x t => ((tw_DeleteHint x t).1, if (tw_DeleteHint x t).2 then true else false))
      tw_SetHint tw_Scan;
}.

Section Transport.
Context {T : Type} (lt : PieceRequestOrderItem -> PieceRequestOrderItem -> Prop).
Context (rep : T -> list PieceRequestOrderItem -> Prop) (empty : T).
Context (get : PieceRequestOrderItem -> T -> option PieceRequestOrderItem).
Context (del : PieceRequestOrderItem -> T -> T * bool).
Context (ups : PieceRequestOrderItem -> T -> T * option PieceRequestOrderItem).
Context (items : T -> list PieceRequestOrderItem).
Hypothesis Hlt : forall x y, lt x y <-> before x y.
Hypothesis Hlaws : set_laws lt rep empty get del ups items.

Lemma eqv_lt x y : eqv lt x y <-> x = y.
Proof. rewrite <-eqv_before. unfold eqv. by rewrite !Hlt. Qed.

Lemma lt_sorted t l : rep t l -> StronglySorted before l.
Proof.
  intros H%(sl_sorted _ _ _ _ _ _ _ Hlaws). induction H; constructor; [done|].
  eapply Forall_impl; [done|]. intros. by apply Hlt.
Qed.

Lemma lt_get t l x : rep t l -> (if get x t then true else false) = bool_decide (x ∈ l).
Proof.
  intros H. pose proof (sl_get _ _ _ _ _ _ _ Hlaws t l x H) as Hg. destruct (get x t) as [y|].
  - destruct Hg as [? ->%eqv_lt]. by rewrite bool_decide_true.
  - rewrite bool_decide_false; [done|]. intros Hx. apply (Hg x Hx). by apply eqv_lt.
Qed.

Lemma lt_delete t l x :
  rep t l -> x ∈ l -> exists t' l', del x t = (t', true) /\ rep t' l' /\ l ≡ₚ x :: l'.
Proof.
  intros H Hx. pose proof (sl_del _ _ _ _ _ _ _ Hlaws t l x H) as Hd.
  destruct (del x t) as [t' []].
  - destruct Hd as (y & l' & <-%eqv_lt & ? & ?). eauto.
  - destruct Hd as [_ Hd]. exfalso. apply (Hd x Hx). by apply eqv_lt.
Qed.

Lemma lt_add t l x :
  rep t l -> x ∉ l -> exists t' l', ups x t = (t', None) /\ rep t' l' /\ l' ≡ₚ x :: l.
Proof.
  intros H Hx. pose proof (sl_ups _ _ _ _ _ _ _ Hlaws t l x H) as Hu.
  destruct (ups x t) as [t' [y|]].
  - destruct Hu as (<-%eqv_lt & l0 & l' & _ & Hl & _). contradict Hx. rewrite Hl. by left.
  - destruct Hu as (_ & l' & ? & ?). eauto.
Qed.
End Transport.

Lemma before_strict lt : (forall x y, lt x y <-> before x y) -> strict_weak lt.
Proof.
  intros Hlt. split; [split|].
  - intros x Hx%Hlt. by apply (irreflexivity before) in Hx.
  - intros x y z ?%Hlt ?%Hlt. apply Hlt. by etrans.
  - intros x y z Hxy. rewrite !Hlt in *. destruct (before_total x z) as [|[->|]]; auto.
    right. by etrans.
Qed.

(** Both wrapped trees keep the interface's contract. *)
#[global] Instance ajwerner_btree_laws (A : AjwernerSet) (LA : AjwernerLaws A) :
  BtreeLaws aj_set NewAjwernerBtree.
Proof.
  pose proof (aj_laws (fun i j => ml_OrderingInt (pieceOrderLess i j))
    (before_strict _ OrderingInt_before)) as HL.
  refine {| bt_rep := aj_rep (fun i j => ml_OrderingInt (pieceOrderLess i j)) |}.
  - apply (sl_empty _ _ _ _ _ _ _ HL).
  - by apply (lt_sorted _ _ _ _ _ _ _ OrderingInt_before HL).
  - apply (sl_items _ _ _ _ _ _ _ HL).
  - apply (lt_get _ _ _ _ _ _ _ OrderingInt_before HL).
  - intros t l x Ht Hx. cbn. unfold ajwernerBtree_Delete.
    destruct (lt_delete _ _ _ _ _ _ _ OrderingInt_before HL t l x Ht Hx) as (t' & l' & -> & ? & ?). eauto.
  - intros t l x Ht Hx. cbn. unfold ajwernerBtree_Add.
    destruct (lt_add _ _ _ _ _ _ _ OrderingInt_before HL t l x Ht Hx) as (t' & l' & -> & ? & ?). eauto.
Defined.

#[global] Instance tidwall_btree_laws (A : TidwallBTreeG) (LA : TidwallLaws A) :
  BtreeLaws tw_tree NewTidwallBtree.
Proof.
  pose proof (tw_laws Item_Less (before_strict _ Item_Less_before)) as HL.
  refine {| bt_rep := tw_rep Item_Less |}.
  - apply (sl_empty _ _ _ _ _ _ _ HL).
  - by apply (lt_sorted _ _ _ _ _ _ _ Item_Less_before HL).
  - apply (sl_items _ _ _ _ _ _ _ HL).
  - apply (lt_get _ _ _ _ _ _ _ Item_Less_before HL).
  - intros t l x Ht Hx. cbn. unfold tidwallBtree_Delete.
    destruct (lt_delete _ _ _ _ _ _ _ Item_Less_before HL t l x Ht Hx) as (t' & l' & E & ? & ?).
    destruct (tw_DeleteHint x t) as [t0 o]. simpl in E. destruct o; [|done].
    injection E as ->. eauto.
  - intros t l x Ht Hx. cbn. unfold tidwallBtree_Add.
    destruct (lt_add _ _ _ _ _ _ _ Item_Less_before HL t l x Ht Hx) as (t' & l' & -> & ? & ?). eauto.
Defined.
End WrapperLaws.

(** ** A set that keeps the promises: a sorted list *)

Section SortedList.
Context (ltb : PieceRequestOrderItem -> PieceRequestOrderItem -> bool).
Notation lt := (fun x y => ltb x y = true).

Definition eqvb (x y : PieceRequestOrderItem) : bool := negb (ltb x y) && negb (ltb y x).

Fixpoint list_ups (x : PieceRequestOrderItem) (l : list PieceRequestOrderItem) :
    list PieceRequestOrderItem * option PieceRequestOrderItem :=
  match l with
  | [] => ([x], None)
  | y :: l' =>
      if ltb x y then (x :: l, None)
      else if ltb y x then let '(l'', o) := list_ups x l' in (y :: l'', o)
      else (x :: l', Some y)
  end.

Fixpoint list_del (x : PieceRequestOrderItem) (l : list PieceRequestOrderItem) :
    list PieceRequestOrderItem * bool :=
  match l with
  | [] => ([], false)
  | y :: l' => if eqvb x y then (l', true) else let '(l'', b) := list_del x l' in (y :: l'', b)
  end.

Definition list_get (x : PieceRequestOrderItem) (l : list PieceRequestOrderItem) :
    option PieceRequestOrderItem := find (eqvb x) l.

Lemma eqvb_spec x y : eqvb x y = true <-> eqv lt x y.
Proof. unfold eqvb, eqv. destruct (ltb x y), (ltb y x); simpl; naive_solver. Qed.

Hypothesis Hweak : strict_weak lt.

Lemma list_ups_ok x l :
  StronglySorted lt l ->
  match list_ups x l with
  | (l', Some y) => eqv lt x y /\ exists l0, StronglySorted lt l' /\ l ≡ₚ y :: l0 /\ l' ≡ₚ x :: l0
  | (l', None) => (forall y, y ∈ l -> ~ eqv lt x y) /\ StronglySorted lt l' /\ l' ≡ₚ x :: l
  end.
Proof.
  destruct Hweak as [[Hirr Htr] Hw].
  induction 1 as [|y l Hs IH Hy]; simpl.
  { split_and!; [set_solver|by repeat constructor|done]. }
  destruct (ltb x y) eqn:Exy; [|destruct (ltb y x) eqn:Eyx; [|]].
  - assert (Forall (fun z => ltb x z = true) l) as Hx.
    { eapply Forall_impl; [exact Hy|]. intros z Hz. by apply (Htr x y z). }
    split_and!; [|by repeat constructor|done].
    intros z [->|Hz]%elem_of_cons [Hn _]; [done|]. apply Hn. by eapply Forall_forall in Hx.
  - destruct (list_ups x l) as [l' [z|]].
    + destruct IH as (He & l0 & Hs' & Hl & Hl'). split; [done|]. exists (y :: l0). split_and!.
      * constructor; [done|]. rewrite Hl'. constructor; [done|].
        rewrite Hl in Hy. by apply Forall_cons in Hy as [_ ?].
      * rewrite Hl. constructor.
      * rewrite Hl'. constructor.
    + destruct IH as (He & Hs' & Hl'). split_and!.
      * intros z [->|Hz]%elem_of_cons Hez; [|by eapply He]. by destruct Hez.
      * constructor; [done|]. rewrite Hl'. by constructor.
      * rewrite Hl'. constructor.
  - split; [by apply eqvb_spec; unfold eqvb; rewrite Exy, Eyx|]. exists l. split_and!; [|done|done].
    constructor; [done|]. eapply Forall_impl; [exact Hy|]. intros z Hz; simpl in *.
    destruct (Hw y z x Hz) as [?|?]; [congruence|done].
Qed.

Lemma list_del_ok x l :
  StronglySorted lt l ->
  match list_del x l with
  | (l', true) => exists y, eqv lt x y /\ StronglySorted lt l' /\ l ≡ₚ y :: l'
  | (l', false) => l' = l /\ forall y, y ∈ l -> ~ eqv lt x y
  end.
Proof.
  induction 1 as [|y l Hs IH Hy]; simpl; [set_solver|].
  destruct (eqvb x y) eqn:E; [apply eqvb_spec in E; eauto|].
  destruct (list_del x l) as [l' []].
  - destruct IH as (z & Hz & Hs' & Hl). exists z. split_and!; [done| |rewrite Hl; constructor].
    constructor; [done|]. rewrite Hl in Hy. by apply Forall_cons in Hy as [_ ?].
  - destruct IH as [-> IH]. split; [done|]. intros z [->|Hz]%elem_of_cons; [|by apply IH].
    rewrite <-eqvb_spec. congruence.
Qed.

Lemma list_get_ok x l :
  match list_get x l with
  | Some y => y ∈ l /\ eqv lt x y
  | None => forall y, y ∈ l -> ~ eqv lt x y
  end.
Proof.
  unfold list_get. destruct (find (eqvb x) l) as [y|] eqn:E.
  - apply find_some in E as [?%list_elem_of_In ?%eqvb_spec]. done.
  - intros y Hy%list_elem_of_In He%eqvb_spec. eapply find_none in E; [|done]. congruence.
Qed.
End SortedList.

#[global] Instance list_ajwerner : AjwernerSet := {|
  aj_set := (PieceRequestOrderItem -> PieceRequestOrderItem -> Z) * list PieceRequestOrderItem;
  aj_MakeSet cmp := (cmp, []);
  aj_Get x t := list_get (fun x y => t.1 x y <? 0) x t.2;
  aj_Delete x t := let '(l, b) := list_del (fun x y => t.1 x y <? 0) x t.2 in ((t.1, l), b);
  aj_Upsert x t := let '(l, o) := list_ups (fun x y => t.1 x y <? 0) x t.2 in ((t.1, l), o);
  aj_items t := t.2;
|}.

#[global] Instance list_ajwerner_laws : AjwernerLaws list_ajwerner.
Proof.
  refine {| aj_rep cmp (t : @aj_set list_ajwerner) l :=
              t = (cmp, l) /\ StronglySorted (fun x y => (cmp x y <? 0) = true) l |}.
  intros cmp Hw. assert (forall x y, (cmp x y <? 0) = true <-> cmp x y < 0) as Hb by (intros; apply Z.ltb_lt).
  assert (strict_weak (fun x y => (cmp x y <? 0) = true)) as Hw'.
  { destruct Hw as [[Hi Ht] Hw]. split; [split|].
    - intros x Hx%Hb. by apply (Hi x).
    - intros x y z ?%Hb ?%Hb. apply Hb. by apply (Ht x y z).
    - intros x y z Hxy%Hb. rewrite !Hb. by apply Hw. }
  assert (forall x y, eqv (fun x y => (cmp x y <? 0) = true) x y <-> eqv (fun x y => cmp x y < 0) x y) as He
    by (intros; unfold eqv; by rewrite !Hb).
  split; [split; [done|constructor]|..]; intros t l.
  - intros [_ Hs]. induction Hs; constructor; [done|]. eapply Forall_impl; [done|]. intros. by apply Hb.
  - by intros [-> _].
  - intros x [-> _]. cbn -[list_get]. pose proof (list_get_ok (fun x y => cmp x y <? 0) x l) as Hg.
    destruct (list_get _ x l) as [y|]; [by rewrite <-He|]. intros y Hy. rewrite <-He. by apply Hg.
  - intros x [-> Hs]. cbn -[list_del list_ups]. pose proof (list_del_ok (fun x y => cmp x y <? 0) Hw' x l Hs) as Hd.
    destruct (list_del _ x l) as [l' []].
    + destruct Hd as (y & ? & ? & ?). exists y, l'. rewrite <-He. done.
    + destruct Hd as [-> Hd]. split; [done|]. intros y Hy. rewrite <-He. by apply Hd.
  - intros x [-> Hs]. cbn -[list_del list_ups]. pose proof (list_ups_ok (fun x y => cmp x y <? 0) Hw' x l Hs) as Hu.
    destruct (list_ups _ x l) as [l' [y|]].
    + destruct Hu as (? & l0 & ? & ? & ?). rewrite <-He. split; [done|]. by exists l0, l'.
    + destruct Hu as (Hu & ? & ?). split; [|by exists l']. intros y Hy. rewrite <-He. by apply Hu.
Qed.

(** ** Refinement of a map *)

Definition item_le (i j : PieceRequestOrderItem) : Prop := item_compare i j <> Gt.

#[global] Instance item_le_dec i j : Decision (item_le i j).
Proof. unfold item_le. apply _. Defined.

Lemma item_le_before i j : item_le i j <-> before i j \/ i = j.
Proof.
  unfold item_le, before. rewrite <-item_compare_Eq. destruct (item_compare i j); naive_solver.
Qed.

#[global] Instance item_le_trans : Transitive item_le.
Proof. intros i j k. rewrite !item_le_before. intros [?| ->] [?| ->]; eauto. left. by etrans. Qed.
#[global] Instance item_le_total : Total item_le.
Proof. intros i j. rewrite !item_le_before. destruct (before_total i j) as [|[|]]; auto. Qed.
#[global] Instance item_le_anti : AntiSymm (=) item_le.
Proof.
  intros i j [Hij|]%item_le_before [Hji|]%item_le_before; try done.
  exfalso. apply (irreflexivity before i). by etrans.
Qed.

(** The abstract order: a map from pieces to states, and its entries in order. *)
Notation order_map := (gmap PieceRequestOrderKey PieceRequestOrderState).

Definition entries (m : order_map) : list PieceRequestOrderItem :=
  merge_sort item_le ((fun p => mkItem p.1 p.2) <$> map_to_list m).

Inductive call :=
| CAdd (key : PieceRequestOrderKey) (state : PieceRequestOrderState)
| CUpdate (key : PieceRequestOrderKey) (state : PieceRequestOrderState)
| CDelete (key : PieceRequestOrderKey)
| CGet (key : PieceRequestOrderKey)
| CLen
| CIter.

Inductive answer :=
| AState (s : option PieceRequestOrderState)
| ABool (b : bool)
| ALen (n : nat)
| AItems (l : list PieceRequestOrderItem).

Definition spec_call (c : call) (m : order_map) : option (order_map * answer) :=
  match c with
  | CAdd k s => Some (<[k := s]> m, AState (m !! k))
  | CUpdate k s => old ← m !! k; Some (<[k := s]> m, ABool (negb (bool_decide (old = s))))
  | CDelete k => Some (delete k m, ABool (bool_decide (is_Some (m !! k))))
  | CGet k => Some (m, AState (m !! k))
  | CLen => Some (m, ALen (size m))
  | CIter => Some (m, AItems (entries m))
  end.

Fixpoint spec_run (cs : list call) (m : order_map) : option (list answer) :=
  match cs with
  | [] => Some []
  | c :: cs' => '(m, a) ← spec_call c m; l ← spec_run cs' m; Some (a :: l)
  end.

Section Refinement.
Context {T : Type} `{HB : Btree T} {empty : T} {HL : BtreeLaws T empty}.

Definition do_call (c : call) (me : PieceRequestOrder T) : option (PieceRequestOrder T * answer) :=
  match c with
  | CAdd k s => '(me, old) ← Add k s me; Some (me, AState old)
  | CUpdate k s => '(me, changed) ← Update k s me; Some (me, ABool changed)
  | CDelete k => '(me, deleted) ← Delete k me; Some (me, ABool deleted)
  | CGet k => o ← Get k me; Some (me, AState o)
  | CLen => Some (me, ALen (Len me))
  | CIter => Some (me, AItems (Iter me))
  end.

Fixpoint do_run (cs : list call) (me : PieceRequestOrder T) : option (list answer) :=
  match cs with
  | [] => Some []
  | c :: cs' => '(me, a) ← do_call c me; l ← do_run cs' me; Some (a :: l)
  end.

Definition holds_map (l : list PieceRequestOrderItem) (m : order_map) : Prop :=
  forall it, it ∈ l <-> m !! item_Key it = Some (item_State it).

Definition refines (me : PieceRequestOrder T) (m : order_map) : Prop :=
  pro_keys me = m /\ exists l, bt_rep (pro_tree me) l /\ holds_map l m.

Lemma sorted_NoDup l : StronglySorted before l -> NoDup l.
Proof.
  induction 1 as [|x l _ IH Hx]; constructor; [|done]. intros Hin.
  rewrite Forall_forall in Hx. by apply (irreflexivity before x), Hx.
Qed.

Lemma before_sorted_le l : StronglySorted before l -> StronglySorted item_le l.
Proof.
  induction 1; constructor; [done|]. eapply Forall_impl; [done|]. intros. apply item_le_before. auto.
Qed.

Lemma holds_delete l l' m key state :
  StronglySorted before l -> holds_map l m -> m !! key = Some state ->
  l ≡ₚ mkItem key state :: l' -> holds_map l' (delete key m).
Proof.
  intros Hs Hl Hk Hp it.
  assert (NoDup (mkItem key state :: l')) as [Hn _]%NoDup_cons by (rewrite <-Hp; by apply sorted_NoDup).
  assert (it ∈ l <-> it = mkItem key state \/ it ∈ l') as Hin by (by rewrite Hp, elem_of_cons).
  rewrite (Hl it) in Hin. destruct (decide (item_Key it = key)) as [<-|Hne].
  - rewrite lookup_delete_eq. split; [|done]. intros Hit. exfalso.
    assert (item_State it = state) as <- by naive_solver. destruct it. naive_solver.
  - rewrite lookup_delete_ne by done. rewrite Hin. split; [by right|intros [->|]; done].
Qed.

Lemma holds_insert l l' m key state :
  holds_map l m -> m !! key = None -> l' ≡ₚ mkItem key state :: l -> holds_map l' (<[key := state]> m).
Proof.
  intros Hl Hk Hp it. rewrite Hp, elem_of_cons, (Hl it).
  destruct (decide (item_Key it = key)) as [<-|Hne].
  - rewrite lookup_insert_eq, Hk. destruct it as [k s]; unfold mkItem; simpl.
    split; [intros [[= ->]|]; done|intros [= ->]; by left].
  - rewrite lookup_insert_ne by done. split; [intros [->|]; done|by right].
Qed.

Lemma Delete_refines key me m :
  refines me m ->
  exists me', Delete key me = Some (me', bool_decide (is_Some (m !! key))) /\ refines me' (delete key m).
Proof.
  intros (<- & l & Hrep & Hl). unfold Delete. destruct (pro_keys me !! key) as [state|] eqn:Ek.
  - destruct (bt_delete (pro_tree me) l (mkItem key state)) as (t' & l' & -> & Hrep' & Hp); [done|by apply Hl|].
    cbn [mbind option_bind]. rewrite bool_decide_true by done. eexists. split; [done|].
    split; [done|]. exists l'. split; [done|]. apply (holds_delete l l' _ _ state); [by eapply bt_sorted|done..].
  - rewrite bool_decide_false by (by intros [? ?]). exists me. split; [done|].
    rewrite delete_id by done. by split; [|exists l].
Qed.

Lemma insert_refines key state tree keys m :
  refines {| pro_tree := tree; pro_keys := keys |} m -> m !! key = None ->
  exists tree', bt_Add (mkItem key state) tree = Some tree' /\
                refines {| pro_tree := tree'; pro_keys := <[key := state]> keys |} (<[key := state]> m).
Proof.
  intros (<- & l & Hrep & Hl) Hk; simpl in *.
  destruct (bt_add tree l (mkItem key state)) as (t' & l' & E & Hrep' & Hp); [done| |].
  { rewrite (Hl _). simpl. by rewrite Hk. }
  exists t'. split; [done|]. split; [done|]. exists l'. split; [done|]. by eapply holds_insert.
Qed.

Lemma Add_refines key state me m :
  refines me m ->
  exists me', Add key state me = Some (me', m !! key) /\ refines me' (<[key := state]> m).
Proof.
  intros Hr. pose proof Hr as [<- _]. unfold Add.
  destruct (pro_keys me !! key) as [old|] eqn:Ek.
  - destruct (decide (state = old)) as [->|]; [exists me; by rewrite insert_id|].
    destruct (Delete_refines key me (pro_keys me) Hr) as (me' & Ed & Hr').
    unfold Delete in Ed. rewrite Ek in Ed. destruct (bt_Delete _ _) as [t'|]; [|done].
    cbn [mbind option_bind] in Ed |- *. injection Ed as <-.
    destruct (insert_refines key state t' _ _ Hr') as (t'' & -> & Hr''); [apply lookup_delete_eq|].
    cbn [mbind option_bind]. rewrite !insert_delete_eq in Hr''. eauto.
  - destruct me as [tree keys]; simpl in *.
    destruct (insert_refines key state tree keys keys Hr Ek) as (t' & -> & Hr'). cbn [mbind option_bind]. eauto.
Qed.

Lemma Get_refines key me m : refines me m -> Get key me = Some (m !! key).
Proof.
  intros (<- & l & Hrep & Hl). unfold Get. rewrite (bt_contains _ l) by done.
  destruct (pro_keys me !! key) as [s|] eqn:Ek; simpl.
  - rewrite bool_decide_true; [done|]. by apply Hl.
  - rewrite bool_decide_false; [done|]. rewrite (Hl _). simpl. by rewrite Ek.
Qed.

Lemma Iter_refines me m : refines me m -> Iter me = entries m.
Proof.
  intros (<- & l & Hrep & Hl). unfold Iter. rewrite (bt_scan _ l Hrep).
  apply (StronglySorted_unique item_le).
  - apply before_sorted_le. by eapply bt_sorted.
  - apply (StronglySorted_merge_sort item_le).
  - unfold entries. rewrite merge_sort_Permutation. apply NoDup_Permutation.
    + eauto using sorted_NoDup, bt_sorted.
    + apply NoDup_fmap_2; [|apply NoDup_map_to_list]. intros [] []. unfold mkItem. naive_solver.
    + intros it. rewrite (Hl it), list_elem_of_fmap. split.
      * intros Hit. exists (item_Key it, item_State it). rewrite elem_of_map_to_list. by destruct it.
      * intros ([k s] & -> & Hks%elem_of_map_to_list). done.
Qed.

Lemma call_refines c me m :
  refines me m ->
  match spec_call c m with
  | Some (m', a) => exists me', do_call c me = Some (me', a) /\ refines me' m'
  | None => do_call c me = None
  end.
Proof.
  intros Hr. destruct c as [key state|key state|key|key| |]; simpl.
  - destruct (Add_refines key state me m Hr) as (me' & -> & ?). eauto.
  - unfold Update. destruct (Add_refines key state me m Hr) as (me' & -> & ?).
    cbn [mbind option_bind]. destruct (m !! key); simpl; eauto.
  - destruct (Delete_refines key me m Hr) as (me' & -> & ?). eauto.
  - rewrite (Get_refines key me m Hr). eauto.
  - unfold Len. destruct Hr as [<- ?]. eexists; split; [done|]. by split.
  - rewrite (Iter_refines me m Hr). eauto.
Qed.

Lemma run_refines cs me m : refines me m -> do_run cs me = spec_run cs m.
Proof.
  revert me m. induction cs as [|c cs IH]; intros me m Hr; simpl; [done|].
  pose proof (call_refines c me m Hr) as Hc. destruct (spec_call c m) as [[m' a]|].
  - destruct Hc as (me' & -> & Hr'). cbn [mbind option_bind]. by rewrite (IH me' m' Hr').
  - by rewrite Hc.
Qed.

Lemma new_refines : refines (NewPieceOrder empty) ∅.
Proof.
  split; [done|]. exists []. split; [apply bt_empty|]. intros it. rewrite lookup_empty. set_solver.
Qed.
End Refinement.

(** C7: on the tree the client uses, whatever set library keeps its documented contract, every
    sequence of calls on a new [PieceRequestOrder] gives the answers a map from pieces to states
    would give: [Add] the previous state, [Update] whether it changed, [Delete] whether it was
    there, [Get], [Len], and [Iter] all entries sorted by [pieceOrderLess]; and it panics exactly
    where [Update] is called for a piece that is not there. *)
Theorem requestOrder_refines (M : Multiless) (L : MultilessLaws M) (A : AjwernerSet) (LA : AjwernerLaws A)
    (cs : list call) :
  do_run cs (NewPieceOrder NewAjwernerBtree) = spec_run cs ∅.
Proof. apply (run_refines (HL := ajwerner_btree_laws A LA)), new_refines. Qed.

Lemma requestOrder_refines_witness :
  let key i := {| key_InfoHash := bs "h"; key_Index := i |} in
  let st p := {| st_Availability := 1; st_Priority := p; st_Partial := false |} in
  let cs := [CAdd (key 0) (st 1); CAdd (key 1) (st 1); CUpdate (key 1) (st 5); CIter; CDelete (key 0); CLen] in
  do_run cs (NewPieceOrder (@NewAjwernerBtree comparison_multiless list_ajwerner)) = spec_run cs ∅ /\
  spec_run cs ∅ =
    Some [AState None; AState None; ABool true; AItems [mkItem (key 1) (st 5); mkItem (key 0) (st 1)];
          ABool true; ALen 1].
Proof.
  intros key st cs. split; [|vm_compute; reflexivity].
  apply (requestOrder_refines comparison_multiless comparison_laws list_ajwerner list_ajwerner_laws).
Defined.

(** ** Limits of a walk over the order *)

Section Requestable.
Context {S E : Type} (input : Input S E) (go_on : PieceRequestOrderItem -> bool).
(** What the torrents answer. *)
Context (request unverified_piece : bytes -> Z -> bool).

Definition item_torrent (it : PieceRequestOrderItem) : StrategyTorrent S E :=
  in_Torrent input (key_InfoHash (item_Key it)).
Definition item_length (it : PieceRequestOrderItem) : Z := t_PieceLength (item_torrent it).
Definition requested (it : PieceRequestOrderItem) : bool := request (key_InfoHash (item_Key it)) (key_Index (item_Key it)).
Definition counted (it : PieceRequestOrderItem) : bool :=
  requested it || unverified_piece (key_InfoHash (item_Key it)) (key_Index (item_Key it)).

Definition bytes_of (l : list PieceRequestOrderItem) : Z := foldr (fun it n => item_length it + n) 0 l.
Definition unverified (l : list PieceRequestOrderItem) : Z := bytes_of (filter (fun it => counted it = true) l).

(** Whether an item is reached, given the items before it: with it they fit the storage, those
    before it that count leave room for unverified bytes, and no callback has stopped. *)
Definition within (pre : list PieceRequestOrderItem) (it : PieceRequestOrderItem) : bool :=
  match in_Capacity input with Some cap => bytes_of (pre ++ [it]) <=? cap | None => true end &&
  ((in_MaxUnverifiedBytes input =? 0) || (unverified pre <? in_MaxUnverifiedBytes input)) &&
  forallb (fun j => negb (requested j) || go_on j) pre.

(** Each item is judged by itself; nothing is assumed of how the code walks. *)
Fixpoint offered (pre items : list PieceRequestOrderItem) : list PieceRequestOrderItem :=
  match items with
  | [] => []
  | it :: items' =>
      (if within pre it && requested it then [it] else []) ++ offered (pre ++ [it]) items'
  end.

Definition collect (ih : bytes) (i : Z) (st : PieceRequestOrderState) (l : list PieceRequestOrderItem) :
    go S E (list PieceRequestOrderItem * bool) :=
  let it := mkItem {| key_InfoHash := ih; key_Index := i |} st in mret (l ++ [it], go_on it).

(** The torrents can be asked in state [s0], and are left as they are. *)
Definition answers (s0 : S) : Prop := forall ih i,
  t_PieceRequest (in_Torrent input ih) i s0 = Ret (request ih i) s0 /\
  t_PieceCountUnverified (in_Torrent input ih) i s0 = Ret (unverified_piece ih i) s0.

Lemma bytes_of_app l k : bytes_of (l ++ k) = bytes_of l + bytes_of k.
Proof. induction l as [|x l IH]; simpl; [done|]. rewrite IH. lia. Qed.

Lemma unverified_snoc l it : unverified (l ++ [it]) = unverified l + if counted it then item_length it else 0.
Proof.
  unfold unverified. rewrite filter_app, bytes_of_app. f_equal.
  rewrite filter_cons, filter_nil. destruct (counted it); simpl; lia.
Qed.

Hypothesis Hlen : forall ih, 0 <= t_PieceLength (in_Torrent input ih).

Lemma bytes_of_nonneg l : 0 <= bytes_of l.
Proof. induction l as [|x l IH]; simpl; [lia|]. pose proof (Hlen (key_InfoHash (item_Key x))). unfold item_length, item_torrent. lia. Qed.

Lemma unverified_le l : 0 <= unverified l <= bytes_of l.
Proof.
  induction l as [|x l IH] using rev_ind; [done|].
  rewrite unverified_snoc, bytes_of_app. simpl. pose proof (Hlen (key_InfoHash (item_Key x))).
  unfold item_length, item_torrent. destruct (counted x); lia.
Qed.

(** Once an item is out of reach, so are all that follow. *)
Lemma within_mono pre x it : within (pre ++ [x]) it = true -> within pre x = true.
Proof.
  unfold within. rewrite !andb_true_iff, !orb_true_iff, !Z.ltb_lt, forallb_app.
  rewrite unverified_snoc. intros [[Hc Hu] Hf]. apply andb_true_iff in Hf as [Hf _].
  pose proof (Hlen (key_InfoHash (item_Key x))) as Hx. pose proof (Hlen (key_InfoHash (item_Key it))) as Hi.
  split_and!; [| |done].
  - destruct (in_Capacity input); [|done]. rewrite Z.leb_le in *. rewrite !bytes_of_app in *. simpl in *.
    unfold item_length, item_torrent in *. lia.
  - destruct Hu as [?|Hu]; [by left|right]. unfold item_length, item_torrent in *. destruct (counted x); lia.
Qed.

Lemma offered_stop items pre : (forall it, within pre it = false) -> offered pre items = [].
Proof.
  revert pre. induction items as [|it items IH]; intros pre Hpre; simpl; [done|].
  rewrite Hpre. simpl. apply IH. intros it'. apply not_true_is_false. intros H%within_mono. by rewrite Hpre in H.
Qed.

Lemma offered_stop_head it items pre : within pre it = false -> offered pre (it :: items) = [].
Proof.
  intros H. simpl. rewrite H. simpl. apply offered_stop. intros it'. apply not_true_is_false.
  intros H'%within_mono. by rewrite H in H'.
Qed.

Context (s0 : S) (Hans : answers s0).
Hypothesis Hmax : 0 <= in_MaxUnverifiedBytes input.
Hypothesis Hcap : forall cap, in_Capacity input = Some cap -> is_int cap = true.

(** What the loop has left of the storage after [pre]. *)
Definition left_after (pre : list PieceRequestOrderItem) : option Z :=
  match in_Capacity input with Some cap => Some (cap - bytes_of pre) | None => None end.

(** The limits besides the storage. *)
Definition alive (pre : list PieceRequestOrderItem) : bool :=
  ((in_MaxUnverifiedBytes input =? 0) || (unverified pre <? in_MaxUnverifiedBytes input)) &&
  forallb (fun j => negb (requested j) || go_on j) pre.

Lemma within_alive pre it :
  alive pre = true ->
  within pre it = match left_after pre with Some n => negb (n <? item_length it) | None => true end.
Proof.
  unfold within, alive, left_after. rewrite <-andb_assoc. intros ->. rewrite andb_true_r.
  destruct (in_Capacity input); [|done]. rewrite bytes_of_app. simpl.
  apply eq_true_iff_eq. rewrite Z.leb_le, negb_true_iff, Z.ltb_ge. lia.
Qed.

Lemma left_after_snoc pre it n :
  left_after pre = Some n -> (n <? item_length it) = false ->
  sub64 n (item_length it) = n - item_length it /\ left_after (pre ++ [it]) = Some (n - item_length it).
Proof.
  unfold left_after. destruct (in_Capacity input) as [cap|] eqn:Ec; [|done].
  intros [= <-] Hn%Z.ltb_ge. specialize (Hcap cap eq_refl). apply is_int_spec in Hcap.
  pose proof (bytes_of_nonneg pre). pose proof (Hlen (key_InfoHash (item_Key it))).
  unfold item_length, item_torrent in *. split; [apply sub64_small; lia|].
  rewrite bytes_of_app. simpl. unfold item_length, item_torrent. f_equal. lia.
Qed.

(** The loop does on [items], after [pre], what the reference says. *)
Definition walks (items pre : list PieceRequestOrderItem) : Prop :=
  forall s, alive pre = true ->
  requestable_loop input collect items (left_after pre) (unverified pre) s s0 =
  Ret (s ++ offered pre items, forallb go_on (offered pre items)) s0.

Lemma alive_snoc pre it :
  alive (pre ++ [it]) =
  ((in_MaxUnverifiedBytes input =? 0) || (unverified (pre ++ [it]) <? in_MaxUnverifiedBytes input)) &&
  (forallb (fun j => negb (requested j) || go_on j) pre && (negb (requested it) || go_on it)).
Proof. unfold alive. rewrite forallb_app. simpl. by rewrite andb_true_r. Qed.

Lemma not_alive_stop pre items : alive pre = false -> offered pre items = [].
Proof.
  intros H. apply offered_stop. intros it. unfold within. rewrite <-andb_assoc.
  change (_ && forallb _ pre) with (alive pre). by rewrite H, andb_false_r.
Qed.

(** An item that counts: the walk ends after it when the unverified bytes are used up. *)
Lemma count_step pre it items s :
  walks items (pre ++ [it]) -> alive pre = true -> counted it = true ->
  negb (requested it) || go_on it = true ->
  (if negb (in_MaxUnverifiedBytes input =? 0) && (unverified pre + item_length it >=? in_MaxUnverifiedBytes input)
   then mret (s, true)
   else requestable_loop input collect items (left_after (pre ++ [it])) (unverified pre + item_length it) s) s0 =
  Ret (s ++ offered (pre ++ [it]) items, forallb go_on (offered (pre ++ [it]) items)) s0.
Proof.
  intros Hwalk [_ Hf]%andb_true_iff Hc Hgo. pose proof (alive_snoc pre it) as Ha. rewrite Hf, Hgo, andb_true_r in Ha.
  assert (unverified (pre ++ [it]) = unverified pre + item_length it) as Hu by (by rewrite unverified_snoc, Hc).
  rewrite Hu in Ha.
  assert (negb (in_MaxUnverifiedBytes input =? 0) && (unverified pre + item_length it >=? in_MaxUnverifiedBytes input) =
    negb (alive (pre ++ [it]))) as -> by (by rewrite Z.geb_leb, Z.leb_antisym, <-negb_orb, Ha).
  destruct (alive (pre ++ [it])) eqn:Ea; simpl; [rewrite <-Hu; by apply Hwalk|].
  unfold mret, go_ret. by rewrite not_alive_stop, app_nil_r.
Qed.

Lemma walk_step pre it items s :
  walks items (pre ++ [it]) -> alive pre = true -> within pre it = true ->
  add64 (unverified pre) (item_length it) = unverified pre + item_length it ->
  requestable_loop input collect (it :: items) (left_after pre) (unverified pre) s s0 =
  Ret (s ++ offered pre (it :: items), forallb go_on (offered pre (it :: items))) s0.
Proof.
  intros Hwalk Hal Hw Hadd. cbn [requestable_loop offered]. rewrite Hw. rewrite within_alive in Hw by done.
  change (in_Torrent input (key_InfoHash (item_Key it))) with (item_torrent it).
  change (t_PieceLength (item_torrent it)) with (item_length it).
  assert (match left_after pre with
          | Some n => (n <? item_length it) = false /\ left_after (pre ++ [it]) = Some (sub64 n (item_length it))
          | None => left_after (pre ++ [it]) = None
          end) as Hleft.
  { destruct (left_after pre) as [n|] eqn:El.
    - apply negb_true_iff in Hw. destruct (left_after_snoc pre it n El Hw) as [-> ->]. done.
    - revert El. unfold left_after. by destruct (in_Capacity input). }
  rewrite Hadd. pose proof (count_step pre it items) as Hcount. unfold counted in Hcount.
  destruct (Hans (key_InfoHash (item_Key it)) (key_Index (item_Key it))) as [Ereq Ecnt].
  fold (item_torrent it) in Ereq, Ecnt. fold (requested it) in Ereq.
  assert (collect (key_InfoHash (item_Key it)) (key_Index (item_Key it)) (item_State it) s s0 = Ret (s ++ [it], go_on it) s0) as Ecol
    by (unfold collect; by destruct it as [[] ?]).
  assert (forall storage, storage = left_after (pre ++ [it]) ->
    (request ← t_PieceRequest (item_torrent it) (key_Index (item_Key it));
     if request : bool then
       r ← collect (key_InfoHash (item_Key it)) (key_Index (item_Key it)) (item_State it) s;
       if r.2 : bool then
         if negb (in_MaxUnverifiedBytes input =? 0) && (unverified pre + item_length it >=? in_MaxUnverifiedBytes input)
         then mret (r.1, true) else requestable_loop input collect items storage (unverified pre + item_length it) r.1
       else mret (r.1, false)
     else
       counts ← t_PieceCountUnverified (item_torrent it) (key_Index (item_Key it));
       if negb counts then requestable_loop input collect items storage (unverified pre) s
       else
         if negb (in_MaxUnverifiedBytes input =? 0) && (unverified pre + item_length it >=? in_MaxUnverifiedBytes input)
         then mret (s, true) else requestable_loop input collect items storage (unverified pre + item_length it) s) s0 =
    Ret (s ++ (if requested it then [it] else []) ++ offered (pre ++ [it]) items,
     forallb go_on ((if requested it then [it] else []) ++ offered (pre ++ [it]) items)) s0) as Hbody.
  { intros ? ->. rewrite (bind_step _ _ _ _ _ Ereq). destruct (requested it) eqn:Er; simpl in *.
    - rewrite (bind_step _ _ _ _ _ Ecol). cbn [fst snd]. destruct (go_on it) eqn:Eg; simpl.
      + rewrite Hcount by done. by rewrite <-app_assoc.
      + rewrite not_alive_stop; [done|]. rewrite alive_snoc, Er, Eg. by rewrite !andb_false_r.
    - rewrite (bind_step _ _ _ _ _ Ecnt). destruct (unverified_piece _ _) eqn:Ecu; simpl; [by apply Hcount|].
      assert (unverified (pre ++ [it]) = unverified pre) as <-
        by (rewrite unverified_snoc; unfold counted; rewrite Er, Ecu; simpl; lia).
      apply Hwalk. rewrite alive_snoc, Er. simpl. rewrite andb_true_r.
      rewrite unverified_snoc. unfold counted. rewrite Er, Ecu. simpl. by rewrite Z.add_0_r. }
  destruct (left_after pre) as [n|].
  - destruct Hleft as [-> Hl]. by apply Hbody.
  - by apply Hbody.
Qed.

Lemma loop_spec items pre : bytes_of (pre ++ items) <= maxInt -> walks items pre.
Proof.
  revert pre. induction items as [|it items IH]; intros pre Hsum s Hal; [simpl; by rewrite app_nil_r|].
  assert (bytes_of ((pre ++ [it]) ++ items) <= maxInt) as Hsum' by (by rewrite <-app_assoc).
  destruct (within pre it) eqn:Hw.
  - apply walk_step; [by apply IH|done|done|].
    pose proof (unverified_le pre). pose proof (bytes_of_nonneg items).
    rewrite !bytes_of_app in Hsum'. simpl in Hsum'.
    pose proof (Hlen (key_InfoHash (item_Key it))). unfold item_length, item_torrent in *. apply add64_small. lia.
  - rewrite offered_stop_head by done. rewrite within_alive in Hw by done. simpl.
    destruct (left_after pre) as [n|]; [|done]. apply negb_false_iff in Hw.
    change (t_PieceLength _) with (item_length it). rewrite Hw. unfold mret, go_ret. by rewrite app_nil_r.
Qed.
End Requestable.

(** C29: walking any order whose piece lengths add up within [int64], [GetRequestablePieces]
    offers to the callback exactly the pieces that are to be requested among those in reach, in
    order: the piece and all before it fit the storage capacity, the pieces before it that count
    have fewer unverified bytes than the limit (zero meaning none), and no earlier callback
    stopped; and it returns whether every callback wanted more. *)
Theorem requestable_iff {T S E} `{Btree T} (input : Input S E) (s : S) (request unverified_piece : bytes -> Z -> bool)
    (go_on : PieceRequestOrderItem -> bool) (pro : PieceRequestOrder T)
    (Hans : answers input request unverified_piece s)
    (Hlen : forall ih, 0 <= t_PieceLength (in_Torrent input ih))
    (Hsum : bytes_of input (Iter pro) <= maxInt)
    (Hmax : 0 <= in_MaxUnverifiedBytes input)
    (Hcap : forall cap, in_Capacity input = Some cap -> is_int cap = true) :
  let l := offered input go_on request unverified_piece [] (Iter pro) in
  GetRequestablePieces input (collect go_on) pro [] s = Ret (l, forallb go_on l) s.
Proof.
  intros l. unfold GetRequestablePieces.
  pose proof (loop_spec input go_on request unverified_piece Hlen s Hans Hcap (Iter pro) [] Hsum []) as Hw.
  unfold left_after, alive in Hw. simpl in Hw.
  replace (match in_Capacity input with Some cap => Some (cap - 0) | None => None end) with (in_Capacity input) in Hw
    by (destruct (in_Capacity input); [by rewrite Z.sub_0_r|done]).
  apply Hw. rewrite andb_true_r. apply orb_true_iff. rewrite Z.eqb_eq, Z.ltb_lt. unfold unverified. simpl. lia.
Qed.

(** Four pieces of ten bytes with a capacity of 35: the first is complete, the last does not fit. *)
Lemma requestable_iff_witness :
  let key i := {| key_InfoHash := bs "h"; key_Index := i |} in
  let it i := mkItem (key i) zeroState in
  let t : StrategyTorrent unit unit := {| t_PieceRequest i := mret (negb (i =? 0)); t_PieceCountUnverified _ := mret false; t_PieceLength := 10 |} in
  let input := {| in_Torrent _ := t; in_Capacity := Some 35; in_MaxUnverifiedBytes := 100 |} in
  let pro := {| pro_tree := (fun _ _ => 0, [it 0; it 1; it 2; it 3]) : @aj_set list_ajwerner; pro_keys := ∅ |} in
  GetRequestablePieces input (collect (fun _ => true)) pro [] tt = Ret ([it 1; it 2], true) tt.
Proof.
  intros key it t input pro.
  pose proof (requestable_iff (H := ajwernerBtree) input tt (fun _ i => negb (i =? 0)) (fun _ _ => false) (fun _ => true) pro) as Hr.
  cbv zeta in Hr. rewrite Hr.
  - vm_compute; reflexivity.
  - intros ih i. done.
  - simpl. lia.
  - vm_compute. discriminate.
  - simpl. lia.
  - intros cap [= <-]. reflexivity.
Defined.
