(* ===== verification/Chunks.v ===== *)
(** * Pieces, chunks and requests of a torrent ([src/torrent.go], [src/piece.go], [src/misc.go])

    What [Torrent.setInfo] derives from an info dictionary, and the arithmetic on it: which files
    a piece overlaps, how long it is, how it is cut into chunks, and the numbering of all chunks
    of the torrent by request indexes.  Lengths and offsets are [int64]; piece and chunk lengths
    are truncated to [uint32] where the code converts them.  [None] is a panic. *)

From S2P Require Import Prelude Segments Metainfo PeerProtocol Types.
Local Open Scope Z_scope.
Local Open Scope go_scope.

Definition add32 (a b : Z) : Z := wrapU 32 (a + b).
Definition sub32 (a b : Z) : Z := wrapU 32 (a - b).
Definition mul32 (a b : Z) : Z := wrapU 32 (a * b).

(** Division of unsigned integers. *)
Definition divU (a b : Z) : option Z := if b =? 0 then None else Some (a / b).

(** [intCeilDiv] on [uint32] and on [uint64]. *)
Definition intCeilDiv (w a b : Z) : option Z := divU (wrapU w (wrapU w (a + b) - 1)) b.

(** ** The layout ([setInfo]) *)

Record TFile := {
  f_path : bytes;
  f_offset : Z;
  f_length : Z;
  f_fi : FileInfo;
  f_displayPath : bytes;
  f_prio : Z;
  f_piecesRoot : option bytes;
}.

(** The fields of a [Torrent] that are fixed once the info is set. *)
Record Layout := {
  t_info : Info;
  t_fileSegmentsIndex : Segments.Index;
  t_chunkSize : Z;
  t_files : list TFile;
  t_length : Z;
  (* [pieceState.beginFile] of each piece *)
  t_beginFile : list Z;
  t_chunksPerRegularPiece : Z;
}.

Definition FilesArePieceAligned (info : Info) : bool := HasV2 info.

Fixpoint initFiles_loop (info : Info) (fis : list FileInfo) (offset : Z) : option (list TFile) :=
  match fis with
  | [] => Some []
  | fi :: fis' =>
      let f := {| f_path := strings_Join (BestName info :: BestPath fi) (bs "/");
                  f_offset := offset; f_length := fi_Length fi; f_fi := fi;
                  f_displayPath := DisplayPath fi info; f_prio := PiecePriorityNone;
                  f_piecesRoot := fi_PiecesRoot fi |} in
      let offset := offset +! fi_Length fi in
      offset ←
        (if FilesArePieceAligned info then
           n ← quot64 (offset +! PieceLength info -! 1) (PieceLength info);
           Some (n *! PieceLength info)
         else Some offset);
      fs ← initFiles_loop info fis' offset;
      Some (f :: fs)
  end.

Definition initFiles (info : Info) : option (list TFile) :=
  fis ← UpvertedFiles info; initFiles_loop info fis 0.

Definition cacheLength (info : Info) : option Z := TotalLength info.

(** The first file that ends beyond the offset; zero when there is none. *)
Fixpoint pieceFirstFileIndex_loop (pieceOffset : Z) (files : list TFile) (i : Z) : Z :=
  match files with
  | [] => 0
  | f :: files' =>
      if f_offset f +! f_length f >? pieceOffset then i
      else pieceFirstFileIndex_loop pieceOffset files' (i + 1)
  end.

Definition pieceFirstFileIndex (pieceOffset : Z) (files : list TFile) : Z :=
  pieceFirstFileIndex_loop pieceOffset files 0.

(** [Piece.torrentBeginOffset] *)
Definition torrentBeginOffset (info : Info) (index : Z) : Z := index *! PieceLength info.

(** Making a slice of negative length panics. *)
Definition makePieces (info : Info) (files : list TFile) : option (list Z) :=
  n ← NumPieces info;
  if n <? 0 then None
  else Some (map (fun i => wrapS 32 (pieceFirstFileIndex (torrentBeginOffset info i) files)) (seqZ 0 n)).

(** The part of [Torrent.setInfo] that computes; the storage and the wake-ups are elsewhere. *)
Definition setInfo (info : Info) (chunkSize : Z) : option (Layout + validateInfoError) :=
  err ← validateInfo info;
  match err with
  | Some e => Some (inr e)
  | None =>
      segments ← FileSegmentsIndex info;
      cpp ← intCeilDiv 32 (wrapU 32 (PieceLength info)) chunkSize;
      files ← initFiles info;
      len ← cacheLength info;
      begins ← makePieces info files;
      Some (inl {| t_info := info; t_fileSegmentsIndex := segments; t_chunkSize := chunkSize; t_files := files; t_length := len;
                   t_beginFile := begins; t_chunksPerRegularPiece := cpp |})
  end.

Section Layout.
Context (t : Layout).

(** Indexing a slice. *)
Definition at_ {A} (l : list A) (i : Z) : option A := if i <? 0 then None else l !! Z.to_nat i.

Definition numPieces : option Z := NumPieces (t_info t).

Definition usualPieceSize : Z := PieceLength (t_info t).

(** ** Files of a piece *)

Definition beginFile (index : Z) : option Z := at_ (t_beginFile t) index.

Definition torrentEndOffset (index : Z) : Z := torrentBeginOffset (t_info t) index +! usualPieceSize.

Definition endFile (index : Z) : option Z :=
  if index =? Z.of_nat (length (t_beginFile t)) - 1 then Some (Z.of_nat (length (t_files t)))
  else
    nextBegin ← beginFile (index +! 1);
    f ← at_ (t_files t) nextBegin;
    Some (if f_offset f <? torrentEndOffset index then nextBegin +! 1 else nextBegin).

Definition numFiles (index : Z) : option Z :=
  e ← endFile index; b ← beginFile index; Some (e -! b).

Definition mustGetOnlyFile (index : Z) : option TFile :=
  n ← numFiles index;
  if n =? 1 then b ← beginFile index; at_ (t_files t) b else None.

Definition hasPieceLayer (index : Z) : option bool :=
  n ← numFiles index;
  if n =? 1 then
    f ← mustGetOnlyFile index; Some (f_length f >? PieceLength (t_info t))
  else Some false.

Definition File_BeginPieceIndex (f : TFile) : option Z := BeginPieceIndex (f_fi f) usualPieceSize.
Definition File_EndPieceIndex (f : TFile) : option Z := EndPieceIndex (f_fi f) usualPieceSize.

(** ** Lengths *)

Definition pieceLength (piece : Z) : option Z :=
  if PieceLength (t_info t) =? 0 then Some 0
  else if FilesArePieceAligned (t_info t) then
    file ← mustGetOnlyFile piece;
    e ← File_EndPieceIndex file;
    if piece =? e -! 1 then
      Some (wrapU 32 (f_length file -! (torrentBeginOffset (t_info t) piece -! f_offset file)))
    else Some (wrapU 32 usualPieceSize)
  else
    n ← numPieces;
    if piece =? n -! 1 then
      (* [Z.rem] is Go's remainder *)
      let ret := wrapU 32 (Z.rem (t_length t) (PieceLength (t_info t))) in
      if negb (ret =? 0) then Some ret else Some (wrapU 32 (PieceLength (t_info t)))
    else Some (wrapU 32 (PieceLength (t_info t))).

Definition pieceNumChunks (piece : Z) : option Z :=
  len ← pieceLength piece; intCeilDiv 32 len (t_chunkSize t).

(** ** Requests *)

(** [chunkIndexSpec] *)
Definition chunkIndexSpec (index pieceLength chunkSize : Z) : option ChunkSpec :=
  let begin := mul32 index chunkSize in
  if begin >=? pieceLength then None
  else Some {| cs_Begin := begin; cs_Length := Z.min chunkSize (sub32 pieceLength begin) |}.

(** [Torrent.chunkIndexSpec] *)
Definition Torrent_chunkIndexSpec (piece chunk : Z) : option ChunkSpec :=
  len ← pieceLength piece; chunkIndexSpec chunk len (t_chunkSize t).

Definition pieceRequestIndexBegin (piece : Z) : Z := mul32 (wrapU 32 piece) (t_chunksPerRegularPiece t).

Definition pieceIndexOfRequestIndex (ri : Z) : option Z := divU ri (t_chunksPerRegularPiece t).

(** The remainder panics where the division does. *)
Definition requestIndexToRequest (ri : Z) : option Request :=
  index ← pieceIndexOfRequestIndex ri;
  cs ← Torrent_chunkIndexSpec index (ri mod t_chunksPerRegularPiece t);
  Some {| req_Index := wrapU 32 index; req_Chunk := cs |}.

Definition requestIndexFromRequest (r : Request) : option Z :=
  chunk ← divU (cs_Begin (req_Chunk r)) (t_chunkSize t);
  Some (add32 (pieceRequestIndexBegin (req_Index r)) chunk).

Definition chunkIndexFromChunkSpec (cs : ChunkSpec) : option Z := divU (cs_Begin cs) (t_chunkSize t).

Inductive ReceiveChunkError := ChunkIndexTooHigh | ChunkBeginsBeyondPiece | ChunkUnexpected (expected : Request).

(** [checkValidReceiveChunk], with the info known; [Some None] is no error. *)
Definition checkValidReceiveChunk (r : Request) : option (option ReceiveChunkError) :=
  n ← numPieces;
  if req_Index r >=? n then Some (Some ChunkIndexTooHigh)
  else
    len ← pieceLength (req_Index r);
    if cs_Begin (req_Chunk r) >=? len then Some (Some ChunkBeginsBeyondPiece)
    else
      ri ← requestIndexFromRequest r;
      expected ← requestIndexToRequest ri;
      if decide (r = expected) then Some None else Some (Some (ChunkUnexpected expected)).

Definition maxEndRequest : option Z :=
  n ← intCeilDiv 64 (wrapU 64 (t_length t)) (t_chunkSize t); Some (wrapU 32 n).

(** [Piece.requestIndexMaxEnd] *)
Definition requestIndexMaxEnd (index : Z) : option Z :=
  e ← maxEndRequest; Some (Z.min (pieceRequestIndexBegin (index +! 1)) e).

(** ** Offsets in the torrent *)

(** [torrentOffsetRequest]; [Some None] is [!ok]. *)
Definition torrentOffsetRequest (torrentLength pieceSize chunkSize offset : Z) : option (option Request) :=
  if (offset <? 0) || (offset >=? torrentLength) then Some None
  else
    index ← quot64 offset pieceSize;
    chunk ← quot64 (Z.rem offset pieceSize) chunkSize;
    let index := wrapU 32 index in
    let begin := wrapU 32 (chunk *! chunkSize) in
    let length := wrapU 32 chunkSize in
    let pieceLeft := wrapU 32 (pieceSize -! begin) in
    let length := if length >? pieceLeft then pieceLeft else length in
    let torrentLeft := torrentLength -! index *! pieceSize -! begin in
    let length := if length >? torrentLeft then wrapU 32 torrentLeft else length in
    Some (Some {| req_Index := index; req_Chunk := {| cs_Begin := begin; cs_Length := length |} |}).

Definition torrentRequestOffset (torrentLength pieceSize : Z) (r : Request) : option Z :=
  let off := req_Index r *! pieceSize +! cs_Begin (req_Chunk r) in
  if (off <? 0) || (off >=? torrentLength) then None else Some off.

Definition requestOffset (r : Request) : option Z := torrentRequestOffset (t_length t) usualPieceSize r.

Definition offsetRequest (off : Z) : option (option Request) :=
  torrentOffsetRequest (t_length t) (PieceLength (t_info t)) (t_chunkSize t) off.

Definition requestIndexBegin (r : Z) : option Z := req ← requestIndexToRequest r; requestOffset req.

Definition requestIndexEnd (r : Z) : option Z :=
  req ← requestIndexToRequest r; off ← requestOffset req; Some (off +! cs_Length (req_Chunk req)).

(** The pieces that contain a range of bytes. *)
Definition byteRegionPieces (off size : Z) : option (Z * Z) :=
  if off >=? t_length t then Some (0, 0)
  else
    let '(off, size) := if off <? 0 then (0, size +! off) else (off, size) in
    if size <=? 0 then Some (0, 0)
    else
      begin ← quot64 off (PieceLength (t_info t));
      end_ ← quot64 (off +! size +! PieceLength (t_info t) -! 1) (PieceLength (t_info t));
      n ← numPieces;
      Some (begin, if end_ >? n then n else end_).

End Layout.

(** [chunkOverflowsPiece] *)
Definition chunkOverflowsPiece (cs : ChunkSpec) (pieceLength : Z) : bool :=
  (add32 (cs_Begin cs) (cs_Length cs) >? pieceLength) ||
  (cs_Begin cs >? sub32 IntegerMax (cs_Length cs)).

(** [newRequest], [newRequestFromMessage]: other message types panic. *)
Definition newRequest (index begin length : Z) : Request :=
  {| req_Index := index; req_Chunk := {| cs_Begin := begin; cs_Length := length |} |}.

Definition newRequestFromMessage (msg : Message) : option Request :=
  if existsb (Z.eqb (Type_ msg)) [mtRequest; mtCancel; mtReject]
  then Some (newRequest (Index msg) (Begin msg) (PeerProtocol.Length msg))
  else if Type_ msg =? mtPiece
  then Some (newRequest (Index msg) (Begin msg) (wrapU 32 (Z.of_nat (length (Piece msg)))))
  else None.
