(* ===== verification/ChunksTheory.v ===== *)
(** * Pieces, chunks and requests of a torrent: what holds of them

    The torrent's own piece lengths are those of the info dictionary, for version 1 infos and for
    version 2 infos without empty files, as long as they fit 32 bits; and the request indexes number
    the chunks of a torrent with such piece lengths one to one.  What happens with empty files and
    with longer pieces is proved too. *)

From S2P Require Import Prelude PeerProtocol Types Metainfo MetainfoTheory Chunks.
Local Open Scope Z_scope.
Local Open Scope go_scope.

Lemma mult_next pl a b : 0 < pl -> a * pl < b * pl <= (a + 1) * pl -> b = a + 1.
Proof.
  intros Hpl [H1 H2]. apply Z.mul_lt_mono_pos_r in H1; [|done]. apply Z.mul_le_mono_pos_r in H2; lia.
Qed.

(** ** Version 2: one file per piece *)

Definition mkTFile (info : Info) (fi : FileInfo) : TFile :=
  {| f_path := strings_Join (BestName info :: BestPath fi) (bs "/");
     f_offset := fi_TorrentOffset fi; f_length := fi_Length fi; f_fi := fi;
     f_displayPath := DisplayPath fi info; f_prio := PiecePriorityNone; f_piecesRoot := fi_PiecesRoot fi |}.

Section Version2.
Context (pl : Z) (Hpl : 0 < pl).

Lemma initFiles_chain info off fs end_ :
  HasV2 info = true -> PieceLength info = pl -> (pl | off) -> 0 <= off -> chain pl off fs end_ ->
  end_ + pl <= maxInt -> initFiles_loop info fs off = Some (map (mkTFile info) fs).
Proof.
  intros Hv2 Hinfo. revert off. induction fs as [|fi fs IH]; intros off Hd Ho Hc Hb; [done|].
  destruct Hc as (Eo & Hl & Hc). pose proof (chain_le pl Hpl _ _ _ Hc) as Hle.
  destruct (roundUp_bounds pl Hpl _ Hl) as [Hru Hd'].
  cbn [initFiles_loop map]. unfold FilesArePieceAligned. rewrite Hv2, Hinfo. unwrap64.
  rewrite quot64_pos by lia. cbn [mbind option_bind].
  rewrite mul64_small; rewrite (roundUp_shift pl Hpl) by done; [|lia].
  rewrite (IH (off + roundUp pl (fi_Length fi))); [|by apply Z.divide_add_r|lia|done|done].
  cbn [mbind option_bind]. unfold mkTFile at 2. by rewrite Eo.
Qed.

(** A file and what follows it. *)
Lemma chain_at off fs end_ k fi :
  chain pl off fs end_ -> fs !! k = Some fi ->
  off <= fi_TorrentOffset fi /\ 0 <= fi_Length fi /\
  fi_TorrentOffset fi + roundUp pl (fi_Length fi) <= end_ /\
  chain pl (fi_TorrentOffset fi + roundUp pl (fi_Length fi)) (drop (S k) fs) end_.
Proof.
  revert off k. induction fs as [|fi' fs IH]; intros off k Hc Hk; [done|].
  destruct Hc as (Eo & Hl & Hc). pose proof (roundUp_bounds pl Hpl _ Hl) as [Hru _].
  destruct k as [|k]; simpl in Hk.
  - injection Hk as <-. rewrite Eo. pose proof (chain_le pl Hpl _ _ _ Hc). split_and!; [lia..|done].
  - destruct (IH _ _ Hc Hk) as (? & ? & ? & ?). split_and!; [lia..|done].
Qed.

(** A piece boundary within the space of a file that is not empty lies before its end. *)
Lemma boundary_before_end x o len :
  (pl | x) -> (pl | o) -> 0 <= len -> o <= x < o + roundUp pl len -> x < o + len.
Proof.
  intros [a ->] [b ->] Hl Hx. unfold roundUp in Hx.
  pose proof (Z.mul_div_le (len + pl - 1) pl Hpl). assert (a < b + (len + pl - 1) / pl) by nia. nia.
Qed.

Lemma first_file_at info off fs end_ x k fi j :
  (pl | off) -> 0 <= off -> chain pl off fs end_ -> end_ <= maxInt -> (pl | x) ->
  fs !! k = Some fi -> fi_TorrentOffset fi <= x < fi_TorrentOffset fi + roundUp pl (fi_Length fi) ->
  pieceFirstFileIndex_loop x (map (mkTFile info) fs) j = j + Z.of_nat k.
Proof.
  revert off k j. induction fs as [|fi' fs IH]; intros off k j Hd Ho Hc He Hx Hk Hr; [done|].
  pose proof (chain_at _ _ _ _ _ Hc Hk) as (Hfo & _). destruct Hc as (Eo & Hl & Hc).
  pose proof (roundUp_bounds pl Hpl _ Hl) as [Hru Hd']. pose proof (chain_le pl Hpl _ _ _ Hc) as Hle.
  cbn [pieceFirstFileIndex_loop map mkTFile f_offset f_length]. rewrite add64_small by lia.
  rewrite Z.gtb_ltb. destruct k as [|k]; simpl in Hk.
  - injection Hk as ->. rewrite (proj2 (Z.ltb_lt _ _)); [lia|].
    apply boundary_before_end; try done. by rewrite Eo.
  - destruct (chain_at _ _ _ _ _ Hc Hk) as (Hfo' & _).
    rewrite (proj2 (Z.ltb_ge _ _)) by lia.
    rewrite (IH (off + roundUp pl (fi_Length fi')) k (j + 1)); try done; [lia|by apply Z.divide_add_r|lia].
Qed.

Lemma file_of_piece off fs end_ x :
  chain pl off fs end_ -> off <= x < end_ ->
  exists k fi, fs !! k = Some fi /\ fi_TorrentOffset fi <= x < fi_TorrentOffset fi + roundUp pl (fi_Length fi).
Proof.
  revert off. induction fs as [|fi fs IH]; intros off Hc Hx; [simpl in Hc; lia|].
  destruct Hc as (Eo & Hl & Hc). destruct (decide (x < off + roundUp pl (fi_Length fi))).
  - exists 0%nat, fi. split; [done|lia].
  - destruct (IH _ Hc) as (k & fi' & ? & ?); [lia|]. by exists (S k), fi'.
Qed.

Lemma chain_end_nil off fs : Forall (fun fi => 0 < fi_Length fi) fs -> chain pl off fs off -> fs = [].
Proof.
  intros Hpos Hc. destruct fs as [|fi fs]; [done|]. exfalso. destruct Hc as (_ & Hl & Hc).
  apply Forall_cons in Hpos as [Hp _]. pose proof (roundUp_bounds pl Hpl _ Hl) as [Hru _].
  pose proof (chain_le pl Hpl _ _ _ Hc). lia.
Qed.

(** The space of a file ends before the next files begin. *)
Lemma chain_order off fs end_ j k fj fk :
  chain pl off fs end_ -> (j < k)%nat -> fs !! j = Some fj -> fs !! k = Some fk ->
  fi_TorrentOffset fj + roundUp pl (fi_Length fj) <= fi_TorrentOffset fk.
Proof.
  intros Hch Hjk Hj Hk. destruct (chain_at _ _ _ _ _ Hch Hj) as (_ & _ & _ & Hrest).
  destruct (chain_at _ _ _ (k - S j) fk Hrest) as (Hle & _); [|done].
  rewrite lookup_drop. by replace (S j + (k - S j))%nat with k by lia.
Qed.
End Version2.

Lemma at_seqZ {A} (f : Z -> A) n i : 0 <= i < n -> at_ (map f (seqZ 0 n)) i = Some (f i).
Proof.
  intros Hi. unfold at_. destruct (Z.ltb_spec i 0); [lia|].
  change (map f (seqZ 0 n)) with (f <$> seqZ 0 n). rewrite list_lookup_fmap, lookup_seqZ_lt by lia.
  simpl. do 2 f_equal. lia.
Qed.

Lemma at_map {A B} (f : A -> B) l k x : l !! k = Some x -> at_ (map f l) (Z.of_nat k) = Some (f x).
Proof.
  intros Hk. unfold at_. destruct (Z.ltb_spec (Z.of_nat k) 0); [lia|]. rewrite Nat2Z.id.
  change (map f l) with (f <$> l). by rewrite list_lookup_fmap, Hk.
Qed.

Section Version2Torrent.
Context (info : Info) (t : Layout) (fs : list FileInfo) (n : Z).
Let pl := PieceLength info.
Let end_ := n * pl.
Hypothesis Hpl : 0 < pl.
Hypothesis Hc : chain pl 0 fs end_.
Hypothesis Hb : end_ + pl <= maxInt.
Hypothesis Hn : 0 <= n.
Hypothesis Hpos : Forall (fun fi => 0 < fi_Length fi) fs.
Hypothesis Hfiles : Z.of_nat (length fs) < 2 ^ 31.
Hypothesis Hti : t_info t = info.
Hypothesis Htf : t_files t = map (mkTFile info) fs.
Hypothesis Htb : t_beginFile t =
  map (fun i => wrapS 32 (pieceFirstFileIndex (torrentBeginOffset info i) (t_files t))) (seqZ 0 n).

Lemma piece_offset_small i : 0 <= i <= n -> i *! pl = i * pl.
Proof. intros. apply mul64_small. unfold end_ in *. nia. Qed.

Lemma beginFile_v2 i k fi :
  0 <= i < n -> fs !! k = Some fi ->
  fi_TorrentOffset fi <= i * pl < fi_TorrentOffset fi + roundUp pl (fi_Length fi) ->
  beginFile t i = Some (Z.of_nat k).
Proof.
  intros Hi Hk Hr. unfold beginFile. rewrite Htb, at_seqZ by done. f_equal.
  unfold torrentBeginOffset. fold pl. rewrite piece_offset_small by lia. rewrite Htf. unfold pieceFirstFileIndex.
  rewrite (first_file_at pl Hpl info 0 fs end_ (i * pl) k fi); try done; [|by exists 0|lia|by exists i].
  apply wrapS_small; [lia|]. apply lookup_lt_Some in Hk. unfold min_int, max_int. simpl. lia.
Qed.

(** The file after the one a piece lies in begins where its space ends. *)
Lemma endFile_v2 i k fi :
  0 <= i < n -> fs !! k = Some fi ->
  fi_TorrentOffset fi <= i * pl < fi_TorrentOffset fi + roundUp pl (fi_Length fi) ->
  endFile t i = Some (Z.of_nat k + 1).
Proof.
  intros Hi Hk Hr. destruct (chain_at pl Hpl _ _ _ _ _ Hc Hk) as (Ho & Hl & Hend & Hrest).
  pose proof (lookup_lt_Some _ _ _ Hk) as Hlt.
  assert ((pl | fi_TorrentOffset fi + roundUp pl (fi_Length fi))) as [e He].
  { apply Z.divide_add_r; [|by apply (roundUp_bounds pl Hpl)].
    destruct (chain_aligned pl Hpl 0 fs end_) as [Hal _]; [by exists 0|done|].
    by eapply Forall_lookup_1 in Hal. }
  unfold endFile. rewrite Htb at 1. rewrite length_map, length_seqZ, Z2Nat.id by lia.
  destruct (Z.eqb_spec i (n - 1)) as [->|Hne].
  - rewrite Htf, length_map. f_equal.
    assert (drop (S k) fs = []) as Hnil.
    { apply (chain_end_nil pl Hpl (fi_TorrentOffset fi + roundUp pl (fi_Length fi))); [by apply Forall_drop|].
      assert (fi_TorrentOffset fi + roundUp pl (fi_Length fi) = end_) as Heq.
      { rewrite He in *. rewrite (mult_next pl (n - 1) e) by (unfold end_ in *; lia). unfold end_. lia. }
      rewrite Heq at 2. done. }
    apply (f_equal length) in Hnil. rewrite length_drop in Hnil. simpl in Hnil. lia.
  - rewrite add64_small by (unfold end_ in *; nia).
    assert (exists k' fi', fs !! k' = Some fi' /\
      fi_TorrentOffset fi' <= (i + 1) * pl < fi_TorrentOffset fi' + roundUp pl (fi_Length fi') /\
      (k' = k /\ fi' = fi \/ k' = S k /\ fi_TorrentOffset fi' = (i + 1) * pl)) as (k' & fi' & Hk' & Hr' & Hor).
    { destruct (decide ((i + 1) * pl < fi_TorrentOffset fi + roundUp pl (fi_Length fi))).
      - exists k, fi. split_and!; [done|lia|lia|by left].
      - assert ((i + 1) * pl = fi_TorrentOffset fi + roundUp pl (fi_Length fi)) as Heq
          by (rewrite He in *; by rewrite (mult_next pl i e) by lia).
        destruct (drop (S k) fs) as [|fi' rest] eqn:Ed; [simpl in Hrest; unfold end_ in *; nia|].
        destruct Hrest as (Eo' & Hl' & Hrest'). exists (S k), fi'.
        assert (fs !! S k = Some fi') as Hk'.
        { rewrite <-(Nat.add_0_r (S k)), <-lookup_drop, Ed. done. }
        assert (0 < fi_Length fi') by (by eapply Forall_lookup_1 in Hpos).
        pose proof (roundUp_bounds pl Hpl _ Hl') as [Hru' _].
        split_and!; [done|lia|lia|right; split; [done|lia]]. }
    rewrite (beginFile_v2 (i + 1) k' fi') by (done || lia). cbn [mbind option_bind].
    rewrite Htf, (at_map _ _ _ _ Hk'). cbn [mbind option_bind mkTFile f_offset].
    unfold torrentEndOffset, torrentBeginOffset, usualPieceSize. rewrite Hti. fold pl.
    rewrite piece_offset_small, add64_small by (unfold end_ in *; nia).
    destruct Hor as [[-> ->]|[-> Heq]].
    + rewrite (proj2 (Z.ltb_lt _ _)) by lia. rewrite add64_small; [done|]. unfold maxInt, max_int. lia.
    + rewrite Heq, (proj2 (Z.ltb_ge _ _)) by lia. f_equal. lia.
Qed.

Lemma mustGetOnlyFile_v2 i k fi :
  0 <= i < n -> fs !! k = Some fi ->
  fi_TorrentOffset fi <= i * pl < fi_TorrentOffset fi + roundUp pl (fi_Length fi) ->
  mustGetOnlyFile t i = Some (mkTFile info fi).
Proof.
  intros Hi Hk Hr. unfold mustGetOnlyFile, numFiles.
  rewrite (endFile_v2 i k fi), (beginFile_v2 i k fi) by done. cbn [mbind option_bind].
  pose proof (lookup_lt_Some _ _ _ Hk). rewrite sub64_small by (unfold maxInt, max_int; lia).
  replace (Z.of_nat k + 1 - Z.of_nat k) with 1 by lia. simpl. rewrite Htf. by apply at_map.
Qed.

(** The last piece of a file that an empty one follows overlaps two files. *)
Lemma numFiles_empty i k fi fe :
  0 <= i < n -> fs !! k = Some fi -> fs !! S k = Some fe -> 0 < fi_Length fi -> fi_Length fe = 0 ->
  (i + 1) * pl = fi_TorrentOffset fi + roundUp pl (fi_Length fi) ->
  exists m, numFiles t i = Some m /\ 2 <= m.
Proof using Hpl Hc Hb Hn Hfiles Hti Htf Htb.
  clear Hpos. intros Hi Hk Hke Hlen He Hend. destruct (chain_at pl Hpl _ _ _ _ _ Hc Hk) as (Ho & Hl & Hle & _).
  destruct (roundUp_bounds pl Hpl _ Hl) as [Hru [m Hm]].
  pose proof (lookup_lt_Some _ _ _ Hke) as Hlt.
  assert (1 <= m) by nia. assert (pl <= m * pl) by nia. rewrite Z.mul_add_distr_r, Z.mul_1_l in Hend.
  assert (beginFile t i = Some (Z.of_nat k)) as Hbegin by (apply (beginFile_v2 i k fi); [done|done|lia]).
  assert (exists e, endFile t i = Some e /\ Z.of_nat k + 2 <= e < 2 ^ 31) as (e & Ee & Hle').
  { assert (Z.of_nat (length (t_beginFile t)) = n) as Hlb by (rewrite Htb, length_map, length_seqZ; lia).
    unfold endFile. rewrite Hlb. destruct (Z.eqb_spec i (n - 1)) as [->|Hne].
    - rewrite Htf, length_map. eexists. split; [done|lia].
    - rewrite add64_small by (unfold end_ in *; nia).
      destruct (file_of_piece pl 0 fs end_ ((i + 1) * pl) Hc) as (k' & fi' & Hk' & Hr'); [unfold end_ in *; nia|].
      assert (k + 2 <= k')%nat as Hkk.
      { destruct (lt_eq_lt_dec k' k) as [[Hlt'| ->]|Hgt].
        - pose proof (chain_order pl Hpl _ _ _ _ _ _ _ Hc Hlt' Hk' Hk). nia.
        - rewrite Hk in Hk'. injection Hk' as <-. lia.
        - destruct (decide (k' = S k)) as [->|]; [|lia]. rewrite Hke in Hk'. injection Hk' as <-.
          rewrite He in Hr'. unfold roundUp in Hr'. rewrite (Z.div_small (0 + pl - 1)) in Hr' by lia. lia. }
      pose proof (chain_order pl Hpl _ _ _ k k' _ _ Hc ltac:(lia) Hk Hk') as Hord.
      rewrite (beginFile_v2 (i + 1) k' fi') by (done || lia). cbn [mbind option_bind].
      rewrite Htf, (at_map _ _ _ _ Hk'). cbn [mbind option_bind mkTFile f_offset].
      unfold torrentEndOffset, torrentBeginOffset, usualPieceSize. rewrite Hti. fold pl.
      rewrite piece_offset_small, add64_small by (unfold end_ in *; nia).
      rewrite (proj2 (Z.ltb_ge _ _)) by lia. eexists. split; [done|]. apply lookup_lt_Some in Hk'. lia. }
  unfold numFiles. rewrite Ee, Hbegin. cbn [mbind option_bind]. eexists. split; [done|].
  rewrite sub64_small by (unfold maxInt, max_int; lia). lia.
Qed.

Lemma pieceLength_v2 i k fi :
  HasV2 info = true -> 0 <= i < n -> fs !! k = Some fi -> pl < 2 ^ 32 ->
  fi_TorrentOffset fi <= i * pl < fi_TorrentOffset fi + roundUp pl (fi_Length fi) ->
  pieceLength t i = Some (Z.min (fi_TorrentOffset fi + fi_Length fi - i * pl) pl).
Proof.
  intros Hv2 Hi Hk Hp Hr. destruct (chain_at pl Hpl _ _ _ _ _ Hc Hk) as (Ho & Hl & Hend & _).
  assert ((pl | fi_TorrentOffset fi)) as Hd.
  { destruct (chain_aligned pl Hpl 0 fs end_) as [Hal _]; [by exists 0|done|]. by eapply Forall_lookup_1 in Hal. }
  pose proof (roundUp_bounds pl Hpl _ Hl) as [Hru Hrd].
  unfold pieceLength, FilesArePieceAligned. rewrite Hti, Hv2. fold pl.
  destruct (Z.eqb_spec pl 0); [lia|]. rewrite (mustGetOnlyFile_v2 i k fi) by done. cbn [mbind option_bind].
  unfold File_EndPieceIndex, usualPieceSize. rewrite Hti. fold pl. cbn [mkTFile f_fi f_length f_offset].
  destruct (file_piece_indexes pl fi end_) as [_ ->]; try done; [lia|]. cbn [mbind option_bind].
  destruct (Z.divide_add_r _ _ _ Hd Hrd) as [e He]. rewrite He, Z.div_mul by lia.
  assert (i < e <= n) by (unfold end_ in *; nia). rewrite sub64_small by (unfold end_ in *; nia).
  assert (fi_TorrentOffset fi + fi_Length fi + pl > e * pl) by lia.
  pose proof (boundary_before_end pl Hpl (i * pl) (fi_TorrentOffset fi) (fi_Length fi)
    ltac:(by exists i) Hd Hl Hr).
  destruct (Z.eqb_spec i (e - 1)) as [->|].
  - unfold torrentBeginOffset. fold pl. rewrite piece_offset_small by lia.
    rewrite (sub64_small ((e - 1) * pl)), sub64_small by (unfold end_ in *; nia). f_equal.
    rewrite wrapU_small by nia. nia.
  - f_equal. rewrite wrapU_small by lia. nia.
Qed.
End Version2Torrent.

(** ** Numbered chunks *)

(** The requests of a torrent with [n] pieces number its chunks: chunk [c] of piece [i] is request
    [i] times the chunks of a piece, plus [c]. *)
Record numbered (t : Layout) (n : Z) : Prop := {
  nb_cpp : 0 < t_chunksPerRegularPiece t;
  nb_small : n * t_chunksPerRegularPiece t < 2 ^ 32;
  nb_chunks i : 0 <= i < n -> exists k, pieceNumChunks t i = Some k /\ 0 < k <= t_chunksPerRegularPiece t;
  nb_request i k c : 0 <= i < n -> pieceNumChunks t i = Some k -> 0 <= c < k ->
    exists r, requestIndexToRequest t (i * t_chunksPerRegularPiece t + c) = Some r /\
      requestIndexFromRequest t r = Some (i * t_chunksPerRegularPiece t + c) /\
      req_Index r = i /\ chunkIndexFromChunkSpec t (req_Chunk r) = Some c /\ checkValidReceiveChunk t r = Some None;
  nb_check r : 0 <= req_Index r -> 0 <= cs_Begin (req_Chunk r) ->
    exists err, checkValidReceiveChunk t r = Some err /\
      (err = None -> exists i k c, 0 <= i < n /\ pieceNumChunks t i = Some k /\ 0 <= c < k /\
         requestIndexToRequest t (i * t_chunksPerRegularPiece t + c) = Some r);
}.

(** ** Torrents whose info is usable *)

(** No sum overflows, and the files of a version 2 info are not empty. *)
Definition usable (info : Info) : bool :=
  (0 <? PieceLength info) &&
  if HasV2 info then
    wf_tree (InfoFileTree info) && plain_dirs (InfoFileTree info) &&
    (span (PieceLength info) (InfoFileTree info) + PieceLength info <=? maxInt) &&
    match UpvertedFiles info with
    | Some fs => forallb (fun fi => 0 <? fi_Length fi) fs && (Z.of_nat (length fs) <? 2 ^ 31)
    | None => true
    end
  else v1_lengths_ok info && (foldr Z.add 0 (v1_lengths info) + PieceLength info <=? maxInt).

(** What [setInfo] puts together. *)
Lemma setInfo_inv info cs t :
  setInfo info cs = Some (inl t) ->
  validateInfo info = Some None /\ t_info t = info /\ t_chunkSize t = cs /\
  intCeilDiv 32 (wrapU 32 (PieceLength info)) cs = Some (t_chunksPerRegularPiece t) /\
  initFiles info = Some (t_files t) /\ TotalLength info = Some (t_length t) /\
  makePieces info (t_files t) = Some (t_beginFile t).
Proof.
  unfold setInfo, cacheLength. destruct (validateInfo info) as [[e|]|]; try done. cbn [mbind option_bind].
  destruct (FileSegmentsIndex info); [|done]. cbn [mbind option_bind].
  destruct (intCeilDiv _ _ _); [|done]. destruct (initFiles info); [|done].
  destruct (TotalLength info); [|done]. cbn [mbind option_bind].
  destruct (makePieces info _) eqn:E; [|done]. cbn [mbind option_bind]. by intros [= <-].
Qed.

Lemma v1_piece_lengths info cs t :
  setInfo info cs = Some (inl t) -> HasV2 info = false -> usable info = true -> PieceLength info < 2 ^ 32 ->
  exists n, numPieces t = Some n /\ 0 <= n /\ n * PieceLength info <= maxInt /\ forall i, 0 <= i < n ->
    exists len, PieceLen info i = Some len /\ pieceLength t i = Some len /\ 0 < len <= PieceLength info.
Proof.
  intros (Hv & Hti & _ & _ & _ & Htot & _)%setInfo_inv Hv2 Hu Hp. unfold usable in Hu. rewrite Hv2 in Hu.
  apply andb_true_iff in Hu as [Hpl%Z.ltb_lt [Hl Hb%Z.leb_le]%andb_true_iff].
  destruct (v1_pieces info Hv2 Hl Hpl Hb Hv) as (n & H0 & H & Hn & E & Hlens).
  set (total := foldr Z.add 0 (v1_lengths info)) in *. set (pl := PieceLength info) in *.
  rewrite (TotalLength_v1 info Hv2 Hl) in Htot. fold total in Htot. injection Htot as Htot.
  pose proof (ceil_div_bound total pl H0 Hpl) as Hcb. rewrite <-E in Hcb.
  exists n. unfold numPieces. rewrite Hti. split_and!; [done..|lia|]. intros i Hi.
  destruct (Hlens i Hi) as (len & El & Hlen & _ & Hend).
  exists len. split_and!; [done| |lia|lia].
  unfold pieceLength, FilesArePieceAligned, numPieces. rewrite Hti, Hv2, Hn, <-Htot. fold pl in Hlen, Hend |- *.
  destruct (Z.eqb_spec pl 0); [lia|]. cbn [mbind option_bind]. rewrite sub64_small by nia.
  destruct (Z.eqb_spec i (n - 1)) as [->|].
  - destruct (ceil_div total pl (n - 1)) as [Hlo Hhi]; [lia..|].
    rewrite Z.rem_mod_nonneg by lia. f_equal.
    destruct (decide (total = n * pl)) as [Heq|Hne].
    + rewrite Heq, Z.mod_mul by lia. rewrite wrapU_small by lia. simpl. rewrite wrapU_small by lia. f_equal. lia.
    + assert (total mod pl = len) as ->.
      { symmetry. apply (Z.mod_unique_pos _ _ (n - 1)); [|lia]. nia. }
      rewrite wrapU_small by lia. destruct (Z.eqb_spec len 0); [lia|done].
  - f_equal. rewrite wrapU_small by lia. lia.
Qed.

(** The pieces and files of a version 2 torrent. *)
Lemma v2_layout_of info t fs :
  let pl := PieceLength info in let tree := InfoFileTree info in
  0 < pl -> HasV2 info = true -> wf_tree tree = true -> plain_dirs tree = true -> span pl tree + pl <= maxInt -> chain pl 0 fs (span pl tree) ->
  UpvertedFiles info = Some fs -> initFiles info = Some (t_files t) -> makePieces info (t_files t) = Some (t_beginFile t) ->
  exists n, 0 <= n /\ span pl tree = n * pl /\ NumPieces info = Some n /\ t_files t = map (mkTFile info) fs /\
    t_beginFile t = map (fun i => wrapS 32 (pieceFirstFileIndex (torrentBeginOffset info i) (t_files t))) (seqZ 0 n).
Proof.
  intros pl tree Hpl Hv2 Hwf Hpd Hb Hc Hfs Hif Hmp.
  pose proof (span_nonneg pl Hpl tree Hwf) as Hsn. destruct (span_divide pl tree) as [n Hspan].
  assert (NumPieces info = Some n) as Hnum.
  { unfold NumPieces. rewrite Hv2. fold pl tree. rewrite (sumPieces_walk pl Hpl tree [] 0) by (done || lia).
    rewrite Hspan, Z.div_mul by lia. done. }
  assert (0 <= n) as Hn by nia. exists n.
  unfold initFiles in Hif. rewrite Hfs in Hif. cbn [mbind option_bind] in Hif.
  rewrite (initFiles_chain pl Hpl info 0 fs (span pl tree)) in Hif; try done; [|by exists 0].
  injection Hif as Hif. unfold makePieces in Hmp. rewrite Hnum in Hmp. cbn [mbind option_bind] in Hmp.
  destruct (Z.ltb_spec n 0); [lia|]. injection Hmp as Hmp. done.
Qed.

Lemma v2_piece_lengths info cs t :
  setInfo info cs = Some (inl t) -> HasV2 info = true -> usable info = true -> PieceLength info < 2 ^ 32 ->
  exists n, numPieces t = Some n /\ 0 <= n /\ n * PieceLength info <= maxInt /\ forall i, 0 <= i < n ->
    exists len, PieceLen info i = Some len /\ pieceLength t i = Some len /\ 0 < len <= PieceLength info.
Proof.
  intros (_ & Hti & _ & _ & Hif & _ & Hmp)%setInfo_inv Hv2 Hu Hp. unfold usable in Hu. rewrite Hv2 in Hu.
  apply andb_true_iff in Hu as [Hpl%Z.ltb_lt [[[Hwf Hpd]%andb_true_iff Hb%Z.leb_le]%andb_true_iff Hpos]%andb_true_iff].
  set (pl := PieceLength info) in *. set (tree := InfoFileTree info) in *.
  destruct (upvertedFiles_ok pl Hpl tree Hwf Hb) as (fs & E & Hc).
  assert (UpvertedFiles info = Some fs) as Hfs.
  { unfold UpvertedFiles, UpvertedFilesIter. rewrite Hv2. fold pl tree. by rewrite E. }
  rewrite Hfs in Hpos. apply andb_true_iff in Hpos as [Hpos Hcount%Z.ltb_lt].
  assert (Forall (fun fi => 0 < fi_Length fi) fs) as Hpos'.
  { apply Forall_forall. intros fi Hfi%list_elem_of_In. rewrite forallb_forall in Hpos. by apply Z.ltb_lt, Hpos. }
  destruct (v2_layout_of info t fs Hpl Hv2 Hwf Hpd Hb Hc Hfs Hif Hmp) as (n & Hn & Hspan & Hnum & Htf & Htb).
  fold pl tree in Hspan.
  exists n. unfold numPieces. rewrite Hti. split_and!; [done..|fold pl; lia|]. intros i Hi.
  rewrite Hspan in Hc, Hb.
  destruct (file_of_piece pl 0 fs (n * pl) (i * pl)) as (k & fi & Hk & Hr); [done|nia|].
  destruct (lastFileEnd_ok pl Hpl i fs 0 (n * pl) 0) as (fi' & Hin & Hr' & Ho & Hl & He & Hd & El);
    [by exists 0|lia|done|done|nia|].
  apply list_elem_of_In, list_elem_of_lookup in Hin as [k' Hk'].
  rewrite (pieceLength_v2 info t fs n) with (k := k') (fi := fi'); try done.
  pose proof (boundary_before_end pl Hpl (i * pl) (fi_TorrentOffset fi') (fi_Length fi')
    ltac:(by exists i) Hd Hl Hr').
  eexists. split_and!; [|done|lia|fold pl; lia].
  unfold PieceLen. rewrite Hv2. fold pl tree. rewrite E, El. cbn [mbind option_bind].
  rewrite mul64_small, sub64_small by nia.
  destruct (Z.leb_spec (Z.min (fi_TorrentOffset fi' + fi_Length fi' - i * pl) pl) 0); [lia|done].
Qed.

Lemma piece_lengths info cs t :
  setInfo info cs = Some (inl t) -> usable info = true -> PieceLength info < 2 ^ 32 ->
  exists n, numPieces t = Some n /\ 0 <= n /\ n * PieceLength info <= maxInt /\ forall i, 0 <= i < n ->
    exists len, PieceLen info i = Some len /\ pieceLength t i = Some len /\ 0 < len <= PieceLength info.
Proof. destruct (HasV2 info) eqn:Hv2; eauto using v1_piece_lengths, v2_piece_lengths. Qed.

(** ** The numbering of requests *)

Definition ceilDiv (a b : Z) : Z := (a + b - 1) / b.

Lemma intCeilDiv_small w a b :
  0 < w -> 0 <= a -> 0 < b -> a + b < 2 ^ w -> intCeilDiv w a b = Some (ceilDiv a b).
Proof.
  intros. unfold intCeilDiv, divU, ceilDiv. destruct (Z.eqb_spec b 0); [lia|].
  rewrite !wrapU_small; [done|lia..|]. rewrite wrapU_small; lia.
Qed.

Lemma ceilDiv_lt a b c : 0 < b -> c < ceilDiv a b <-> c * b < a.
Proof.
  intros Hb. unfold ceilDiv. split; intros H.
  - pose proof (Z.mul_div_le (a + b - 1) b Hb). nia.
  - pose proof (Z.div_le_lower_bound (a + b - 1) b (c + 1) Hb). lia.
Qed.

Lemma ceilDiv_mono a a' b : 0 < b -> a <= a' -> ceilDiv a b <= ceilDiv a' b.
Proof. intros. apply Z.div_le_mono; lia. Qed.

Section Numbering.
Context (t : Layout) (n pl : Z) (L : Z -> Z).
Let cs := t_chunkSize t.
Let cpp := ceilDiv pl cs.
Hypothesis Hn : numPieces t = Some n.
Hypothesis HL : forall i, 0 <= i < n -> pieceLength t i = Some (L i) /\ 0 < L i <= pl.
Hypothesis Hcs : 0 < cs.
Hypothesis Hsize : pl + cs < 2 ^ 32.
Hypothesis Hcpp : t_chunksPerRegularPiece t = cpp.
Hypothesis Hcount : n * cpp <= 2 ^ 32.

(** Chunk [c] of piece [i], as it is requested. *)
Definition chunk_request (i c : Z) : Request :=
  newRequest i (c * cs) (Z.min cs (L i - c * cs)).

Definition is_chunk (i c : Z) : Prop := 0 <= i < n /\ 0 <= c /\ c * cs < L i.

Lemma pieceNumChunks_ok i : 0 <= i < n -> pieceNumChunks t i = Some (ceilDiv (L i) cs).
Proof.
  intros Hi. destruct (HL i Hi) as [El Hl]. unfold pieceNumChunks. rewrite El. cbn [mbind option_bind].
  apply intCeilDiv_small; fold cs; lia.
Qed.

Lemma is_chunk_lt i c : is_chunk i c -> 0 <= c < cpp /\ 0 <= i * cpp + c < n * cpp.
Proof.
  intros (Hi & Hc & Hlt). destruct (HL i Hi) as [_ Hl].
  assert (c < cpp) by (apply ceilDiv_lt; [done|lia]). split; [lia|nia].
Qed.

Lemma cpp_pos i : 0 <= i < n -> 0 < cpp.
Proof. intros Hi. destruct (HL i Hi) as [_ Hl]. apply ceilDiv_lt; lia. Qed.

Lemma request_of_index i c : is_chunk i c -> requestIndexToRequest t (i * cpp + c) = Some (chunk_request i c).
Proof.
  intros Hic. pose proof (is_chunk_lt i c Hic) as [Hc Hb]. destruct Hic as (Hi & _ & Hlt).
  destruct (HL i Hi) as [El Hl]. unfold requestIndexToRequest, pieceIndexOfRequestIndex, divU. rewrite Hcpp.
  destruct (Z.eqb_spec cpp 0); [lia|]. cbn [mbind option_bind].
  rewrite (Z.add_comm (i * cpp)), Z.div_add, Z.mod_add, Z.div_small, Z.mod_small by lia.
  unfold Torrent_chunkIndexSpec. rewrite Z.add_0_l, El. cbn [mbind option_bind].
  unfold chunkIndexSpec. fold cs. unfold mul32. rewrite (wrapU_small 32 (c * cs)) by nia.
  rewrite Z.geb_leb, (proj2 (Z.leb_gt _ _)) by lia. cbn [mbind option_bind]. unfold sub32.
  assert (i <= i * cpp) by nia. rewrite (wrapU_small 32 i) by lia. rewrite wrapU_small by lia. done.
Qed.

Lemma index_of_request i begin len :
  0 <= i < n -> 0 <= begin < L i ->
  requestIndexFromRequest t (newRequest i begin len) = Some (i * cpp + begin / cs).
Proof.
  intros Hi Hb. destruct (HL i Hi) as [_ Hl]. pose proof (cpp_pos i Hi).
  unfold requestIndexFromRequest, divU. fold cs. destruct (Z.eqb_spec cs 0); [lia|]. cbn.
  assert (begin / cs < cpp) by (apply ceilDiv_lt; [done|]; pose proof (Z.mul_div_le begin cs Hcs); lia).
  pose proof (Z.div_pos begin cs). unfold pieceRequestIndexBegin, mul32, add32. rewrite Hcpp.
  assert (i <= i * cpp) by nia. assert (i * cpp + cpp <= n * cpp) by nia.
  rewrite (wrapU_small 32 i) by lia. rewrite (wrapU_small 32 (i * cpp)) by lia.
  rewrite wrapU_small by lia. done.
Qed.

Lemma index_of_chunk i c : is_chunk i c -> requestIndexFromRequest t (chunk_request i c) = Some (i * cpp + c).
Proof.
  intros (Hi & Hc & Hlt). unfold chunk_request. rewrite index_of_request by nia. by rewrite Z.div_mul by lia.
Qed.

(** The check accepts exactly the chunks, and does not panic on anything else. *)
Lemma check_chunks r :
  0 <= req_Index r -> 0 <= cs_Begin (req_Chunk r) ->
  exists e, checkValidReceiveChunk t r = Some e /\
            (e = None <-> exists i c, is_chunk i c /\ r = chunk_request i c).
Proof.
  destruct r as [i [begin len]]. simpl. intros Hi Hb. unfold checkValidReceiveChunk. rewrite Hn. cbn.
  rewrite Z.geb_leb. destruct (Z.leb_spec n i).
  { eexists. split; [done|]. split; [done|]. intros (i' & c & ((? & ?) & _) & [= -> _ _]). lia. }
  destruct (HL i) as [-> Hl]; [lia|]. cbn. rewrite Z.geb_leb. destruct (Z.leb_spec (L i) begin).
  { eexists. split; [done|]. split; [done|]. intros (i' & c & (? & ? & ?) & [= -> -> _]). lia. }
  change {| req_Index := i; req_Chunk := _ |} with (newRequest i begin len).
  rewrite index_of_request by lia. cbn [mbind option_bind].
  assert (is_chunk i (begin / cs)) as Hic.
  { split_and!; [lia..|apply Z.div_pos; lia|]. pose proof (Z.mul_div_le begin cs Hcs). lia. }
  rewrite request_of_index by done. cbn [mbind option_bind].
  case_decide as Heq; (eexists; split; [done|]).
  - split; [|done]. intros _. by exists i, (begin / cs).
  - split; [done|]. intros (i' & c & Hic' & E). exfalso. apply Heq. rewrite E.
    destruct Hic' as (? & ? & ?). unfold chunk_request, newRequest in E. injection E as -> -> _.
    by rewrite Z.div_mul by lia.
Qed.

Lemma numbered_ok : n * cpp < 2 ^ 32 -> 0 < pl -> numbered t n.
Proof.
  intros Hlt Hpl. assert (0 < cpp) as Hpos by (apply ceilDiv_lt; lia).
  assert (forall i k c, 0 <= i < n -> pieceNumChunks t i = Some k -> 0 <= c < k -> is_chunk i c) as Hchunk.
  { intros i k c Hi. rewrite pieceNumChunks_ok by done. intros [= <-] [Hc Hk]. split; [done|]. split; [done|]. by apply ceilDiv_lt in Hk. }
  split; rewrite ?Hcpp; try done.
  - intros i Hi. destruct (HL i Hi) as [_ Hl]. eexists. split; [by apply pieceNumChunks_ok|].
    split; [apply ceilDiv_lt; lia|apply ceilDiv_mono; lia].
  - intros i k c Hi Hk Hc. pose proof (Hchunk i k c Hi Hk Hc) as Hic. exists (chunk_request i c).
    split; [by apply request_of_index|]. split; [by apply index_of_chunk|]. split; [done|]. split.
    + unfold chunkIndexFromChunkSpec, divU. cbn. fold cs. destruct (Z.eqb_spec cs 0); [lia|]. by rewrite Z.div_mul by lia.
    + destruct (check_chunks (chunk_request i c)) as (err & -> & Herr); [cbn; lia|cbn; nia|].
      f_equal. apply Herr. eauto.
  - intros r Hi Hb. destruct (check_chunks r Hi Hb) as (err & E & Herr). exists err. split; [done|]. intros ->.
    destruct (proj1 Herr eq_refl) as (i & c & Hic & ->). pose proof Hic as (Hi' & Hc & Hlt').
    exists i, (ceilDiv (L i) cs), c. split; [done|]. split; [by apply pieceNumChunks_ok|].
    split; [split; [done|by apply ceilDiv_lt]|by apply request_of_index].
Qed.
End Numbering.

(** The chunks of a torrent whose info is usable are numbered. *)
Lemma usable_numbered info cs t n :
  setInfo info cs = Some (inl t) -> usable info = true -> 0 < cs -> PieceLength info + cs < 2 ^ 32 ->
  numPieces t = Some n -> n * ceilDiv (PieceLength info) cs < 2 ^ 32 -> numbered t n.
Proof.
  intros Hset Hu Hcs Hpl Hn Hcount. pose proof (setInfo_inv _ _ _ Hset) as (_ & _ & Hc & Hcpp & _).
  assert (0 < PieceLength info) by (unfold usable in Hu; bool_to_prop; lia).
  destruct (piece_lengths info cs t Hset Hu ltac:(lia)) as (n' & Hn' & _ & _ & Hlen).
  rewrite Hn in Hn'. injection Hn' as <-. rewrite wrapU_small in Hcpp by lia.
  rewrite intCeilDiv_small in Hcpp by lia. injection Hcpp as Hcpp. rewrite <-Hc in *.
  apply (numbered_ok t n (PieceLength info) (fun i => default 0 (PieceLen info i))); try done; [|lia].
  intros i Hi. destruct (Hlen i Hi) as (l & E & -> & Hl). by rewrite E.
Qed.

(** C30: for a torrent whose info is usable and whose piece length is less than 2^32, the piece
    length the torrent computes for itself, with the files it has laid out and the file it finds
    for each piece, is the length the info dictionary gives the piece, for both versions. *)
Theorem torrent_pieceLength (info : Info) (chunkSize : Z) (t : Layout)
    (Hset : setInfo info chunkSize = Some (inl t)) (Hu : usable info = true)
    (Hpl : PieceLength info < 2 ^ 32) :
  exists n, numPieces t = Some n /\
    forall i, 0 <= i < n -> exists len, 0 < len <= PieceLength info /\
      PieceLen info i = Some len /\ pieceLength t i = Some len.
Proof.
  destruct (piece_lengths info chunkSize t Hset Hu Hpl) as (n & Hn & _ & _ & H). exists n. split; [done|].
  intros i Hi. destruct (H i Hi) as (len & ? & ? & ?). eauto.
Qed.

Lemma torrent_pieceLength_witness :
  exists t, setInfo sampleV2 16384 = Some (inl t) /\
    exists n, numPieces t = Some n /\ forall i, 0 <= i < n -> exists len, 0 < len <= 16384 /\
      PieceLen sampleV2 i = Some len /\ pieceLength t i = Some len.
Proof.
  eexists. split; [vm_compute; reflexivity|].
  apply (torrent_pieceLength sampleV2 16384); [vm_compute; reflexivity..].
Defined.

(** C31: the request indexes of a usable torrent, whose piece length and chunk size are less than
    2^32 together and which has no more than 2^32 request indexes, number its chunks: chunk [c] of piece [i] is
    request [i * cpp + c], both conversions agree on it, and it begins at [c] times the chunk
    size and ends there or with the piece; and [checkValidReceiveChunk] accepts exactly the
    chunks and never panics, whatever request a peer's message makes. *)
Theorem requests_numbering (info : Info) (chunkSize : Z) (t : Layout) (n : Z)
    (Hset : setInfo info chunkSize = Some (inl t)) (Hu : usable info = true)
    (Hcs : 0 < chunkSize) (Hpl : PieceLength info + chunkSize < 2 ^ 32)
    (Hn : numPieces t = Some n) (Hcount : n * ceilDiv (PieceLength info) chunkSize <= 2 ^ 32) :
  let cpp := ceilDiv (PieceLength info) chunkSize in
  let len i := default 0 (PieceLen info i) in
  (forall i c, 0 <= i < n -> 0 <= c -> c * chunkSize < len i ->
     let r := newRequest i (c * chunkSize) (Z.min chunkSize (len i - c * chunkSize)) in
     requestIndexToRequest t (i * cpp + c) = Some r /\ requestIndexFromRequest t r = Some (i * cpp + c)) /\
  (forall r, 0 <= req_Index r -> 0 <= cs_Begin (req_Chunk r) ->
     exists e, checkValidReceiveChunk t r = Some e /\
       (e = None <-> exists i c, (0 <= i < n /\ 0 <= c /\ c * chunkSize < len i) /\
          r = newRequest i (c * chunkSize) (Z.min chunkSize (len i - c * chunkSize)))).
Proof.
  intros cpp len. subst cpp. pose proof (setInfo_inv _ _ _ Hset) as (_ & _ & Hc & Hcpp & _).
  assert (0 < PieceLength info) by (unfold usable in Hu; bool_to_prop; lia).
  destruct (piece_lengths info chunkSize t Hset Hu ltac:(lia)) as (n' & Hn' & _ & _ & Hlen).
  rewrite Hn in Hn'. injection Hn' as <-. rewrite wrapU_small in Hcpp by lia.
  rewrite intCeilDiv_small in Hcpp by lia. injection Hcpp as Hcpp.
  assert (forall i, 0 <= i < n -> pieceLength t i = Some (len i) /\ 0 < len i <= PieceLength info) as HL.
  { intros i Hi. destruct (Hlen i Hi) as (l & E & -> & Hl). unfold len. rewrite E. done. }
  rewrite <-Hc in *. split.
  - intros i c Hi Hc0 Hlt r. split.
    + by apply (request_of_index t n (PieceLength info) len).
    + by apply (index_of_chunk t n (PieceLength info) len).
  - intros r Hi Hb. by apply (check_chunks t n (PieceLength info) len).
Qed.

Lemma requests_numbering_witness :
  exists t, setInfo sampleV2 10000 = Some (inl t) /\ numPieces t = Some 3 /\
    requestIndexToRequest t 3 = Some (newRequest 1 10000 6384) /\
    requestIndexFromRequest t (newRequest 1 10000 6384) = Some 3.
Proof.
  eexists. split; [vm_compute; reflexivity|]. split; [vm_compute; reflexivity|].
  refine (proj1 (requests_numbering sampleV2 10000 _ 3 _ _ _ _ _ _) 1 1 _ _ _);
    first [vm_compute; reflexivity | vm_compute; split; congruence | vm_compute; congruence].
Defined.

(** ** Infos the client cannot handle *)

Definition oneByte : FileTree := MkFileTree {| ft_Length := 1; ft_PiecesRoot := replicate 32 x01 |} [].
Definition noBytes : FileTree := MkFileTree {| ft_Length := 0; ft_PiecesRoot := [] |} [].

(** A version 2 info with such files. *)
Definition v2Info (entries : list (bytes * FileTree)) : Info := {| PieceLength := 16384; Pieces := [];
  Name := bs "t"; NameUtf8 := []; InfoLength := 0; InfoAttrs := noAttrs; Private := None; Source := [];
  Files := None; MetaVersion := 2;
  InfoFileTree := MkFileTree {| ft_Length := 0; ft_PiecesRoot := [] |} entries |}.

(** A version 2 info that is [usable] but for its empty files. *)
Definition usable_but_empty (info : Info) : bool :=
  (0 <? PieceLength info) && HasV2 info && wf_tree (InfoFileTree info) && plain_dirs (InfoFileTree info) &&
  (span (PieceLength info) (InfoFileTree info) + PieceLength info <=? maxInt) &&
  match UpvertedFiles info with Some fs => Z.of_nat (length fs) <? 2 ^ 31 | None => true end.



(** C35: the lengths of pieces are cut to 32 bits: in a torrent made of a version 1 info whose piece
    length is 2^32 or more, every piece but the last has a length that is not the one the info
    gives it, but its remainder; and with a piece length that is a multiple of 2^32 no chunk can be
    asked for, since converting any request index divides by zero. *)
Theorem long_pieces_truncated (info : Info) (chunkSize : Z) (t : Layout) :
  setInfo info chunkSize = Some (inl t) -> HasV2 info = false -> usable info = true ->
  2 ^ 32 <= PieceLength info -> 0 < chunkSize < 2 ^ 32 ->
  exists n, numPieces t = Some n /\
    (forall i, 0 <= i < n - 1 -> PieceLen info i = Some (PieceLength info) /\
       pieceLength t i = Some (PieceLength info mod 2 ^ 32) /\ PieceLength info mod 2 ^ 32 <> PieceLength info) /\
    (PieceLength info mod 2 ^ 32 = 0 -> forall ri, requestIndexToRequest t ri = None).
Proof.
  intros (Hv & Hti & Hcs & Hcpp & _ & Htot & _)%setInfo_inv Hv2 Hu Hlong Hc. unfold usable in Hu. rewrite Hv2 in Hu.
  apply andb_true_iff in Hu as [Hpl%Z.ltb_lt [Hl Hb%Z.leb_le]%andb_true_iff].
  destruct (v1_pieces info Hv2 Hl Hpl Hb Hv) as (n & H0 & H & Hn & E & Hlens).
  pose proof (ceil_div_bound _ _ H0 Hpl) as Hcb. rewrite <-E in Hcb.
  exists n. split; [unfold numPieces; by rewrite Hti|]. split.
  - intros i Hi. destruct (Hlens i ltac:(lia)) as (len & El & Hlen & _ & Hend).
    destruct (Z.eqb_spec i (n - 1)) as [|_]; [lia|]. split; [rewrite El; f_equal; lia|]. split.
    + unfold pieceLength, FilesArePieceAligned, numPieces. rewrite Hti, Hv2, Hn.
      destruct (Z.eqb_spec (PieceLength info) 0); [lia|]. cbn [mbind option_bind]. rewrite sub64_small by nia.
      destruct (Z.eqb_spec i (n - 1)); [lia|done].
    + pose proof (Z.mod_pos_bound (PieceLength info) (2 ^ 32)). lia.
  - intros Hz ri. unfold requestIndexToRequest, pieceIndexOfRequestIndex.
    assert (t_chunksPerRegularPiece t = 0) as ->; [|done].
    unfold wrapU in Hcpp at 1. rewrite Hz in Hcpp. unfold intCeilDiv, divU in Hcpp.
    rewrite (wrapU_small 32 (0 + chunkSize)), wrapU_small in Hcpp by lia.
    destruct (Z.eqb_spec chunkSize 0); [lia|]. injection Hcpp as <-. apply Z.div_small. lia.
Qed.

(** An info of two pieces of 2^33 bytes. *)
Definition longPieces : Info := {| PieceLength := 2 ^ 33; Pieces := replicate 40 x00;
  Name := bs "t"; NameUtf8 := []; InfoLength := 2 ^ 34; InfoAttrs := noAttrs; Private := None; Source := [];
  Files := None; MetaVersion := 1; InfoFileTree := MkFileTree {| ft_Length := 0; ft_PiecesRoot := [] |} [] |}.

Lemma long_pieces_truncated_witness :
  exists t, setInfo longPieces 16384 = Some (inl t) /\ pieceLength t 0 = Some 0 /\ requestIndexToRequest t 0 = None.
Proof.
  eexists. split; [vm_compute; reflexivity|].
  edestruct (long_pieces_truncated longPieces 16384) as (n & Hn & Hl & Hr);
    [vm_compute; reflexivity|vm_compute; reflexivity|vm_compute; reflexivity|vm_compute; discriminate|lia|].
  assert (n = 2) as -> by (vm_compute in Hn; congruence). destruct (Hl 0 ltac:(lia)) as (_ & H & _).
  split; [exact H|]. apply Hr. reflexivity.
Defined.

(** In a version 2 torrent the files are padded to whole pieces but the torrent's length is
    not, so offsets beyond it are refused although they hold data: of two files of one byte, the
    second, at offset 16384 in piece 1, is not found by [offsetRequest] and not among the pieces
    of a reader, its request has no offset, and the piece has no request below
    [requestIndexMaxEnd]. *)
Theorem v2_length_too_short :
  let info := v2Info [(bs "a", oneByte); (bs "b", oneByte)] in
  exists t, setInfo info 16384 = Some (inl t) /\ usable info = true /\
    map f_offset (t_files t) = [0; 16384] /\ pieceLength t 1 = Some 1 /\
    requestIndexToRequest t 1 = Some (newRequest 1 0 1) /\
    offsetRequest t 16384 = Some None /\ byteRegionPieces t 16384 1 = Some (0, 0) /\
    requestIndexBegin t 1 = None /\ requestIndexMaxEnd t 1 = Some (pieceRequestIndexBegin t 1).
Proof. eexists. split; [vm_compute; reflexivity|]. vm_compute. split_and!; reflexivity. Qed.
