(* ===== verification/World.v ===== *)
(** * The state of a torrent

    The records behind [src/torrent.go], [src/piece.go] and [src/peerconn.go]: what a torrent knows
    of its pieces, its peers and the requests it made to them, the goroutines that hash pieces and
    the chunks being written, and of the client what torrents share. *)

From coqutil Require Import Datatypes.RecordSettersUsingExistingGetters.
From S2P Require Import Prelude Segments Metainfo PeerProtocol Types Bitmap OrderedBitmap RequestOrder Chunks.
Local Open Scope Z_scope.

(** [pieceState]; the hash of a version 2 piece is absent until it is known. *)
Record pieceState := {
  ps_hashV2 : option bytes;
  ps_priority : Z;
  ps_hashing : bool;
  ps_marking : bool;
  ps_storageCompletionOk : bool;
  ps_storageCompletionHasBeenOk : bool;
  ps_relativeAvailability : Z;
  ps_numVerifies : Z;
}.

Definition zeroPiece : pieceState := {|
  ps_hashV2 := None; ps_priority := PiecePriorityNone; ps_hashing := false; ps_marking := false;
  ps_storageCompletionOk := false; ps_storageCompletionHasBeenOk := false;
  ps_relativeAvailability := 0; ps_numVerifies := 0 |}.

(** The storage's [Capacity]: a pointer shared by the torrents of one storage, and what calling
    it returns: a capacity, if there is one. *)
Record Storage := { s_Capacity : option (nat * option Z) }.

(** [clientPieceRequestOrderKeySumType] *)
Inductive orderKey := RegularTorrentKey (t : nat) | SharedStorageTorrentKey (capacity : nat).

#[global] Instance orderKey_eq_dec : EqDecision orderKey.
Proof. solve_decision. Defined.
#[global] Instance orderKey_countable : Countable orderKey.
Proof.
  refine (inj_countable' (fun k => match k with RegularTorrentKey t => inl t | SharedStorageTorrentKey c => inr c end)
    (fun s => match s with inl t => RegularTorrentKey t | inr c => SharedStorageTorrentKey c end) _).
  by intros [].
Defined.

(** [storage.Completion] *)
Record Completion := { c_Complete : bool; c_Ok : bool; c_Err : bool }.

(** Of another torrent: which pieces are to be requested, which count as unverified, and the piece
    length. *)
Record otherTorrent := { ot_request : Z -> bool; ot_unverified : Z -> bool; ot_length : Z }.

(** A goroutine in [pieceHasher]: reading the data of a piece, or telling the storage the
    result; the client lock is released in both. *)
Inductive hasher := Hashing (pi : Z) | Marking (pi : Z) (passed : bool).

Definition hasher_piece (h : hasher) : Z := match h with Hashing pi => pi | Marking pi _ => pi end.

#[global] Instance hasher_eq_dec : EqDecision hasher.
Proof. solve_decision. Defined.

(** [requestState]: the connection a chunk is requested from, and since when. *)
Record requestState := { rq_peer : nat; rq_when : Z }.

(** [hashRequest] *)
Record hashRequest := { hr_piecesRoot : bytes; hr_baseLayer : Z; hr_index : Z; hr_length : Z; hr_proofLayers : Z }.

#[global] Instance hashRequest_eq_dec : EqDecision hashRequest.
Proof. solve_decision. Defined.
#[global] Instance hashRequest_countable : Countable hashRequest.
Proof.
  refine (inj_countable' (fun h => (hr_piecesRoot h, (hr_baseLayer h, hr_index h), (hr_length h, hr_proofLayers h)))
    (fun '(r, (b, i), (l, p)) => {| hr_piecesRoot := r; hr_baseLayer := b; hr_index := i; hr_length := l; hr_proofLayers := p |}) _).
  by intros [].
Defined.

Section World.
Context {AJ : AjwernerSet} {RB : Roaring} {GL : GenericList}.

(** What the torrent knows of a [PeerConn]. *)
Record PeerConn := {
  pc_PeerID : bytes;
  pc_outgoing : bool;
  pc_utp : bool;
  pc_ipv6 : bool;
  pc_supportsMetadata : bool;
  pc_peerPieces : rb;
  pc_peerSentHaveAll : bool;
  pc_peerMinPieces : Z;
  pc_peerInterested : bool;
  pc_closed : bool;
  (* negotiated version 2 of the protocol *)
  pc_v2 : bool;
  (* requests to the peer *)
  pc_PeerMaxRequests : Z;
  pc_peakRequests : Z;
  pc_Interested : bool;
  pc_Requests : orderedBitmap;
  pc_Cancelled : rb;
  pc_validReceiveChunks : gmap Z Z;
  pc_peerChoking : bool;
  pc_peerAllowedFast : rb;
  pc_needRequestUpdate : option string;
  pc_lastUsefulChunkReceived : Z;
  pc_sentHaves : rb;
  pc_sentHashRequests : gset hashRequest;
  (* what is to be written to the peer *)
  pc_writeBuffer : bytes;
}.

(** A [webseedPeer]; a URL that cannot serve the torrent has no pieces. *)
Record webseedPeer := { ws_usable : bool; ws_Pieces : rb; ws_closed : bool }.

Record World := {
  (* the client *)
  w_orders : gmap orderKey (PieceRequestOrder aj_set);
  w_herp : Z;
  w_derp : Z;
  w_activePieceHashers : Z;
  (* the torrent *)
  w_pieces : list pieceState;
  w_filePrio : list Z;
  w_readers : list (Z * Z);
  w_now : rb;
  w_readahead : rb;
  w_completed : rb;
  w_pending : rb;
  w_queued : rb;
  w_dirty : rb;
  w_disallowed : bool;
  w_uploadDisallowed : bool;
  w_closed : bool;
  w_haveInfo : bool;
  w_conns : gmap nat PeerConn;
  w_webSeeds : gmap nat webseedPeer;
  w_connsWithAllPieces : gset nat;
  w_requestState : gmap Z requestState;
  w_requestPieceStates : gmap Z PieceRequestOrderState;
  w_requestPieceStatesGen : Z;
  w_activePieceHashes : Z;
  (* read locks held on [storageLock] *)
  w_storageReaders : Z;
  w_hashers : list hasher;
}.

(** What does not change after the info is set, and the configuration. *)
Record Env := {
  e_layout : Layout;
  e_id : nat;
  e_shortHash : bytes;
  e_storage : option Storage;
  (* there are dialers, networking is enabled and the rate limiter has tokens *)
  e_mayConnect : bool;
  e_disableTriggers : bool;
  e_initialPieceCheckDisabled : bool;
  e_ignoreUnverifiedPieceCompletion : bool;
  e_PieceHashersPerTorrent : Z;
  e_maxActivePieceHashers : Z;
  e_peerID : bytes;
  e_maxEstablishedConns : Z;
  e_DropMutuallyCompletePeers : bool;
  e_DropDuplicatePeerIds : bool;
  e_NoUpload : bool;
  e_Seed : bool;
  e_DisableWebseeds : bool;
  e_DisableAggressiveUpload : bool;
  (* the order in which [range] visits the keys of a map, which may be another at each visit *)
  e_range : World -> list nat -> list nat;
  (* a permutation of the pieces, chosen when the info is set *)
  e_pieceRequestOrder : list Z;
  e_StealRequestGrace : Z;
  e_MaxUnverifiedBytes : Z;
  (* the other torrents that share the storage, as their pieces are at the moment *)
  e_torrents : bytes -> otherTorrent;
  (* there is a handler for errors writing chunks *)
  e_userOnWriteChunkErr : bool;
  (* [fastEnabled] of a connection, which its handshake settles *)
  e_fast : nat -> bool;
  (* what [UploadRateLimiter] limits a request to, if it does *)
  e_uploadBurst : option Z;
  e_MaxAllocPeerRequestDataPerConn : Z;
  (* the order in which [range] visits requests *)
  e_rangeRequests : World -> list Request -> list Request;
}.

#[local] Notation op := (go World unit).

(** Assignments to a field of the torrent and of a piece's state. *)
Definition set_piece (i : Z) (f : pieceState -> pieceState) : op unit :=
  ps ← gets w_pieces;
  s ← lift (at_ ps i);
  modify (fun w => w <| w_pieces := <[Z.to_nat i := f s]> (w_pieces w) |>).

Definition state (i : Z) : op pieceState := ps ← gets w_pieces; lift (at_ ps i).

(** ** Peers *)

Definition conn (id : nat) : op PeerConn := cs ← gets w_conns; lift (cs !! id).

Definition set_conn (id : nat) (f : PeerConn -> PeerConn) : op unit :=
  c ← conn id;
  modify (fun w => w <| w_conns := <[id := f c]> (w_conns w) |>).

Definition webSeed (u : nat) : op webseedPeer := cs ← gets w_webSeeds; lift (cs !! u).

Definition set_webSeed (u : nat) (f : webseedPeer -> webseedPeer) : op unit :=
  c ← webSeed u;
  modify (fun w => w <| w_webSeeds := <[u := f c]> (w_webSeeds w) |>).

Context (e : Env).

(** The keys of [t.conns] and [t.webSeeds] as [range] visits them. *)
Definition connIds : op (list nat) := gets (fun w => e_range e w (elements (dom (w_conns w)))).
Definition seedIds : op (list nat) := gets (fun w => e_range e w (elements (dom (w_webSeeds w)))).
End World.

#[global] Arguments World {AJ RB GL}.
#[global] Arguments Env {AJ RB GL}.
#[global] Arguments PeerConn {RB GL}.
Notation op := (go World unit).
