(* ===== verification/RequestState.v ===== *)
(** * Requests made to peers ([src/peerconn.go], [src/torrent.go])

    Which chunks are requested from which connection: the requests of a connection, those it was
    told to cancel, the chunks it may still send, and the torrent's record of who has a request.
    Messages go to the write buffer of the connection.  User callbacks and statistics are left
    out. *)

From coqutil Require Import Datatypes.RecordSettersUsingExistingGetters.
From S2P Require Import Prelude Segments Metainfo PeerProtocol Types Bitmap OrderedBitmap RequestOrder Chunks World.
Local Open Scope Z_scope.

(** ** The write buffer ([peer-conn-msg-writer.go], [peer.go]) *)

Definition writeBufferHighWaterLen : Z := Z.shiftl 1 15.
Definition writeBufferLowWaterLen : Z := Z.quot writeBufferHighWaterLen 2.

Definition typeMessage (mt : Z) : Message := set_Type mt zeroMessage.

Definition interestedMsgLen : Z := Z.of_nat (length (MarshalBinary (typeMessage mtInterested)).1).
Definition requestMsgLen : Z := Z.of_nat (length (MarshalBinary (typeMessage mtRequest)).1).
Definition maxLocalToRemoteRequests : Z :=
  Z.quot (writeBufferHighWaterLen - writeBufferLowWaterLen - interestedMsgLen) requestMsgLen.

(** [peerConnMsgWriter.writeToBuffer]: a message that cannot be written leaves the buffer as it
    was; [None] is a panic. *)
Definition writeToBuffer (msg : Message) (b : bytes) : option bytes :=
  match WriteTo msg b with
  | (b', WOk) => Some b'
  | (_, WPanic) => None
  | _ => Some b
  end.

Definition writeBufferFull (b : bytes) : bool := Z.of_nat (length b) >=? writeBufferHighWaterLen.

Definition makeCancelMessage (r : Request) : Message :=
  MakeCancelMessage (req_Index r) (cs_Begin (req_Chunk r)) (cs_Length (req_Chunk r)).

Section RequestState.
Context {AJ : AjwernerSet} {RB : Roaring} {GL : GenericList}.
Context (e : Env).
Notation L := (e_layout e).

(** [PeerConn.write]: whether it is okay to keep writing. *)
Definition write (id : nat) (msg : Message) : op bool :=
  c ← conn id;
  b ← lift (writeToBuffer msg (pc_writeBuffer c));
  set_conn id (fun c => c <| pc_writeBuffer := b |>);;
  mret (negb (writeBufferFull b)).

(** [PeerConn.have] *)
Definition have (id : nat) (piece : Z) : op unit :=
  c ← conn id;
  when (negb (tb_Contains piece (pc_sentHaves c))) (
    write id (set_Index (wrapU 32 piece) (typeMessage mtHave));;
    set_conn id (fun c => c <| pc_sentHaves := tb_Add piece (pc_sentHaves c) |>)).

(** ** Updating requests *)

Definition peerUpdateRequestsPeerCancelReason : string := "Peer.cancel".
Definition peerUpdateRequestsRemoteRejectReason : string := "Peer.remoteRejectedRequest".

(** Waking up the writer has no effect on the state. *)
Definition onNeedUpdateRequests (id : nat) (reason : string) : op unit :=
  c ← conn id;
  match pc_needRequestUpdate c with
  | Some _ => mret tt
  | None => set_conn id (fun c => c <| pc_needRequestUpdate := Some reason |>)
  end.

Definition isLowOnRequests (c : PeerConn) : bool := ob_IsEmpty (pc_Requests c) && rb_IsEmpty (pc_Cancelled c).

Definition decPeakRequests (id : nat) : op unit :=
  set_conn id (fun c => c <| pc_peakRequests := sub64 (pc_peakRequests c) 1 |>).

(** ** Taking back requests *)

Definition requestingPeer (r : Z) : op (option nat) := gets (fun w => rq_peer <$> w_requestState w !! r).

(** Whether an outstanding request is removed. *)
Definition deleteRequest (id : nat) (r : Z) : op bool :=
  c ← conn id;
  p ← lift (ob_CheckedRemove r (pc_Requests c));
  set_conn id (fun c => c <| pc_Requests := p.1 |>);;
  if negb p.2 then mret false
  else
    peer ← requestingPeer r;
    if negb (bool_decide (peer = Some id)) then panic tt
    else modify (fun w => w <| w_requestState := delete r (w_requestState w) |>);; mret true.

Definition remoteIsTransmission (c : PeerConn) : bool :=
  bool_decide (take 3 (pc_PeerID c) = bs "-TR") && bool_decide (pc_PeerID c !! 7%nat = Some "-"%byte).

(** Whether a reject is expected after a cancel. *)
Definition remoteRejectsCancels (id : nat) (c : PeerConn) : bool :=
  if negb (e_fast e id) then false
  else if remoteIsTransmission c then b2z "4"%byte <=? default 0 (b2z <$> pc_PeerID c !! 3%nat)
  else true.

Definition handleCancel (id : nat) (r : Z) : op unit :=
  req ← lift (requestIndexToRequest L r);
  write id (makeCancelMessage req);;
  c ← conn id;
  when (remoteRejectsCancels id c) (
    let p := tb_CheckedAdd r (pc_Cancelled c) in
    if negb p.2 then panic tt else set_conn id (fun c => c <| pc_Cancelled := p.1 |>)).

Definition cancel (id : nat) (r : Z) : op unit :=
  deleted ← deleteRequest id r;
  if negb deleted then panic tt
  else
    handleCancel id r;;
    decPeakRequests id;;
    c ← conn id;
    when (isLowOnRequests c) (onNeedUpdateRequests id peerUpdateRequestsPeerCancelReason).

(** The connection that had the request, if any. *)
Definition cancelRequest (r : Z) : op (option nat) :=
  p ← requestingPeer r;
  (match p with Some id => cancel id r | None => mret tt end);;
  s ← gets (fun w => w_requestState w !! r);
  match s with Some _ => panic tt | None => mret p end.

Definition cancelRequestsForPiece (piece : Z) : op unit :=
  let start := pieceRequestIndexBegin L piece in
  n ← lift (pieceNumChunks L piece);
  for_each (fun ri => cancelRequest ri;; mret tt) (seqZ start (add32 start n - start)).

Definition assertNoRequests (id : nat) : op unit :=
  c ← conn id; if negb (ob_IsEmpty (pc_Requests c)) then panic tt else mret tt.

(** [deleteAllRequests] up to telling the other peers. *)
Definition deleteRequests (id : nat) : op unit :=
  c ← conn id;
  for_each (fun x => ok ← deleteRequest id x; if negb ok then panic tt else mret tt)
    (ob_IterateSnapshot (pc_Requests c));;
  assertNoRequests id.

(** The peers with nothing requested are to update their requests. *)
Definition tellIdlePeers (reason : string) : op unit :=
  ids ← connIds e;
  for_each (fun id => c ← conn id; when (isLowOnRequests c) (onNeedUpdateRequests id reason)) ids.

Definition deleteAllRequests (id : nat) (reason : string) : op unit :=
  c ← conn id;
  when (negb (ob_IsEmpty (pc_Requests c))) (deleteRequests id;; tellIdlePeers reason).

Definition cancelAllRequests (id : nat) : op unit :=
  c ← conn id;
  for_each (cancel id) (ob_IterateSnapshot (pc_Requests c));;
  assertNoRequests id.

(** ** Answers to requests *)

Definition decExpectedChunkReceive (id : nat) (r : Z) : op unit :=
  c ← conn id;
  let count := default 0 (pc_validReceiveChunks c !! r) in
  if count =? 1 then set_conn id (fun c => c <| pc_validReceiveChunks := delete r (pc_validReceiveChunks c) |>)
  else if count >? 1 then
    set_conn id (fun c => c <| pc_validReceiveChunks := <[r := count - 1]> (pc_validReceiveChunks c) |>)
  else panic tt.

(** Removes a request that was cancelled; whether it was. *)
Definition removeCancelled (id : nat) (r : Z) : op bool :=
  c ← conn id;
  let p := tb_CheckedRemove r (pc_Cancelled c) in
  set_conn id (fun c => c <| pc_Cancelled := p.1 |>);; mret p.2.

(** Whether it was valid to reject the request. *)
Definition remoteRejectedRequest (id : nat) (r : Z) : op bool :=
  deleted ← deleteRequest id r;
  valid ← (if deleted : bool then decPeakRequests id;; mret true else removeCancelled id r);
  if negb valid then mret false
  else
    c ← conn id;
    when (isLowOnRequests c) (onNeedUpdateRequests id peerUpdateRequestsRemoteRejectReason);;
    decExpectedChunkReceive id r;;
    mret true.

(** [PeerConn.checkReceivedChunk]: whether the chunk was asked for; [None] is the error for one that
    is not expected. *)
Definition checkReceivedChunk (id : nat) (r : Z) : op (option bool) :=
  c ← conn id;
  if default 0 (pc_validReceiveChunks c !! r) <=? 0 then mret None
  else
    decExpectedChunkReceive id r;;
    deleted ← deleteRequest id r;
    intended ← (if deleted : bool then mret true else removeCancelled id r);
    c ← conn id;
    when (intended && isLowOnRequests c) (onNeedUpdateRequests id "Peer.receiveChunk deleted request");;
    mret (Some intended).

End RequestState.
