(* ===== verification/RequestTheory.v ===== *)
(** * Theory of the requests made to peers

    A chunk is requested from at most one connection, and the torrent's record of the requests is
    what the connections have; a cancelled request is not outstanding; as many chunks are expected
    as were asked for and not answered.  So none of the checks in the code fails. *)

From coqutil Require Import Datatypes.RecordSettersUsingExistingGetters.
From S2P Require Import Prelude Segments Metainfo PeerProtocol Types Bitmap OrderedBitmap RequestOrder Chunks World RequestState.
Local Open Scope Z_scope.

Lemma map_below_empty {A} (m : gmap Z A) : m ⊆ ∅ -> m = ∅.
Proof. intros H. apply (anti_symm (⊆)); [done|apply map_empty_subseteq]. Qed.

(** ** Messages *)

Lemma write_request msg b : Keepalive msg = false -> class_of (Type_ msg) = CRequest ->
  exists m, writeToBuffer msg b = Some (b ++ m) /\ length m = 17%nat.
Proof.
  intros Hk Hc. unfold writeToBuffer, WriteTo, getPayloadLength, writePayloadTo. rewrite Hk, Hc. cbn.
  eexists. rewrite <-!app_assoc. split; [reflexivity|]. done.
Qed.

Lemma write_index msg b : Keepalive msg = false -> class_of (Type_ msg) = CIndex ->
  exists m, writeToBuffer msg b = Some (b ++ m) /\ length m = 9%nat.
Proof.
  intros Hk Hc. unfold writeToBuffer, WriteTo, getPayloadLength, writePayloadTo. rewrite Hk, Hc. cbn.
  eexists. rewrite <-!app_assoc. split; [reflexivity|]. done.
Qed.

Lemma write_none msg b : Keepalive msg = false -> class_of (Type_ msg) = CNone ->
  exists m, writeToBuffer msg b = Some (b ++ m) /\ length m = 5%nat.
Proof.
  intros Hk Hc. unfold writeToBuffer, WriteTo, getPayloadLength, writePayloadTo. rewrite Hk, Hc. cbn.
  eexists. rewrite <-!app_assoc. split; [reflexivity|]. done.
Qed.

Lemma write_piece msg b : Keepalive msg = false -> class_of (Type_ msg) = CPiece ->
  exists m, writeToBuffer msg b = Some (b ++ m).
Proof.
  intros Hk Hc. unfold writeToBuffer, WriteTo, getPayloadLength, writePayloadTo. rewrite Hk, Hc. cbn.
  unfold wthen, writePieceData. cbn. rewrite !Z.eqb_refl. cbn. eexists. by rewrite <-!app_assoc.
Qed.

Lemma write_hash msg b : Keepalive msg = false -> class_of (Type_ msg) = CHash ->
  exists m, writeToBuffer msg b = Some (b ++ m) /\ length m = (21 + length (PiecesRoot msg))%nat.
Proof.
  intros Hk Hc. unfold writeToBuffer, WriteTo, getPayloadLength, writePayloadTo. rewrite Hk, Hc. cbn.
  eexists. rewrite <-!app_assoc. split; [reflexivity|]. rewrite !length_app. cbn. lia.
Qed.

Section RequestTheory.
Context {AJ : AjwernerSet} {RB : Roaring} {RBL : RoaringLaws RB} {GL : GenericList} {GLL : GenericListLaws GL}.
Context (e : Env).
Notation L := (e_layout e).

Lemma conn_run w id c : w_conns w !! id = Some c -> conn id w = Ret c w.
Proof. intros E. unfold conn. go_simpl. by rewrite E. Qed.

Lemma set_conn_run w id c f : w_conns w !! id = Some c ->
  set_conn id f w = Ret tt (w <| w_conns := <[id := f c]> (w_conns w) |>).
Proof. intros E. unfold set_conn. by rewrite (bind_step _ _ _ _ _ (conn_run w id c E)). Qed.

(** ** The invariant *)

Definition reqs (c : PeerConn) : list Z := ob_Iterate (pc_Requests c).

Record conn_reqs (c : PeerConn) : Prop := {
  cr_holds : holds (pc_Requests c) (reqs c);
  cr_valid r : r ∈ reqs c -> is_Some (requestIndexToRequest L r);
  cr_cancelled r : r ∈ rb_elems (pc_Cancelled c) -> r ∉ reqs c;
  cr_expected r : Z.b2z (bool_decide (r ∈ reqs c)) + Z.b2z (bool_decide (r ∈ rb_elems (pc_Cancelled c))) <=
    default 0 (pc_validReceiveChunks c !! r);
  cr_max : Z.of_nat (length (reqs c) + size (rb_elems (pc_Cancelled c))) <= maxLocalToRemoteRequests;
}.

Record Reqs (w : World) : Prop := {
  rq_conns id c : w_conns w !! id = Some c -> conn_reqs c;
  rq_owned id c r : w_conns w !! id = Some c -> r ∈ reqs c -> exists s, w_requestState w !! r = Some s /\ rq_peer s = id;
  rq_owner r s : w_requestState w !! r = Some s -> exists c, w_conns w !! rq_peer s = Some c /\ r ∈ reqs c;
  rq_since r s : w_requestState w !! r = Some s -> 0 < rq_when s;
}.

(** What is known of the pieces of a peer is left alone. *)
Definition kept (c c' : PeerConn) : Prop :=
  pc_peerPieces c' = pc_peerPieces c /\ pc_peerSentHaveAll c' = pc_peerSentHaveAll c /\ pc_closed c' = pc_closed c.

(** The same connections. *)
Definition like (m m' : gmap nat PeerConn) : Prop := forall id, option_Forall2 kept (m !! id) (m' !! id).

(** Only the requests were changed. *)
Definition talked (w w' : World) : Prop := exists cs rs x g,
  w' = w <| w_conns := cs |> <| w_requestState := rs |> <| w_requestPieceStates := x |> <| w_requestPieceStatesGen := g |> /\
  like (w_conns w) cs.

(** No request was made, and the states of the pieces are the same. *)
Definition asked (w w' : World) : Prop := talked w w' /\ w_requestState w' ⊆ w_requestState w /\
  w_requestPieceStates w' = w_requestPieceStates w /\ w_requestPieceStatesGen w' = w_requestPieceStatesGen w.

Lemma kept_refl c : kept c c.
Proof. done. Qed.

Lemma kept_trans c1 c2 c3 : kept c1 c2 -> kept c2 c3 -> kept c1 c3.
Proof. intros (? & ? & ?) (? & ? & ?). split; [congruence|split; congruence]. Qed.

Lemma like_refl m : like m m.
Proof. intros id. destruct (m !! id); constructor. apply kept_refl. Qed.

Lemma like_trans m1 m2 m3 : like m1 m2 -> like m2 m3 -> like m1 m3.
Proof.
  intros H1 H2 id. specialize (H1 id). specialize (H2 id).
  destruct (m1 !! id), (m2 !! id), (m3 !! id); inversion H1; inversion H2; subst; constructor. by eapply kept_trans.
Qed.

Lemma like_conn m m' id c : like m m' -> m !! id = Some c -> exists c', m' !! id = Some c' /\ kept c c'.
Proof. intros H Hid. specialize (H id). rewrite Hid in H. inversion H; subst. eauto. Qed.

Lemma like_back m m' id c' : like m m' -> m' !! id = Some c' -> exists c, m !! id = Some c /\ kept c c'.
Proof. intros H Hid. specialize (H id). rewrite Hid in H. inversion H; subst. eauto. Qed.

Lemma like_None m m' id : like m m' -> m !! id = None -> m' !! id = None.
Proof. intros H Hid. specialize (H id). rewrite Hid in H. by inversion H. Qed.

Lemma like_dom m m' : like m m' -> dom m' = dom m.
Proof. intros H. apply set_eq. intros id. rewrite !elem_of_dom. specialize (H id). destruct H; [|done]. split; eauto. Qed.

Lemma like_size m m' : like m m' -> size m' = size m.
Proof. intros H. by rewrite <-!size_dom, (like_dom _ _ H). Qed.

Lemma like_insert m id c c' : m !! id = Some c -> kept c c' -> like m (<[id := c']> m).
Proof.
  intros Hid Hk j. destruct (decide (j = id)) as [->|].
  - rewrite lookup_insert_eq, Hid. by constructor.
  - rewrite lookup_insert_ne by done. apply like_refl.
Qed.

Lemma like_delete m m' id : like m m' -> like (delete id m) (delete id m').
Proof.
  intros H j. destruct (decide (j = id)) as [->|]; [rewrite !lookup_delete_eq; constructor|]. by rewrite !lookup_delete_ne.
Qed.

Lemma talked_like w w' : talked w w' -> like (w_conns w) (w_conns w').
Proof. by intros (cs & rs & x & g & -> & H). Qed.

Lemma talked_refl w : talked w w.
Proof. exists (w_conns w), (w_requestState w), (w_requestPieceStates w), (w_requestPieceStatesGen w). split; [by destruct w|apply like_refl]. Qed.

Lemma talked_trans w1 w2 w3 : talked w1 w2 -> talked w2 w3 -> talked w1 w3.
Proof.
  intros (cs & rs & x & g & -> & H1) (cs' & rs' & x' & g' & -> & H2). exists cs', rs', x', g'. split; [done|]. by eapply like_trans.
Qed.

Lemma talked_conn w w' id c : talked w w' -> w_conns w !! id = Some c -> exists c', w_conns w' !! id = Some c' /\ kept c c'.
Proof. intros H. apply (like_conn _ _ id c), talked_like, H. Qed.

Lemma talked_back w w' id c' : talked w w' -> w_conns w' !! id = Some c' -> exists c, w_conns w !! id = Some c /\ kept c c'.
Proof. intros H. apply (like_back _ _ id c'), talked_like, H. Qed.

Lemma talked_set w id c c' rs : w_conns w !! id = Some c -> kept c c' ->
  talked w (w <| w_conns := <[id := c']> (w_conns w) |> <| w_requestState := rs |>).
Proof.
  intros Hid Hk. exists (<[id := c']> (w_conns w)), rs, (w_requestPieceStates w), (w_requestPieceStatesGen w).
  split; [done|]. by apply (like_insert _ id c).
Qed.

Lemma asked_refl w : asked w w.
Proof. split; [apply talked_refl|done]. Qed.

Lemma asked_trans w1 w2 w3 : asked w1 w2 -> asked w2 w3 -> asked w1 w3.
Proof. intros (H1 & E1 & ? & ?) (H2 & E2 & ? & ?). split; [by eapply talked_trans|]. split; [by etransitivity|]. split; congruence. Qed.

Lemma asked_set w id c c' rs : w_conns w !! id = Some c -> kept c c' -> rs ⊆ w_requestState w ->
  asked w (w <| w_conns := <[id := c']> (w_conns w) |> <| w_requestState := rs |>).
Proof. intros Hid Hk Hrs. split; [by apply (talked_set w id c)|done]. Qed.

(** A connection is changed, but not what it has requested. *)
Lemma Reqs_same w w' id c c' : Reqs w -> w_conns w !! id = Some c -> reqs c' = reqs c -> conn_reqs c' ->
  w_conns w' = <[id := c']> (w_conns w) -> w_requestState w' = w_requestState w -> Reqs w'.
Proof.
  intros [H1 H2 H3 H4] Hid Er Hc E1 E2. split; rewrite ?E1, ?E2.
  - intros j cj. destruct (decide (j = id)) as [->|]; [rewrite lookup_insert_eq; by intros [= <-]|]. rewrite lookup_insert_ne by done. apply H1.
  - intros j cj r. destruct (decide (j = id)) as [->|]; [rewrite lookup_insert_eq; intros [= <-]; rewrite Er; by apply H2|].
    rewrite lookup_insert_ne by done. apply H2.
  - intros r s Hs. destruct (H3 r s Hs) as (cj & Hj & Hr). destruct (decide (rq_peer s = id)) as [E|].
    + exists c'. rewrite E, lookup_insert_eq, Er. split; [done|]. rewrite E, Hid in Hj. by injection Hj as <-.
    + exists cj. by rewrite lookup_insert_ne.
  - done.
Qed.

(** A request is gone. *)
Lemma Reqs_gone w w' id c c' r : Reqs w -> w_conns w !! id = Some c -> r ∈ reqs c ->
  reqs c' = filter (fun y => y <> r) (reqs c) -> conn_reqs c' ->
  w_conns w' = <[id := c']> (w_conns w) -> w_requestState w' = delete r (w_requestState w) -> Reqs w'.
Proof.
  intros [H1 H2 H3 H4] Hid Hr Er Hc E1 E2. destruct (H2 id c r Hid Hr) as (s0 & Es0 & Ep). split; rewrite ?E1, ?E2.
  - intros j cj. destruct (decide (j = id)) as [->|]; [rewrite lookup_insert_eq; by intros [= <-]|]. rewrite lookup_insert_ne by done. apply H1.
  - intros j cj x Hj Hx. destruct (decide (j = id)) as [->|].
    + rewrite lookup_insert_eq in Hj. injection Hj as <-. rewrite Er in Hx. apply list_elem_of_filter in Hx as [Hne Hx].
      rewrite lookup_delete_ne by done. by apply (H2 id c).
    + rewrite lookup_insert_ne in Hj by done. destruct (H2 j cj x Hj Hx) as (s & Es & Eq). exists s. rewrite lookup_delete_ne; [done|].
      intros ->. congruence.
  - intros x s Hs. destruct (decide (x = r)) as [->|Hne]; [by rewrite lookup_delete_eq in Hs|]. rewrite lookup_delete_ne in Hs by done.
    destruct (H3 x s Hs) as (cj & Hj & Hx). destruct (decide (rq_peer s = id)) as [E|].
    + exists c'. rewrite E, lookup_insert_eq, Er, list_elem_of_filter. split; [done|]. rewrite E, Hid in Hj. by injection Hj as <-.
    + exists cj. by rewrite lookup_insert_ne.
  - intros x s [_ Hs]%lookup_delete_Some. by eapply H4.
Qed.

(** A request is made. *)
Lemma Reqs_made w w' id c c' r s : Reqs w -> w_conns w !! id = Some c -> w_requestState w !! r = None -> rq_peer s = id -> 0 < rq_when s ->
  reqs c' = reqs c ++ [r] -> conn_reqs c' ->
  w_conns w' = <[id := c']> (w_conns w) -> w_requestState w' = <[r := s]> (w_requestState w) -> Reqs w'.
Proof.
  intros [H1 H2 H3 H4] Hid Hr Es Ht Er Hc E1 E2. split; rewrite ?E1, ?E2.
  - intros j cj. destruct (decide (j = id)) as [->|]; [rewrite lookup_insert_eq; by intros [= <-]|]. rewrite lookup_insert_ne by done. apply H1.
  - intros j cj x Hj Hx. destruct (decide (x = r)) as [->|Hne].
    + rewrite lookup_insert_eq. destruct (decide (j = id)) as [->|]; [by exists s|]. rewrite lookup_insert_ne in Hj by done.
      destruct (H2 j cj r Hj Hx) as (s' & Es' & _). congruence.
    + rewrite lookup_insert_ne by done. destruct (decide (j = id)) as [->|]; [|rewrite lookup_insert_ne in Hj by done; by apply (H2 j cj)].
      rewrite lookup_insert_eq in Hj. injection Hj as <-. rewrite Er in Hx. apply (H2 id c); [done|]. set_solver.
  - intros x s' Hs. destruct (decide (x = r)) as [->|Hne].
    + rewrite lookup_insert_eq in Hs. injection Hs as <-. exists c'. rewrite Es, lookup_insert_eq, Er. set_solver.
    + rewrite lookup_insert_ne in Hs by done. destruct (H3 x s' Hs) as (cj & Hj & Hx). destruct (decide (rq_peer s' = id)) as [E|].
      * exists c'. rewrite E, lookup_insert_eq, Er. rewrite E, Hid in Hj. injection Hj as <-. set_solver.
      * exists cj. by rewrite lookup_insert_ne.
  - intros x s' [[_ <-]|[_ Hs]]%lookup_insert_Some; [done|by eapply H4].
Qed.

(** ** The operations *)

(** A change to a connection that is not about its requests. *)
Definition same_reqs (c c' : PeerConn) : Prop :=
  pc_Requests c' = pc_Requests c /\ pc_Cancelled c' = pc_Cancelled c /\ pc_validReceiveChunks c' = pc_validReceiveChunks c.

Definition unasked (c c' : PeerConn) : Prop := kept c c' /\ same_reqs c c'.

Lemma same_reqs_ok c c' : same_reqs c c' -> conn_reqs c -> conn_reqs c' /\ reqs c' = reqs c.
Proof. intros (E1 & E2 & E3) []. unfold reqs in *. split; [split; unfold reqs; rewrite ?E1, ?E2, ?E3; done|by rewrite E1]. Qed.

(** A connection with nothing requested is removed. *)
Lemma Reqs_removed w w' id c : Reqs w -> w_conns w !! id = Some c -> reqs c = [] ->
  w_conns w' = delete id (w_conns w) -> w_requestState w' = w_requestState w -> Reqs w'.
Proof.
  intros [H1 H2 H3 H4] Hid Er E1 E2. split; rewrite ?E1, ?E2.
  - intros j cj [_ Hj]%lookup_delete_Some. by apply (H1 j).
  - intros j cj r [_ Hj]%lookup_delete_Some. by apply (H2 j).
  - intros r s Hs. destruct (H3 r s Hs) as (cj & Hj & Hr). exists cj. rewrite lookup_delete_ne; [done|].
    intros E. rewrite <-E, Hid in Hj. injection Hj as <-. rewrite Er in Hr. by apply not_elem_of_nil in Hr.
  - done.
Qed.

(** A connection with nothing requested is added. *)
Lemma Reqs_added w w' id c : Reqs w -> w_conns w !! id = None -> conn_reqs c -> reqs c = [] ->
  w_conns w' = <[id := c]> (w_conns w) -> w_requestState w' = w_requestState w -> Reqs w'.
Proof.
  intros [H1 H2 H3 H4] Hid Hc Er E1 E2. split; rewrite ?E1, ?E2.
  - intros j cj [[_ <-]|[_ Hj]]%lookup_insert_Some; [done|by apply (H1 j)].
  - intros j cj r [[_ <-]|[_ Hj]]%lookup_insert_Some Hr; [rewrite Er in Hr; by apply not_elem_of_nil in Hr|by apply (H2 j cj)].
  - intros r s Hs. destruct (H3 r s Hs) as (cj & Hj & Hr). exists cj. rewrite lookup_insert_ne; [done|]. intros E. congruence.
  - done.
Qed.

Lemma Reqs_frame w w' : w_conns w' = w_conns w -> w_requestState w' = w_requestState w -> Reqs w -> Reqs w'.
Proof. intros E1 E2 []. split; rewrite ?E1, ?E2; done. Qed.

Lemma Reqs_none w : Reqs w -> w_conns w = ∅ -> w_requestState w = ∅.
Proof.
  intros [_ _ H _] E. apply map_empty. intros r. destruct (_ !! r) as [s|] eqn:Es; [|done]. destruct (H r s Es) as (c & Hc & _).
  by rewrite E, lookup_empty in Hc.
Qed.

(** Connections were told to update their requests. *)
Definition told (m m' : gmap nat PeerConn) : Prop :=
  forall id, option_Forall2 (fun c c' => exists u, c' = c <| pc_needRequestUpdate := u |>) (m !! id) (m' !! id).

Definition tells (w w' : World) : Prop := exists cs, w' = w <| w_conns := cs |> /\ told (w_conns w) cs.

Lemma told_refl m : told m m.
Proof. intros id. destruct (m !! id) as [c|]; constructor. exists (pc_needRequestUpdate c). by destruct c. Qed.

Lemma told_trans m1 m2 m3 : told m1 m2 -> told m2 m3 -> told m1 m3.
Proof.
  intros H1 H2 id. specialize (H1 id). specialize (H2 id). destruct H1 as [c1 c2 [u ->]|]; [|done].
  inversion H2 as [x c3 [u' ->]|]; subst. constructor. by exists u'.
Qed.

Lemma told_like m m' : told m m' -> like m m'.
Proof. intros H id. destruct (H id) as [c c' [u ->]|]; by constructor. Qed.

Lemma tells_refl w : tells w w.
Proof. exists (w_conns w). split; [by destruct w|apply told_refl]. Qed.

Lemma tells_trans w1 w2 w3 : tells w1 w2 -> tells w2 w3 -> tells w1 w3.
Proof. intros (cs & -> & H) (cs' & -> & H'). exists cs'. split; [done|]. by eapply told_trans. Qed.

Lemma told_at m m' id c' : told m m' -> m' !! id = Some c' -> exists c u, m !! id = Some c /\ c' = c <| pc_needRequestUpdate := u |>.
Proof. intros H E. specialize (H id). rewrite E in H. inversion H as [c ? [u ->] Ec|]; subst. by exists c, u. Qed.

Lemma told_from m m' id c : told m m' -> m !! id = Some c -> exists u, m' !! id = Some (c <| pc_needRequestUpdate := u |>).
Proof. intros H E. specialize (H id). rewrite E in H. inversion H as [c0 c' [u ->] E0 Ec|]; subst. by exists u. Qed.

Lemma Reqs_told w cs : told (w_conns w) cs -> Reqs w -> Reqs (w <| w_conns := cs |>).
Proof.
  intros Ht [H1 H2 H3 H4]. split; cbn; cbv [RecordSettersUsingExistingGetters.const].
  - intros id c' (c & u & Hc & ->)%(told_at _ _ _ _ Ht). by destruct (H1 id c Hc).
  - intros id c' r (c & u & Hc & ->)%(told_at _ _ _ _ Ht). intros Hr. exact (H2 id c r Hc Hr).
  - intros r s Hs. destruct (H3 r s Hs) as (c & Hc & Hr). destruct (told_from _ _ _ _ Ht Hc) as [u Hu]. by eexists.
  - exact H4.
Qed.

Lemma onNeed_tells w id c reason : w_conns w !! id = Some c -> wp (onNeedUpdateRequests id reason) (fun _ w' => tells w w') w.
Proof.
  intros Hid. unfold onNeedUpdateRequests. apply wp_bind. unfold wp at 1. rewrite (conn_run w id c Hid).
  destruct (pc_needRequestUpdate c); [apply wp_ret, tells_refl|]. unfold wp. rewrite (set_conn_run w id c _ Hid).
  eexists. split; [done|]. intros id'. destruct (decide (id' = id)) as [->|Hne].
  - rewrite Hid, lookup_insert_eq. constructor. by eexists.
  - rewrite lookup_insert_ne by done. apply told_refl.
Qed.

Lemma each_tells (f : nat -> op unit) ids w :
  (forall id w', w_haveInfo w' = w_haveInfo w -> wp (f id) (fun _ w'' => tells w' w'') w') -> wp (for_each f ids) (fun _ w' => tells w w') w.
Proof.
  intros Hf. apply (wp_for_each f ids (fun _ w' => tells w w')); [apply tells_refl|]. intros pre id post w' _ Hw'.
  eapply wp_mono; [apply Hf; by destruct Hw' as (cs & -> & _)|]. cbn beta. intros ? w''. by apply tells_trans.
Qed.

(** After the step, connection [id] is [c']. *)
Definition now_is (w : World) (id : nat) (c' : PeerConn) (w' : World) : Prop :=
  asked w w' /\ Reqs w' /\ w_requestState w' = w_requestState w /\ w_conns w' = <[id := c']> (w_conns w).

Lemma set_unasked w id c f : Reqs w -> w_conns w !! id = Some c -> unasked c (f c) ->
  wp (set_conn id f) (fun _ w' => now_is w id (f c) w') w.
Proof.
  intros HR Hid Hu. unfold wp. rewrite (set_conn_run w id c f Hid).
  destruct (same_reqs_ok c (f c) (proj2 Hu) (rq_conns w HR id c Hid)) as [Hc Er].
  split; [exact (asked_set w id c (f c) (w_requestState w) Hid (proj1 Hu) (reflexivity _))|]. split; [by eapply (Reqs_same w _ id c (f c))|done].
Qed.

Lemma write_wp w id c msg m : Reqs w -> w_conns w !! id = Some c ->
  writeToBuffer msg (pc_writeBuffer c) = Some (pc_writeBuffer c ++ m) ->
  wp (write id msg) (fun more w' => now_is w id (c <| pc_writeBuffer := pc_writeBuffer c ++ m |>) w' /\
    more = negb (writeBufferFull (pc_writeBuffer c ++ m))) w.
Proof.
  intros HR Hid Hm. unfold write. apply wp_bind. unfold wp at 1. rewrite (conn_run w id c Hid). apply wp_bind. eapply wp_lift; [done|].
  apply wp_bind. eapply wp_mono; [by apply (set_unasked w id c)|]. cbn beta. intros ? w' Hn. by apply wp_ret.
Qed.

(** Connection [id] was changed in ways that do not matter. *)
Definition stays (w : World) (id : nat) (c : PeerConn) (w' : World) : Prop := exists c', unasked c c' /\ now_is w id c' w'.

Lemma stays_refl w id c : Reqs w -> w_conns w !! id = Some c -> stays w id c w.
Proof.
  intros HR Hid. exists c. split; [done|]. split; [apply asked_refl|]. split; [done|]. split; [done|]. by rewrite insert_id.
Qed.

Lemma stays_at w id c w' : stays w id c w' -> exists c', w_conns w' !! id = Some c' /\ unasked c c'.
Proof. intros (c' & Hu & _ & _ & _ & E). exists c'. by rewrite E, lookup_insert_eq. Qed.

Lemma unasked_trans c1 c2 c3 : unasked c1 c2 -> unasked c2 c3 -> unasked c1 c3.
Proof.
  intros (K1 & E1 & E2 & E3) (K2 & F1 & F2 & F3). split; [by eapply kept_trans|]. split; [congruence|]. split; congruence.
Qed.

Lemma stays_trans w1 id c1 w2 c2 w3 : w_conns w2 !! id = Some c2 -> stays w1 id c1 w2 -> stays w2 id c2 w3 -> stays w1 id c1 w3.
Proof.
  intros H2 (c & U1 & A1 & R1 & Q1 & E1) (c' & U2 & A2 & R2 & Q2 & E2). rewrite E1, lookup_insert_eq in H2. injection H2 as <-.
  exists c'. split; [by eapply unasked_trans|]. split; [by eapply asked_trans|]. split; [done|]. split; [congruence|].
  by rewrite E2, E1, insert_insert_eq.
Qed.

Lemma stays_asked w id c w' : stays w id c w' -> asked w w' /\ Reqs w' /\ w_requestState w' = w_requestState w.
Proof. by intros (c' & _ & ? & ? & ? & _). Qed.

Lemma set_stays w id c f : Reqs w -> w_conns w !! id = Some c -> unasked c (f c) ->
  wp (set_conn id f) (fun _ w' => stays w id c w') w.
Proof. intros HR Hid Hu. eapply wp_mono; [by apply (set_unasked w id c)|]. cbn beta. intros ? w' Hn. by exists (f c). Qed.

Lemma write_stays w id c msg m : Reqs w -> w_conns w !! id = Some c ->
  writeToBuffer msg (pc_writeBuffer c) = Some (pc_writeBuffer c ++ m) -> wp (write id msg) (fun _ w' => stays w id c w') w.
Proof.
  intros HR Hid Hm. eapply wp_mono; [by apply (write_wp w id c msg m)|]. cbn beta. intros ? w' [Hn _]. eexists. by split; [|exact Hn].
Qed.

Lemma onNeed_wp w id c reason : Reqs w -> w_conns w !! id = Some c ->
  wp (onNeedUpdateRequests id reason) (fun _ w' => stays w id c w') w.
Proof.
  intros HR Hid. unfold onNeedUpdateRequests. apply wp_bind. unfold wp at 1. rewrite (conn_run w id c Hid).
  destruct (pc_needRequestUpdate c); [by apply wp_ret, stays_refl|by apply set_stays].
Qed.

Lemma have_wp w id c i : Reqs w -> w_conns w !! id = Some c -> wp (have id i) (fun _ w' => stays w id c w') w.
Proof.
  intros HR Hid. unfold have. apply wp_bind. unfold wp at 1. rewrite (conn_run w id c Hid). unfold when.
  apply wp_if; intros _; [|by apply wp_ret, stays_refl]. apply wp_bind.
  destruct (write_index (set_Index (wrapU 32 i) (typeMessage mtHave)) (pc_writeBuffer c)) as (m & Em & _); [done..|].
  eapply wp_mono; [by apply (write_stays w id c _ m)|]. cbn beta. intros ? w1 Hs1. destruct (stays_at w id c w1 Hs1) as (c1 & Hid1 & _).
  eapply wp_mono; [apply (set_stays w1 id c1); [by apply (stays_asked w id c)|done|done]|]. cbn beta. intros ? w2 Hs2.
  by eapply stays_trans.
Qed.

Lemma reqs_range c r : conn_reqs c -> r ∈ reqs c -> 0 <= r < 2 ^ 32.
Proof. intros Hc. apply (h_range _ _ (cr_holds c Hc)). Qed.

Lemma reqs_NoDup c : conn_reqs c -> NoDup (reqs c).
Proof. intros Hc. apply (h_NoDup _ _ (cr_holds c Hc)). Qed.

Lemma filter_out_length (r : Z) l : NoDup l -> r ∈ l -> (length (filter (fun y => y <> r) l) + 1 = length l)%nat.
Proof.
  intros Hn (pre & post & ->)%list_elem_of_split. apply NoDup_app in Hn as (_ & Hd & [Hr _]%NoDup_cons).
  rewrite filter_app, filter_cons_False by naive_solver. rewrite !filter_all, !length_app; [cbn; lia| |];
    apply Forall_forall; intros x Hx ->; [done|]. apply (Hd r Hx). by left.
Qed.

(** Request [r] is no longer one of connection [id]'s. *)
Definition lost (w : World) (id : nat) (c : PeerConn) (r : Z) (w' : World) : Prop :=
  asked w w' /\ Reqs w' /\ w_requestState w' = delete r (w_requestState w) /\
  exists c', w_conns w' = <[id := c']> (w_conns w) /\ reqs c' = filter (fun y => y <> r) (reqs c).

Lemma removed_reqs c r o' : conn_reqs c -> holds o' (filter (fun y => y <> r) (reqs c)) ->
  reqs (c <| pc_Requests := o' |>) = filter (fun y => y <> r) (reqs c) /\ conn_reqs (c <| pc_Requests := o' |>).
Proof.
  intros [H1 H2 H3 H4 H5] Ho. pose proof (h_values _ _ Ho) as E. split; [done|].
  change (reqs (c <| pc_Requests := o' |>)) with (ob_Iterate o').
  split; change (reqs (c <| pc_Requests := o' |>)) with (ob_Iterate o'); rewrite E.
  - done.
  - intros x [_ Hx]%list_elem_of_filter. auto.
  - intros x Hx [_ Hin]%list_elem_of_filter. by apply (H3 x).
  - intros x. specialize (H4 x). change (pc_Cancelled (c <| pc_Requests := o' |>)) with (pc_Cancelled c).
    change (pc_validReceiveChunks (c <| pc_Requests := o' |>)) with (pc_validReceiveChunks c).
    destruct (decide (x ∈ filter (fun y => y <> r) (reqs c))) as [Hx|Hx].
    + rewrite bool_decide_true by done. apply list_elem_of_filter in Hx as [_ Hx]. rewrite (bool_decide_true _ Hx) in H4. done.
    + rewrite bool_decide_false by done. destruct (bool_decide (x ∈ reqs c)); cbn in *; lia.
  - change (pc_Cancelled (c <| pc_Requests := o' |>)) with (pc_Cancelled c). pose proof (length_filter (fun y => y <> r) (reqs c)). lia.
Qed.

Lemma deleteRequest_wp w id c r : Reqs w -> w_conns w !! id = Some c -> 0 <= r < 2 ^ 32 ->
  wp (deleteRequest id r) (fun ok w' => ok = bool_decide (r ∈ reqs c) /\ exists o',
    let c' := c <| pc_Requests := o' |> in
    reqs c' = filter (fun y => y <> r) (reqs c) /\ asked w w' /\ Reqs w' /\ w_conns w' = <[id := c']> (w_conns w) /\
    w_requestState w' = if ok then delete r (w_requestState w) else w_requestState w) w.
Proof.
  intros HR Hid Hr. pose proof (rq_conns w HR id c Hid) as Hc. unfold deleteRequest.
  apply wp_bind. unfold wp at 1. rewrite (conn_run w id c Hid).
  destruct (ob_CheckedRemove_holds _ _ r (cr_holds c Hc) Hr) as (o' & Eo & Ho). destruct (removed_reqs c r o' Hc Ho) as [Er Hc'].
  apply wp_bind. eapply wp_lift; [exact Eo|]. cbn [fst snd]. apply wp_bind. unfold wp at 1. rewrite (set_conn_run w id c _ Hid).
  set (c' := c <| pc_Requests := o' |>) in *. set (w1 := w <| w_conns := _ |>).
  destruct (decide (r ∈ reqs c)) as [Hin|Hin]; [rewrite bool_decide_true by done|rewrite bool_decide_false by done]; cbn [negb].
  - destruct (rq_owned w HR id c r Hid Hin) as (s & Es & Ep). unfold requestingPeer. apply wp_bind, wp_gets.
    change (w_requestState w1) with (w_requestState w). rewrite Es. cbn [fmap option_fmap option_map]. rewrite Ep, bool_decide_true by done. cbn [negb].
    apply wp_bind, wp_modify, wp_ret. split; [done|]. exists o'. split; [done|].
    split; [exact (asked_set w id c c' (delete r (w_requestState w)) Hid (kept_refl c) (delete_subseteq _ _))|]. split; [|done].
    by eapply (Reqs_gone w _ id c c' r).
  - apply wp_ret. split; [done|]. exists o'. split; [done|].
    split; [exact (asked_set w id c c' (w_requestState w) Hid (kept_refl c) (reflexivity _))|]. split; [|done].
    eapply (Reqs_same w _ id c c'); try done. rewrite Er, filter_all; [done|]. apply Forall_forall. by intros x Hx ->.
Qed.

(** The request just taken back is remembered as cancelled. *)
Lemma cancelled_reqs c c' r b : conn_reqs c -> conn_reqs c' -> 0 <= r < 2 ^ 32 -> r ∈ reqs c ->
  reqs c' = filter (fun y => y <> r) (reqs c) -> pc_Cancelled c' = pc_Cancelled c ->
  pc_validReceiveChunks c' = pc_validReceiveChunks c -> rb_elems b = {[r]} ∪ rb_elems (pc_Cancelled c) ->
  conn_reqs (c' <| pc_Cancelled := b |>).
Proof.
  intros Hc Hc' Hr Hin Er Ec Ev Eb. destruct Hc' as [H1 H2 H3 H4 H5].
  split; change (reqs (c' <| pc_Cancelled := b |>)) with (reqs c'); change (pc_Cancelled (c' <| pc_Cancelled := b |>)) with b; try done.
  - intros x. rewrite Eb, elem_of_union, elem_of_singleton. intros [->|Hx]; [|apply H3; by rewrite Ec].
    rewrite Er. intros [? _]%list_elem_of_filter. done.
  - intros x. specialize (H4 x). change (pc_validReceiveChunks (c' <| pc_Cancelled := b |>)) with (pc_validReceiveChunks c').
    rewrite Eb. destruct (decide (x = r)) as [->|Hne].
    + rewrite (bool_decide_true (r ∈ {[r]} ∪ _)) by set_solver. rewrite bool_decide_false by (rewrite Er; by intros [? _]%list_elem_of_filter).
      pose proof (cr_expected c Hc r) as Hx. rewrite (bool_decide_true (r ∈ reqs c)) in Hx by done.
      rewrite Ev. destruct (bool_decide (r ∈ rb_elems (pc_Cancelled c))); cbn in *; lia.
    + rewrite (bool_decide_ext (x ∈ {[r]} ∪ _) (x ∈ rb_elems (pc_Cancelled c'))) by (rewrite Ec; set_solver). done.
  - pose proof (cr_max c Hc). pose proof (filter_out_length r (reqs c) (reqs_NoDup c Hc) Hin). rewrite Eb, Er, size_union_alt, size_singleton.
    pose proof (subseteq_size (rb_elems (pc_Cancelled c) ∖ {[r]}) (rb_elems (pc_Cancelled c)) ltac:(set_solver)). lia.
Qed.

Lemma handleCancel_wp w id c c0 r : Reqs w -> w_conns w !! id = Some c -> conn_reqs c0 -> r ∈ reqs c0 ->
  reqs c = filter (fun y => y <> r) (reqs c0) -> pc_Cancelled c = pc_Cancelled c0 -> pc_validReceiveChunks c = pc_validReceiveChunks c0 ->
  wp (handleCancel e id r) (fun _ w' => asked w w' /\ Reqs w' /\ w_requestState w' = w_requestState w /\
    exists c', w_conns w' = <[id := c']> (w_conns w) /\ reqs c' = reqs c) w.
Proof.
  intros HR Hid Hc0 Hr Er Ec Ev. pose proof (reqs_range c0 r Hc0 Hr) as Hrg. destruct (cr_valid c0 Hc0 r Hr) as [req Ereq]. unfold handleCancel.
  apply wp_bind. eapply wp_lift; [exact Ereq|]. apply wp_bind.
  destruct (write_request (makeCancelMessage req) (pc_writeBuffer c)) as (m & Em & _); [done..|].
  eapply wp_mono; [by apply (write_stays w id c _ m)|]. cbn beta. intros ? w1 (c1 & Hu & Ha & HR1 & Eq & E1). pose proof Hu as (Hk & F1 & F2 & F3).
  assert (w_conns w1 !! id = Some c1) as Hid1 by (by rewrite E1, lookup_insert_eq).
  assert (reqs c1 = reqs c) as Er1 by (unfold reqs; by rewrite F1).
  apply wp_bind. unfold wp at 1. rewrite (conn_run w1 id c1 Hid1). unfold when. apply wp_if; intros _.
  2:{ apply wp_ret. split; [done|]. split; [done|]. split; [done|]. by exists c1. }
  unfold tb_CheckedAdd. rewrite rb_CheckedAdd_ok, wrapU_small by done.
  assert (r ∉ rb_elems (pc_Cancelled c1)) as Hnot by (rewrite F2, Ec; intros Hx; by apply (cr_cancelled c0 Hc0 r Hx)).
  rewrite bool_decide_true by done. cbn [negb]. unfold wp. rewrite (set_conn_run w1 id c1 _ Hid1).
  set (b := (rb_CheckedAdd r (pc_Cancelled c1)).1). assert (rb_elems b = {[r]} ∪ rb_elems (pc_Cancelled c0)) as Eb.
  { unfold b. by rewrite rb_CheckedAdd_elems, F2, Ec. }
  set (c2 := c1 <| pc_Cancelled := b |>).
  assert (conn_reqs c2) as Hc2.
  { apply (cancelled_reqs c0 c1 r b); try done; [by apply (rq_conns w1 HR1 id)|congruence..]. }
  split; [eapply asked_trans; [exact Ha|exact (asked_set w1 id c1 c2 (w_requestState w1) Hid1 (kept_refl c1) (reflexivity _))]|].
  split; [by eapply (Reqs_same w1 _ id c1 c2)|]. split; [done|]. exists c2. split; [|done].
  change (<[id := c2]> (w_conns w1) = <[id := c2]> (w_conns w)). by rewrite E1, insert_insert_eq.
Qed.

Lemma cancel_wp w id c r : Reqs w -> w_conns w !! id = Some c -> r ∈ reqs c -> wp (cancel e id r) (fun _ w' => lost w id c r w') w.
Proof.
  intros HR Hid Hr. pose proof (rq_conns w HR id c Hid) as Hc. pose proof (reqs_range c r Hc Hr) as Hrg. unfold cancel. apply wp_bind.
  eapply wp_mono; [by apply (deleteRequest_wp w id c r)|]. cbn beta. intros ok w1 (-> & o' & Er & Ha1 & HR1 & E1 & Es1).
  rewrite bool_decide_true in * by done. cbn [negb]. set (c1 := c <| pc_Requests := o' |>) in *.
  assert (w_conns w1 !! id = Some c1) as Hid1 by (by rewrite E1, lookup_insert_eq).
  apply wp_bind. eapply wp_mono; [by apply (handleCancel_wp w1 id c1 c r)|]. cbn beta. intros ? w2 (Ha2 & HR2 & Es2 & c2 & E2 & Er2).
  assert (w_conns w2 !! id = Some c2) as Hid2 by (by rewrite E2, lookup_insert_eq).
  apply wp_bind. unfold decPeakRequests. eapply wp_mono; [by apply (set_stays w2 id c2)|]. cbn beta. intros ? w3 Hs3.
  destruct (stays_at w2 id c2 w3 Hs3) as (c3 & Hid3 & _). pose proof (stays_asked _ _ _ _ Hs3) as (_ & HR3 & _).
  assert (forall w', stays w3 id c3 w' -> lost w id c r w') as Hend.
  { intros w' Hs4. pose proof (stays_trans _ _ _ _ _ _ Hid3 Hs3 Hs4) as (c' & Hu & Ha' & HR' & Es' & E').
    split; [eapply asked_trans; [exact Ha1|]; by eapply asked_trans|]. split; [done|]. split; [congruence|]. exists c'.
    split; [by rewrite E', E2, E1, !insert_insert_eq|]. destruct Hu as (_ & F & _). unfold reqs in *. rewrite F. congruence. }
  apply wp_bind. unfold wp at 1. rewrite (conn_run w3 id c3 Hid3). unfold when. apply wp_if; intros _.
  - eapply wp_mono; [by apply (onNeed_wp w3 id c3)|]. cbn beta. intros ? w'. apply Hend.
  - by apply wp_ret, Hend, stays_refl.
Qed.

Lemma cancelRequest_wp w r : Reqs w ->
  wp (cancelRequest e r) (fun _ w' => asked w w' /\ Reqs w' /\ w_requestState w' = delete r (w_requestState w) /\
    forall id, rq_peer <$> w_requestState w !! r <> Some id -> w_conns w' !! id = w_conns w !! id) w.
Proof.
  intros HR. unfold cancelRequest, requestingPeer. apply wp_bind, wp_gets, wp_bind.
  destruct (w_requestState w !! r) as [s|] eqn:Es; cbn [fmap option_fmap option_map].
  - destruct (rq_owner w HR r s Es) as (c & Hid & Hr). eapply wp_mono; [by apply (cancel_wp w _ c)|].
    cbn beta. intros ? w' (Ha & HR' & E & c' & Ec & _). apply wp_bind, wp_gets. rewrite E, lookup_delete_eq. apply wp_ret.
    split; [done|]. split; [done|]. split; [done|]. intros id Hne. rewrite Ec, lookup_insert_ne by congruence. done.
  - apply wp_ret, wp_bind, wp_gets. rewrite Es. apply wp_ret. split; [apply asked_refl|]. split; [done|]. by rewrite delete_id.
Qed.

Lemma cancelPiece_wp w i : Reqs w -> is_Some (pieceNumChunks L i) ->
  wp (cancelRequestsForPiece e i) (fun _ w' => asked w w' /\ Reqs w') w.
Proof.
  intros HR [k Ek]. unfold cancelRequestsForPiece. apply wp_bind. eapply wp_lift; [exact Ek|].
  eapply wp_mono; [apply (wp_for_each _ _ (fun _ w' => asked w w' /\ Reqs w'))|by intros ? w'].
  - split; [apply asked_refl|done].
  - intros pre r post w1 _ [Ha1 HR1]. apply wp_bind. eapply wp_mono; [by apply cancelRequest_wp|]. cbn beta.
    intros ? w2 (Ha2 & HR2 & _). apply wp_ret. split; [by eapply asked_trans|done].
Qed.

(** ** All requests of a connection *)

(** All requests of connection [id] are gone. *)
Definition idle (w : World) (id : nat) (w' : World) : Prop :=
  asked w w' /\ Reqs w' /\ exists c', w_conns w' = <[id := c']> (w_conns w) /\ reqs c' = [].

(** Taking back the requests of a connection one by one. *)
Lemma each_request w id c (f : Z -> op unit) :
  Reqs w -> w_conns w !! id = Some c ->
  (forall w1 c1 r, Reqs w1 -> w_conns w1 !! id = Some c1 -> r ∈ reqs c1 -> wp (f r) (fun _ w' => lost w1 id c1 r w') w1) ->
  wp (for_each f (ob_IterateSnapshot (pc_Requests c));; assertNoRequests id) (fun _ w' => idle w id w') w.
Proof.
  intros HR Hid Hf. pose proof (rq_conns w HR id c Hid) as Hc. destruct (ob_Snapshot_holds _ _ (cr_holds c Hc)) as [Hp _]. apply wp_bind.
  eapply wp_mono; [apply (wp_for_each _ _ (fun pre w' => asked w w' /\ Reqs w' /\
    exists c', w_conns w' = <[id := c']> (w_conns w) /\ reqs c' = filter (fun y => y ∉ pre) (reqs c)))|].
  - split; [apply asked_refl|]. split; [done|]. exists c. split; [by rewrite insert_id|].
    rewrite filter_all; [done|]. apply Forall_forall. intros x _. apply not_elem_of_nil.
  - intros pre r post w1 El (Ha1 & HR1 & c1 & E1 & Er1).
    assert (NoDup (pre ++ r :: post)) as Hn by (rewrite <-El, Hp; by apply reqs_NoDup). apply NoDup_app in Hn as (_ & Hd & _).
    assert (r ∈ reqs c) as Hr by (rewrite <-Hp, El; set_solver).
    eapply wp_mono; [apply (Hf w1 c1 r HR1); [by rewrite E1, lookup_insert_eq|]|].
    + rewrite Er1. apply list_elem_of_filter. split; [|done]. intros Hin. apply (Hd r Hin). by left.
    + cbn beta. intros ? w2 (Ha2 & HR2 & _ & c2 & E2 & Er2). split; [by eapply asked_trans|]. split; [done|]. exists c2.
      split; [by rewrite E2, E1, insert_insert_eq|]. rewrite Er2, Er1, list_filter_filter. apply filter_ext_in, Forall_forall.
      intros x _. rewrite elem_of_app, list_elem_of_singleton. naive_solver.
  - cbn beta. intros ? w1 (Ha1 & HR1 & c1 & E1 & Er1). assert (reqs c1 = []) as E.
    { rewrite Er1. apply filter_none, Forall_forall. intros x Hx Hn. apply Hn. by rewrite Hp. }
    assert (w_conns w1 !! id = Some c1) as Hid1 by (by rewrite E1, lookup_insert_eq).
    unfold assertNoRequests. apply wp_bind. unfold wp at 1. rewrite (conn_run w1 id c1 Hid1).
    rewrite (ob_IsEmpty_holds _ _ (cr_holds c1 (rq_conns w1 HR1 id c1 Hid1))), E. cbn [negb bool_decide]. apply wp_ret.
    split; [done|]. split; [done|]. by exists c1.
Qed.

Lemma deleteRequests_wp w id c : Reqs w -> w_conns w !! id = Some c -> wp (deleteRequests id) (fun _ w' => idle w id w') w.
Proof.
  intros HR Hid. unfold deleteRequests. apply wp_bind. unfold wp at 1. rewrite (conn_run w id c Hid).
  apply (each_request w id c); [done..|]. intros w1 c1 r HR1 Hid1 Hr. pose proof (rq_conns w1 HR1 id c1 Hid1) as Hc1.
  apply wp_bind. eapply wp_mono; [apply (deleteRequest_wp w1 id c1 r HR1 Hid1 (reqs_range c1 r Hc1 Hr))|]. cbn beta.
  intros ok w2 (-> & o' & Er & Ha & HR2 & E2 & Es). rewrite bool_decide_true in * by done. apply wp_ret.
  split; [done|]. split; [done|]. split; [done|]. by eexists.
Qed.

Lemma cancelAll_wp w id c : Reqs w -> w_conns w !! id = Some c -> wp (cancelAllRequests e id) (fun _ w' => idle w id w') w.
Proof.
  intros HR Hid. unfold cancelAllRequests. apply wp_bind. unfold wp at 1. rewrite (conn_run w id c Hid).
  apply (each_request w id c); [done..|]. intros w1 c1 r HR1 Hid1 Hr. by apply cancel_wp.
Qed.

(** An operation for each of the connections that are there. *)
Lemma each_conn w (f : nat -> op unit) ids :
  Reqs w -> (forall id, id ∈ ids -> is_Some (w_conns w !! id)) ->
  (forall w1 id c1, Reqs w1 -> w_conns w1 !! id = Some c1 -> wp (f id) (fun _ w' => asked w1 w' /\ Reqs w') w1) ->
  wp (for_each f ids) (fun _ w' => asked w w' /\ Reqs w') w.
Proof.
  intros HR Hids Hf. eapply wp_mono; [apply (wp_for_each _ _ (fun _ w' => asked w w' /\ Reqs w'))|by intros ? w'].
  - split; [apply asked_refl|done].
  - intros pre id post w1 -> [Ha1 HR1]. destruct (Hids id) as [c Hid]; [set_solver|].
    destruct (talked_conn w w1 id c (proj1 Ha1) Hid) as (c1 & Hid1 & _). eapply wp_mono; [by apply (Hf w1 id c1)|]. cbn beta.
    intros ? w2 [Ha2 HR2]. split; [by eapply asked_trans|done].
Qed.

Lemma tellIdle_wp w reason : (forall w l, e_range e w l ≡ₚ l) -> Reqs w -> wp (tellIdlePeers e reason) (fun _ w' => asked w w' /\ Reqs w') w.
Proof.
  intros Hrange HR. unfold tellIdlePeers, connIds. apply wp_bind, wp_gets. apply each_conn; [done| |].
  - intros id. by rewrite Hrange, elem_of_elements, elem_of_dom.
  - intros w1 id c1 HR1 Hid1. apply wp_bind. unfold wp at 1. rewrite (conn_run w1 id c1 Hid1). unfold when. apply wp_if; intros _.
    + eapply wp_mono; [by apply (onNeed_wp w1 id c1)|]. cbn beta. intros ? w' Hs. by apply stays_asked in Hs as (? & ? & _).
    + apply wp_ret. split; [apply asked_refl|done].
Qed.

(** ** Answers to requests *)

Lemma deleteRequest_run w id c r l : w_conns w !! id = Some c -> holds (pc_Requests c) l -> 0 <= r < 2 ^ 32 ->
  (r ∈ l -> rq_peer <$> w_requestState w !! r = Some id) ->
  exists o', holds o' (filter (fun y => y <> r) l) /\
    deleteRequest id r w = Ret (bool_decide (r ∈ l)) (w <| w_conns := <[id := c <| pc_Requests := o' |>]> (w_conns w) |>
      <| w_requestState := if bool_decide (r ∈ l) then delete r (w_requestState w) else w_requestState w |>).
Proof.
  intros Hid Hl Hr Hown. destruct (ob_CheckedRemove_holds _ _ r Hl Hr) as (o' & Eo & Ho). exists o'. split; [done|]. unfold deleteRequest.
  rewrite (bind_step _ _ _ _ _ (conn_run w id c Hid)). go_simpl. rewrite Eo. cbn [fst snd]. rewrite (set_conn_run w id c _ Hid).
  case_bool_decide as Hin; cbn [negb]; [|by destruct w]. unfold requestingPeer. go_simpl. rewrite (Hown Hin), bool_decide_true by done. done.
Qed.

Definition expected (c : PeerConn) (r : Z) : Z := default 0 (pc_validReceiveChunks c !! r).

(** One chunk less is expected. *)
Definition oneLess (c : PeerConn) (r : Z) : gmap Z Z :=
  if expected c r =? 1 then delete r (pc_validReceiveChunks c) else <[r := expected c r - 1]> (pc_validReceiveChunks c).

Lemma oneLess_expected c r x : default 0 (oneLess c r !! x) = if decide (x = r) then expected c r - 1 else expected c x.
Proof.
  unfold oneLess, expected. destruct (decide (x = r)) as [->|Hne].
  - destruct (Z.eqb_spec (default 0 (pc_validReceiveChunks c !! r)) 1) as [->|]; [by rewrite lookup_delete_eq|by rewrite lookup_insert_eq].
  - destruct (_ =? 1); [by rewrite lookup_delete_ne|by rewrite lookup_insert_ne].
Qed.

Lemma dec_run w id c r : w_conns w !! id = Some c -> 0 < expected c r ->
  decExpectedChunkReceive id r w = Ret tt (w <| w_conns := <[id := c <| pc_validReceiveChunks := oneLess c r |>]> (w_conns w) |>).
Proof.
  intros Hid He. unfold decExpectedChunkReceive. rewrite (bind_step _ _ _ _ _ (conn_run w id c Hid)). unfold oneLess. fold (expected c r).
  destruct (Z.eqb_spec (expected c r) 1) as [E|]; [by rewrite (set_conn_run w id c _ Hid)|].
  destruct (Z.gtb_spec (expected c r) 1); [by rewrite (set_conn_run w id c _ Hid)|lia].
Qed.

Lemma removeCancelled_run w id c r : w_conns w !! id = Some c -> 0 <= r < 2 ^ 32 ->
  exists b, rb_elems b = rb_elems (pc_Cancelled c) ∖ {[r]} /\
    removeCancelled id r w = Ret (bool_decide (r ∈ rb_elems (pc_Cancelled c))) (w <| w_conns := <[id := c <| pc_Cancelled := b |>]> (w_conns w) |>).
Proof.
  intros Hid Hr. exists (tb_CheckedRemove r (pc_Cancelled c)).1. unfold removeCancelled. rewrite (bind_step _ _ _ _ _ (conn_run w id c Hid)).
  unfold tb_CheckedRemove. rewrite wrapU_small by done. split; [by rewrite rb_CheckedRemove_elems|].
  rewrite (bind_step _ _ _ _ _ (set_conn_run w id c _ Hid)). by rewrite rb_CheckedRemove_ok.
Qed.

(** A request was answered: it is no longer outstanding, cancelled or expected. *)
Lemma answered_reqs c r o' b v : conn_reqs c -> holds o' (filter (fun y => y <> r) (reqs c)) ->
  rb_elems b = rb_elems (pc_Cancelled c) ∖ {[r]} -> (forall x, x <> r -> default 0 (v !! x) = expected c x) -> 0 <= default 0 (v !! r) ->
  let c' := c <| pc_Requests := o' |> <| pc_Cancelled := b |> <| pc_validReceiveChunks := v |> in
  conn_reqs c' /\ reqs c' = filter (fun y => y <> r) (reqs c).
Proof.
  intros [H1 H2 H3 H4 H5] Ho Eb Hv Hr c'. assert (reqs c' = filter (fun y => y <> r) (reqs c)) as E by apply (h_values _ _ Ho). split; [|done].
  split; rewrite ?E; try done; change (pc_Cancelled c') with b; change (pc_validReceiveChunks c') with v.
  - intros x [_ Hx]%list_elem_of_filter. auto.
  - intros x. rewrite Eb. intros [Hx _]%elem_of_difference [_ Hin]%list_elem_of_filter. by apply (H3 x).
  - intros x. rewrite Eb. destruct (decide (x = r)) as [->|Hne].
    + rewrite !bool_decide_false; [done|set_solver|]. by intros [? _]%list_elem_of_filter.
    + rewrite (Hv x Hne). specialize (H4 x). rewrite (bool_decide_ext (x ∈ filter _ _) (x ∈ reqs c)) by (rewrite list_elem_of_filter; naive_solver).
      by rewrite (bool_decide_ext (x ∈ _ ∖ _) (x ∈ rb_elems (pc_Cancelled c))) by set_solver.
  - pose proof (length_filter (fun y => y <> r) (reqs c)). rewrite Eb.
    pose proof (subseteq_size (rb_elems (pc_Cancelled c) ∖ {[r]}) (rb_elems (pc_Cancelled c)) ltac:(set_solver)). lia.
Qed.

(** The invariant once a request of a connection was answered. *)
Lemma Reqs_answered w w' id c c' r : Reqs w -> w_conns w !! id = Some c -> conn_reqs c' -> reqs c' = filter (fun y => y <> r) (reqs c) ->
  kept c c' -> w_conns w' = <[id := c']> (w_conns w) ->
  w_requestState w' = (if bool_decide (r ∈ reqs c) then delete r (w_requestState w) else w_requestState w) -> Reqs w'.
Proof.
  intros HR Hid Hc' Er Hk E1 E2. case_bool_decide as Hin; [by eapply (Reqs_gone w w' id c c' r)|].
  eapply (Reqs_same w w' id c c'); try done. rewrite Er, filter_all; [done|]. apply Forall_forall. by intros x Hx ->.
Qed.

Lemma requested_by w id c r : Reqs w -> w_conns w !! id = Some c -> r ∈ reqs c -> rq_peer <$> w_requestState w !! r = Some id.
Proof. intros HR Hid Hr. destruct (rq_owned w HR id c r Hid Hr) as (s & -> & <-). done. Qed.

(** What is left of a request of [id] that was answered. *)
Definition answered (w : World) (id : nat) (r : Z) (w' : World) : Prop :=
  asked w w' /\ Reqs w' /\ forall c', w_conns w' !! id = Some c' -> r ∉ reqs c'.

Lemma answered_stays w id r c w1 w' : answered w id r w1 -> w_conns w1 !! id = Some c -> stays w1 id c w' -> answered w id r w'.
Proof.
  intros (Ha & HR & Hn) Hid Hs. destruct (stays_asked _ _ _ _ Hs) as (Ha' & HR' & _). split; [by eapply asked_trans|]. split; [done|].
  intros c' Hc'. destruct (stays_at _ _ _ _ Hs) as (c2 & E2 & _ & Hsame). rewrite E2 in Hc'. injection Hc' as <-.
  destruct (same_reqs_ok c c2 Hsame (rq_conns _ HR id c Hid)) as [_ ->]. by apply Hn.
Qed.

Lemma cleared_wp w id c r (d : bool) : w_conns w !! id = Some c -> 0 <= r < 2 ^ 32 -> (d = true -> r ∉ rb_elems (pc_Cancelled c)) ->
  wp (if d then mret true else removeCancelled id r) (fun _ w' => exists b, rb_elems b = rb_elems (pc_Cancelled c) ∖ {[r]} /\
    w' = w <| w_conns := <[id := c <| pc_Cancelled := b |>]> (w_conns w) |>) w.
Proof.
  intros Hid Hr Hd. destruct d.
  - apply wp_ret. exists (pc_Cancelled c). split; [symmetry; apply difference_disjoint_L, disjoint_singleton_r; auto|].
    replace (c <| pc_Cancelled := pc_Cancelled c |>) with c by (by destruct c). rewrite insert_id by done. by destruct w.
  - destruct (removeCancelled_run w id c r Hid Hr) as (b & Eb & Er). unfold wp. rewrite Er. by exists b.
Qed.

Lemma checkReceivedChunk_wp w id c r : Reqs w -> w_conns w !! id = Some c -> 0 <= r < 2 ^ 32 ->
  wp (checkReceivedChunk id r) (fun ok w' => asked w w' /\ Reqs w' /\ (ok <> None -> answered w id r w')) w.
Proof.
  intros HR Hid Hr. pose proof (rq_conns w HR id c Hid) as Hc. unfold checkReceivedChunk. apply wp_bind. unfold wp at 1.
  rewrite (conn_run w id c Hid). fold (expected c r). destruct (Z.leb_spec (expected c r) 0) as [|He].
  { apply wp_ret. split; [apply asked_refl|done]. }
  apply wp_bind. unfold wp at 1. rewrite (dec_run w id c r Hid He).
  set (c1 := c <| pc_validReceiveChunks := oneLess c r |>). set (w1 := w <| w_conns := _ |>).
  assert (w_conns w1 !! id = Some c1) as Hid1 by apply lookup_insert_eq.
  destruct (deleteRequest_run w1 id c1 r (reqs c) Hid1 (cr_holds c Hc) Hr (requested_by w id c r HR Hid)) as (o' & Ho & Ed).
  apply wp_bind. unfold wp at 1. rewrite Ed. set (c2 := c1 <| pc_Requests := o' |>). set (w2 := w1 <| w_conns := _ |> <| w_requestState := _ |>).
  assert (w_conns w2 !! id = Some c2) as Hid2 by apply lookup_insert_eq. apply wp_bind.
  eapply wp_mono; [apply (cleared_wp w2 id c2 r); [done..|]|].
  { intros Hin Hx. apply bool_decide_eq_true in Hin. by apply (cr_cancelled c Hc r Hx). }
  cbn beta. intros intended w3 (b' & Eb' & Ew3). set (c3 := c2 <| pc_Cancelled := b' |>) in Ew3.
  assert (w_conns w3 = <[id := c3]> (w_conns w)) as E3.
  { rewrite Ew3. change (<[id := c3]> (<[id := c2]> (<[id := c1]> (w_conns w))) = <[id := c3]> (w_conns w)). by rewrite !insert_insert_eq. }
  destruct (answered_reqs c r o' b' (oneLess c r) Hc Ho Eb') as [Hc3 Er3].
  { intros x Hne. rewrite oneLess_expected. by destruct (decide (x = r)). }
  { rewrite oneLess_expected. destruct (decide (r = r)); [lia|done]. }
  change (conn_reqs c3) in Hc3. change (reqs c3 = filter (fun y => y <> r) (reqs c)) in Er3.
  assert (answered w id r w3) as H3.
  { split; [|split].
    - replace w3 with (w <| w_conns := <[id := c3]> (w_conns w) |> <| w_requestState := w_requestState w3 |>)
        by (rewrite <-E3, Ew3; by destruct w).
      apply (asked_set w id c c3); [done|done|]. rewrite Ew3.
      change ((if bool_decide (r ∈ reqs c) then delete r (w_requestState w) else w_requestState w) ⊆ w_requestState w).
      case_bool_decide; [apply delete_subseteq|done].
    - eapply (Reqs_answered w w3 id c c3 r); try done. by rewrite Ew3.
    - rewrite E3, lookup_insert_eq. intros c' [= <-]. rewrite Er3. by intros [? _]%list_elem_of_filter. }
  assert (w_conns w3 !! id = Some c3) as Hid3 by (by rewrite E3, lookup_insert_eq).
  apply wp_bind. unfold wp at 1. rewrite (conn_run w3 id c3 Hid3). apply wp_bind.
  assert (wp (when (intended && isLowOnRequests c3) (onNeedUpdateRequests id "Peer.receiveChunk deleted request")) (fun _ w' => answered w id r w') w3) as H4.
  { destruct (intended && isLowOnRequests c3); [|by apply wp_ret]. eapply wp_mono; [by apply (onNeed_wp w3 id c3); [apply H3|]|]. cbn beta.
    intros _ w4 Hs. by eapply answered_stays. }
  eapply wp_mono; [exact H4|]. cbn beta. intros _ w4 H5. apply wp_ret. split; [apply H5|]. split; [apply H5|done].
Qed.

Lemma expectLess_wp w id c r : Reqs w -> w_conns w !! id = Some c -> r ∉ reqs c -> r ∉ rb_elems (pc_Cancelled c) -> 0 < expected c r ->
  wp (decExpectedChunkReceive id r) (fun _ w' => asked w w' /\ Reqs w') w.
Proof.
  intros HR Hid Hr Hx He. pose proof (rq_conns w HR id c Hid) as Hc. unfold wp. rewrite (dec_run w id c r Hid He).
  assert (filter (fun y => y <> r) (reqs c) = reqs c) as Ef by (apply filter_all, Forall_forall; by intros y Hy ->).
  destruct (answered_reqs c r (pc_Requests c) (pc_Cancelled c) (oneLess c r) Hc) as [Hc' Er].
  { rewrite Ef. apply Hc. }
  { symmetry. by apply difference_disjoint_L, disjoint_singleton_r. }
  { intros x Hne. rewrite oneLess_expected. by destruct (decide (x = r)). }
  { rewrite oneLess_expected. destruct (decide (r = r)); [lia|done]. }
  set (c' := c <| pc_validReceiveChunks := oneLess c r |>). replace (_ <| pc_validReceiveChunks := _ |>) with c' in Hc' by (by destruct c).
  split; [exact (asked_set w id c c' (w_requestState w) Hid (kept_refl c) (reflexivity _))|].
  by eapply (Reqs_same w _ id c c').
Qed.

Lemma remoteRejected_wp w id c r : Reqs w -> w_conns w !! id = Some c -> 0 <= r < 2 ^ 32 ->
  wp (remoteRejectedRequest id r) (fun _ w' => asked w w' /\ Reqs w') w.
Proof.
  intros HR Hid Hr. pose proof (rq_conns w HR id c Hid) as Hc. unfold remoteRejectedRequest. apply wp_bind.
  eapply wp_mono; [by apply (deleteRequest_wp w id c r)|]. cbn beta. intros d w1 (-> & o' & Er & Ha1 & HR1 & E1 & _).
  set (c1 := c <| pc_Requests := o' |>) in *. assert (w_conns w1 !! id = Some c1) as Hid1 by (by rewrite E1, lookup_insert_eq).
  apply wp_bind. apply (wp_mono _ (fun valid w2 => exists c2, asked w w2 /\ Reqs w2 /\ w_conns w2 !! id = Some c2 /\
    (valid = true -> r ∉ reqs c2 /\ r ∉ rb_elems (pc_Cancelled c2) /\ 0 < expected c2 r))).
  { pose proof (cr_expected c Hc r) as He. case_bool_decide as Hin.
    - apply wp_bind. eapply wp_mono; [by apply (set_unasked w1 id c1)|]. cbn beta. intros _ w2 (Ha2 & HR2 & _ & E2). apply wp_ret.
      exists (c1 <| pc_peakRequests := sub64 (pc_peakRequests c1) 1 |>). split; [by eapply asked_trans|]. split; [done|].
      split; [by rewrite E2, lookup_insert_eq|]. intros _. change (r ∉ reqs c1 /\ r ∉ rb_elems (pc_Cancelled c) /\ 0 < expected c r).
      rewrite Er. split; [by intros [? _]%list_elem_of_filter|]. split; [intros Hx; by apply (cr_cancelled c Hc r Hx)|].
      unfold expected. destruct (bool_decide (r ∈ rb_elems (pc_Cancelled c))); cbn in He; lia.
    - destruct (removeCancelled_run w1 id c1 r Hid1 Hr) as (b & Eb & Ev). unfold wp. rewrite Ev. set (c2 := c1 <| pc_Cancelled := b |>).
      pose proof (rq_conns w1 HR1 id c1 Hid1) as Hc1. destruct (answered_reqs c1 r o' b (pc_validReceiveChunks c1) Hc1) as [Hc2 Er2]; [|done|done|specialize (cr_expected c1 Hc1 r); destruct (bool_decide (r ∈ reqs c1)), (bool_decide (r ∈ rb_elems (pc_Cancelled c1))); cbn; lia|].
      { rewrite filter_all; [apply Hc1|]. apply Forall_forall. intros y Hy ->. rewrite Er in Hy. by apply list_elem_of_filter in Hy as [? _]. }
      replace (_ <| pc_validReceiveChunks := _ |>) with c2 in Hc2, Er2 by (by destruct c).
      exists c2. split; [eapply asked_trans; [exact Ha1|]; exact (asked_set w1 id c1 c2 (w_requestState w1) Hid1 (kept_refl c1) (reflexivity _))|].
      split; [eapply (Reqs_same w1 _ id c1 c2); try done|]. split; [apply lookup_insert_eq|]. intros Hx%bool_decide_eq_true. 
      split; [rewrite Er2; by intros [? _]%list_elem_of_filter|]. change (pc_Cancelled c2) with b. split; [set_solver|].
      change (0 < expected c r). change (pc_Cancelled c1) with (pc_Cancelled c) in Hx. rewrite (bool_decide_true (r ∈ rb_elems _)) in He by done.
      unfold expected. cbn in He. lia. }
  intros valid w2 (c2 & Ha2 & HR2 & Hid2 & Hv). destruct valid; cbn [negb]; [|by apply wp_ret].
  destruct (Hv eq_refl) as (Hr2 & Hx2 & He2). apply wp_bind. unfold wp at 1. rewrite (conn_run w2 id c2 Hid2). apply wp_bind.
  apply (wp_mono _ (fun _ w3 => stays w2 id c2 w3)).
  { destruct (isLowOnRequests c2); [by apply onNeed_wp|by apply wp_ret, stays_refl]. }
  intros _ w3 Hs. destruct (stays_asked _ _ _ _ Hs) as (Ha3 & HR3 & _). destruct (stays_at _ _ _ _ Hs) as (c3 & Hid3 & _ & S1 & S2 & S3).
  apply wp_bind. eapply wp_mono; [apply (expectLess_wp w3 id c3 r HR3 Hid3)|].
  { unfold reqs. by rewrite S1. }
  { by rewrite S2. }
  { unfold expected. by rewrite S3. }
  cbn beta. intros _ w4 [Ha4 HR4]. apply wp_ret. split; [|done]. eapply asked_trans; [exact Ha2|]. by eapply asked_trans.
Qed.

End RequestTheory.
