(* ===== verification/Pieces.v ===== *)
(** * The pieces of a torrent ([src/torrent.go], [src/piece.go], [src/torrent-piece-request-order.go])

    What a torrent knows of each piece once it has its info: priorities given to pieces, files
    and by readers, completion as cached from the storage, hashing, and availability; what its
    peers say they have ([src/peerconn.go], [src/peer.go], [src/webseed-peer.go]); the bitmap of
    pending pieces and the piece request order derived from it; and the goroutines that hash
    pieces.  The operations are the critical sections of the client lock; a goroutine that
    releases the lock in the middle is cut there.

    Publishing state changes and banning peers are not modelled.  Connections are told to update
    their requests as the code tells them; scheduling the requests of web seeds is not modelled.
    A panic is [Panic tt]. *)

From coqutil Require Import Datatypes.RecordSettersUsingExistingGetters.
From S2P Require Import Prelude Segments Metainfo PeerProtocol Types Bitmap OrderedBitmap Multiless RequestOrder Chunks World RequestState.
Local Open Scope Z_scope.

Section Pieces.
Context {ML : Multiless} {AJ : AjwernerSet} {RB : Roaring} {GL : GenericList}.

(** ** [internal/amortize] *)

(** [Atomic.Try] on the global counters. *)
Definition Try : op bool :=
  modify (fun w => w <| w_herp := w_herp w + 1 |>);;
  m ← gets w_herp;
  shift ← gets w_derp;
  if m >=? Z.shiftl 1 shift then modify (fun w => w <| w_derp := shift + 1 |>);; mret true
  else mret false.

Context (e : Env).
Notation L := (e_layout e).

(** ** Reading the state *)

Definition hasStorageCap (st : Storage) : bool :=
  match s_Capacity st with Some (_, Some _) => true | _ => false end.

Definition clientPieceRequestOrderKey (st : Storage) : orderKey :=
  match s_Capacity st with
  | None => RegularTorrentKey (e_id e)
  | Some (p, _) => SharedStorageTorrentKey p
  end.

Definition pieceRequestOrderKey (i : Z) : PieceRequestOrderKey :=
  {| key_InfoHash := e_shortHash e; key_Index := i |}.

Definition pieceComplete (i : Z) : op bool := gets (fun w => tb_Contains i (w_completed w)).

(** [Piece.availability] *)
Definition availability (i : Z) : op Z :=
  s ← state i; gets (fun w => Z.of_nat (size (w_connsWithAllPieces w)) + ps_relativeAvailability s).

Definition haveHash (i : Z) : op bool :=
  v1 ← lift (V1Hash (t_info L) i);
  match v1 with
  | Some _ => mret true
  | None =>
      layer ← lift (hasPieceLayer L i);
      if negb layer then mret true
      else s ← state i; mret (match ps_hashV2 s with Some _ => true | None => false end)
  end.

Definition raise_all (prios : list Z) (pp : Z) : Z := foldl (fun ret p => (Raise ret p).1) pp prios.

Definition purePriority (i : Z) : op Z :=
  b ← lift (beginFile L i);
  e' ← lift (endFile L i);
  fp ← gets w_filePrio;
  prios ← lift (mapM (at_ fp) (seqZ b (e' - b)));
  now ← gets (fun w => tb_Contains i (w_now w));
  ahead ← gets (fun w => tb_Contains i (w_readahead w));
  s ← state i;
  mret (raise_all (prios ++ (if now : bool then [PiecePriorityNow] else []) ++
                   (if ahead : bool then [PiecePriorityReadahead] else []) ++ [ps_priority s]) PiecePriorityNone).

Definition ignoreForRequests (i : Z) : op bool :=
  s ← state i;
  if negb (ps_storageCompletionOk s) then mret true
  else if ps_hashing s || ps_marking s then mret true
  else
    hh ← haveHash i;
    disallowed ← gets w_disallowed;
    if negb hh || disallowed then mret true
    else
      complete ← pieceComplete i;
      if complete : bool then mret true else gets (fun w => tb_Contains i (w_queued w)).

Definition effectivePriority (i : Z) : op Z :=
  ign ← ignoreForRequests i;
  if ign : bool then mret PiecePriorityNone else purePriority i.

Definition numDirtyChunks (i : Z) : op Z :=
  gets (fun w => wrapU 32 (tb_RangeCardinality (pieceRequestIndexBegin L i) (pieceRequestIndexBegin L (i + 1)) (w_dirty w))).

(** [Piece.allChunksDirty], [Torrent.pieceAllDirty] *)
Definition allChunksDirty (i : Z) : op bool :=
  d ← numDirtyChunks i; n ← lift (pieceNumChunks L i); mret (d =? n).

Definition piecePartiallyDownloaded (i : Z) : op bool :=
  complete ← pieceComplete i;
  if complete : bool then mret false
  else
    all ← allChunksDirty i;
    if all : bool then mret false else d ← numDirtyChunks i; mret (negb (d =? 0)).

Definition requestStrategyPieceOrderState (i : Z) : op PieceRequestOrderState :=
  prio ← purePriority i;
  partial ← piecePartiallyDownloaded i;
  avail ← availability i;
  mret {| st_Priority := prio; st_Partial := partial; st_Availability := avail |}.

(** ** The piece request order ([torrent-piece-request-order.go]) *)

Definition put_order (st : Storage) (pro : PieceRequestOrder aj_set) : op unit :=
  modify (fun w => w <| w_orders := <[clientPieceRequestOrderKey st := pro]> (w_orders w) |>).

Definition updatePieceRequestOrderPiece (i : Z) : op bool :=
  match e_storage e with
  | None => mret false
  | Some st =>
      orders ← gets w_orders;
      match orders !! clientPieceRequestOrderKey st with
      | None => mret false
      | Some pro =>
          let key := pieceRequestOrderKey i in
          if hasStorageCap st then
            s ← requestStrategyPieceOrderState i;
            r ← lift (Update key s pro);
            put_order st r.1;; mret r.2
          else
            ign ← ignoreForRequests i;
            if negb ign then
              newState ← requestStrategyPieceOrderState i;
              r ← lift (Add key newState pro);
              put_order st r.1;;
              mret (match r.2 with Some old => negb (bool_decide (old = newState)) | None => false end)
            else
              r ← lift (Delete key pro);
              put_order st r.1;; mret r.2
      end
  end.

Definition delete_order_piece (st : Storage) (i : Z) : op unit :=
  orders ← gets w_orders;
  pro ← lift (orders !! clientPieceRequestOrderKey st);
  r ← lift (Delete (pieceRequestOrderKey i) pro);
  put_order st r.1.

Definition deletePieceRequestOrder : op unit :=
  match e_storage e with
  | None => mret tt
  | Some st =>
      n ← lift (numPieces L);
      for_each (delete_order_piece st) (seqZ 0 n);;
      orders ← gets w_orders;
      pro ← lift (orders !! clientPieceRequestOrderKey st);
      when (Len pro =? 0)%nat
        (modify (fun w => w <| w_orders := delete (clientPieceRequestOrderKey st) (w_orders w) |>))
  end.

Definition initPieceRequestOrder : op unit :=
  match e_storage e with
  | None => mret tt
  | Some st =>
      orders ← gets w_orders;
      match orders !! clientPieceRequestOrderKey st with
      | Some _ => mret tt
      | None => put_order st (NewPieceOrder NewAjwernerBtree)
      end
  end.

(** The order of a torrent with storage is there: its pieces are a nil pointer otherwise. *)
Definition addRequestOrderPiece (i : Z) : op unit :=
  match e_storage e with
  | None => mret tt
  | Some st =>
      orders ← gets w_orders;
      ign ← (if hasStorageCap st then mret false else ignoreForRequests i);
      when (negb ign) (
        pro ← lift (orders !! clientPieceRequestOrderKey st);
        s ← requestStrategyPieceOrderState i;
        r ← lift (Add (pieceRequestOrderKey i) s pro);
        put_order st r.1)
  end.

(** The pieces of the order that could be requested: the loop of the check below. *)
Fixpoint proBitmap_loop (items : list PieceRequestOrderItem) (acc : rb) : op rb :=
  match items with
  | [] => mret acc
  | item :: items' =>
      if negb (bool_decide (key_InfoHash (item_Key item) = e_shortHash e)) then proBitmap_loop items' acc
      else if st_Priority (item_State item) =? PiecePriorityNone then proBitmap_loop items' acc
      else
        ign ← ignoreForRequests (key_Index (item_Key item));
        if ign : bool then proBitmap_loop items' acc
        else proBitmap_loop items' (rb_Add (wrapU 32 (key_Index (item_Key item))) acc)
  end.

Definition checkPendingPiecesMatchesRequestOrder : op unit :=
  now ← Try;
  if negb now then mret tt
  else
    disallowed ← gets w_disallowed;
    if disallowed : bool then mret tt
    else
      match e_storage e with
      | None => mret tt
      | Some st =>
          orders ← gets w_orders;
          match orders !! clientPieceRequestOrderKey st with
          | None => mret tt
          | Some pro =>
              bm ← proBitmap_loop (Iter pro) rb_New;
              pending ← gets w_pending;
              if rb_Equals bm pending then mret tt else panic tt
          end
      end.

(** ** Wanting data *)

Definition needData : op bool :=
  closed ← gets w_closed;
  if closed : bool then mret false
  else
    info ← gets w_haveInfo;
    if negb info then mret true
    else checkPendingPiecesMatchesRequestOrder;; gets (fun w => negb (rb_IsEmpty (w_pending w))).

Definition seeding : op bool :=
  closed ← gets w_closed;
  if closed : bool then mret false
  else
    disallowed ← gets w_uploadDisallowed;
    if disallowed || e_NoUpload e || negb (e_Seed e) then mret false
    else if e_DisableAggressiveUpload e then need ← needData; mret (negb need) else mret true.

(** [newConnsAllowed]; networking and the rate limiter are in [e_mayConnect]. *)
Definition newConnsAllowed : op bool :=
  closed ← gets w_closed;
  if closed || negb (e_mayConnect e) then mret false
  else
    need ← needData;
    if need : bool then mret true
    else s ← seeding; gets (fun w => s && negb (rb_IsEmpty (w_completed w))).

(** [openNewConns] up to the choice of peers to connect to. *)
Definition openNewConns : op unit := if e_mayConnect e then newConnsAllowed;; mret tt else mret tt.

Definition onPiecePendingTriggers (i : Z) : op unit := openNewConns.

Definition updatePendingPieces (i : Z) : op bool :=
  newPrio ← effectivePriority i;
  hh ← (if newPrio =? PiecePriorityNone then haveHash i else mret false);
  pending ← gets w_pending;
  let r := if hh : bool then tb_CheckedRemove i pending else tb_CheckedAdd i pending in
  modify (fun w => w <| w_pending := r.1 |>);; mret r.2.

Definition updatePiecePriorityNoRequests (i : Z) : op bool :=
  closed ← gets w_closed;
  updateRequests ←
    (if negb closed then
       c ← updatePieceRequestOrderPiece i;
       match e_storage e with
       | Some st => mret (c && hasStorageCap st)
       | None => mret false
       end
     else mret false);
  changed ← updatePendingPieces i;
  if changed : bool then
    when (negb (e_disableTriggers e)) (onPiecePendingTriggers i);; mret true
  else mret updateRequests.

Definition haveAllPieces : op bool :=
  info ← gets w_haveInfo;
  if negb info then mret false
  else n ← lift (numPieces L); gets (fun w => rb_GetCardinality (w_completed w) =? wrapU 64 n).

(** [PeerConn.peerHasAllPieces]: [(all, known)]. *)
Definition peerHasAllPieces (c : PeerConn) : op (bool * bool) :=
  if pc_peerSentHaveAll c then mret (true, true)
  else
    info ← gets w_haveInfo;
    if negb info then mret (false, false)
    else n ← lift (numPieces L); mret (rb_GetCardinality (pc_peerPieces c) =? wrapU 64 n, true).

Definition webseed_peerHasAllPieces (s : webseedPeer) : op (bool * bool) :=
  info ← gets w_haveInfo;
  if negb info then mret (true, false)
  else n ← lift (numPieces L); mret (rb_GetCardinality (ws_Pieces s) =? wrapU 64 n, true).

(** [Peer.peerHasPiece], with what the implementation of the peer says. *)
Definition peerHasPiece (hasAll : op (bool * bool)) (pieces : rb) (i : Z) : op bool :=
  r ← hasAll;
  if r.1 && r.2 then mret true else mret (rb_Contains (wrapU 32 i) pieces).

Definition conn_peerHasPiece (c : PeerConn) : Z -> op bool := peerHasPiece (peerHasAllPieces c) (pc_peerPieces c).
Definition webseed_peerHasPiece (s : webseedPeer) : Z -> op bool :=
  peerHasPiece (webseed_peerHasAllPieces s) (ws_Pieces s).

(** Connections that are out of requests and could make some for the piece are told; the requests of
    web seeds are scheduled elsewhere. *)
Definition updatePeerRequestsForPiece (reason : string) (i : Z) : op unit :=
  pending ← gets (fun w => tb_Contains i (w_pending w));
  when pending (
    ids ← connIds e;
    for_each (fun id =>
      conn ← gets (fun w => w_conns w !! id);
      match conn with
      | None => mret tt
      | Some c =>
          if negb (isLowOnRequests c) then mret tt
          else
            has ← conn_peerHasPiece c i;
            if negb has then mret tt
            else if pc_Interested c && pc_peerChoking c && negb (tb_Contains i (pc_peerAllowedFast c)) then mret tt
            else onNeedUpdateRequests id reason
      end) ids).

Definition updatePiecePriority (reason : string) (i : Z) : op unit :=
  update ← updatePiecePriorityNoRequests i;
  when (update && negb (e_disableTriggers e)) (updatePeerRequestsForPiece reason i).

Definition updatePiecePriorities (reason : string) (begin end_ : Z) : op unit :=
  for_each (updatePiecePriority reason) (seqZ begin (end_ - begin)).

Definition updateAllPiecePriorities (reason : string) : op unit := n ← lift (numPieces L); updatePiecePriorities reason 0 n.

(** [Piece.SetPriority] *)
Definition SetPriority (i prio : Z) : op unit :=
  set_piece i (fun s => s <| ps_priority := prio |>);; updatePiecePriority "Piece.SetPriority" i.

(** [File.SetPriority] *)
Definition File_SetPriority (k prio : Z) : op unit :=
  fp ← gets w_filePrio;
  old ← lift (at_ fp k);
  f ← lift (at_ (t_files L) k);
  when (negb (prio =? old)) (
    modify (fun w => w <| w_filePrio := <[Z.to_nat k := prio]> (w_filePrio w) |>);;
    b ← lift (File_BeginPieceIndex L f);
    e' ← lift (File_EndPieceIndex L f);
    updatePiecePriorities "File.SetPriority" b e').

(** ** Readers *)

Definition readerPiecePriorities (readers : list (Z * Z)) : rb * rb :=
  foldl (fun acc p => if p.1 >=? p.2 then acc
                      else (tb_Add p.1 acc.1, rb_AddRange (wrapU 64 (p.1 + 1)) (wrapU 64 p.2) acc.2))
    (rb_New, rb_New) readers.

Definition updateReaderPieces : op unit :=
  modify (fun w => let r := readerPiecePriorities (w_readers w) in w <| w_now := r.1 |> <| w_readahead := r.2 |>).

(** [readersChanged], after a reader was added or removed. *)
Definition readersChanged (readers : list (Z * Z)) : op unit :=
  modify (fun w => w <| w_readers := readers |>);;
  updateReaderPieces;; updateAllPiecePriorities "Torrent.readersChanged".

Definition readerPosChanged (from to : Z * Z) : op unit :=
  if bool_decide (from = to) then mret tt
  else
    updateReaderPieces;;
    let '(l, h) := if from.1 >? to.1 then (to, from) else (from, to) in
    let reason := "Torrent.readerPosChanged"%string in
    if l.2 <? h.1 then updatePiecePriorities reason l.1 l.2;; updatePiecePriorities reason h.1 h.2
    else updatePiecePriorities reason l.1 (Z.max l.2 h.2).

(** [reader.posChanged]: the range a reader wants is now [to]. *)
Definition posChanged (k : nat) (to : Z * Z) : op unit :=
  rs ← gets w_readers;
  from ← lift (rs !! k);
  if bool_decide (to = from) then mret tt
  else
    modify (fun w => w <| w_readers := <[k := to]> (w_readers w) |>);;
    readerPosChanged from to.

(** ** Chunks *)

Definition pendAllChunkSpecs (i : Z) : op unit :=
  modify (fun w => w <| w_dirty := rb_RemoveRange (pieceRequestIndexBegin L i) (pieceRequestIndexBegin L (i + 1)) (w_dirty w) |>).

Definition unpendChunkIndex (i c : Z) : op unit :=
  modify (fun w => w <| w_dirty := tb_Add (add32 (pieceRequestIndexBegin L i) c) (w_dirty w) |>);;
  updatePieceRequestOrderPiece i;; mret tt.

Definition pendChunkIndex (i c : Z) : op unit :=
  modify (fun w => w <| w_dirty := tb_Remove (add32 (pieceRequestIndexBegin L i) c) (w_dirty w) |>);;
  updatePieceRequestOrderPiece i;; mret tt.

(** ** Availability *)

Definition decPieceAvailability (i : Z) : op unit :=
  info ← gets w_haveInfo;
  when info (
    s ← state i;
    if ps_relativeAvailability s <=? 0 then panic tt
    else
      set_piece i (fun s => s <| ps_relativeAvailability := ps_relativeAvailability s - 1 |>);;
      updatePieceRequestOrderPiece i;; mret tt).

Definition incPieceAvailability (i : Z) : op unit :=
  info ← gets w_haveInfo;
  when info (
    set_piece i (fun s => s <| ps_relativeAvailability := wrapS 32 (ps_relativeAvailability s + 1) |>);;
    updatePieceRequestOrderPiece i;; mret tt).

(** ** What peers have ([peerconn.go], [peer.go], [webseed-peer.go]) *)

(** The number of [l] for which [p] holds. *)
Fixpoint count {A} (p : A -> op bool) (l : list A) : op Z :=
  match l with
  | [] => mret 0
  | x :: l' => b ← p x; k ← count p l'; mret (if b : bool then k + 1 else k)
  end.

Definition selectivePieceAvailabilityFromPeers (i : Z) : op Z :=
  conns ← gets w_conns;
  seeds ← gets w_webSeeds;
  all ← gets w_connsWithAllPieces;
  k ← count (fun p => if bool_decide (p.1 ∈ all) then mret false else conn_peerHasPiece p.2 i) (map_to_list conns);
  l ← count (fun p => webseed_peerHasPiece p.2 i) (map_to_list seeds);
  mret (k + l).

Definition addConnWithAllPieces (id : nat) : op unit :=
  modify (fun w => w <| w_connsWithAllPieces := {[id]} ∪ w_connsWithAllPieces w |>).

Definition deleteConnWithAllPieces (id : nat) : op bool :=
  all ← gets w_connsWithAllPieces;
  modify (fun w => w <| w_connsWithAllPieces := w_connsWithAllPieces w ∖ {[id]} |>);;
  mret (bool_decide (id ∈ all)).

(** For a connection; a web seed is never among the connections with all pieces. *)
Definition decPeerPieceAvailability (id : nat) : op unit :=
  deleted ← deleteConnWithAllPieces id;
  if deleted : bool then mret tt
  else
    info ← gets w_haveInfo;
    when info (c ← conn id; for_each decPieceAvailability (rb_iterator (pc_peerPieces c))).

(** [Peer.close]. A connection that is no longer the torrent's was closed before.  The requests of
    its peer are not part of the [World]; [Swarm.onClose] deletes them. *)
Definition close (id : nat) : op unit :=
  conn ← gets (fun w => w_conns w !! id);
  when (negb (from_option pc_closed true conn)) (
    set_conn id (fun c => c <| pc_closed := true |>);;
    decPeerPieceAvailability id).

Definition webseed_close (u : nat) : op unit :=
  s ← webSeed u;
  when (negb (ws_closed s)) (
    set_webSeed u (fun s => s <| ws_closed := true |>);;
    info ← gets w_haveInfo;
    when info (for_each decPieceAvailability (rb_iterator (ws_Pieces s)))).

(** Whether the connection was one of the torrent's.  Its requests are taken back before it is
    removed here, which makes no difference to the others. *)
Definition deletePeerConn (id : nat) : op bool :=
  conn ← gets (fun w => w_conns w !! id);
  if negb (from_option pc_closed true conn) then panic tt
  else
    let requesting := from_option (fun c => negb (ob_IsEmpty (pc_Requests c))) false conn in
    when requesting (deleteRequests id);;
    modify (fun w => w <| w_conns := delete id (w_conns w) |>);;
    when requesting (tellIdlePeers e "Torrent.deletePeerConn");;
    leftover ← gets (fun w => (size (w_conns w) =? 0)%nat && negb (size (w_requestState w) =? 0)%nat);
    if leftover : bool then panic tt
    else
      none ← gets (fun w => (size (w_conns w) + size (w_webSeeds w) =? 0)%nat);
      all ← gets w_connsWithAllPieces;
      if none && negb (bool_decide (all = ∅)) then panic tt else mret (bool_decide (is_Some conn)).

Definition dropConnection (id : nat) : op unit :=
  close id;;
  deleted ← deletePeerConn id;
  when deleted openNewConns.

Definition peerHasWantedPieces (c : PeerConn) : op bool :=
  r ← peerHasAllPieces c;
  if r.1 : bool then
    have ← haveAllPieces; gets (fun w => negb have && negb (rb_IsEmpty (w_pending w)))
  else
    info ← gets w_haveInfo;
    if negb info then mret (negb (rb_IsEmpty (pc_peerPieces c)))
    else gets (fun w => rb_Intersects (pc_peerPieces c) (w_pending w)).

Definition useful (c : PeerConn) : op bool :=
  if pc_closed c then mret false
  else
    info ← gets w_haveInfo;
    if negb info then mret (pc_supportsMetadata c)
    else
      s ← seeding;
      if s && pc_peerInterested c then mret true else peerHasWantedPieces c.

Definition maybeDropMutuallyCompletePeer (id : nat) : op unit :=
  c ← conn id;
  if negb (e_DropMutuallyCompletePeers e) then mret tt
  else
    have ← haveAllPieces;
    if negb have then mret tt
    else
      r ← peerHasAllPieces c;
      if negb r.2 || negb r.1 then mret tt
      else
        use ← useful c;
        when (negb use) (dropConnection id).

(** [peerPiecesChanged] *)
Definition peerPiecesChanged (id : nat) : op unit := maybeDropMutuallyCompletePeer id.

Definition setNumPieces (id : nat) (num : Z) : op unit :=
  set_conn id (fun c => c <| pc_peerPieces := rb_RemoveRange (wrapU 64 num) (2 ^ 32) (pc_peerPieces c) |>);;
  peerPiecesChanged id.

(** [PeerConn.onGotInfo] *)
Definition onGotInfo (id : nat) : op unit := n ← lift (numPieces L); setNumPieces id n.

Definition raisePeerMinPieces (id : nat) (newMin : Z) : op unit :=
  c ← conn id;
  when (newMin >? pc_peerMinPieces c) (set_conn id (fun c => c <| pc_peerMinPieces := newMin |>)).

Definition wantPieceIndex (index : Z) : op bool :=
  gets (fun w => negb (rb_IsEmpty (w_pending w)) && tb_Contains index (w_pending w)).

(** Whether the message is valid. *)
Definition peerSentHave (id : nat) (piece : Z) : op bool :=
  info ← gets w_haveInfo;
  beyond ← (if info : bool then n ← lift (numPieces L); mret (piece >=? n) else mret false);
  if beyond || (piece <? 0) then mret false
  else
    c ← conn id;
    has ← conn_peerHasPiece c piece;
    if has : bool then mret true
    else
      raisePeerMinPieces id (piece + 1);;
      c ← conn id;
      has ← conn_peerHasPiece c piece;
      when (negb has) (incPieceAvailability piece);;
      set_conn id (fun c => c <| pc_peerPieces := tb_Add piece (pc_peerPieces c) |>);;
      want ← wantPieceIndex piece;
      when want (onNeedUpdateRequests id "have");;
      peerPiecesChanged id;;
      mret true.

Definition onPeerHasAllPiecesNoTriggers (id : nat) : op unit :=
  c ← conn id;
  info ← gets w_haveInfo;
  when info (for_each decPieceAvailability (rb_iterator (pc_peerPieces c)));;
  addConnWithAllPieces id;;
  set_conn id (fun c => c <| pc_peerSentHaveAll := true |>);;
  set_conn id (fun c => c <| pc_peerPieces := rb_Clear (pc_peerPieces c) |>).

Definition peerHasAllPiecesTriggers (id : nat) : op unit :=
  pending ← gets (fun w => negb (rb_IsEmpty (w_pending w)));
  when pending (onNeedUpdateRequests id "Peer.onPeerHasAllPieces");;
  peerPiecesChanged id.

(** [onPeerHasAllPieces], [onPeerSentHaveAll] *)
Definition onPeerHasAllPieces (id : nat) : op unit :=
  onPeerHasAllPiecesNoTriggers id;;
  peerHasAllPiecesTriggers id.

Definition boolSliceToBitmap (slice : list bool) : rb :=
  foldl (fun b p => if p.2 : bool then rb_Add (wrapU 32 p.1) b else b) rb_New
    (zip (seqZ 0 (Z.of_nat (length slice))) slice).

(** A piece whose bit changes. *)
Definition bitfield_change (id : nat) (x : Z) : op unit :=
  c ← conn id;
  if tb_Contains x (pc_peerPieces c) then decPieceAvailability x else incPieceAvailability x.

(** Whether a piece is gained that is wanted. *)
Fixpoint gains_wanted (pending pieces : rb) (l : list Z) : bool :=
  match l with
  | [] => false
  | x :: l' =>
      (negb (tb_Contains x pieces) && negb (rb_IsEmpty pending) && tb_Contains x pending) || gains_wanted pending pieces l'
  end.

Definition peerSentBitfield (id : nat) (bf : list bool) : op unit :=
  let len := Z.of_nat (length bf) in
  if negb (len mod 8 =? 0) then panic tt
  else
    raisePeerMinPieces id (len - 7);;
    info ← gets w_haveInfo;
    n ← (if info : bool then lift (numPieces L) else mret 0);
    let bf := if info && (len >? n) then take (Z.to_nat n) bf else bf in
    let bm := boolSliceToBitmap bf in
    if info && (wrapS 64 (rb_GetCardinality bm) =? n) then onPeerHasAllPieces id
    else
      (match rb_Maximum bm with Some max => raisePeerMinPieces id (max + 1) | None => mret tt end);;
      c ← conn id;
      bm ← (if pc_peerSentHaveAll c then
              deleted ← deleteConnWithAllPieces id;
              if negb deleted then panic tt
              else
                set_conn id (fun c => c <| pc_peerSentHaveAll := false |>);;
                if negb (rb_IsEmpty (pc_peerPieces c)) then panic tt else mret bm
            else mret (rb_Xor bm (pc_peerPieces c)));
      set_conn id (fun c => c <| pc_peerSentHaveAll := false |>);;
      c ← conn id;
      shouldUpdateRequests ← gets (fun w => gains_wanted (w_pending w) (pc_peerPieces c) (rb_iterator bm));
      for_each (bitfield_change id) (rb_iterator bm);;
      set_conn id (fun c => c <| pc_peerPieces := rb_Xor (pc_peerPieces c) bm |>);;
      when shouldUpdateRequests (onNeedUpdateRequests id "bitfield");;
      peerPiecesChanged id.

Definition peerSentHaveNone (id : nat) : op unit :=
  c ← conn id;
  when (negb (pc_peerSentHaveAll c)) (decPeerPieceAvailability id);;
  set_conn id (fun c => c <| pc_peerPieces := rb_Clear (pc_peerPieces c) |>);;
  set_conn id (fun c => c <| pc_peerSentHaveAll := false |>);;
  peerPiecesChanged id.

(** [Client.SetInfo] of the web seed and [webseedPeer.onGotInfo]. *)
Definition webseed_onGotInfo (u : nat) : op unit :=
  n ← lift (numPieces L);
  s ← webSeed u;
  when (ws_usable s) (
    set_webSeed u (fun s => s <| ws_Pieces := rb_AddRange 0 (wrapU 64 n) (ws_Pieces s) |>));;
  s ← webSeed u;
  for_each incPieceAvailability (rb_iterator (ws_Pieces s)).

(** The web seed takes up the info before it is one of the torrent's, which makes no difference to
    the pieces. *)
Definition addWebSeed (u : nat) (usable : bool) : op bool :=
  seeds ← gets w_webSeeds;
  if e_DisableWebseeds e then mret false
  else match seeds !! u with
  | Some _ => mret false
  | None =>
      modify (fun w => w <| w_webSeeds := <[u := {| ws_usable := usable; ws_Pieces := rb_New; ws_closed := false |}]> (w_webSeeds w) |>);;
      info ← gets w_haveInfo;
      when info (webseed_onGotInfo u);;
      mret true
  end.

Definition removeFilePiece (u : nat) (pi : Z) : op unit :=
  s ← webSeed u;
  let r := rb_CheckedRemove (wrapU 32 pi) (ws_Pieces s) in
  set_webSeed u (fun s => s <| ws_Pieces := r.1 |>);;
  when r.2 (decPieceAvailability pi).

Definition removeFilePieces (u : nat) (fi : Z) : op unit :=
  f ← lift (at_ (t_files L) fi);
  b ← lift (File_BeginPieceIndex L f);
  e' ← lift (File_EndPieceIndex L f);
  for_each (removeFilePiece u) (seqZ b (e' - b)).

(** *** New connections *)

Definition isPreferredDirection (c : PeerConn) : bool :=
  Bool.eqb (bytes_ltb (pc_PeerID c) (e_peerID e)) (pc_outgoing c).

Definition hasPreferredNetworkOver (l r : PeerConn) : bool :=
  ml_Less (ml_Bool (pc_ipv6 r) (pc_ipv6 l) (ml_Bool (pc_utp l) (pc_utp r)
    (ml_Bool (isPreferredDirection r) (isPreferredDirection l) ml_New))).

(** Closes the connections to the same peer that the new one is preferred over; [false] when one
    is preferred to it. *)
Fixpoint drop_duplicates (c : PeerConn) (ids : list nat) : op bool :=
  match ids with
  | [] => mret true
  | id :: ids' =>
      c0 ← conn id;
      if negb (bool_decide (pc_PeerID c = pc_PeerID c0)) || negb (e_DropDuplicatePeerIds e) then drop_duplicates c ids'
      else if hasPreferredNetworkOver c c0 then close id;; deletePeerConn id;; drop_duplicates c ids'
      else mret false
  end.

(** Whether the connection is added; [worst] is the one [worstBadConn] finds. *)
Definition addPeerConn (worst : World -> option nat) (id : nat) (c : PeerConn) : op bool :=
  closed ← gets w_closed;
  if closed : bool then mret false
  else
    ids ← connIds e;
    ok ← drop_duplicates c ids;
    if negb ok then mret false
    else
      full ← gets (fun w => Z.of_nat (size (w_conns w)) >=? e_maxEstablishedConns e);
      room ← (if full : bool then
                v ← gets worst;
                match v with
                | None => mret false
                | Some id => close id;; deletePeerConn id
                end
              else mret true);
      if negb room then mret false
      else
        full ← gets (fun w => Z.of_nat (size (w_conns w)) >=? e_maxEstablishedConns e);
        if full : bool then panic tt
        else modify (fun w => w <| w_conns := <[id := c]> (w_conns w) |>);; mret true.

(** ** Completion *)

(** [Piece.Storage]: the hash the storage is asked for a piece by. *)
Definition Storage_hash (i : Z) : op (option bytes) :=
  v1 ← lift (V1Hash (t_info L) i);
  match v1 with
  | Some h => mret (Some h)
  | None =>
      layer ← lift (hasPieceLayer L i);
      if negb layer then
        f ← lift (mustGetOnlyFile L i);
        root ← lift (f_piecesRoot f);
        mret (Some root)
      else s ← state i; mret (ps_hashV2 s)
  end.

(** [Piece.completion] *)
Definition completion (i : Z) : op (option bool) :=
  s ← state i;
  if ps_storageCompletionOk s then c ← pieceComplete i; mret (Some c) else mret None.

Definition pieceCompleteUncached (sc : Z -> Completion) (i : Z) : op Completion :=
  s ← state i;
  let none := {| c_Complete := false; c_Ok := false; c_Err := false |} in
  if e_ignoreUnverifiedPieceCompletion e && (ps_numVerifies s =? 0) then mret none
  else
    match e_storage e with
    | None => mret none
    | Some _ => Storage_hash i;; mret (sc i)
    end.

(** Whether the value was changed. *)
Definition setCachedPieceCompletion (i : Z) (uncached : option bool) : op bool :=
  cached ← completion i;
  let changed := negb (bool_decide (cached = uncached)) in
  let ok := match uncached with Some _ => true | None => false end in
  set_piece i (fun s =>
    s <| ps_storageCompletionOk := ok |>
      <| ps_storageCompletionHasBeenOk := ps_storageCompletionHasBeenOk s || ok |>);;
  (match uncached with
   | Some true => modify (fun w => w <| w_completed := (tb_CheckedAdd i (w_completed w)).1 |>)
   | _ => modify (fun w => w <| w_completed := tb_Remove i (w_completed w) |>)
   end);;
  mret changed.

Definition disallowDataDownloadLocked : op unit :=
  modify (fun w => w <| w_disallowed := true |>);;
  ids ← connIds e;
  for_each (fun id => onNeedUpdateRequests id "disallow data download";; cancelAllRequests e id) ids.

Definition setCachedPieceCompletionFromStorage (sc : Z -> Completion) (i : Z) : op bool :=
  uncached ← pieceCompleteUncached sc i;
  when (c_Err uncached) disallowDataDownloadLocked;;
  setCachedPieceCompletion i (if c_Ok uncached then Some (c_Complete uncached) else None).

Definition onPieceCompleted (i : Z) : op unit :=
  pendAllChunkSpecs i;;
  cancelRequestsForPiece e i;;
  ids ← connIds e;
  for_each (fun id => conn ← gets (fun w => w_conns w !! id);
                      match conn with
                      | Some _ => have id i;; maybeDropMutuallyCompletePeer id
                      | None => mret tt
                      end) ids.

Definition onIncompletePiece (i : Z) : op unit :=
  all ← allChunksDirty i;
  when all (pendAllChunkSpecs i);;
  ignored ← ignoreForRequests i;
  if ignored : bool then mret tt
  else
    ids ← connIds e;
    for_each (fun id =>
      conn ← gets (fun w => w_conns w !! id);
      match conn with
      | None => mret tt
      | Some c => has ← conn_peerHasPiece c i; when has (onNeedUpdateRequests id "piece incomplete")
      end) ids.

Definition pieceCompletionChanged (i : Z) : op unit :=
  c ← pieceComplete i;
  (if c : bool then onPieceCompleted i else onIncompletePiece i);;
  updatePiecePriority "Torrent.updatePieceCompletion" i.

Definition afterSetPieceCompletion (i : Z) (changed : bool) : op unit :=
  cmpl ← completion i;
  let complete := match cmpl with Some true => true | _ => false end in
  updatePieceRequestOrderPiece i;;
  when changed (pieceCompletionChanged i);;
  when complete openNewConns.

Definition setPieceCompletion (i : Z) (uncached : option bool) : op unit :=
  changed ← setCachedPieceCompletion i uncached;
  afterSetPieceCompletion i changed.

Definition setPieceCompletionFromStorage (sc : Z -> Completion) (i : Z) : op bool :=
  changed ← setCachedPieceCompletionFromStorage sc i;
  afterSetPieceCompletion i changed;; mret changed.

Definition setInitialPieceCompletionFromStorage (sc : Z -> Completion) (i : Z) : op unit :=
  setCachedPieceCompletionFromStorage sc i;;
  afterSetPieceCompletion i true.

(** [updatePieceCompletion], [Piece.UpdateCompletion] *)
Definition updatePieceCompletion (sc : Z -> Completion) (i : Z) : op bool :=
  setPieceCompletionFromStorage sc i.

Definition AllowDataDownload : op unit :=
  disallowed ← gets w_disallowed;
  when disallowed (
    modify (fun w => w <| w_disallowed := false |>);;
    updateAllPiecePriorities "data download allowed";;
    ids ← connIds e;
    for_each (fun id => onNeedUpdateRequests id "allow data download") ids).

Definition AllowDataUpload : op unit :=
  disallowed ← gets w_uploadDisallowed;
  when disallowed (
    modify (fun w => w <| w_uploadDisallowed := false |>);;
    ids ← connIds e;
    for_each (fun id => onNeedUpdateRequests id "allow data upload") ids).

Definition DisallowDataUpload : op unit :=
  modify (fun w => w <| w_uploadDisallowed := true |>);;
  ids ← connIds e;
  for_each (fun id => onNeedUpdateRequests id "disallow data upload") ids.

(** ** Hashing *)

Fixpoint firstToHash (l : list Z) : op (option Z) :=
  match l with
  | [] => mret None
  | i :: l' => s ← state i; if ps_hashing s || ps_marking s then firstToHash l' else mret (Some i)
  end.

Definition getPieceToHash : op (option Z) :=
  queued ← gets w_queued; firstToHash (tb_Iterate queued).

Definition startHash (pi : Z) : op unit :=
  modify (fun w => w <| w_queued := tb_Remove pi (w_queued w) |>);;
  set_piece pi (fun s => s <| ps_hashing := true |>);;
  updatePiecePriority "Torrent.startHash" pi;;
  modify (fun w => w <| w_storageReaders := w_storageReaders w + 1 |>
                     <| w_activePieceHashes := w_activePieceHashes w + 1 |>
                     <| w_activePieceHashers := w_activePieceHashers w + 1 |>).

Definition canStartPieceHashers : op bool :=
  gets (fun w => w_activePieceHashers w <? e_maxActivePieceHashers e).

Definition considerStartingHashers : op bool :=
  match e_storage e with
  | None => mret false
  | Some _ =>
      active ← gets w_activePieceHashes;
      if active >=? e_PieceHashersPerTorrent e then mret false
      else
        can ← canStartPieceHashers;
        if negb can then mret false else gets (fun w => negb (rb_IsEmpty (w_queued w)))
  end.

Definition startSinglePieceHasher : op bool :=
  pi ← getPieceToHash;
  match pi with
  | None => mret false
  | Some pi =>
      startHash pi;;
      modify (fun w => w <| w_hashers := w_hashers w ++ [Hashing pi] |>);; mret true
  end.

(** Every round takes a piece out of the queue. *)
Fixpoint startPieceHashers_loop (fuel : nat) : op unit :=
  match fuel with
  | O => no_fuel
  | S fuel' =>
      consider ← considerStartingHashers;
      if negb consider then mret tt
      else
        started ← startSinglePieceHasher;
        if negb started then mret tt else startPieceHashers_loop fuel'
  end.

(** Whether there was no error: the torrent is not closed. *)
Definition startPieceHashers : op bool :=
  closed ← gets w_closed;
  if closed : bool then mret false
  else
    queued ← gets w_queued;
    startPieceHashers_loop (S (Z.to_nat (rb_GetCardinality queued)));; mret true.

Definition nextNovelHashCount (i : Z) : op Z :=
  s ← state i; mret (if ps_hashing s then ps_numVerifies s + 2 else ps_numVerifies s + 1).

(** The number of hashes to wait for; [None] is the error for a piece without a hash. *)
Definition queuePieceCheck (i : Z) : op (option Z) :=
  hh ← haveHash i;
  if negb hh then mret None
  else
    target ← nextNovelHashCount i;
    queued ← gets (fun w => tb_Contains i (w_queued w));
    if queued : bool then mret (Some target)
    else
      modify (fun w => w <| w_queued := tb_Add i (w_queued w) |>);;
      updatePiecePriority "Torrent.queuePieceCheck" i;;
      startPieceHashers;; mret (Some target).

Definition queueInitialPieceCheck (i : Z) : op unit :=
  if e_initialPieceCheckDisabled e then mret tt
  else
    s ← state i;
    if negb (ps_numVerifies s =? 0) || ps_hashing s || ps_storageCompletionOk s then mret tt
    else queuePieceCheck i;; mret tt.

(** [finishHash] after [pieceHashed], and the rest of the loop of [pieceHasher]: the goroutine
    hashes another piece, or ends. *)
Definition finishHash_end (k : nat) (pi : Z) : op unit :=
  updatePiecePriority "Torrent.finishHash" pi;;
  modify (fun w => w <| w_activePieceHashes := w_activePieceHashes w - 1 |>
                     <| w_activePieceHashers := w_activePieceHashers w - 1 |>);;
  closed ← gets w_closed;
  next ← (if closed : bool then mret None else getPieceToHash);
  match next with
  | Some pi' =>
      startHash pi';;
      modify (fun w => w <| w_hashers := <[k := Hashing pi']> (w_hashers w) |>)
  | None =>
      modify (fun w => w <| w_hashers := delete k (w_hashers w) |>);;
      can ← canStartPieceHashers;
      consider ← (if can : bool then considerStartingHashers else mret false);
      when consider (startPieceHashers;; mret tt)
  end.

(** [finishHash] from when the data is read, up to where [pieceHashed] releases the lock. *)
Definition hashed (k : nat) (pi : Z) (correct : bool) : op unit :=
  modify (fun w => w <| w_storageReaders := w_storageReaders w - 1 |>);;
  set_piece pi (fun s => s <| ps_hashing := false |>);;
  set_piece pi (fun s => s <| ps_numVerifies := ps_numVerifies s + 1 |>);;
  closed ← gets w_closed;
  if closed : bool then finishHash_end k pi
  else
    set_piece pi (fun s => s <| ps_marking := true |>);;
    Storage_hash pi;;
    modify (fun w => w <| w_hashers := <[k := Marking pi correct]> (w_hashers w) |>).

(** [pieceHashed] from where it takes the lock again. *)
Definition marked (k : nat) (pi : Z) (passed : bool) : op unit :=
  closed ← gets w_closed;
  when (negb closed) (
    if passed then pendAllChunkSpecs pi;; setPieceCompletion pi (Some true)
    else onIncompletePiece pi;; setPieceCompletion pi (Some false));;
  set_piece pi (fun s => s <| ps_marking := false |>);;
  finishHash_end k pi.

(** A step of the goroutine [k]; [correct] is the result of hashing. *)
Definition hasher_step (k : nat) (correct : bool) : op unit :=
  hs ← gets w_hashers;
  h ← lift (hs !! k);
  match h with
  | Hashing pi => hashed k pi correct
  | Marking pi passed => marked k pi passed
  end.

(** ** Setting the info *)

(** [Piece.setV2Hash] *)
Definition setV2Hash (sc : Z -> Completion) (i : Z) (h : bytes) : op unit :=
  s ← state i;
  set_piece i (fun s => s <| ps_hashV2 := Some h |>);;
  v1 ← lift (V1Hash (t_info L) i);
  match ps_hashV2 s, v1 with
  | None, None => updatePieceCompletion sc i;; queueInitialPieceCheck i
  | _, _ => mret tt
  end.

Definition onSetInfo_piece (sc : Z -> Completion) (i : Z) : op unit :=
  s ← state i;
  if negb (ps_relativeAvailability s =? 0) then panic tt
  else
    avail ← selectivePieceAvailabilityFromPeers i;
    set_piece i (fun s => s <| ps_relativeAvailability := wrapS 32 avail |>);;
    addRequestOrderPiece i;;
    setInitialPieceCompletionFromStorage sc i;;
    queueInitialPieceCheck i.

Definition onSetInfo (sc : Z -> Completion) : op unit :=
  initPieceRequestOrder;;
  ps ← gets w_pieces;
  modify (fun w => w <| w_requestPieceStates := ∅ |> <| w_requestPieceStatesGen := wrapU 64 (w_requestPieceStatesGen w + 1) |>);;
  for_each (onSetInfo_piece sc) (seqZ 0 (Z.of_nat (length ps)));;
  modify (fun w => w <| w_requestState := ∅ |>);;
  ok ← startPieceHashers;
  if negb ok then panic tt
  else
    ids ← connIds e;
    for_each (fun id => conn ← gets (fun w => w_conns w !! id);
                        match conn with
                        | Some _ =>
                            onGotInfo id;;
                            conn ← gets (fun w => w_conns w !! id);
                            match conn with Some _ => onNeedUpdateRequests id "onSetInfo" | None => mret tt end
                        | None => mret tt
                        end) ids;;
    urls ← seedIds e;
    for_each webseed_onGotInfo urls.

(** ** Closing the torrent *)

Definition assertAllPiecesRelativeAvailabilityZero : op unit :=
  ps ← gets w_pieces;
  if forallb (fun s => ps_relativeAvailability s =? 0) ps then mret tt else panic tt.

(** [Torrent.close], as far as the pieces and the peers are concerned. *)
Definition Torrent_close : op unit :=
  closed ← gets w_closed;
  if closed : bool then panic tt
  else
    modify (fun w => w <| w_closed := true |>);;
    ids ← connIds e;
    for_each close ids;;
    urls ← seedIds e;
    for_each webseed_close urls;;
    deletePieceRequestOrder;;
    assertAllPiecesRelativeAvailabilityZero.

End Pieces.
