(* ===== verification/Requesting.v ===== *)
(** * Making requests ([src/requesting.go], [src/peerconn.go])

    When the writer of a connection has room, the connection works out the chunks it would like to
    request and requests the best of them, taking requests from other connections where that is
    better.  [github.com/anacrolix/generics/heap] is a parameter.  Times are nanoseconds since the
    zero time; statistics, callbacks and logging are left out. *)

From coqutil Require Import Datatypes.RecordSettersUsingExistingGetters.
From S2P Require Import Prelude Merkle Segments Metainfo PeerProtocol Types Bitmap OrderedBitmap Multiless RequestOrder Chunks World RequestState Pieces.
Local Open Scope Z_scope.

(** A heap in a slice; the comparison may panic. *)
Class GenericHeap := {
  heap_Init : (Z -> Z -> option bool) -> list Z -> option (list Z);
  heap_Pop : (Z -> Z -> option bool) -> list Z -> option (Z * list Z);
}.

(** The comparison is only used on the elements, and no element is compared to itself. *)
Definition comparable (less : Z -> Z -> option bool) (l : list Z) : Prop :=
  NoDup l /\ forall x y, x ∈ l -> y ∈ l -> x <> y -> is_Some (less x y).

Class GenericHeapLaws (H : GenericHeap) := {
  heap_Init_ok less l : comparable less l -> exists l', heap_Init less l = Some l' /\ l' ≡ₚ l;
  heap_Pop_ok less l : l <> [] -> comparable less l -> exists x l', heap_Pop less l = Some (x, l') /\ l ≡ₚ x :: l';
}.

(** A slice that is searched for its least element. *)
Fixpoint take_least (less : Z -> Z -> option bool) (x : Z) (l : list Z) : option (Z * list Z) :=
  match l with
  | [] => Some (x, [])
  | y :: l' =>
      match less y x with
      | Some true => (fun r => (r.1, x :: r.2)) <$> take_least less y l'
      | Some false => (fun r => (r.1, y :: r.2)) <$> take_least less x l'
      | None => None
      end
  end.

#[global] Instance searched_heap : GenericHeap := {|
  heap_Init _ l := Some l;
  heap_Pop less l := match l with [] => None | x :: l' => take_least less x l' end;
|}.

#[global] Instance searched_heap_laws : GenericHeapLaws searched_heap.
Proof.
  split; cbn.
  - intros less l _. by exists l.
  - intros less [|x l]; [done|]. intros _. revert x. induction l as [|y l IH]; intros x [Hn Hc]; [by exists x, []|]. cbn.
    apply NoDup_cons in Hn as [Hx Hn]. pose proof Hn as [Hy _]%NoDup_cons.
    destruct (Hc y x) as [b Eb]; [set_solver..|]. rewrite Eb. cbn.
    destruct (IH (if b then y else x)) as (z & l' & Ez & Hp).
    + split.
      * apply NoDup_cons in Hn as [_ Hn]. destruct b; constructor; set_solver.
      * intros u v Hu Hv. apply Hc; destruct b; set_solver.
    + destruct b; rewrite Ez; cbn; eexists _, _; (split; [done|]); [rewrite Hp; apply Permutation_swap|].
      etransitivity; [apply Permutation_swap|]. rewrite Hp. apply Permutation_swap.
Qed.

(** [time.Time.Sub] *)
Definition time_Sub (a b : Z) : Z := Z.max (min_int 64) (Z.min (max_int 64) (a - b)).

Section Requesting.
Context {ML : Multiless} {AJ : AjwernerSet} {RB : Roaring} {GL : GenericList} {GH : GenericHeap}.
Context (e : Env).
Notation L := (e_layout e).

(** The time now, and [hasActiveWebseedRequests]. *)
Context (now : Z) (active : bool).

Definition nominalMaxRequests (c : PeerConn) : Z :=
  Z.max 1 (Z.min (Z.min (pc_PeerMaxRequests c) (mul64 (pc_peakRequests c) 2)) maxLocalToRemoteRequests).

(** ** States of pieces, shared by the connections ([peerRequestPieceStates]) *)

Definition pieceStates_Get (index : Z) : op PieceRequestOrderState :=
  m ← gets w_requestPieceStates; lift (m !! index).

Definition pieceStates_Set (index : Z) (value : PieceRequestOrderState) : op unit :=
  if decide (value = zeroState) then panic tt
  else modify (fun w => w <| w_requestPieceStates := <[index := value]> (w_requestPieceStates w) |>).

Definition pieceStates_Clear : op unit :=
  modify (fun w => w <| w_requestPieceStates := ∅ |> <| w_requestPieceStatesGen := wrapU 64 (w_requestPieceStatesGen w + 1) |>).

(** ** Which requests are better *)

(** Requests that are both outstanding, on other connections. *)
Definition byOwner (leftRequestState rightRequestState : option requestState) (ml : Computation) : op Computation :=
  match leftRequestState with
  | None => mret ml
  | Some ls =>
      rs ← lift rightRequestState;
      rc ← conn (rq_peer rs);
      lc ← conn (rq_peer ls);
      let ml := ml_Uint64 (ob_GetCardinality (pc_Requests rc)) (ob_GetCardinality (pc_Requests lc)) ml in
      if (rq_when ls =? 0) || (rq_when rs =? 0) then panic tt
      else mret (ml_CmpInt64 (time_Sub (rq_when rs) (rq_when ls)) ml)
  end.

(** The last comparisons, which tell any two requests apart. *)
Definition byPiece (leftRequest rightRequest leftPieceIndex rightPieceIndex : Z) (leftPiece rightPiece : PieceRequestOrderState)
    (ml : Computation) : op bool :=
  if active then lift (ml_MustLess (ml_Cmp (- sign_of (leftRequest ?= rightRequest)) ml))
  else
    let ml := ml_Int (st_Availability leftPiece) (st_Availability rightPiece) ml in
    ml ← (if st_Priority leftPiece =? PiecePriorityReadahead then mret (ml_Int leftPieceIndex rightPieceIndex ml)
          else
            l ← lift (at_ (e_pieceRequestOrder e) leftPieceIndex);
            r ← lift (at_ (e_pieceRequestOrder e) rightPieceIndex);
            mret (ml_Int l r ml));
    lift (ml_MustLess (ml_EagerOrdered leftRequest rightRequest ml)).

(** [desiredPeerRequests.lessByValue]. *)
Definition lessByValue (id : nat) (gen : Z) (leftRequest rightRequest : Z) : op bool :=
  g ← gets w_requestPieceStatesGen;
  if negb (gen =? g) then panic tt
  else
    leftPieceIndex ← lift (pieceIndexOfRequestIndex L leftRequest);
    rightPieceIndex ← lift (pieceIndexOfRequestIndex L rightRequest);
    c ← conn id;
    let ml := if pc_peerChoking c
              then ml_Bool (negb (tb_Contains leftPieceIndex (pc_peerAllowedFast c)))
                           (negb (tb_Contains rightPieceIndex (pc_peerAllowedFast c))) ml_New
              else ml_New in
    leftPiece ← pieceStates_Get leftPieceIndex;
    rightPiece ← pieceStates_Get rightPieceIndex;
    let leftPriority := st_Priority leftPiece in
    let rightPriority := st_Priority rightPiece in
    let ml := ml_Int (- leftPriority) (- rightPriority) ml in
    if negb (ml_Ok ml) && negb (leftPriority =? rightPriority) then panic tt
    else if ml_Ok ml then lift (ml_MustLess ml)
    else
      leftRequestState ← gets (fun w => w_requestState w !! leftRequest);
      rightRequestState ← gets (fun w => w_requestState w !! rightRequest);
      let leftPeer := rq_peer <$> leftRequestState in
      let rightPeer := rq_peer <$> rightRequestState in
      let ml := ml_Bool (bool_decide (rightPeer = Some id)) (bool_decide (leftPeer = Some id)) ml in
      let ml := ml_Bool (bool_decide (rightPeer = None)) (bool_decide (leftPeer = None)) ml in
      if ml_Ok ml then lift (ml_MustLess ml)
      else
        ml ← byOwner leftRequestState rightRequestState ml;
        byPiece leftRequest rightRequest leftPieceIndex rightPieceIndex leftPiece rightPiece ml.

(** The comparison as the heap uses it: it does not change anything. *)
Definition less_at (id : nat) (gen : Z) (w : World) (l r : Z) : option bool :=
  match lessByValue id gen l r w with Ret b _ => Some b | _ => None end.

(** ** The desired requests ([request-strategy-impls.go], [client-piece-request-order.go]) *)

(** [requestStrategyTorrent] *)
Definition strategyTorrent : StrategyTorrent World unit := {|
  t_PieceRequest i := p ← effectivePriority e i; mret (p >? PiecePriorityNone);
  t_PieceCountUnverified i :=
    s ← state i;
    if ps_hashing s || ps_marking s then mret true else gets (fun w => tb_Contains i (w_queued w));
  t_PieceLength := PieceLength (t_info L) |}.

Definition otherStrategyTorrent (t : otherTorrent) : StrategyTorrent World unit := {|
  t_PieceRequest i := mret (ot_request t i);
  t_PieceCountUnverified i := mret (ot_unverified t i);
  t_PieceLength := ot_length t |}.

(** The inputs for a single torrent and for those that share a storage. *)
Definition getRequestStrategyInput (st : Storage) : Input World unit :=
  match s_Capacity st with
  | None => {| in_Torrent _ := strategyTorrent; in_Capacity := None; in_MaxUnverifiedBytes := e_MaxUnverifiedBytes e |}
  | Some (_, cap) => {|
      in_Torrent ih := if decide (ih = e_shortHash e) then strategyTorrent else otherStrategyTorrent (e_torrents e ih);
      in_Capacity := cap; in_MaxUnverifiedBytes := e_MaxUnverifiedBytes e |}
  end.

Definition getRequestablePieces {V} (f : bytes -> Z -> PieceRequestOrderState -> V -> op (V * bool)) (v : V) : op V :=
  st ← lift (e_storage e);
  orders ← gets w_orders;
  order ← lift (orders !! clientPieceRequestOrderKey e st);
  r ← GetRequestablePieces (getRequestStrategyInput st) f order v;
  mret r.1.

Record desiredRequestState := { d_requestIndexes : list Z; d_pieceStatesGen : Z; d_Interested : bool }.

Definition iterUndirtiedRequestIndexesInPiece (piece : Z) : op (list Z) :=
  let off := pieceRequestIndexBegin L piece in
  n ← lift (pieceNumChunks L piece);
  gets (fun w => iterBitmapUnsetInRange (rb_iterator (w_dirty w)) off (add32 off n)).

(** A chunk of a piece the peer has. *)
Definition desire (c : PeerConn) (allowedFast : bool) (d : desiredRequestState) (r : Z) : desiredRequestState :=
  let d := if allowedFast then d else d <| d_Interested := true |> in
  if negb allowedFast && pc_peerChoking c && negb (ob_Contains r (pc_Requests c)) then d
  else if negb (rb_IsEmpty (pc_Cancelled c)) && tb_Contains r (pc_Cancelled c) then d
  else d <| d_requestIndexes := d_requestIndexes d ++ [r] |>.

Definition desirePiece (id : nat) (ih : bytes) (pieceIndex : Z) (pieceExtra : PieceRequestOrderState)
    (d : desiredRequestState) : op (desiredRequestState * bool) :=
  if negb (bool_decide (ih = e_shortHash e)) then mret (d, true)
  else
    c ← conn id;
    has ← conn_peerHasPiece e c pieceIndex;
    if negb has then mret (d, true)
    else
      pieceStates_Set pieceIndex pieceExtra;;
      rs ← iterUndirtiedRequestIndexesInPiece pieceIndex;
      mret (foldl (desire c (tb_Contains pieceIndex (pc_peerAllowedFast c))) d rs, true).

Definition getDesiredRequestState (id : nat) : op desiredRequestState :=
  let none := {| d_requestIndexes := []; d_pieceStatesGen := 0; d_Interested := false |} in
  info ← gets w_haveInfo;
  closed ← gets w_closed;
  disallowed ← gets w_disallowed;
  if negb info || closed || disallowed then mret none
  else
    pieceStates_Clear;;
    gen ← gets w_requestPieceStatesGen;
    getRequestablePieces (desirePiece id) (none <| d_pieceStatesGen := gen |>).

(** ** Making a request ([peerconn.go]) *)

Definition writeInterested (id : nat) (interested : bool) : op bool :=
  write id (typeMessage (if interested then mtInterested else mtNotInterested)).

Definition setInterested (id : nat) (interested : bool) : op bool :=
  c ← conn id;
  if Bool.eqb (pc_Interested c) interested then mret true
  else
    set_conn id (fun c => c <| pc_Interested := interested |>);;
    writeInterested id interested.

(** [shouldRequest]: errors are panics of [request]. *)
Definition shouldRequest (id : nat) (r : Z) : op unit :=
  req ← lift (requestIndexToRequest L r);
  err ← lift (checkValidReceiveChunk L req);
  match err with
  | Some _ => panic tt
  | None =>
      pi ← lift (pieceIndexOfRequestIndex L r);
      c ← conn id;
      if tb_Contains r (pc_Cancelled c) then panic tt
      else
        has ← conn_peerHasPiece e c pi;
        if negb has || pc_closed c then panic tt
        else
          s ← state pi;
          queued ← gets (fun w => tb_Contains pi (w_queued w));
          if ps_hashing s || ps_marking s || queued then panic tt
          else if pc_peerChoking c && negb (tb_Contains pi (pc_peerAllowedFast c)) && negb (ob_Contains r (pc_Requests c))
          then panic tt
          else mret tt
  end.

(** [mustRequest] of [request]: whether more can be written. *)
Definition request (id : nat) (r : Z) : op bool :=
  shouldRequest id r;;
  c ← conn id;
  if ob_Contains r (pc_Requests c) then mret true
  else if wrapS 64 (ob_GetCardinality (pc_Requests c)) >=? nominalMaxRequests c then panic tt
  else
    set_conn id (fun c => c <| pc_Requests := ob_Add r (pc_Requests c) |>
      <| pc_validReceiveChunks := <[r := default 0 (pc_validReceiveChunks c !! r) + 1]> (pc_validReceiveChunks c) |>);;
    modify (fun w => w <| w_requestState := <[r := {| rq_peer := id; rq_when := now |}]> (w_requestState w) |>);;
    req ← lift (requestIndexToRequest L r);
    write id (ToMsg req mtRequest).

(** ** Applying the desired requests *)

Definition allowSendNotInterested (c : PeerConn) : op bool :=
  have ← haveAllPieces e;
  if have : bool then mret true
  else
    r ← peerHasAllPieces e c;
    if r.1 || negb r.2 then mret false
    else gets (fun w => rb_IsEmpty (rb_AndNot (pc_peerPieces c) (w_completed w))).

Definition stealRequestGraceElapsed (r : Z) : op bool :=
  if e_StealRequestGrace e <=? 0 then mret true
  else
    s ← gets (fun w => w_requestState w !! r);
    mret (time_Sub now (from_option rq_when 0 s) >=? e_StealRequestGrace e).

(** Whether a request that another connection may have is to be made on connection [id]; then it is
    taken from the other one. *)
Definition obtain (id : nat) (r : Z) : op bool :=
  c ← conn id;
  existing ← requestingPeer r;
  match existing with
  | None => mret true
  | Some id' =>
      if (id' =? id)%nat then mret true
      else if bool_decide (pc_needRequestUpdate c = Some peerUpdateRequestsPeerCancelReason) then mret false
      else
        c' ← conn id';
        let diff := sub64 (add64 (wrapS 64 (ob_GetCardinality (pc_Requests c))) 1)
                          (sub64 (wrapS 64 (ob_GetCardinality (pc_Requests c'))) 1) in
        if (diff >? 1) || (diff =? 1) && negb (pc_lastUsefulChunkReceived c >? pc_lastUsefulChunkReceived c') then mret false
        else
          elapsed ← stealRequestGraceElapsed r;
          if negb elapsed then mret false
          else cancelRequest e r;; mret true
  end.

(** The loop of [applyRequestState] on a heap; it gets smaller, so [fuel] is its size. *)
Fixpoint apply_loop (fuel : nat) (id : nat) (gen : Z) (h : list Z) : op bool :=
  match h, fuel with
  | [], _ => mret true
  | _, O => no_fuel
  | _, S fuel' =>
      c ← conn id;
      let numPending := wrapS 64 (wrapU 64 (ob_GetCardinality (pc_Requests c) + rb_GetCardinality (pc_Cancelled c))) in
      if numPending >=? nominalMaxRequests c then mret true
      else
        p ← gets (fun w => heap_Pop (less_at id gen w) h);
        p ← lift p;
        if bool_decide (pc_needRequestUpdate c = Some peerUpdateRequestsRemoteRejectReason) then apply_loop fuel' id gen p.2
        else
          ok ← obtain id p.1;
          if negb ok then apply_loop fuel' id gen p.2
          else
            more ← request id p.1;
            if negb more then mret false else apply_loop fuel' id gen p.2
  end.

Definition applyRequestState (id : nat) (next : desiredRequestState) : op unit :=
  c ← conn id;
  interested ← (if negb (d_Interested next) && pc_Interested c
                then allow ← allowSendNotInterested c; mret (negb allow) else mret (d_Interested next));
  ok ← setInterested id interested;
  if negb ok then mret tt
  else
    h ← gets (fun w => heap_Init (less_at id (d_pieceStatesGen next) w) (d_requestIndexes next));
    h ← lift h;
    c ← conn id;
    let originalRequestCount := ob_GetCardinality (pc_Requests c) in
    more ← apply_loop (length h) id (d_pieceStatesGen next) h;
    if negb more then panic tt
    else
      c ← conn id;
      let newPeakRequests := wrapS 64 (wrapU 64 (ob_GetCardinality (pc_Requests c) - originalRequestCount)) in
      set_conn id (fun c => c <| pc_peakRequests := newPeakRequests |>).

(** [maybeUpdateActualRequestState], [updateRequestsWithReason] and [updateRequests]. *)
Definition maybeUpdateActualRequestState (id : nat) : op unit :=
  c ← conn id;
  match pc_needRequestUpdate c with
  | None => mret tt
  | Some _ =>
      when (negb (pc_closed c)) (
        next ← getDesiredRequestState id;
        applyRequestState id next;;
        set_conn id (fun c => c <| pc_needRequestUpdate := None |>))
  end.

(** ** Hashes of version 2 pieces *)

Definition shouldRequestHashes (c : PeerConn) : op bool :=
  info ← gets w_haveInfo; mret (info && pc_v2 c && HasV2 (t_info L)).

(** Whether the hashes of [num] pieces from [i] on are all known; [None] when the peer lacks one of
    the pieces. *)
Fixpoint haveHashes (c : PeerConn) (pieces : list Z) : op (option bool) :=
  match pieces with
  | [] => mret (Some true)
  | i :: pieces' =>
      has ← conn_peerHasPiece e c i;
      if negb has then mret None
      else
        s ← state i;
        r ← haveHashes c pieces';
        mret (match ps_hashV2 s with Some _ => r | None => (fun _ => false) <$> r end)
  end.

Definition hashRequestMessage (piecesRoot : bytes) (baseLayer index length : Z) : Message := {|
  PiecesRoot := piecesRoot; Piece := []; PiecePtr := false; Bitfield := []; ExtendedPayload := []; Hashes := [];
  Index := wrapU 32 index; Begin := 0; Length := wrapU 32 length; BaseLayer := baseLayer; ProofLayers := 0;
  Port := 0; Type_ := mtHashRequest; ExtendedID := 0; Keepalive := false |}.

Definition hashRequestFromMessage (m : Message) : hashRequest := {|
  hr_piecesRoot := PiecesRoot m; hr_baseLayer := BaseLayer m; hr_index := Index m; hr_length := Length m;
  hr_proofLayers := ProofLayers m |}.

Definition requestHashes (id : nat) (piecesRoot : bytes) (baseLayer fileNumPieces index : Z) : op unit :=
  let length := RoundUpToPowerOfTwo (Z.min 512 (fileNumPieces - index)) in
  let length := if length <? 2 then 2 else length in
  let msg := hashRequestMessage piecesRoot baseLayer index length in
  let hr := hashRequestFromMessage msg in
  c ← conn id;
  when (negb (bool_decide (hr ∈ pc_sentHashRequests c))) (
    write id msg;;
    set_conn id (fun c => c <| pc_sentHashRequests := {[hr]} ∪ pc_sentHashRequests c |>)).

(** The loop over the files; [begin] is [nextFileBeginPiece]. *)
Fixpoint missingHashes (id : nat) (baseLayer : Z) (files : list FileInfo) (begin : Z) : op unit :=
  match files with
  | [] => mret tt
  | file :: files' =>
      n ← lift (quot64 (sub64 (add64 (fi_Length file) (PieceLength (t_info L))) 1) (PieceLength (t_info L)));
      if n <=? 1 then missingHashes id baseLayer files' begin
      else
        c ← conn id;
        have ← haveHashes c (seqZ begin n);
        (match have with
         | Some false =>
             root ← lift (fi_PiecesRoot file);
             for_each (requestHashes id root baseLayer n) (map (fun k => 512 * k) (seqZ 0 ((n + 511) / 512)))
         | _ => mret tt
         end);;
        missingHashes id baseLayer files' (begin + n)
  end.

Definition requestMissingHashes (id : nat) : op unit :=
  c ← conn id;
  should ← shouldRequestHashes c;
  when should (
    let blocks := Z.quot (usualPieceSize L + Z.of_nat BlockSize - 1) (Z.of_nat BlockSize) in
    let baseLayer := wrapU 32 (Log2RoundingUp (RoundUpToPowerOfTwo blocks)) in
    files ← lift (UpvertedFiles (t_info L));
    missingHashes id baseLayer files 0).

End Requesting.
