(* ===== verification/Upload.v ===== *)
(** * Serving a peer's requests, and the writer of a connection
      ([src/peerconn.go], [src/peer-conn-msg-writer.go])

    The requests of a peer are read from the storage by a goroutine of the connection and then
    written by its writer, which also makes our own requests.  Buffer pools, statistics, timers,
    logging and peer exchange are left out. *)

From coqutil Require Import Datatypes.RecordSettersUsingExistingGetters.
From S2P Require Import Prelude Merkle Segments Metainfo PeerProtocol Types Bitmap OrderedBitmap Multiless RequestOrder Chunks World RequestState Pieces Requesting.
Local Open Scope Z_scope.

(** Where the goroutine [peerRequestServer] of a connection is: about to run, or with the client
    lock released, waiting for room for the data of a request or reading it. *)
Inductive requestServer := Starting | Waiting (r : Request) | Reading (r : Request).

(** What a [PeerConn] has of the peer's requests; [peerRequestServerRunning] is that there is a
    server. *)
Record uploads := {
  u_choking : bool;
  u_unreadPeerRequests : gset Request;
  u_readyPeerRequests : gmap Request bytes;
  u_server : option requestServer;
}.

Definition newUploads : uploads :=
  {| u_choking := true; u_unreadPeerRequests := ∅; u_readyPeerRequests := ∅; u_server := None |}.

(** A [pendingChunkWrite], between [receiveChunkPrologue] and [receiveChunkEpilogue]; the peer is a
    connection or a web seed. *)
Record pendingChunkWrite := { cw_peer : option nat; cw_req : Z; cw_index : Z; cw_writing : bool }.

(** What [readAt] returns for a buffer: the bytes read, and the error, [Some true] for [io.EOF]. *)
Record ReadResult := { rr_data : bytes; rr_err : option bool }.

(** What [ReserveN] on [UploadRateLimiter] says of a request. *)
Inductive reservation := NotOK | Delayed | Granted.

Inductive allocation := Refused | Allotted | Blocked.

Definition req_Length (r : Request) : Z := cs_Length (req_Chunk r).

Definition localClientReqq : Z := 1024.

(** [Piece] messages *)
Definition pieceMessage (r : Request) (data : bytes) : Message := {|
  PiecesRoot := PiecesRoot zeroMessage; Piece := data; PiecePtr := false; Bitfield := []; ExtendedPayload := []; Hashes := [];
  Index := req_Index r; Begin := cs_Begin (req_Chunk r); Length := 0; BaseLayer := 0; ProofLayers := 0;
  Port := 0; Type_ := mtPiece; ExtendedID := 0; Keepalive := false |}.

Section Upload.
Context {ML : Multiless} {AJ : AjwernerSet} {RB : Roaring} {GL : GenericList} {GH : GenericHeap}.

(** A torrent with what its connections are about. *)
Record Swarm := {
  sw_world : World;
  sw_uploads : gmap nat uploads;
  (* chunks that are being written *)
  sw_chunkWrites : list pendingChunkWrite;
  (* the counts of [piecePendingWrites], where there is one *)
  sw_pendingWrites : gmap Z Z;
  (* [receivedHashPieces] of a connection, for a pieces root *)
  sw_receivedHashPieces : gmap (nat * bytes) (list bytes);
}.

#[local] Notation op := (go World unit).
#[local] Notation sop := (go Swarm unit).

(** An operation on the torrent. *)
Definition on_world {A} (m : op A) : sop A := fun s =>
  match m (sw_world s) with
  | Ret a w => Ret a (s <| sw_world := w |>)
  | Panic p w => Panic p (s <| sw_world := w |>)
  | NoFuel => NoFuel
  end.

Context (e : Env).
Notation L := (e_layout e).

Definition uploads_at (s : Swarm) (id : nat) : uploads := default newUploads (sw_uploads s !! id).
Definition uploadsOf (id : nat) : sop uploads := gets (fun s => uploads_at s id).
Definition set_uploads (id : nat) (f : uploads -> uploads) : sop unit :=
  modify (fun s => s <| sw_uploads := <[id := f (uploads_at s id)]> (sw_uploads s) |>).

(** Connections that are no longer the torrent's were closed; what they write goes nowhere. *)
Definition conn_closed (id : nat) : sop bool :=
  gets (fun s => from_option pc_closed true (w_conns (sw_world s) !! id)).
Definition post (id : nat) (msg : Message) : sop bool :=
  c ← gets (fun s => w_conns (sw_world s) !! id);
  match c with Some _ => on_world (write id msg) | None => mret true end.

(** ** The requests of a peer *)

Definition deletePeerRequest (id : nat) (r : Request) : sop unit :=
  set_uploads id (fun u => u <| u_unreadPeerRequests := u_unreadPeerRequests u ∖ {[r]} |>
                             <| u_readyPeerRequests := delete r (u_readyPeerRequests u) |>).

Definition havePeerRequest (u : uploads) (r : Request) : bool :=
  bool_decide (r ∈ u_unreadPeerRequests u) || bool_decide (is_Some (u_readyPeerRequests u !! r)).

Definition deleteAllPeerRequests (id : nat) : sop unit :=
  set_uploads id (fun u => u <| u_unreadPeerRequests := ∅ |> <| u_readyPeerRequests := ∅ |>).

Definition reject (id : nat) (r : Request) : sop unit :=
  if negb (e_fast e id) then panic tt
  else post id (ToMsg r mtReject);; deletePeerRequest id r.

Definition choke (id : nat) : sop bool :=
  u ← uploadsOf id;
  if u_choking u then mret true
  else
    set_uploads id (fun u => u <| u_choking := true |>);;
    more ← post id (typeMessage mtChoke);
    when (negb (e_fast e id)) (deleteAllPeerRequests id);;
    mret more.

Definition unchoke (id : nat) : sop bool :=
  u ← uploadsOf id;
  if negb (u_choking u) then mret true
  else
    set_uploads id (fun u => u <| u_choking := false |>);;
    post id (typeMessage mtUnchoke).

Definition onPeerSentCancel (id : nat) (r : Request) : sop unit :=
  u ← uploadsOf id;
  if negb (havePeerRequest u r) then mret tt
  else if e_fast e id then reject id r else deletePeerRequest id r.

Definition numPeerRequests (u : uploads) : Z :=
  Z.of_nat (size (u_unreadPeerRequests u) + size (u_readyPeerRequests u)).

Definition startPeerRequestServer (id : nat) : sop unit :=
  u ← uploadsOf id;
  match u_server u with Some _ => mret tt | None => set_uploads id (fun u => u <| u_server := Some Starting |>) end.

(** [onReadRequest]; [false] is an error, which ends the connection. *)
Definition onReadRequest (id : nat) (r : Request) : sop bool :=
  u ← uploadsOf id;
  let refuse := when (e_fast e id) (reject id r);; mret true in
  if havePeerRequest u r then mret (negb (e_fast e id))
  else if u_choking u then refuse
  else if numPeerRequests u >=? localClientReqq then refuse
  else if from_option (fun burst => req_Length r >? burst) false (e_uploadBurst e) then
    if e_fast e id then reject id r;; mret true else mret false
  else
    have ← gets (fun s => w_haveInfo (sw_world s) && tb_Contains (req_Index r) (w_completed (sw_world s)));
    if negb have then mret false
    else
      len ← lift (pieceLength L (req_Index r));
      if chunkOverflowsPiece (req_Chunk r) len then mret false
      else
        set_uploads id (fun u => u <| u_unreadPeerRequests := {[r]} ∪ u_unreadPeerRequests u |>);;
        startPeerRequestServer id;;
        mret true.

(** ** Reading the data *)

Definition peerRequestDataBuffered (u : uploads) : Z :=
  map_fold (fun r (_ : bytes) n => n + req_Length r) 0 (u_readyPeerRequests u).

(** [waitForDataAlloc], each time around the loop. *)
Definition dataAlloc (u : uploads) (size : Z) : allocation :=
  let maxAlloc := e_MaxAllocPeerRequestDataPerConn e in
  if size >? maxAlloc then Refused
  else if peerRequestDataBuffered u + size <=? maxAlloc then Allotted
  else Blocked.

(** [Reject] is what a peer with the fast extension gets, choking does for the others. *)
Definition useBestReject (id : nat) (r : Request) : sop unit :=
  if e_fast e id then reject id r else choke id;; mret tt.

Definition peerRequestDataReadFailed (sc : Z -> Completion) (id : nat) (r : Request) : sop unit :=
  closed ← gets (fun s => w_closed (sw_world s));
  if closed : bool then deletePeerRequest id r
  else
    complete ← on_world (pieceComplete (req_Index r));
    when complete (on_world (updatePieceCompletion e sc (req_Index r));; mret tt);;
    useBestReject id r.

(** [readPeerRequestData]: the data, unless there was an error. *)
Definition readPeerRequestData (res : ReadResult) (r : Request) : sop (option bytes) :=
  if Z.of_nat (length (rr_data res)) =? req_Length r then
    mret (match rr_err res with Some false => None | _ => Some (rr_data res) end)
  else match rr_err res with None => panic tt | Some _ => mret None end.

(** The deferred check of [servePeerRequest]: the request is dealt with. *)
Definition assertServed (id : nat) (r : Request) : sop unit :=
  u ← uploadsOf id;
  if bool_decide (r ∈ u_unreadPeerRequests u) then panic tt else mret tt.

(** [servePeerRequest] when [waitForDataAlloc] returned [false]. *)
Definition serveRefused (id : nat) (r : Request) : sop unit :=
  u ← uploadsOf id;
  when (bool_decide (r ∈ u_unreadPeerRequests u)) (useBestReject id r);;
  assertServed id r.

(** [servePeerRequest] once the data was read, or not. *)
Definition serveRead (sc : Z -> Completion) (res : ReadResult) (id : nat) (r : Request) : sop unit :=
  data ← readPeerRequestData res r;
  (match data with
   | None => peerRequestDataReadFailed sc id r
   | Some data =>
       u ← uploadsOf id;
       if negb (bool_decide (r ∈ u_unreadPeerRequests u)) then mret tt
       else set_uploads id (fun u => u <| u_unreadPeerRequests := u_unreadPeerRequests u ∖ {[r]} |>
                                       <| u_readyPeerRequests := <[r := data]> (u_readyPeerRequests u) |>)
   end);;
  assertServed id r.

(** [servePeerRequest] up to where it releases the lock; whether it is done with the request. *)
Definition serveBegin (id : nat) (r : Request) : sop bool :=
  u ← uploadsOf id;
  match dataAlloc u (req_Length r) with
  | Refused => serveRefused id r;; mret true
  | Allotted => set_uploads id (fun u => u <| u_server := Some (Reading r) |>);; mret false
  | Blocked => set_uploads id (fun u => u <| u_server := Some (Waiting r) |>);; mret false
  end.

(** [peerRequestServer] from [again:] on. *)
Fixpoint serve_loop (fuel : nat) (id : nat) : sop unit :=
  closed ← conn_closed id;
  u ← uploadsOf id;
  w ← gets sw_world;
  match (if closed : bool then None else head (e_rangeRequests e w (elements (u_unreadPeerRequests u)))), fuel with
  | None, _ =>
      match u_server u with
      | None => panic tt
      | Some _ => set_uploads id (fun u => u <| u_server := None |>)
      end
  | _, O => no_fuel
  | Some r, S fuel' => done ← serveBegin id r; if done : bool then serve_loop fuel' id else mret tt
  end.

Definition serve_again (id : nat) : sop unit :=
  u ← uploadsOf id; serve_loop (size (u_unreadPeerRequests u)) id.

(** The goroutine goes on: it was started; room may have been made, or the connection was closed; or
    the data was read. *)
Definition peerRequestServer (sc : Z -> Completion) (res : ReadResult) (closing : bool) (id : nat) : sop unit :=
  u ← uploadsOf id;
  match u_server u with
  | None => mret tt
  | Some Starting => serve_again id
  | Some (Waiting r) =>
      set_uploads id (fun u => u <| u_server := Some Starting |>);;
      done ← (if closing then serveRefused id r;; mret true else serveBegin id r);
      when done (serve_again id)
  | Some (Reading r) =>
      set_uploads id (fun u => u <| u_server := Some Starting |>);;
      serveRead sc res id r;; serve_again id
  end.

(** ** Uploading *)

(** [ahead]: the statistics say 100 KiB more were uploaded than downloaded. *)
Definition uploadAllowed (ahead : bool) (id : nat) : sop bool :=
  disallowed ← gets (fun s => w_uploadDisallowed (sw_world s));
  if e_NoUpload e || disallowed then mret false
  else
    s ← on_world (seeding e);
    if s : bool then mret true
    else
      c ← on_world (conn id);
      wanted ← on_world (peerHasWantedPieces e c);
      mret (wanted && negb ahead).

Definition sendChunk (id : nat) (r : Request) : sop bool :=
  u ← uploadsOf id;
  data ← lift (u_readyPeerRequests u !! r);
  set_uploads id (fun u => u <| u_readyPeerRequests := delete r (u_readyPeerRequests u) |>);;
  if negb (Z.of_nat (length data) =? req_Length r) then panic tt
  else post id (pieceMessage r data).

(** The loop of [upload], the [k]th time around: each time a request that is ready is sent. *)
Fixpoint upload_loop (fuel : nat) (ahead : nat -> bool) (reserve : nat -> Request -> reservation) (k : nat) (id : nat) : sop bool :=
  allowed ← uploadAllowed (ahead k) id;
  if negb allowed then choke id
  else
    more ← unchoke id;
    if negb more then mret false
    else
      u ← uploadsOf id;
      w ← gets sw_world;
      match head (e_rangeRequests e w (elements (dom (u_readyPeerRequests u)))), fuel with
      | None, _ => mret true
      | Some _, O => no_fuel
      | Some r, S fuel' =>
          match reserve k r with
          | NotOK => panic tt
          | Delayed => mret true
          | Granted =>
              more ← sendChunk id r;
              if negb more then mret false else upload_loop fuel' ahead reserve (S k) id
          end
      end.

Definition upload (ahead : nat -> bool) (reserve : nat -> Request -> reservation) (id : nat) : sop bool :=
  u ← uploadsOf id; upload_loop (size (u_readyPeerRequests u)) ahead reserve 0 id.

(** ** The writer *)

Definition fillWriteBuffer (now : Z) (active : bool) (ahead : nat -> bool) (reserve : nat -> Request -> reservation) (id : nat) : sop unit :=
  c ← on_world (conn id);
  if Z.of_nat (length (pc_writeBuffer c)) >? writeBufferLowWaterLen then mret tt
  else
    on_world (requestMissingHashes e id);;
    on_world (maybeUpdateActualRequestState e now active id);;
    upload ahead reserve id;;
    mret tt.

(** Once around the loop of [peerConnMsgWriter.run]; [late] when nothing was written for
    [KeepAliveTimeout].  What was in the buffer is returned, to be written to the peer. *)
Definition writer (now : Z) (active late : bool) (ahead : nat -> bool) (reserve : nat -> Request -> reservation) (id : nat) : sop bytes :=
  closed ← conn_closed id;
  if closed : bool then mret []
  else
    fillWriteBuffer now active ahead reserve id;;
    c ← on_world (conn id);
    keepAlive ← on_world (useful e c);
    let b := if (length (pc_writeBuffer c) =? 0)%nat && late && keepAlive
             then (MarshalBinary {| PiecesRoot := PiecesRoot zeroMessage; Piece := []; PiecePtr := false; Bitfield := [];
               ExtendedPayload := []; Hashes := []; Index := 0; Begin := 0; Length := 0; BaseLayer := 0; ProofLayers := 0;
               Port := 0; Type_ := 0; ExtendedID := 0; Keepalive := true |}).1
             else pc_writeBuffer c in
    on_world (set_conn id (fun c => c <| pc_writeBuffer := [] |>));;
    mret b.

End Upload.
