(* ===== verification/Messages.v ===== *)
(** * Messages from a peer ([src/peerconn.go], [src/peer.go])

    [mainReadLoop] once a message was decoded, and chunks between their arrival and the end of their
    write to the storage.  Hashes for the smart ban cache, statistics, callbacks, DHT pings and
    logging are left out; the handler of extension messages is a parameter. *)

From coqutil Require Import Datatypes.RecordSettersUsingExistingGetters.
From S2P Require Import Prelude Sha256 Merkle Segments Metainfo PeerProtocol Types Bitmap OrderedBitmap Multiless RequestOrder Chunks World RequestState Pieces Requesting Upload.
Local Open Scope Z_scope.

Section Messages.
Context {ML : Multiless} {AJ : AjwernerSet} {RB : Roaring} {GL : GenericList} {GH : GenericHeap}.
Context (e : Env).
Notation L := (e_layout e).

#[local] Notation sop := (go Swarm unit).

(** ** Chunks *)

Definition incrementPendingWrites (i : Z) : sop unit :=
  modify (fun s => s <| sw_pendingWrites := <[i := default 0 (sw_pendingWrites s !! i) + 1]> (sw_pendingWrites s) |>).

Definition decrementPendingWrites (i : Z) : sop unit :=
  n ← gets (fun s => default 0 (sw_pendingWrites s !! i) - 1);
  if n <? 0 then panic tt
  else modify (fun s => s <| sw_pendingWrites := <[i := n]> (sw_pendingWrites s) |>).

Definition haveChunk (r : Request) : sop bool :=
  info ← gets (fun s => w_haveInfo (sw_world s));
  if negb info then mret false
  else
    complete ← on_world (pieceComplete (req_Index r));
    if complete : bool then mret true
    else
      c ← lift (chunkIndexFromChunkSpec L (req_Chunk r));
      gets (fun s => tb_Contains (add32 (pieceRequestIndexBegin L (req_Index r)) c) (w_dirty (sw_world s))).

(** A chunk arrives from a connection or a web seed; [false] is an error. *)
Definition receiveChunkPrologue (now : Z) (peer : option nat) (msg : Message) : sop bool :=
  ppReq ← lift (newRequestFromMessage msg);
  info ← gets (fun s => w_haveInfo (sw_world s));
  valid ← (if info : bool then err ← lift (checkValidReceiveChunk L ppReq); mret (bool_decide (err = None)) else mret false);
  match valid with
  | false => mret false
  | true =>
      req ← lift (requestIndexFromRequest L ppReq);
      intended ← match peer with Some id => on_world (checkReceivedChunk id req) | None => mret (Some true) end;
      match intended with
      | None => mret false
      | Some _ =>
          have ← haveChunk ppReq;
          if have : bool then mret true
          else
            match peer with
            | Some id => on_world (set_conn id (fun c => c <| pc_lastUsefulChunkReceived := now |>))
            | None => mret tt
            end;;
            incrementPendingWrites (req_Index ppReq);;
            c ← lift (chunkIndexFromChunkSpec L (req_Chunk ppReq));
            on_world (unpendChunkIndex e (req_Index ppReq) c);;
            p ← on_world (requestingPeer req);
            match p with
            | None => mret tt
            | Some id' => if bool_decide (peer = Some id') then panic tt else on_world (cancel e id' req)
            end;;
            modify (fun s => s <| sw_chunkWrites := sw_chunkWrites s ++
              [{| cw_peer := peer; cw_req := req; cw_index := req_Index ppReq; cw_writing := false |}] |>);;
            mret true
      end
  end.

Definition pendRequest (req : Z) : sop unit :=
  i ← lift (pieceIndexOfRequestIndex L req);
  on_world (pendChunkIndex e i (req mod t_chunksPerRegularPiece L)).

Definition onWriteChunkErr : sop unit :=
  if e_userOnWriteChunkErr e then mret tt else on_world (disallowDataDownloadLocked e).

(** [onNeedUpdateRequests] of a peer that may have been removed since; web seeds have no such state. *)
Definition peerNeedsUpdate (peer : option nat) (reason : string) : sop unit :=
  match peer with
  | None => mret tt
  | Some id =>
      c ← gets (fun s => w_conns (sw_world s) !! id);
      match c with Some _ => on_world (onNeedUpdateRequests id reason) | None => mret tt end
  end.

Definition receiveChunkEpilogue (cw : pendingChunkWrite) (failed : bool) : sop unit :=
  decrementPendingWrites (cw_index cw);;
  if failed then
    pendRequest (cw_req cw);;
    peerNeedsUpdate (cw_peer cw) "Peer.receiveChunk error writing chunk";;
    onWriteChunkErr
  else
    dirty ← on_world (allChunksDirty e (cw_index cw));
    pending ← gets (fun s => default 0 (sw_pendingWrites s !! cw_index cw));
    when (dirty && (pending =? 0)) (on_world (queuePieceCheck e (cw_index cw));; mret tt).

(** [flushChunkWrites] for the [k]th of the chunks on their way, up to where it releases the lock to
    write: once the torrent is closed, the readers of connections drop theirs. *)
Definition writeChunk (k : nat) : sop unit :=
  cws ← gets sw_chunkWrites;
  cw ← lift (cws !! k);
  closed ← gets (fun s => w_closed (sw_world s));
  if closed && bool_decide (is_Some (cw_peer cw)) && negb (cw_writing cw) then
    modify (fun s => s <| sw_chunkWrites := delete k (sw_chunkWrites s) |>);;
    decrementPendingWrites (cw_index cw)
  else modify (fun s => s <| sw_chunkWrites := <[k := cw <| cw_writing := true |>]> (sw_chunkWrites s) |>).

(** The write of the [k]th is done, if it was begun. *)
Definition chunkWritten (k : nat) (failed : bool) : sop unit :=
  cws ← gets sw_chunkWrites;
  cw ← lift (cws !! k);
  when (cw_writing cw) (
    modify (fun s => s <| sw_chunkWrites := delete k (sw_chunkWrites s) |>);;
    receiveChunkEpilogue cw failed).

(** ** Hashes *)

Fixpoint fileByPiecesRoot (hash : bytes) (files : list TFile) : option (option TFile) :=
  match files with
  | [] => Some None
  | f :: files' =>
      root ← f_piecesRoot f;
      if decide (root = hash) then Some (Some f) else fileByPiecesRoot hash files'
  end.

Definition getFileByPiecesRoot (hash : bytes) : option (option TFile) := fileByPiecesRoot hash (t_files L).

(** [copy(dst[at:], src)] *)
Definition copy_hashes (dst : list bytes) (at_ : nat) (src : list bytes) : list bytes :=
  take at_ dst ++ take (length dst - at_) src ++ drop (at_ + length src) dst.

Fixpoint setHashes (sc : Z -> Completion) (i : Z) (hashes : list bytes) : sop unit :=
  match hashes with
  | [] => mret tt
  | h :: hashes' => on_world (setV2Hash e sc i h);; setHashes sc (i + 1) hashes'
  end.

Definition onReadHashes (sc : Z -> Completion) (id : nat) (msg : Message) : sop bool :=
  let hr := hashRequestFromMessage msg in
  c ← on_world (conn id);
  if negb (bool_decide (hr ∈ pc_sentHashRequests c)) then mret false
  else
    on_world (set_conn id (fun c => c <| pc_sentHashRequests := pc_sentHashRequests c ∖ {[hr]} |>));;
    if negb (ProofLayers msg =? 0) || negb (Length msg =? Z.of_nat (length (Hashes msg))) then mret false
    else
      file ← lift (getFileByPiecesRoot (PiecesRoot msg));
      match file with
      | None => mret false
      | Some file =>
          begin ← lift (File_BeginPieceIndex L file);
          end_ ← lift (File_EndPieceIndex L file);
          received ← gets (fun s => sw_receivedHashPieces s !! (id, PiecesRoot msg));
          filePieceHashes ← (match received with
                             | Some l => mret l
                             | None => if end_ - begin <? 0 then panic tt else mret (replicate (Z.to_nat (end_ - begin)) zeroHash)
                             end);
          if Index msg >? Z.of_nat (length filePieceHashes) then
            modify (fun s => s <| sw_receivedHashPieces := <[(id, PiecesRoot msg) := filePieceHashes]> (sw_receivedHashPieces s) |>);;
            mret false
          else
            let filePieceHashes := copy_hashes filePieceHashes (Z.to_nat (Index msg)) (Hashes msg) in
            modify (fun s => s <| sw_receivedHashPieces := <[(id, PiecesRoot msg) := filePieceHashes]> (sw_receivedHashPieces s) |>);;
            pad ← lift (HashForPiecePad (usualPieceSize L));
            root ← lift (RootWithPadHash filePieceHashes pad);
            expectedPiecesRoot ← lift (f_piecesRoot file);
            when (bool_decide (root = expectedPiecesRoot)) (setHashes sc begin filePieceHashes);;
            mret true
      end.

(** [obtainHashV2]; [None] is an error.  [stored] is what [WriteTo] of the storage gives of a piece. *)
Definition obtainHashV2 (sc : Z -> Completion) (stored : Z -> option bytes) (i : Z) : sop (option bytes) :=
  s ← on_world (state i);
  match ps_hashV2 s with
  | Some h => mret (Some h)
  | None =>
      layer ← lift (hasPieceLayer L i);
      if negb layer then
        f ← lift (mustGetOnlyFile L i);
        root ← lift (f_piecesRoot f);
        mret (Some root)
      else if c_Ok (sc i) && negb (c_Complete (sc i)) then mret None
      else
        match stored i with
        | None => mret None
        | Some data =>
            h ← lift (SumMinLength (Write NewHash data).1 [] (PieceLength (t_info L)));
            mret (Some h)
        end
  end.

Fixpoint obtainHashes (sc : Z -> Completion) (stored : Z -> option bytes) (padHash : bytes) (end_ : Z) (pieces : list Z) :
    sop (option (list bytes)) :=
  match pieces with
  | [] => mret (Some [])
  | i :: pieces' =>
      h ← (if i >=? end_ then mret (Some padHash) else obtainHashV2 sc stored i);
      match h with
      | None => mret None
      | Some h => hs ← obtainHashes sc stored padHash end_ pieces'; mret ((fun hs => h :: hs) <$> hs)
      end
  end.

Definition getHashes (sc : Z -> Completion) (stored : Z -> option bytes) (msg : Message) : sop (option (list bytes)) :=
  if negb (ProofLayers msg =? 0) || (Length msg >? 8192) then mret None
  else
    file ← lift (getFileByPiecesRoot (PiecesRoot msg));
    match file with
    | None => mret None
    | Some file =>
        begin ← lift (File_BeginPieceIndex L file);
        end_ ← lift (File_EndPieceIndex L file);
        let length := RoundUpToPowerOfTwo (wrapU 64 (end_ - begin)) in
        if add32 (Index msg) (Length msg) >? length then mret None
        else
          padHash ← lift (HashForPiecePad (usualPieceSize L));
          obtainHashes sc stored padHash end_ (seqZ (begin + Index msg) (Length msg))
    end.

Definition hashesMessage (msg : Message) (mt : Z) (hashes : list bytes) : Message := {|
  PiecesRoot := PiecesRoot msg; Piece := []; PiecePtr := false; Bitfield := []; ExtendedPayload := []; Hashes := hashes;
  Index := Index msg; Begin := 0; Length := Length msg; BaseLayer := BaseLayer msg; ProofLayers := ProofLayers msg;
  Port := 0; Type_ := mt; ExtendedID := 0; Keepalive := false |}.

Definition onHashRequest (sc : Z -> Completion) (stored : Z -> option bytes) (id : nat) (msg : Message) : sop bool :=
  info ← gets (fun s => w_haveInfo (sw_world s));
  if negb info || negb (HasV2 (t_info L)) then mret false
  else
    hashes ← getHashes sc stored msg;
    match hashes with
    | None => post id (hashesMessage msg mtHashReject [])
    | Some hashes => post id (hashesMessage msg mtHashes hashes)
    end;;
    mret true.

(** ** The messages *)

(** [onReadExtendedMsg] *)
Context (onReadExtendedMsg : nat -> Z -> bytes -> sop bool).

Definition onChoke (id : nat) : sop unit :=
  c ← on_world (conn id);
  if pc_peerChoking c then mret tt
  else
    when (negb (e_fast e id)) (on_world (deleteAllRequests e id "choked by non-fast PeerConn"));;
    on_world (set_conn id (fun c => c <| pc_peerChoking := true |>)).

Definition onUnchoke (id : nat) : sop unit :=
  c ← on_world (conn id);
  if negb (pc_peerChoking c) then mret tt
  else
    on_world (set_conn id (fun c => c <| pc_peerChoking := false |>));;
    (* only counted: requests of pieces not allowed fast *)
    lift (mapM (pieceIndexOfRequestIndex L) (ob_Iterate (pc_Requests c)));;
    pending ← gets (fun s => negb (rb_IsEmpty (w_pending (sw_world s))));
    when pending (on_world (onNeedUpdateRequests id "unchoked")).

Definition onReject (id : nat) (msg : Message) : sop bool :=
  req ← lift (newRequestFromMessage msg);
  r ← lift (requestIndexFromRequest L req);
  on_world (remoteRejectedRequest id r).

Definition onAllowedFast (id : nat) (i : Z) : sop unit :=
  on_world (set_conn id (fun c => c <| pc_peerAllowedFast := tb_Add i (pc_peerAllowedFast c) |>));;
  on_world (onNeedUpdateRequests id "PeerConn.mainReadLoop allowed fast").

(** The [switch] of [mainReadLoop]; [false] is an error, which ends the connection. *)
Definition onMessage (now : Z) (sc : Z -> Completion) (stored : Z -> option bytes) (id : nat) (msg : Message) : sop bool :=
  let t := Type_ msg in
  if t =? mtChoke then onChoke id;; mret true
  else if t =? mtUnchoke then onUnchoke id;; mret true
  else if t =? mtInterested then on_world (set_conn id (fun c => c <| pc_peerInterested := true |>));; mret true
  else if t =? mtNotInterested then on_world (set_conn id (fun c => c <| pc_peerInterested := false |>));; mret true
  else if t =? mtHave then on_world (peerSentHave e id (Index msg))
  else if t =? mtBitfield then on_world (peerSentBitfield e id (Bitfield msg));; mret true
  else if t =? mtRequest then r ← lift (newRequestFromMessage msg); onReadRequest e id r
  else if t =? mtPiece then receiveChunkPrologue now (Some id) msg
  else if t =? mtCancel then r ← lift (newRequestFromMessage msg); onPeerSentCancel e id r;; mret true
  else if t =? mtPort then mret true
  else if t =? mtSuggest then on_world (onNeedUpdateRequests id "suggested");; mret true
  else if t =? mtHaveAll then on_world (onPeerHasAllPieces e id);; mret true
  else if t =? mtHaveNone then on_world (peerSentHaveNone e id);; mret true
  else if t =? mtReject then onReject id msg
  else if t =? mtAllowedFast then onAllowedFast id (Index msg);; mret true
  else if t =? mtExtended then onReadExtendedMsg id (ExtendedID msg) (ExtendedPayload msg)
  else if t =? mtHashes then onReadHashes sc id msg
  else if t =? mtHashRequest then onHashRequest sc stored id msg
  else if t =? mtHashReject then mret true
  else mret false.

(** A message was decoded: what [mainReadLoop] does with it, and whether it goes on. *)
Definition readMessage (now : Z) (sc : Z -> Completion) (stored : Z -> option bytes) (id : nat) (msg : Message) : sop bool :=
  closed ← gets (fun s => w_closed (sw_world s));
  cclosed ← conn_closed id;
  if closed || cclosed then mret false
  else if Keepalive msg then mret true
  else if FastExtension (Type_ msg) && negb (e_fast e id) then mret false
  else onMessage now sc stored id msg.

Definition defaultChunkSize : Z := 16384.

(** [mainReadLoop] once around, on what the peer will send before the connection ends; the decoder's
    buffers come from a pool.  What is left to be read is returned.  When it ends, the connection is
    dropped ([runHandshookConn]). *)
Definition mainReadLoop (now : Z) (sc : Z -> Completion) (stored : Z -> option bytes) (pool : option bytes) (id : nat)
    (input : bytes) : sop bytes :=
  let decoder := {| MaxLength := mul32 4 (wrapU 32 (Z.max (t_chunkSize L) defaultChunkSize)); Pool := pool |} in
  let r := Decode decoder zeroMessage input in
  more ← match r.1.1 with None => readMessage now sc stored id r.1.2 | Some _ => mret false end;
  if more : bool then mret r.2
  else on_world (dropConnection e id);; mret [].

End Messages.
