(* ===== verification/PiecesTheory.v ===== *)
(** * Theory of the pieces of a torrent

    Whatever users, readers, the storage and the hashing goroutines do, in any order, the pending
    pieces are the wanted ones, the piece request order agrees with them whenever the code checks
    it, no piece is hashed twice at a time, and nothing panics; and the ways to break this that
    the code leaves open. *)

From coqutil Require Import Datatypes.RecordSettersUsingExistingGetters.
From stdpp Require Import fin_maps.
From S2P Require Import Prelude Segments Metainfo PeerProtocol Types Bitmap OrderedBitmap Multiless RequestOrder RequestOrderTheory Chunks ChunksTheory World RequestState RequestTheory Pieces.
Local Open Scope Z_scope.

(** What the operations on the first [n] pieces rely on in the layout of a torrent. *)
Record layout_ok (L : Layout) (n : Z) : Prop := {
  lo_range : 0 <= n < 2 ^ 31;
  lo_num : is_Some (numPieces L);
  lo_files i : 0 <= i < n -> exists b e, beginFile L i = Some b /\ endFile L i = Some e /\
    forall k, b <= k < e -> exists f pb pe, at_ (t_files L) k = Some f /\
      File_BeginPieceIndex L f = Some pb /\ File_EndPieceIndex L f = Some pe /\ pb <= i < pe;
  lo_chunks i : 0 <= i < n -> is_Some (pieceNumChunks L i);
  lo_hash i : 0 <= i < n -> exists v1, V1Hash (t_info L) i = Some v1 /\ (v1 = None ->
    exists layer, hasPieceLayer L i = Some layer /\ (layer = false ->
      exists f root, mustGetOnlyFile L i = Some f /\ f_piecesRoot f = Some root));
}.

(** A torrent with [n] pieces in all. *)
Record layout_full (L : Layout) (n : Z) : Prop := {
  lf_ok : layout_ok L n;
  lf_num : numPieces L = Some n;
  lf_requests : numbered L n;
  lf_pieces k f : at_ (t_files L) k = Some f -> exists pb pe,
    File_BeginPieceIndex L f = Some pb /\ File_EndPieceIndex L f = Some pe /\ 0 <= pb /\ pe <= n;
}.

Lemma layout_prefix L n b : layout_ok L n -> 0 <= b <= n -> layout_ok L b.
Proof.
  intros [] Hb. split; [lia|done|..]; intros i Hi; [apply lo_files0|apply lo_chunks0|apply lo_hash0]; lia.
Qed.

Section PiecesTheory.
Context {ML : Multiless} {MLL : MultilessLaws ML} {AJ : AjwernerSet} {AJL : AjwernerLaws AJ}.
Context {RB : Roaring} {RBL : RoaringLaws RB} {GL : GenericList} {GLL : GenericListLaws GL}.
Context (e : Env) (st : Storage) (Hst : e_storage e = Some st).
Notation L := (e_layout e).
(** The first [n] pieces are looked after; the others are still as they were, [tail]. *)
Context (n : Z) (tail : list pieceState) (HL : layout_ok L n).

Local Existing Instance ajwerner_btree_laws.

(** ** The state as functions *)

Definition ps (w : World) (i : Z) : pieceState := default zeroPiece (at_ (w_pieces w) i).

(** Pieces whose hash comes from a piece layer. *)
Definition needs_layer (i : Z) : bool :=
  match V1Hash (t_info L) i with
  | Some None => match hasPieceLayer L i with Some true => true | _ => false end
  | _ => false
  end.

Definition hash_known (w : World) (i : Z) : bool :=
  negb (needs_layer i) || match ps_hashV2 (ps w i) with Some _ => true | None => false end.

(** The priorities of the files of a piece. *)
Definition file_prios (fp : list Z) (i : Z) : list Z :=
  match beginFile L i, endFile L i with
  | Some b, Some e' => map (fun k => default 0 (at_ fp k)) (seqZ b (e' - b))
  | _, _ => []
  end.

Definition prio (w : World) (i : Z) : Z :=
  raise_all (file_prios (w_filePrio w) i ++ (if tb_Contains i (w_now w) then [PiecePriorityNow] else []) ++
             (if tb_Contains i (w_readahead w) then [PiecePriorityReadahead] else []) ++ [ps_priority (ps w i)])
    PiecePriorityNone.

Definition ign (w : World) (i : Z) : bool :=
  negb (ps_storageCompletionOk (ps w i)) || ps_hashing (ps w i) || ps_marking (ps w i) ||
  negb (hash_known w i) || w_disallowed w || tb_Contains i (w_completed w) || tb_Contains i (w_queued w).

Definition dirty_count (w : World) (i : Z) : Z :=
  wrapU 32 (tb_RangeCardinality (pieceRequestIndexBegin L i) (pieceRequestIndexBegin L (i + 1)) (w_dirty w)).

Definition all_dirty (w : World) (i : Z) : bool := dirty_count w i =? default 0 (pieceNumChunks L i).

Definition order_state (w : World) (i : Z) : PieceRequestOrderState := {|
  st_Priority := prio w i;
  st_Partial := if tb_Contains i (w_completed w) then false else if all_dirty w i then false
                else negb (dirty_count w i =? 0);
  st_Availability := Z.of_nat (size (w_connsWithAllPieces w)) + ps_relativeAvailability (ps w i) |}.

Record wf (w : World) : Prop := {
  wf_pieces : Z.of_nat (length (w_pieces w)) = n + Z.of_nat (length tail);
  wf_tail : drop (Z.to_nat n) (w_pieces w) = tail;
  wf_files : length (w_filePrio w) = length (t_files L);
}.

Lemma at_lookup {A} (l : list A) i : 0 <= i < Z.of_nat (length l) -> exists x, at_ l i = Some x.
Proof.
  intros Hi. unfold at_. destruct (Z.ltb_spec i 0); [lia|]. apply lookup_lt_is_Some_2. lia.
Qed.

Lemma state_run w i : wf w -> 0 <= i < n -> at_ (w_pieces w) i = Some (ps w i) /\ state i w = Ret (ps w i) w.
Proof.
  intros [Hl _ _] Hi. destruct (at_lookup (w_pieces w) i) as [s E]; [lia|].
  unfold state, ps. go_simpl. by rewrite E.
Qed.

Lemma haveHash_run w i : wf w -> 0 <= i < n -> haveHash e i w = Ret (hash_known w i) w.
Proof.
  intros Hw Hi. destruct (lo_hash L n HL i Hi) as (v1 & E & Hv). destruct (state_run w i Hw Hi) as [_ Es].
  unfold haveHash, hash_known, needs_layer. rewrite E. go_simpl. destruct v1 as [h|]; [done|].
  destruct (Hv eq_refl) as (layer & -> & _). cbn. destruct layer; [|done]. cbn. by rewrite Es.
Qed.

Lemma ignore_run w i : wf w -> 0 <= i < n -> ignoreForRequests e i w = Ret (ign w i) w.
Proof.
  intros Hw Hi. destruct (state_run w i Hw Hi) as [_ Es]. unfold ignoreForRequests, ign.
  rewrite (bind_step _ _ _ _ _ Es). destruct (ps_storageCompletionOk (ps w i)); [|done]. cbn [negb orb].
  destruct (ps_hashing _ || ps_marking _); [done|]. cbn [orb].
  rewrite (bind_step _ _ _ _ _ (haveHash_run w i Hw Hi)). unfold pieceComplete. go_simpl.
  destruct (hash_known w i); [|done]. cbn. destruct (w_disallowed w); [done|]. by destruct (tb_Contains i (w_completed w)).
Qed.

Lemma mapM_at (fp : list Z) ks :
  Forall (fun k => 0 <= k < Z.of_nat (length fp)) ks -> mapM (at_ fp) ks = Some (map (fun k => default 0 (at_ fp k)) ks).
Proof.
  induction 1 as [|k ks Hk _ IH]; [done|]. destruct (at_lookup fp k Hk) as [x E]. simpl. rewrite E, IH. done.
Qed.

Lemma at_bound {A} (l : list A) k x : at_ l k = Some x -> 0 <= k < Z.of_nat (length l).
Proof. unfold at_. destruct (Z.ltb_spec k 0); [done|]. intros ?%lookup_lt_Some. lia. Qed.

Lemma purePriority_run w i : wf w -> 0 <= i < n -> purePriority e i w = Ret (prio w i) w.
Proof.
  intros Hw Hi. destruct (lo_files L n HL i Hi) as (b & e' & Eb & Ee & Hk). destruct (state_run w i Hw Hi) as [_ Es].
  unfold purePriority, prio, file_prios. rewrite Eb, Ee. go_simpl. rewrite mapM_at.
  - cbn. rewrite Es. reflexivity.
  - apply Forall_forall. intros k Hin%elem_of_seqZ. destruct (Hk k) as (f & _ & _ & Ef & _); [lia|].
    apply at_bound in Ef. rewrite (wf_files w Hw). done.
Qed.

Lemma allDirty_run w i : 0 <= i < n -> allChunksDirty e i w = Ret (all_dirty w i) w.
Proof.
  intros Hi. destruct (lo_chunks L n HL i Hi) as [c Ec]. unfold allChunksDirty, numDirtyChunks, all_dirty, dirty_count.
  go_simpl. by rewrite Ec.
Qed.

Lemma order_state_run w i : wf w -> 0 <= i < n -> requestStrategyPieceOrderState e i w = Ret (order_state w i) w.
Proof.
  intros Hw Hi. unfold requestStrategyPieceOrderState. rewrite (bind_step _ _ _ _ _ (purePriority_run w i Hw Hi)).
  unfold piecePartiallyDownloaded, pieceComplete, availability, order_state.
  destruct (state_run w i Hw Hi) as [_ Es].
  go_simpl. destruct (tb_Contains i (w_completed w)) eqn:Ec; [by rewrite Es|].
  rewrite (allDirty_run w i Hi). destruct (all_dirty w i); cbn; rewrite Es; done.
Qed.

Lemma effective_run w i : wf w -> 0 <= i < n ->
  effectivePriority e i w = Ret (if ign w i then PiecePriorityNone else prio w i) w.
Proof.
  intros Hw Hi. unfold effectivePriority. rewrite (bind_step _ _ _ _ _ (ignore_run w i Hw Hi)).
  destruct (ign w i); [done|]. by apply purePriority_run.
Qed.
(** ** The order and the pending pieces *)

Notation key := (pieceRequestOrderKey e).
Notation K := (clientPieceRequestOrderKey e st).
Notation refines := (RequestOrderTheory.refines (HL := ajwerner_btree_laws AJ AJL)).

(** The order of the torrent holds the map [m], with a piece of this torrent for each of its
    keys; with a limit on the storage all pieces are there. *)
Record Ord (w : World) (m : order_map) : Prop := {
  ord_pro : exists pro, w_orders w !! K = Some pro /\ refines pro m;
  ord_keys k s : m !! k = Some s -> key_InfoHash k = e_shortHash e -> 0 <= key_Index k < n;
  ord_cap i : hasStorageCap st = true -> 0 <= i < n -> is_Some (m !! key i);
  ord_own k s : s_Capacity st = None -> m !! k = Some s -> key_InfoHash k = e_shortHash e;
}.

Definition wants (w : World) (i : Z) : bool := negb (ign w i) && negb (prio w i =? PiecePriorityNone).

(** What the order, as it was last updated, says of a piece. *)
Definition filed (m : order_map) (w : World) (i : Z) : bool :=
  match m !! key i with
  | Some s => negb (ign w i) && negb (st_Priority s =? PiecePriorityNone)
  | None => false
  end.

Definition pends (w : World) (i : Z) : bool := tb_Contains i (w_pending w).

Definition matched (m : order_map) (w : World) (i : Z) : Prop := pends w i = filed m w i.
Definition synced (m : order_map) (w : World) (i : Z) : Prop := pends w i = wants w i /\ filed m w i = wants w i.

Lemma synced_matched m w i : synced m w i -> matched m w i.
Proof. unfold matched. intros [-> ->]. done. Qed.

Lemma key_inj i j : key i = key j -> i = j.
Proof. by intros [= ->]. Qed.

Lemma Ord_put w m pro' m' : Ord w m -> refines pro' m' ->
  (forall k s, m' !! k = Some s -> key_InfoHash k = e_shortHash e -> 0 <= key_Index k < n) ->
  (hasStorageCap st = true -> forall i, 0 <= i < n -> is_Some (m' !! key i)) ->
  (forall k s, s_Capacity st = None -> m' !! k = Some s -> key_InfoHash k = e_shortHash e) ->
  Ord (w <| w_orders := <[K := pro']> (w_orders w) |>) m'.
Proof.
  intros _ Hr Hk Hc Ho. split; [|done|auto|done]. exists pro'. split; [apply lookup_insert_eq|done].
Qed.

Lemma insert_keys (m : order_map) i s' : 0 <= i < n ->
  (forall k s, m !! k = Some s -> key_InfoHash k = e_shortHash e -> 0 <= key_Index k < n) ->
  forall k s, <[key i := s']> m !! k = Some s -> key_InfoHash k = e_shortHash e -> 0 <= key_Index k < n.
Proof.
  intros Hi Hk k s. destruct (decide (k = key i)) as [->|].
  - done.
  - rewrite lookup_insert_ne by done. apply Hk.
Qed.

Lemma insert_own (m : order_map) i s' :
  (forall k s, s_Capacity st = None -> m !! k = Some s -> key_InfoHash k = e_shortHash e) ->
  forall k s, s_Capacity st = None -> <[key i := s']> m !! k = Some s -> key_InfoHash k = e_shortHash e.
Proof. intros Hk k s Hc [[<- _]|[_ Hm]]%lookup_insert_Some; [done|by eapply Hk]. Qed.

Lemma updateOrder_wp w m i :
  wf w -> Ord w m -> 0 <= i < n ->
  wp (updatePieceRequestOrderPiece e i) (fun _ w' => exists pro' m',
    w' = w <| w_orders := <[K := pro']> (w_orders w) |> /\ Ord w' m' /\
    (forall k, k <> key i -> m' !! k = m !! k) /\ filed m' w i = wants w i) w.
Proof.
  intros Hw HO Hi. pose proof HO as [(pro & Ep & Hr) Hkeys Hcap Hown].
  unfold updatePieceRequestOrderPiece. rewrite Hst. apply wp_bind, wp_gets. rewrite Ep.
  assert (filed (<[key i := order_state w i]> m) w i = wants w i) as Hfiled.
  { unfold filed, wants. by rewrite lookup_insert_eq. }
  destruct (hasStorageCap st) eqn:Ecap.
  - apply wp_bind. unfold wp at 1. rewrite (order_state_run w i Hw Hi).
    destruct (Add_refines (key i) (order_state w i) pro m Hr) as (pro' & Ea & Hr').
    destruct (Hcap i eq_refl Hi) as [old Eo].
    apply wp_bind. eapply wp_lift; [unfold Update; rewrite Ea; cbn; by rewrite Eo|].
    apply wp_bind, wp_modify, wp_ret. exists pro', (<[key i := order_state w i]> m).
    split; [done|]. split; [|split; [|done]].
    + apply (Ord_put w m); [done|done|by apply insert_keys| |by apply insert_own]. intros _ j Hj.
      destruct (decide (key j = key i)) as [->|]; [rewrite lookup_insert_eq; eauto|].
      rewrite lookup_insert_ne by done. by apply Hcap.
    + intros k Hk. by rewrite lookup_insert_ne.
  - apply wp_bind. unfold wp at 1. rewrite (ignore_run w i Hw Hi). destruct (ign w i) eqn:Ei; cbn [negb].
    + destruct (Delete_refines (key i) pro m Hr) as (pro' & Ed & Hr').
      apply wp_bind. eapply wp_lift; [done|]. apply wp_bind, wp_modify, wp_ret.
      exists pro', (delete (key i) m). split; [done|]. split; [|split].
      * apply (Ord_put w m); [done|done| |congruence|]; intros k s; [|intros Hc]; intros [_ Hk]%lookup_delete_Some; by eauto.
      * intros k Hk. by rewrite lookup_delete_ne.
      * unfold filed, wants. by rewrite lookup_delete_eq, Ei.
    + apply wp_bind. unfold wp at 1. rewrite (order_state_run w i Hw Hi).
      destruct (Add_refines (key i) (order_state w i) pro m Hr) as (pro' & Ea & Hr').
      apply wp_bind. eapply wp_lift; [done|]. apply wp_bind, wp_modify, wp_ret.
      exists pro', (<[key i := order_state w i]> m). split; [done|]. split; [|split; [|done]].
      * apply (Ord_put w m); [done|done|by apply insert_keys|congruence|by apply insert_own].
      * intros k Hk. by rewrite lookup_insert_ne.
Qed.

(** ** The check *)

(** The pieces of the order that the check collects. *)
Lemma proBitmap_run w items acc :
  wf w -> (forall it, it ∈ items -> key_InfoHash (item_Key it) = e_shortHash e -> 0 <= key_Index (item_Key it) < n) ->
  exists bm, proBitmap_loop e items acc w = Ret bm w /\ forall x, x ∈ rb_elems bm <-> x ∈ rb_elems acc \/
    exists it, it ∈ items /\ item_Key it = key x /\ st_Priority (item_State it) <> PiecePriorityNone /\ ign w x = false.
Proof.
  intros Hw. revert acc. induction items as [|it items IH]; intros acc Hr; simpl.
  - exists acc. split; [done|]. intros x. split; [by left|]. intros [?|(? & ?%elem_of_nil & _)]; done.
  - assert (forall it, it ∈ items -> key_InfoHash (item_Key it) = e_shortHash e -> 0 <= key_Index (item_Key it) < n) as Hr'.
    { intros. apply Hr; [by right|done]. }
    assert (forall acc', (forall x, x ∈ rb_elems acc' <-> x ∈ rb_elems acc \/
              item_Key it = key x /\ st_Priority (item_State it) <> PiecePriorityNone /\ ign w x = false) ->
            exists bm, proBitmap_loop e items acc' w = Ret bm w /\ forall x, x ∈ rb_elems bm <-> x ∈ rb_elems acc \/
              exists it', it' ∈ it :: items /\ item_Key it' = key x /\
                st_Priority (item_State it') <> PiecePriorityNone /\ ign w x = false) as Hgo.
    { intros acc' Hacc. destruct (IH acc' Hr') as (bm & Eb & Hb). exists bm. split; [done|].
      intros x. rewrite Hb, Hacc. setoid_rewrite elem_of_cons. naive_solver. }
    destruct it as [[ih x0] s]. cbn [item_Key key_InfoHash key_Index item_State] in *.
    destruct (bool_decide_reflect (ih = e_shortHash e)) as [->|Hne]; cbn [negb];
      [|apply Hgo; intros x; split; [by left|]; intros [?|([= ? ?] & _)]; done].
    destruct (Z.eqb_spec (st_Priority s) PiecePriorityNone) as [Hp|Hp];
      [apply Hgo; intros x; split; [by left|]; intros [?|(_ & ? & _)]; done|].
    assert (0 <= x0 < n) as Hx0 by (apply (Hr {| item_Key := {| key_InfoHash := e_shortHash e; key_Index := x0 |}; item_State := s |}); [by left|done]).
    rewrite (bind_step _ _ _ _ _ (ignore_run w x0 Hw Hx0)).
    destruct (ign w x0) eqn:Ei; apply Hgo; intros x.
    + split; [by left|]. intros [?|([= ->] & _ & ?)]; [done|congruence].
    + rewrite rb_Add_elems, elem_of_union, elem_of_singleton.
      pose proof (lo_range L n HL). rewrite wrapU_small by lia. split.
      * intros [->|?]; [right|by left]. done.
      * intros [?|([= ->] & _)]; [by right|by left].
Qed.

(** Every pending piece is one of the torrent. *)
Definition pend_range (w : World) : Prop := forall x, x ∈ rb_elems (w_pending w) -> 0 <= x < n.

Lemma pends_elem w i : 0 <= i < n -> pends w i = true <-> i ∈ rb_elems (w_pending w).
Proof.
  intros Hi. pose proof (lo_range L n HL). unfold pends, tb_Contains.
  rewrite rb_Contains_elems, bool_decide_eq_true, wrapU_small by lia. done.
Qed.

(** A change of the counters of [Try] alone. *)
Definition counted (w w' : World) : Prop := exists h d, w' = w <| w_herp := h |> <| w_derp := d |>.

Lemma counted_refl w : counted w w.
Proof. exists (w_herp w), (w_derp w). by destruct w. Qed.

Lemma Try_wp w : wp Try (fun _ w' => counted w w') w.
Proof.
  unfold Try. apply wp_bind, wp_modify, wp_bind, wp_gets, wp_bind, wp_gets.
  apply wp_if; intros _; [apply wp_bind, wp_modify|]; apply wp_ret; by eexists _, _.
Qed.

(** Changes of fields that the invariants do not mention. *)
Lemma wf_frame w w' : w_pieces w' = w_pieces w -> w_filePrio w' = w_filePrio w -> wf w -> wf w'.
Proof. intros E1 E2 []. split; by rewrite ?E1, ?E2. Qed.

Lemma Ord_frame w w' m : w_orders w' = w_orders w -> Ord w m -> Ord w' m.
Proof. intros E []. split; by rewrite ?E. Qed.

Lemma check_wp w m :
  wf w -> Ord w m -> pend_range w -> (forall i, 0 <= i < n -> matched m w i) ->
  wp (checkPendingPiecesMatchesRequestOrder e) (fun _ w' => counted w w') w.
Proof.
  intros Hw HO Hpr Hm. unfold checkPendingPiecesMatchesRequestOrder. apply wp_bind.
  eapply wp_mono; [apply Try_wp|]. cbn beta. intros b w' (h & d & ->).
  set (w1 := w <| w_herp := h |> <| w_derp := d |>).
  assert (counted w w1) as Hc by (by eexists _, _).
  assert (wf w1) as Hw1 by (by apply (wf_frame w)).
  assert (Ord w1 m) as [(pro & Ep & Hr) Hkeys _] by (by apply (Ord_frame w)).
  destruct b; cbn [negb]; [|by apply wp_ret]. apply wp_bind, wp_gets. change (w_disallowed w1) with (w_disallowed w).
  destruct (w_disallowed w); [by apply wp_ret|]. rewrite Hst. apply wp_bind, wp_gets. rewrite Ep.
  rewrite (Iter_refines pro m Hr). apply wp_bind.
  assert (forall it, it ∈ entries m <-> m !! item_Key it = Some (item_State it)) as Hent.
  { intros [k s]. unfold entries. rewrite merge_sort_Permutation, list_elem_of_fmap. split.
    - intros ([k' s'] & [= -> ->] & ?%elem_of_map_to_list). done.
    - intros Hk. exists (k, s). by rewrite elem_of_map_to_list. }
  destruct (proBitmap_run w1 (entries m) rb_New Hw1) as (bm & Eb & Hb).
  { intros it Hit%Hent. by eapply Hkeys. }
  unfold wp at 1. rewrite Eb. apply wp_bind, wp_gets. rewrite rb_Equals_elems, bool_decide_true; [by apply wp_ret|].
  apply set_eq. intros x. rewrite Hb, rb_New_elems. change (w_pending w1) with (w_pending w).
  setoid_rewrite Hent. split.
  - intros [?%elem_of_empty|([k s] & Hk & Ek & Hp & Hi)]; [done|]. cbn [item_Key item_State] in *. subst k.
    assert (0 <= x < n) as Hx by (by eapply (Hkeys (key x))). apply pends_elem; [done|].
    rewrite (Hm x Hx). unfold filed. rewrite Hk. change (ign w x = false) in Hi. rewrite Hi.
    by destruct (Z.eqb_spec (st_Priority s) PiecePriorityNone).
  - intros Hx. right. pose proof (Hpr x Hx) as Hxn. apply pends_elem in Hx; [|done]. rewrite (Hm x Hxn) in Hx.
    unfold filed in Hx. destruct (m !! key x) as [s|] eqn:Ek; [|done]. exists (mkItem (key x) s).
    apply andb_true_iff in Hx as [Hi%negb_true_iff Hp%negb_true_iff%Z.eqb_neq]. done.
Qed.

(** ** Updating the priority of a piece *)

(** What holds also in the middle of an operation. *)
Record Mid (w : World) (m : order_map) : Prop := {
  mid_wf : wf w;
  mid_ord : Ord w m;
  mid_pend : pend_range w;
  mid_hash i : 0 <= i < n -> hash_known w i = true;
  mid_open : w_closed w = false;
  mid_info : w_haveInfo w = true;
}.
#[local] Hint Resolve mid_wf mid_ord mid_pend mid_hash mid_open mid_info : core.

(** A change of what is derived from the pieces, and of the counters of [Try]; connections may have
    been told to update their requests. *)
Definition refreshed (w w' : World) : Prop := exists o p h d cs,
  w' = w <| w_orders := o |> <| w_pending := p |> <| w_herp := h |> <| w_derp := d |> <| w_conns := cs |> /\ told (w_conns w) cs.

Lemma refreshed_here w o p h d : refreshed w (w <| w_orders := o |> <| w_pending := p |> <| w_herp := h |> <| w_derp := d |>).
Proof. exists o, p, h, d, (w_conns w). split; [by destruct w|apply told_refl]. Qed.

Lemma refreshed_refl w : refreshed w w.
Proof. exists (w_orders w), (w_pending w), (w_herp w), (w_derp w), (w_conns w). split; [by destruct w|apply told_refl]. Qed.

Lemma refreshed_trans w1 w2 w3 : refreshed w1 w2 -> refreshed w2 w3 -> refreshed w1 w3.
Proof.
  intros (o & p & h & d & cs & -> & Ht) (o' & p' & h' & d' & cs' & -> & Ht'). exists o', p', h', d', cs'.
  split; [done|]. by eapply told_trans.
Qed.

Lemma refreshed_tells w w' : tells w w' -> refreshed w w'.
Proof. intros (cs & -> & Ht). exists (w_orders w), (w_pending w), (w_herp w), (w_derp w), cs. by split; [destruct w|]. Qed.

Lemma refreshed_wants w w' i : refreshed w w' -> ign w' i = ign w i /\ wants w' i = wants w i.
Proof. intros (o & p & h & d & cs & -> & _). done. Qed.

Lemma Mid_tells w w' m : tells w w' -> Mid w m -> Mid w' m.
Proof. intros (cs & -> & _) []. split; [by apply (wf_frame w)|by apply (Ord_frame w)|done..]. Qed.

Lemma peerHasPiece_reads w c i : w_haveInfo w = true -> exists b, conn_peerHasPiece e c i w = Ret b w.
Proof.
  intros Hh. destruct (lo_num L n HL) as [N EN]. unfold conn_peerHasPiece, peerHasPiece, peerHasAllPieces.
  destruct (pc_peerSentHaveAll c); go_simpl; [by eexists|]. rewrite Hh. cbn [negb]. rewrite EN. go_simpl.
  destruct (_ && _); by eexists.
Qed.

Lemma updatePeerRequests_wp w reason i : w_haveInfo w = true ->
  wp (updatePeerRequestsForPiece e reason i) (fun _ w' => tells w w') w.
Proof.
  intros Hh. unfold updatePeerRequestsForPiece, connIds. apply wp_bind, wp_gets. unfold when. apply wp_if; intros _; [|apply wp_ret, tells_refl].
  apply wp_bind, wp_gets, each_tells. intros id w' Hh'. apply wp_bind, wp_gets. destruct (w_conns w' !! id) as [c|] eqn:Hc; [|apply wp_ret, tells_refl].
  apply wp_if; intros _; [apply wp_ret, tells_refl|]. apply wp_bind. unfold wp at 1.
  destruct (peerHasPiece_reads w' c i) as [b ->]; [congruence|]. apply wp_if; intros _; [apply wp_ret, tells_refl|].
  apply wp_if; intros _; [apply wp_ret, tells_refl|]. by apply (onNeed_tells w' id c).
Qed.

Lemma Mid_counted w w' m : counted w w' -> Mid w m -> Mid w' m.
Proof.
  intros (h & d & ->) []. split; [by apply (wf_frame w)|by apply (Ord_frame w)|done..].
Qed.

Lemma counted_trans w1 w2 w3 : counted w1 w2 -> counted w2 w3 -> counted w1 w3.
Proof. intros (h & d & ->) (h' & d' & ->). by exists h', d'. Qed.

Lemma matched_counted m w w' : counted w w' -> (forall i, 0 <= i < n -> matched m w i) -> forall i, 0 <= i < n -> matched m w' i.
Proof. by intros (h & d & ->). Qed.

Lemma needData_wp w m :
  Mid w m -> (forall i, 0 <= i < n -> matched m w i) -> wp (needData e) (fun _ w' => counted w w') w.
Proof.
  intros HM Hm. unfold needData. apply wp_bind, wp_gets. rewrite (mid_open _ _ HM). apply wp_bind, wp_gets.
  rewrite (mid_info _ _ HM). apply wp_bind. eapply wp_mono; [eapply (check_wp w m); eauto|]. by intros ? w' Hc.
Qed.

Lemma seeding_wp w m :
  Mid w m -> (forall i, 0 <= i < n -> matched m w i) -> wp (seeding e) (fun _ w' => counted w w') w.
Proof.
  intros HM Hm. unfold seeding. apply wp_bind, wp_gets. rewrite (mid_open _ _ HM). apply wp_bind, wp_gets.
  apply wp_if; intros _; [apply wp_ret, counted_refl|]. apply wp_if; intros _; [|apply wp_ret, counted_refl].
  apply wp_bind. eapply wp_mono; [by apply (needData_wp w m)|]. intros need w' Hc. by apply wp_ret.
Qed.

Lemma openNewConns_mid w m :
  Mid w m -> (forall i, 0 <= i < n -> matched m w i) ->
  wp (openNewConns e) (fun _ w' => counted w w' /\ Mid w' m) w.
Proof.
  intros HM Hm. apply (wp_mono _ (fun _ w' => counted w w')).
  2:{ intros ? w' Hc. split; [done|]. exact (Mid_counted w w' m Hc HM). }
  unfold openNewConns, newConnsAllowed. destruct (e_mayConnect e); [|apply wp_ret, counted_refl].
  apply wp_bind, wp_bind, wp_gets. rewrite (mid_open _ _ HM). cbn [negb orb]. apply wp_bind.
  eapply wp_mono; [by apply (needData_wp w m)|]. cbn beta. intros need w1 Hc1. apply wp_if; intros _; [by do 2 apply wp_ret|].
  apply wp_bind. eapply wp_mono; [apply (seeding_wp w1 m); [by eapply Mid_counted|by eapply matched_counted]|].
  cbn beta. intros s w2 Hc2. apply wp_gets, wp_ret. by eapply counted_trans.
Qed.

Lemma tb_Contains_change (b b' : rb) i j :
  0 <= i < n -> 0 <= j < n -> j <> i -> (forall x, x <> i -> x ∈ rb_elems b' <-> x ∈ rb_elems b) ->
  tb_Contains j b' = tb_Contains j b.
Proof.
  intros Hi Hj Hne Hx. pose proof (lo_range L n HL). unfold tb_Contains. rewrite !rb_Contains_elems, wrapU_small by lia.
  apply bool_decide_ext. by apply Hx.
Qed.

(** [updatePendingPieces] sets the piece's bit to whether it is wanted. *)
Lemma updatePendingPieces_wp w m i :
  Mid w m -> 0 <= i < n ->
  wp (updatePendingPieces e i) (fun _ w' => exists p, w' = w <| w_pending := p |> /\ Mid w' m /\
    pends w' i = wants w i /\ forall j, 0 <= j < n -> j <> i -> pends w' j = pends w j) w.
Proof.
  intros HM Hi. pose proof (lo_range L n HL). unfold updatePendingPieces. apply wp_bind. unfold wp at 1.
  rewrite (effective_run w i (mid_wf _ _ HM) Hi). apply wp_bind.
  set (p0 := if ign w i then PiecePriorityNone else prio w i).
  assert ((if p0 =? PiecePriorityNone then haveHash e i else mret false) w = Ret (negb (wants w i)) w) as Eh.
  { unfold wants. subst p0. destruct (ign w i); cbn [negb andb].
    - rewrite Z.eqb_refl, (haveHash_run w i (mid_wf _ _ HM) Hi). by rewrite (mid_hash _ _ HM i Hi).
    - destruct (Z.eqb_spec (prio w i) PiecePriorityNone); [|done].
      rewrite (haveHash_run w i (mid_wf _ _ HM) Hi). by rewrite (mid_hash _ _ HM i Hi). }
  unfold wp at 1. rewrite Eh. apply wp_bind, wp_gets, wp_bind, wp_modify, wp_ret.
  eexists. split; [done|].
  set (p' := (if negb (wants w i) then tb_CheckedRemove i (w_pending w) else tb_CheckedAdd i (w_pending w)).1).
  assert (forall x, x ∈ rb_elems p' <-> if decide (x = i) then wants w i = true else x ∈ rb_elems (w_pending w)) as Hp'.
  { intros x. subst p'. unfold tb_CheckedRemove, tb_CheckedAdd. destruct (wants w i); cbn [negb].
    - rewrite rb_CheckedAdd_elems, wrapU_small by lia. destruct (decide (x = i)); set_solver.
    - rewrite rb_CheckedRemove_elems, wrapU_small by lia. destruct (decide (x = i)); set_solver. }
  split; [|split].
  - destruct HM as [Hw HO Hpr Hh Hc Hi']. split; [by apply (wf_frame w)|by apply (Ord_frame w)| |done..].
    intros x Hx%Hp'. destruct (decide (x = i)); [by subst|by apply Hpr].
  - unfold pends, tb_Contains. cbn [w_pending]. rewrite rb_Contains_elems, wrapU_small by lia.
    apply Bool.eq_iff_eq_true. rewrite bool_decide_eq_true. rewrite Hp'. by destruct (decide (i = i)).
  - intros j Hj Hne. apply (tb_Contains_change _ _ i); [done..|]. intros x Hx. rewrite Hp'.
    by destruct (decide (x = i)).
Qed.

Lemma Mid_orders w m o m' : Mid w m -> Ord (w <| w_orders := o |>) m' -> Mid (w <| w_orders := o |>) m'.
Proof. intros [] HO. split; [by apply (wf_frame w)|done..]. Qed.

Lemma filed_ext m m' w w' j :
  m' !! key j = m !! key j -> ign w' j = ign w j -> filed m' w' j = filed m w j.
Proof. unfold filed. by intros -> ->. Qed.

Lemma updateNoRequests_wp w m i :
  Mid w m -> 0 <= i < n -> (forall j, 0 <= j < n -> j <> i -> matched m w j) ->
  wp (updatePiecePriorityNoRequests e i) (fun _ w' => exists m', refreshed w w' /\ Mid w' m' /\ synced m' w' i /\
    forall j, 0 <= j < n -> j <> i -> pends w' j = pends w j /\ filed m' w' j = filed m w j) w.
Proof.
  intros HM Hi Hm. unfold updatePiecePriorityNoRequests.
  apply wp_bind, wp_gets. rewrite (mid_open _ _ HM). cbn [negb]. apply wp_bind, wp_bind.
  eapply wp_mono; [apply (updateOrder_wp w m i); eauto|].
  intros c w1 (pro' & m' & -> & HO & Hother & Hf). rewrite Hst. apply wp_ret. apply wp_bind.
  set (w1 := w <| w_orders := <[K:=pro']> (w_orders w) |>) in *.
  assert (Mid w1 m') as HM1 by (by eapply Mid_orders).
  eapply wp_mono; [by apply (updatePendingPieces_wp w1 m' i)|].
  intros changed w2 (p & -> & HM2 & Hp & Hpo). set (w2 := w1 <| w_pending := p |>) in *.
  assert (synced m' w2 i) as Hs.
  { split; [by rewrite Hp|]. by rewrite (filed_ext m' m' w w2 i). }
  assert (forall j, 0 <= j < n -> j <> i -> pends w2 j = pends w j /\ filed m' w2 j = filed m w j) as Hj.
  { intros j Hj Hne. split; [by rewrite Hpo|]. apply filed_ext; [|done]. apply Hother. by intros ?%key_inj. }
  assert (refreshed w w2) as Hr.
  { exists (w_orders w2), p, (w_herp w), (w_derp w), (w_conns w). split; [unfold w2, w1; by destruct w|apply told_refl]. }
  destruct changed; [|by apply wp_ret; exists m'].
  apply wp_bind. unfold when. destruct (negb (e_disableTriggers e)); [|by do 2 apply wp_ret; exists m'].
  unfold onPiecePendingTriggers. eapply wp_mono; [apply (openNewConns_mid w2 m'); [done|]|].
  - intros j Hj'. destruct (decide (j = i)) as [->|Hne]; [by apply synced_matched|].
    unfold matched. destruct (Hj j Hj' Hne) as [-> ->]. by apply Hm.
  - intros [] w3 [(h & d & ->) HM3]. apply wp_ret. exists m'. split; [|split; [done|split]].
    + eapply refreshed_trans; [done|]. exact (refreshed_here w2 (w_orders w2) p h d).
    + apply Hs.
    + apply Hj.
Qed.

Lemma updatePiecePriority_wp w m reason i :
  Mid w m -> 0 <= i < n -> (forall j, 0 <= j < n -> j <> i -> matched m w j) ->
  wp (updatePiecePriority e reason i) (fun _ w' => exists m', refreshed w w' /\ Mid w' m' /\ synced m' w' i /\
    forall j, 0 <= j < n -> j <> i -> pends w' j = pends w j /\ filed m' w' j = filed m w j) w.
Proof.
  intros HM Hi Hm. unfold updatePiecePriority. apply wp_bind. eapply wp_mono; [by apply (updateNoRequests_wp w m i)|].
  cbn beta. intros update w1 (m' & Hr & HM' & Hs & Hj). unfold when. apply wp_if; intros _; [|apply wp_ret; by exists m'].
  eapply wp_mono; [by apply updatePeerRequests_wp, (mid_info w1 m')|]. cbn beta. intros ? w2 Ht. exists m'.
  split; [by eapply refreshed_trans, refreshed_tells|]. split; [by eapply Mid_tells|]. destruct Ht as (cs & -> & _).
  split; [exact Hs|exact Hj].
Qed.

(** The pending pieces and the order agree with the state of every piece. *)
Definition Good (w : World) : Prop := exists m, Mid w m /\ forall i, 0 <= i < n -> synced m w i.

Lemma synced_ext m m' w w' j :
  pends w' j = pends w j -> filed m' w' j = filed m w j -> wants w' j = wants w j ->
  synced m w j -> synced m' w' j.
Proof. unfold synced. by intros -> -> ->. Qed.

(** Updating the pieces that are out of date, one after the other, with checks in between. *)
Lemma refresh_wp w m reason l :
  Mid w m -> (forall j, j ∈ l -> 0 <= j < n) -> (forall j, 0 <= j < n -> matched m w j) ->
  (forall j, 0 <= j < n -> j ∉ l -> synced m w j) ->
  wp (for_each (updatePiecePriority e reason) l) (fun _ w' => refreshed w w' /\ Good w') w.
Proof.
  intros HM Hl Hm Hs. eapply wp_mono.
  - apply (wp_for_each _ l (fun pre w' => exists m', refreshed w w' /\ Mid w' m' /\
      forall j, 0 <= j < n -> matched m' w' j /\ (j ∈ pre \/ j ∉ l -> synced m' w' j))).
    + exists m. split; [apply refreshed_refl|]. split; [done|]. intros j Hj. split; [by apply Hm|].
      intros [?%elem_of_nil|?]; [done|by apply Hs].
    + intros pre i post w' -> (m' & Hr & HM' & Hj). assert (0 <= i < n) as Hi by (apply Hl; set_solver).
      eapply wp_mono; [apply (updatePiecePriority_wp w' m' reason i HM' Hi)|].
      * intros j Hj' _. by apply Hj.
      * intros [] w'' (m'' & Hr' & HM'' & Hsi & Hother). exists m''. split; [by eapply refreshed_trans|].
        split; [done|]. intros j Hj'. destruct (decide (j = i)) as [->|Hne].
        { split; [by apply synced_matched|done]. }
        destruct (Hother j Hj' Hne) as [Ep Ef]. destruct (Hj j Hj') as [Hmj Hsj].
        split; [unfold matched in *; by rewrite Ep, Ef|]. intros Hin.
        apply (synced_ext m' m'' w'); [done..| |].
        { by apply refreshed_wants. }
        apply Hsj. destruct Hin as [[?|?%list_elem_of_singleton]%elem_of_app|]; [by left|done|by right].
  - intros [] w' (m' & Hr & HM' & Hj). split; [done|]. exists m'. split; [done|]. intros i Hi. apply Hj; [done|].
    destruct (decide (i ∈ l)); auto.
Qed.

(** All pieces but one are in agreement. *)
Definition Others (m : order_map) (w : World) (i : Z) : Prop := forall j, 0 <= j < n -> j <> i -> synced m w j.

Lemma change_others m w w1 i :
  (forall j, 0 <= j < n -> synced m w j) -> w_pending w1 = w_pending w ->
  (forall j, 0 <= j < n -> j <> i -> ign w1 j = ign w j /\ prio w1 j = prio w j) -> Others m w1 i.
Proof.
  intros Hs Hp Hj j Hj' Hne. destruct (Hj j Hj' Hne) as [Ei Ep]. apply (synced_ext m m w).
  - unfold pends. by rewrite Hp.
  - by apply filed_ext.
  - unfold wants. by rewrite Ei, Ep.
  - by apply Hs.
Qed.

Lemma update_wp w m reason i :
  Mid w m -> 0 <= i < n -> Others m w i ->
  wp (updatePiecePriority e reason i) (fun _ w' => refreshed w w' /\ Good w') w.
Proof.
  intros HM Hi Hs. eapply wp_mono; [apply (updatePiecePriority_wp w m reason i HM Hi)|].
  - intros j Hj' Hne. by apply synced_matched, Hs.
  - intros [] w' (m' & Hr & HM' & Hsi & Hother). split; [done|]. exists m'. split; [done|]. intros j Hj'.
    destruct (decide (j = i)) as [->|Hne]; [done|]. destruct (Hother j Hj' Hne) as [Ep Ef].
    apply (synced_ext m m' w); [done..| |by apply Hs]. by apply refreshed_wants.
Qed.

(** What is requested first changes, not what is wanted. *)
Lemma reorder_wp w m i :
  Mid w m -> 0 <= i < n -> Others m w i ->
  wp (updatePieceRequestOrderPiece e i) (fun _ w' => exists o m', w' = w <| w_orders := o |> /\ Mid w' m' /\
    Others m' w' i /\ filed m' w' i = wants w' i) w.
Proof.
  intros HM Hi Hs. eapply wp_mono; [apply (updateOrder_wp w m i); eauto|].
  intros ? w' (pro' & m' & -> & HO & Hother & Hf). eexists _, m'. split; [done|].
  split; [by eapply Mid_orders|]. split; [|done]. intros j Hj' Hne.
  apply (synced_ext m m' w); [done| |done|by apply Hs].
  apply filed_ext; [|done]. apply Hother. by intros ?%key_inj.
Qed.

Lemma others_good m w i : Mid w m -> Others m w i -> synced m w i -> Good w.
Proof.
  intros HM Ho Hs. exists m. split; [done|]. intros j Hj. destruct (decide (j = i)) as [->|]; [done|by apply Ho].
Qed.

Lemma reorder_good w m i :
  Mid w m -> 0 <= i < n -> Others m w i -> pends w i = wants w i ->
  wp (updatePieceRequestOrderPiece e i) (fun _ w' => exists o, w' = w <| w_orders := o |> /\ Good w') w.
Proof.
  intros HM Hi Hs Hp. eapply wp_mono; [by apply (reorder_wp w m i)|].
  intros ? w' (o & m' & -> & HM' & Ho & Hf). eexists. split; [done|]. by apply (others_good m' _ i).
Qed.

(** ** Changing the state of a piece *)

Definition set_ps (w : World) (i : Z) (s : pieceState) : World :=
  w <| w_pieces := <[Z.to_nat i := s]> (w_pieces w) |>.

Lemma set_piece_run w i f : wf w -> 0 <= i < n -> set_piece i f w = Ret tt (set_ps w i (f (ps w i))).
Proof.
  intros Hw Hi. destruct (state_run w i Hw Hi) as [Es _]. unfold set_piece. go_simpl. by rewrite Es.
Qed.

Lemma ps_set w i s j : wf w -> 0 <= i < n -> 0 <= j ->
  ps (set_ps w i s) j = if decide (j = i) then s else ps w j.
Proof.
  intros [Hl _ _] Hi Hj. unfold ps, at_. destruct (Z.ltb_spec j 0); [lia|].
  change (w_pieces (set_ps w i s)) with (<[Z.to_nat i := s]> (w_pieces w)).
  destruct (decide (j = i)) as [->|Hne].
  - rewrite list_lookup_insert_eq; [done|]. lia.
  - rewrite list_lookup_insert_ne; [done|]. lia.
Qed.

Lemma wf_set w i s : wf w -> 0 <= i < n -> wf (set_ps w i s).
Proof.
  intros [] Hi. split; [| |done]; change (w_pieces (set_ps w i s)) with (<[Z.to_nat i := s]> (w_pieces w)).
  - by rewrite length_insert.
  - by rewrite drop_insert_lt by lia.
Qed.

Lemma Mid_set w m i s : Mid w m -> 0 <= i < n -> ps_hashV2 s = ps_hashV2 (ps w i) -> Mid (set_ps w i s) m.
Proof.
  intros HM Hi Hs. pose proof (mid_wf _ _ HM) as Hw.
  split; [by apply wf_set|by apply (Ord_frame w), HM|apply HM| |apply HM..].
  intros j Hj. pose proof (mid_hash _ _ HM j Hj) as Hh. unfold hash_known in *. rewrite ps_set by (done || lia).
  destruct (decide (j = i)) as [->|]; [by rewrite Hs|done].
Qed.

(** Other pieces do not change. *)
Lemma set_other w i s j : wf w -> 0 <= i < n -> 0 <= j < n -> j <> i ->
  ign (set_ps w i s) j = ign w j /\ prio (set_ps w i s) j = prio w j.
Proof.
  intros Hw Hi Hj Hne. unfold ign, prio, hash_known. rewrite (ps_set w i s j) by (done || lia).
  by destruct (decide (j = i)).
Qed.

(** Nor does this one, if what counts is kept. *)
Lemma set_same w i s j : wf w -> 0 <= i < n -> 0 <= j < n ->
  ps_hashV2 s = ps_hashV2 (ps w i) -> ps_priority s = ps_priority (ps w i) ->
  ps_storageCompletionOk s = ps_storageCompletionOk (ps w i) ->
  ps_hashing s || ps_marking s = ps_hashing (ps w i) || ps_marking (ps w i) ->
  ign (set_ps w i s) j = ign w j /\ prio (set_ps w i s) j = prio w j.
Proof.
  intros Hw Hi Hj E1 E2 E3 E4. destruct (decide (j = i)) as [->|]; [|by apply set_other].
  unfold ign, prio, hash_known. rewrite (ps_set w i s i) by (done || lia). destruct (decide (i = i)); [|done].
  rewrite E1, E2, E3, <-!(orb_assoc (negb _)), E4. done.
Qed.
(** ** Peers *)

(** The entries of a map that have a property. *)
Definition number {A} (p : A -> bool) (m : gmap nat A) : nat := size (filter (fun x => p x.2 = true) m).

Lemma number_insert {A} (p : A -> bool) (m : gmap nat A) k a :
  number p (<[k := a]> m) = ((if p a then 1 else 0) + number p (delete k m))%nat.
Proof.
  unfold number. rewrite <-insert_delete_eq, map_filter_insert. cbn [snd]. destruct (p a) eqn:E.
  - rewrite decide_True by done. rewrite map_size_insert_None; [done|].
    apply map_lookup_filter_None. left. apply lookup_delete_eq.
  - rewrite decide_False by done. by rewrite delete_delete_eq.
Qed.

Lemma number_delete {A} (p : A -> bool) (m : gmap nat A) k a :
  m !! k = Some a -> number p m = ((if p a then 1 else 0) + number p (delete k m))%nat.
Proof. intros Hk. by rewrite <-number_insert, insert_id. Qed.

Lemma number_le {A} (p : A -> bool) (m : gmap nat A) : (number p m <= size m)%nat.
Proof. unfold number. apply map_subseteq_size, map_filter_subseteq. Qed.

Notation N := (default 0 (numPieces L)).

Definition conn_has (i : Z) (c : PeerConn) : bool :=
  negb (pc_closed c) && bool_decide (i ∈ rb_elems (pc_peerPieces c)).
Definition seed_has (i : Z) (s : webseedPeer) : bool :=
  negb (ws_closed s) && bool_decide (i ∈ rb_elems (ws_Pieces s)).

(** How many peers have piece [i], of those not known to have all. *)
Definition having (conns : gmap nat PeerConn) (seeds : gmap nat webseedPeer) (i : Z) : Z :=
  Z.of_nat (number (conn_has i) conns + number (seed_has i) seeds).

Record conn_ok (all : gset nat) (id : nat) (c : PeerConn) : Prop := {
  co_all : id ∈ all <-> pc_peerSentHaveAll c = true /\ pc_closed c = false;
  co_empty : pc_peerSentHaveAll c = true -> rb_elems (pc_peerPieces c) = ∅;
  co_u32 x : x ∈ rb_elems (pc_peerPieces c) -> 0 <= x < 2 ^ 32;
}.

(** A peer that is taken to have all pieces has no others, nor has any once the torrent took up
    its info ([trimmed]). *)
Definition fits (trimmed : bool) (c : PeerConn) : Prop := forall x, x ∈ rb_elems (pc_peerPieces c) ->
  trimmed = true \/ Z.of_nat (size (rb_elems (pc_peerPieces c))) = N -> x < N.

(** Each piece knows how many peers have it. *)
Record Conns (trimmed : bool) (w : World) : Prop := {
  pr_total : n <= N < 2 ^ 31;
  pr_conns id c : w_conns w !! id = Some c -> conn_ok (w_connsWithAllPieces w) id c;
  pr_all : w_connsWithAllPieces w ⊆ dom (w_conns w);
  pr_fits id c : w_conns w !! id = Some c -> pc_closed c = false -> fits trimmed c;
  pr_seeds u s x : w_webSeeds w !! u = Some s -> x ∈ rb_elems (ws_Pieces s) -> 0 <= x < N;
  pr_few : Z.of_nat (size (w_conns w) + size (w_webSeeds w)) < 2 ^ 31;
  pr_completed x : x ∈ rb_elems (w_completed w) -> 0 <= x < n;
  pr_rel i : 0 <= i < n -> ps_relativeAvailability (ps w i) = having (w_conns w) (w_webSeeds w) i;
  pr_reqs : Reqs e w;
}.

(** While the torrent takes up its info, no connection is closed but still there, web seeds have no
    pieces yet, and nothing was requested. *)
Definition Opened (trimmed : bool) (w : World) : Prop := trimmed = false ->
  (forall id c, w_conns w !! id = Some c -> pc_closed c = false) /\
  (forall u s, w_webSeeds w !! u = Some s -> ws_closed s = false /\ rb_elems (ws_Pieces s) = ∅) /\
  w_requestState w = ∅.

Definition Peers (trimmed : bool) (w : World) : Prop := Conns trimmed w /\ Opened trimmed w.

Lemma Peers_frame tr w w' :
  w_conns w' = w_conns w -> w_requestState w' = w_requestState w ->
  w_webSeeds w' = w_webSeeds w -> w_connsWithAllPieces w' = w_connsWithAllPieces w ->
  (forall x, x ∈ rb_elems (w_completed w') -> x ∈ rb_elems (w_completed w) \/ 0 <= x < n) ->
  (forall i, 0 <= i < n -> ps_relativeAvailability (ps w' i) = ps_relativeAvailability (ps w i)) ->
  Peers tr w -> Peers tr w'.
Proof.
  intros E1 Eq E2 E3 Hc Hr [[] HO]. split; [|unfold Opened; by rewrite E1, E2, Eq].
  split; rewrite ?E1, ?E2, ?E3; try done.
  - intros x [Hx|Hx]%Hc; [by apply pr_completed0|done].
  - intros i Hi. rewrite Hr by done. by apply pr_rel0.
  - by apply (Reqs_frame e w).
Qed.

Lemma having_bound tr w i : Peers tr w -> 0 <= having (w_conns w) (w_webSeeds w) i < 2 ^ 31.
Proof.
  intros [[] _]. pose proof (number_le (conn_has i) (w_conns w)). pose proof (number_le (seed_has i) (w_webSeeds w)).
  unfold having. lia.
Qed.

(** ** Changing availability *)

(** What holds while the availability of pieces is changed: the order is kept up to date, and
    nothing else is looked at. *)
Record steady (J : World -> Prop) : Prop := {
  sy_wf w : J w -> wf w;
  sy_info w : J w -> w_haveInfo w = true;
  sy_order w i r : J w -> 0 <= i < n ->
    let w1 := set_ps w i ((ps w i) <| ps_relativeAvailability := r |>) in
    wp (updatePieceRequestOrderPiece e i;; mret tt) (fun _ w' => J w' /\ exists o, w' = w1 <| w_orders := o |>) w1;
  sy_peers w cs ss a rs x g : J w ->
    J (w <| w_conns := cs |> <| w_webSeeds := ss |> <| w_connsWithAllPieces := a |> <| w_requestState := rs |>
         <| w_requestPieceStates := x |> <| w_requestPieceStatesGen := g |>);
}.

Lemma steady_Good : steady Good.
Proof.
  split.
  - intros w (m & HM & _); eauto.
  - intros w (m & HM & _). eauto.
  - intros w i r (m & HM & Hs) Hi w1. pose proof (mid_wf _ _ HM) as Hw. assert (Mid w1 m) as HM1 by (by apply Mid_set).
    apply wp_bind. eapply wp_mono; [apply (reorder_good w1 m i HM1 Hi)|].
    + apply (change_others m w); [done..|]. intros j Hj Hne. by apply set_other.
    + unfold wants. destruct (set_same w i ((ps w i) <| ps_relativeAvailability := r |>) i Hw Hi Hi) as [E1 E2]; [done..|].
      unfold w1. rewrite E1, E2. by apply Hs.
    + cbn beta. intros ? w' (o & -> & HG). apply wp_ret. split; [done|]. by exists o.
  - intros w cs ss a rs x g (m & [] & Hs). exists m. split; [|done].
    split; [by apply (wf_frame w)|by apply (Ord_frame w)|done..].
Qed.

(** The torrent may be closed. *)
Definition Core (w : World) : Prop := wf w /\ w_haveInfo w = true /\ exists m, Ord w m.

Lemma steady_Core : steady Core.
Proof.
  split.
  - by intros w [? _].
  - by intros w (_ & ? & _).
  - intros w i r (Hw & Hh & m & HO) Hi w1. assert (wf w1) as Hw1 by (by apply wf_set).
    apply wp_bind. eapply wp_mono; [apply (updateOrder_wp w1 m i Hw1); [by apply (Ord_frame w)|done]|].
    cbn beta. intros ? w' (pro' & m' & -> & HO' & _). apply wp_ret. split; [|by eexists].
    split; [by apply (wf_frame w1)|]. split; [done|by exists m'].
  - intros w cs ss a rs x g (Hw & Hh & m & HO). split; [by apply (wf_frame w)|]. split; [done|]. exists m. by apply (Ord_frame w).
Qed.

(** The availability of piece [i] is now [g i], and the order is changed. *)
Definition availed (g : Z -> Z) (w w' : World) : Prop := exists o l,
  w' = w <| w_pieces := l |> <| w_orders := o |> /\
  forall i, 0 <= i < n -> ps w' i = (ps w i) <| ps_relativeAvailability := g i |>.

Definition rel (w : World) (i : Z) : Z := ps_relativeAvailability (ps w i).
Definition at_piece (x r : Z) (g : Z -> Z) : Z -> Z := fun i => if decide (i = x) then r else g i.

Lemma availed_rel g w w' i : availed g w w' -> 0 <= i < n -> rel w' i = g i.
Proof. intros (o & l & _ & Hp) Hi. unfold rel. by rewrite Hp. Qed.

Lemma availed_ext g g' w w' : (forall i, 0 <= i < n -> g i = g' i) -> availed g w w' -> availed g' w w'.
Proof. intros Hg (o & l & E & Hp). exists o, l. split; [done|]. intros i Hi. by rewrite Hp, Hg. Qed.

Lemma availed_refl w : availed (rel w) w w.
Proof. exists (w_orders w), (w_pieces w). split; [by destruct w|]. intros i Hi. unfold rel. by destruct (ps w i). Qed.

Lemma availed_trans g g' w w1 w2 : availed g w w1 -> availed g' w1 w2 -> availed g' w w2.
Proof.
  intros (o & l & -> & Hp) (o' & l' & -> & Hp'). exists o', l'. split; [done|]. intros i Hi.
  rewrite Hp', Hp by done. by destruct (ps w i).
Qed.

Section Steady.
Context (J : World -> Prop) (HJ : steady J).

Lemma set_rel_wp w i r : J w -> 0 <= i < n ->
  wp (updatePieceRequestOrderPiece e i;; mret tt) (fun _ w' => J w' /\ availed (at_piece i r (rel w)) w w')
    (set_ps w i ((ps w i) <| ps_relativeAvailability := r |>)).
Proof using HJ.
  intros HJw Hi. eapply wp_mono; [by apply (sy_order J HJ)|]. cbn beta. intros ? w' [HJ' (o & ->)].
  split; [done|]. eexists o, _. split; [reflexivity|]. intros j Hj.
  change (ps (set_ps w i ((ps w i) <| ps_relativeAvailability := r |>)) j = (ps w j) <| ps_relativeAvailability := at_piece i r (rel w) j |>).
  rewrite ps_set by (first [by apply (sy_wf J HJ)|lia]). unfold at_piece. destruct (decide (j = i)) as [->|]; [done|].
  unfold rel. by destruct (ps w j).
Qed.

Lemma dec_wp w i : J w -> 0 <= i < n -> 0 < rel w i ->
  wp (decPieceAvailability e i) (fun _ w' => J w' /\ availed (at_piece i (rel w i - 1) (rel w)) w w') w.
Proof using HJ.
  intros HJw Hi Hpos. pose proof (sy_wf J HJ w HJw) as Hw. unfold decPieceAvailability. apply wp_bind, wp_gets.
  rewrite (sy_info J HJ w HJw). cbn [when]. destruct (state_run w i Hw Hi) as [_ Es].
  apply wp_bind. unfold wp at 1. rewrite Es. unfold rel in Hpos. destruct (Z.leb_spec (ps_relativeAvailability (ps w i)) 0); [lia|].
  apply wp_bind. unfold wp at 1. rewrite set_piece_run by done. by apply set_rel_wp.
Qed.

Lemma inc_wp w i : J w -> 0 <= i < n -> - 2 ^ 31 <= rel w i + 1 < 2 ^ 31 ->
  wp (incPieceAvailability e i) (fun _ w' => J w' /\ availed (at_piece i (rel w i + 1) (rel w)) w w') w.
Proof using HJ.
  intros HJw Hi Hb. pose proof (sy_wf J HJ w HJw) as Hw. unfold incPieceAvailability. apply wp_bind, wp_gets.
  rewrite (sy_info J HJ w HJw). cbn [when]. apply wp_bind. unfold wp at 1. rewrite set_piece_run by done.
  unfold rel in Hb. rewrite wrapS_small by (unfold min_int, max_int; change (2 ^ (32 - 1)) with (2 ^ 31); lia). by apply set_rel_wp.
Qed.

(** Changing the availability of the pieces of a list, one after the other. *)
Lemma avail_loop (f : Z -> go World unit unit) (r : Z -> Z) l w :
  NoDup l -> (forall x, x ∈ l -> 0 <= x < n) -> J w ->
  (forall x g w', x ∈ l -> J w' -> availed g w w' -> rel w' x = rel w x ->
     wp (f x) (fun _ w'' => J w'' /\ availed (at_piece x (r x) (rel w')) w' w'') w') ->
  wp (for_each f l) (fun _ w' => J w' /\ availed (fun i => if decide (i ∈ l) then r i else rel w i) w w') w.
Proof using HJ.
  clear Hst HL.
  intros Hn Hl HJw Hf.
  apply (wp_for_each f l (fun pre w' => J w' /\ availed (fun i => if decide (i ∈ pre) then r i else rel w i) w w')).
  - split; [done|]. eapply availed_ext; [|apply availed_refl]. done.
  - intros pre x post w' -> [HJ' Ha]. apply NoDup_app in Hn as (_ & Hd & _).
    assert (x ∉ pre) as Hx by (intros Hx; apply (Hd x Hx); by left).
    assert (0 <= x < n) as Hxn by (apply Hl; set_solver).
    eapply wp_mono; [eapply Hf; [set_solver|done|exact Ha|]|].
    + rewrite (availed_rel _ w w' x Ha Hxn). cbn beta. by rewrite decide_False.
    + cbn beta. intros ? w'' [HJ'' Ha']. split; [done|]. eapply availed_trans; [exact Ha|].
      eapply availed_ext; [|exact Ha']. intros i Hi. unfold at_piece. destruct (decide (i = x)) as [->|Hne].
      * rewrite decide_True by set_solver. done.
      * rewrite (availed_rel _ w w' i Ha Hi). cbn beta. destruct (decide (i ∈ pre)); [rewrite decide_True by set_solver|rewrite decide_False by set_solver]; done.
Qed.

Lemma dec_loop l w : NoDup l -> (forall x, x ∈ l -> 0 <= x < n) -> J w -> (forall x, x ∈ l -> 0 < rel w x) ->
  wp (for_each (decPieceAvailability e) l)
    (fun _ w' => J w' /\ availed (fun i => if decide (i ∈ l) then rel w i - 1 else rel w i) w w') w.
Proof using HJ.
  clear Hst HL.
  intros Hn Hl HJw Hpos. apply (avail_loop _ (fun i => rel w i - 1)); [done..|]. intros x g w' Hx HJ' _ E. rewrite <-E.
  apply dec_wp; [done|auto|]. rewrite E. auto.
Qed.
End Steady.

Lemma iterator_NoDup (b : rb) : NoDup (rb_iterator b).
Proof.
  pose proof (rb_iterator_sorted b) as Hs. induction Hs as [|x l Hs IH Hx]; constructor; [|done].
  intros Hin. rewrite Forall_forall in Hx. specialize (Hx x Hin). lia.
Qed.

Lemma openNewConns_good w : Good w -> wp (openNewConns e) (fun _ w' => counted w w' /\ Good w') w.
Proof.
  intros (m & HM & Hs). eapply wp_mono; [apply (openNewConns_mid w m HM)|].
  - intros i Hi. by apply synced_matched, Hs.
  - cbn beta. intros [] w' [(h & d & ->) HM']. split; [by exists h, d|by exists m].
Qed.

(** ** Dropping connections *)

Lemma number_set {A} (p : A -> bool) (m : gmap nat A) k a a' : m !! k = Some a ->
  Z.of_nat (number p (<[k := a']> m)) = Z.of_nat (number p m) - Z.b2z (p a) + Z.b2z (p a').
Proof. intros Hk. rewrite number_insert, (number_delete p m k a Hk). destruct (p a), (p a'); cbn; lia. Qed.

(** A connection changes, and with it the availability of the pieces it has. *)
Lemma Conns_conn tr w w' id c c' :
  Conns tr w -> w_conns w !! id = Some c ->
  w_conns w' = <[id := c']> (w_conns w) -> w_requestState w' = w_requestState w -> same_reqs c c' ->
  w_webSeeds w' = w_webSeeds w -> w_completed w' = w_completed w ->
  (forall j, j <> id -> j ∈ w_connsWithAllPieces w' <-> j ∈ w_connsWithAllPieces w) ->
  conn_ok (w_connsWithAllPieces w') id c' -> (pc_closed c' = false -> fits tr c') ->
  (forall i, 0 <= i < n -> rel w' i = rel w i - Z.b2z (conn_has i c) + Z.b2z (conn_has i c')) -> Conns tr w'.
Proof using Type.
  clear Hst HL.
  intros HC Hid Ec Eq Hq Es Eco Ha Hok Hf Hr. destruct HC. split; rewrite ?Ec, ?Es, ?Eco; try done.
  - intros j cj. destruct (decide (j = id)) as [->|Hne]; [rewrite lookup_insert_eq; by intros [= <-]|].
    rewrite lookup_insert_ne by done. intros [H1 H2 H3]%pr_conns0. split; [by rewrite Ha|done..].
  - intros j Hj. rewrite dom_insert. destruct (decide (j = id)) as [->|Hne]; [set_solver|]. apply Ha in Hj; set_solver.
  - intros j cj. destruct (decide (j = id)) as [->|Hne]; [rewrite lookup_insert_eq; by intros [= <-]|].
    rewrite lookup_insert_ne by done. apply pr_fits0.
  - rewrite map_size_insert_Some by done. done.
  - intros i Hi. change (rel w' i = having (<[id := c']> (w_conns w)) (w_webSeeds w) i). rewrite (Hr i Hi).
    unfold rel, having. rewrite pr_rel0 by done. unfold having. pose proof (number_set (conn_has i) _ _ _ c' Hid). lia.
  - destruct (same_reqs_ok e c c' Hq (rq_conns e w pr_reqs0 id c Hid)). by apply (Reqs_same e w w' id c c').
Qed.

Lemma Conns_seed tr w w' u s s' :
  Conns tr w -> w_webSeeds w !! u = Some s ->
  w_webSeeds w' = <[u := s']> (w_webSeeds w) -> w_conns w' = w_conns w -> w_requestState w' = w_requestState w ->
  w_completed w' = w_completed w ->
  w_connsWithAllPieces w' = w_connsWithAllPieces w -> (forall x, x ∈ rb_elems (ws_Pieces s') -> 0 <= x < N) ->
  (forall i, 0 <= i < n -> rel w' i = rel w i - Z.b2z (seed_has i s) + Z.b2z (seed_has i s')) -> Conns tr w'.
Proof.
  intros HC Hu Es Ec Eq Eco Ea Hs Hr. destruct HC. split; rewrite ?Ec, ?Es, ?Eco, ?Ea; try done.
  - intros v sv x. destruct (decide (v = u)) as [->|Hne]; [rewrite lookup_insert_eq; intros [= <-]; apply Hs|].
    rewrite lookup_insert_ne by done. apply pr_seeds0.
  - rewrite map_size_insert_Some by done. done.
  - intros i Hi. change (rel w' i = having (w_conns w) (<[u := s']> (w_webSeeds w)) i). rewrite (Hr i Hi).
    unfold rel, having. rewrite pr_rel0 by done. unfold having. pose proof (number_set (seed_has i) _ _ _ s' Hu). lia.
  - by apply (Reqs_frame e w).
Qed.

(** What dropping connections, and taking up the completion of a piece, leaves alone. *)
Definition redone (w w' : World) : Prop := exists o p h d y l cs ss a rs x g,
  w' = w <| w_orders := o |> <| w_pending := p |> <| w_herp := h |> <| w_derp := d |> <| w_dirty := y |>
         <| w_pieces := l |> <| w_conns := cs |> <| w_webSeeds := ss |> <| w_connsWithAllPieces := a |>
         <| w_requestState := rs |> <| w_requestPieceStates := x |> <| w_requestPieceStatesGen := g |> /\
  forall i, 0 <= i < n -> ps w' i = (ps w i) <| ps_relativeAvailability := rel w' i |>.

(** By changing fields other than the pieces themselves. *)
Lemma redone_pieces w w' o p h d y cs ss a rs x g :
  w' = w <| w_orders := o |> <| w_pending := p |> <| w_herp := h |> <| w_derp := d |> <| w_dirty := y |>
         <| w_conns := cs |> <| w_webSeeds := ss |> <| w_connsWithAllPieces := a |>
         <| w_requestState := rs |> <| w_requestPieceStates := x |> <| w_requestPieceStatesGen := g |> -> redone w w'.
Proof.
  intros ->. exists o, p, h, d, y, (w_pieces w), cs, ss, a, rs, x, g. split; [done|]. intros i Hi.
  change (ps w i = (ps w i) <| ps_relativeAvailability := rel w i |>). unfold rel. by destruct (ps w i).
Qed.

Lemma redone_local w w' o p h d y :
  w' = w <| w_orders := o |> <| w_pending := p |> <| w_herp := h |> <| w_derp := d |> <| w_dirty := y |> -> redone w w'.
Proof.
  intros ->. apply (redone_pieces w _ o p h d y (w_conns w) (w_webSeeds w) (w_connsWithAllPieces w) (w_requestState w)
    (w_requestPieceStates w) (w_requestPieceStatesGen w)). by destruct w.
Qed.

Lemma redone_refl w : redone w w.
Proof. apply (redone_local w w (w_orders w) (w_pending w) (w_herp w) (w_derp w) (w_dirty w)). by destruct w. Qed.

Lemma redone_refreshed w w' : refreshed w w' -> redone w w'.
Proof.
  intros (o & p & h & d & cs & -> & _). by apply (redone_pieces w _ o p h d (w_dirty w) cs (w_webSeeds w) (w_connsWithAllPieces w)
    (w_requestState w) (w_requestPieceStates w) (w_requestPieceStatesGen w)); destruct w.
Qed.

Lemma redone_counted w w' : counted w w' -> redone w w'.
Proof. intros (h & d & ->). by apply (redone_local w _ (w_orders w) (w_pending w) h d (w_dirty w)). Qed.

Lemma redone_availed g w w' : availed g w w' -> redone w w'.
Proof.
  intros (o & l & -> & Hp). exists o, (w_pending w), (w_herp w), (w_derp w), (w_dirty w), l, (w_conns w), (w_webSeeds w),
    (w_connsWithAllPieces w), (w_requestState w), (w_requestPieceStates w), (w_requestPieceStatesGen w).
  split; [done|]. intros i Hi. rewrite Hp by done. unfold rel. by rewrite Hp.
Qed.

Lemma redone_trans w1 w2 w3 : redone w1 w2 -> redone w2 w3 -> redone w1 w3.
Proof.
  intros (o & p & h & d & y & l & cs & ss & a & rs & x & g & -> & Hp) (o' & p' & h' & d' & y' & l' & cs' & ss' & a' & rs' & x' & g' & -> & Hp').
  exists o', p', h', d', y', l', cs', ss', a', rs', x', g'. split; [done|]. intros i Hi. rewrite Hp', Hp by done. by destruct (ps w1 i).
Qed.

Lemma redone_peers w cs ss a rs x g :
  redone w (w <| w_conns := cs |> <| w_webSeeds := ss |> <| w_connsWithAllPieces := a |> <| w_requestState := rs |>
              <| w_requestPieceStates := x |> <| w_requestPieceStatesGen := g |>).
Proof. by apply (redone_pieces w _ (w_orders w) (w_pending w) (w_herp w) (w_derp w) (w_dirty w) cs ss a rs x g). Qed.

Lemma redone_talked w w' : talked w w' -> redone w w'.
Proof. intros (cs & rs & x & g & -> & _). exact (redone_peers w cs (w_webSeeds w) (w_connsWithAllPieces w) rs x g). Qed.

Lemma steady_talked J (HJ : steady J) w w' : talked w w' -> J w -> J w'.
Proof. intros (cs & rs & x & g & -> & _) HJw. exact (sy_peers J HJ w cs (w_webSeeds w) (w_connsWithAllPieces w) rs x g HJw). Qed.

Lemma number_like (p : PeerConn -> bool) m m' : (forall c c', kept c c' -> p c' = p c) -> like m m' -> number p m' = number p m.
Proof.
  intros Hp Hl. unfold number. rewrite <-!size_dom. f_equal. apply set_eq. intros id. rewrite !elem_of_dom.
  unfold is_Some. setoid_rewrite map_lookup_filter_Some. specialize (Hl id). destruct Hl as [c c' Hk|]; [|done].
  specialize (Hp c c' Hk). cbn. split; intros (x & [= <-] & Hx); eexists; (split; [done|]); congruence.
Qed.

Lemma conn_has_kept i c c' : kept c c' -> conn_has i c' = conn_has i c.
Proof. intros (E1 & _ & E3). unfold conn_has. by rewrite E1, E3. Qed.

Lemma having_like m m' ss i : like m m' -> having m' ss i = having m ss i.
Proof. intros Hl. unfold having. by rewrite (number_like (conn_has i) m m' (conn_has_kept i) Hl). Qed.

(** What was requested does not matter to the pieces. *)
Lemma Conns_talked tr w w' : Conns tr w -> talked w w' -> Reqs e w' -> Conns tr w'.
Proof.
  intros [] Ha HR. pose proof (talked_like _ _ Ha) as Hl. destruct Ha as (cs & rs & x & g & -> & _). change (like (w_conns w) cs) in Hl.
  set (w' := w <| w_conns := cs |> <| w_requestState := rs |> <| w_requestPieceStates := x |> <| w_requestPieceStatesGen := g |>) in *.
  split; try done; change (w_conns w') with cs.
  - intros id c' Hid. destruct (like_back _ _ id c' Hl Hid) as (c & Hc & E1 & E2 & E3). destruct (pr_conns0 id c Hc).
    split; rewrite ?E1, ?E2, ?E3; done.
  - by rewrite (like_dom _ _ Hl).
  - intros id c' Hid Ec. destruct (like_back _ _ id c' Hl Hid) as (c & Hc & E1 & E2 & E3). unfold fits. rewrite E1.
    apply (pr_fits0 id c Hc). congruence.
  - by rewrite (like_size _ _ Hl).
  - intros i Hi. change (ps_relativeAvailability (ps w i) = having cs (w_webSeeds w) i). rewrite (having_like _ _ _ _ Hl). by apply pr_rel0.
Qed.

Lemma Peers_fewer tr w w' : Peers tr w -> talked w w' -> w_requestState w' ⊆ w_requestState w -> Reqs e w' -> Peers tr w'.
Proof.
  intros [HC HO] Ha Hs HR. split; [by eapply Conns_talked|]. intros Htr. destruct (HO Htr) as (H1 & H2 & H3).
  split; [|split; [by destruct Ha as (cs & rs & x & g & -> & _)|by apply map_below_empty; rewrite H3 in Hs]]. intros id c' Hid.
  destruct (talked_back w w' id c' Ha Hid) as (c & Hc & _ & _ & ->). by apply (H1 id).
Qed.

Lemma Peers_asked tr w w' : Peers tr w -> asked w w' -> Reqs e w' -> Peers tr w'.
Proof. intros HP (Ha & Hs & _). by apply (Peers_fewer tr w). Qed.

Lemma Peers_tells tr w w' : tells w w' -> Peers tr w -> Peers tr w'.
Proof.
  intros (cs & -> & Ht) HP. apply (Peers_asked tr w); [done| |apply Reqs_told; [done|apply HP]].
  split; [|done]. exists cs, (w_requestState w), (w_requestPieceStates w), (w_requestPieceStatesGen w).
  split; [by destruct w|by apply told_like].
Qed.

Lemma Peers_refreshed tr w w' : refreshed w w' -> Peers tr w -> Peers tr w'.
Proof.
  intros (o & p & h & d & cs & -> & Ht) HP.
  apply (Peers_tells tr (w <| w_orders := o |> <| w_pending := p |> <| w_herp := h |> <| w_derp := d |>)); [by exists cs|].
  apply (Peers_frame tr w); eauto.
Qed.

Lemma conn_counted tr w id c i : Conns tr w -> w_conns w !! id = Some c -> 0 <= i < n -> conn_has i c = true -> 0 < rel w i.
Proof.
  intros HC Hid Hi Hh. unfold rel. rewrite (pr_rel tr w HC i Hi). unfold having.
  rewrite (number_delete (conn_has i) _ _ _ Hid), Hh. lia.
Qed.

Lemma close_wp J (HJ : steady J) tr w id c :
  J w -> Conns tr w -> w_conns w !! id = Some c ->
  (pc_closed c = false -> forall x, x ∈ rb_elems (pc_peerPieces c) -> x < n) ->
  wp (close e id) (fun _ w' => J w' /\ Conns tr w' /\ redone w w' /\ w_webSeeds w' = w_webSeeds w /\
    w_conns w' = <[id := c <| pc_closed := true |>]> (w_conns w) /\ w_requestState w' = w_requestState w) w.
Proof using Type.
  clear Hst HL.
  intros HJw HC Hid Hx. pose proof (pr_conns tr w HC id c Hid) as [Hall Hemp Hu]. unfold close.
  apply wp_bind, wp_gets. rewrite Hid. cbn [from_option]. destruct (pc_closed c) eqn:Ec; cbn [negb when].
  { apply wp_ret. split; [done|]. split; [done|]. split; [apply redone_refl|]. split; [done|].
    rewrite insert_id; [done|]. rewrite Hid. f_equal. by destruct c; cbn in Ec; subst. }
  set (c1 := c <| pc_closed := true |>).
  apply wp_bind. unfold wp at 1. rewrite (set_conn_run w id c _ Hid). fold c1. set (w1 := w <| w_conns := _ |>).
  unfold decPeerPieceAvailability, deleteConnWithAllPieces. apply wp_bind, wp_bind, wp_gets, wp_bind, wp_modify, wp_ret.
  set (a := w_connsWithAllPieces w1 ∖ {[id]}). set (w2 := w1 <| w_connsWithAllPieces := a |>).
  assert (J w2) as HJ2 by exact (sy_peers J HJ w (<[id := c1]> (w_conns w)) (w_webSeeds w) a (w_requestState w) (w_requestPieceStates w) (w_requestPieceStatesGen w) HJw).
  assert (redone w w2) as Hr2 by exact (redone_peers w (<[id := c1]> (w_conns w)) (w_webSeeds w) a (w_requestState w) (w_requestPieceStates w) (w_requestPieceStatesGen w)).
  assert (forall w', availed (fun i => if decide (i ∈ rb_elems (pc_peerPieces c)) then rel w i - 1 else rel w i) w2 w' -> Conns tr w') as HC'.
  { intros w' Ha. apply (Conns_conn tr w w' id c c1 HC Hid); try (by destruct Ha as (o & l & -> & _)).
    - intros j Hj. destruct Ha as (o & l & -> & _). cbn. unfold a. cbn. set_solver.
    - destruct Ha as (o & l & -> & _). split; [|done|done]. cbn. unfold a. cbn. set_solver.
    - intros i Hi. rewrite (availed_rel _ _ _ i Ha Hi). cbn beta. unfold conn_has. cbn. rewrite Ec. cbn [negb andb].
      destruct (decide (i ∈ _)) as [Hin|Hin]; [rewrite bool_decide_true by done|rewrite bool_decide_false by done]; cbn; lia. }
  assert (forall w', availed (fun i => if decide (i ∈ rb_elems (pc_peerPieces c)) then rel w i - 1 else rel w i) w2 w' -> J w' ->
    J w' /\ Conns tr w' /\ redone w w' /\ w_webSeeds w' = w_webSeeds w /\ w_conns w' = <[id := c1]> (w_conns w) /\
    w_requestState w' = w_requestState w) as Hend.
  { intros w' Ha HJ'. split; [done|]. split; [by apply HC'|]. split; [by eapply redone_trans, redone_availed|].
    by destruct Ha as (o & l & -> & _). }
  apply wp_if.
  - intros Hin%bool_decide_eq_true_1. apply wp_ret. apply Hend; [|done]. eapply availed_ext; [|apply availed_refl].
    intros i Hi. rewrite Hemp by (by apply Hall). by rewrite decide_False by set_solver.
  - intros _. apply wp_bind, wp_gets. change (w_haveInfo w2) with (w_haveInfo w). rewrite (sy_info J HJ w HJw). cbn [when].
    apply wp_bind. unfold wp at 1. rewrite (conn_run w2 id c1) by apply lookup_insert_eq.
    assert (forall x, x ∈ rb_iterator (pc_peerPieces c1) -> 0 <= x < n) as Hrange.
    { intros x ?%rb_iterator_elems. split; [by apply Hu|by apply Hx]. }
    eapply wp_mono; [apply (dec_loop J HJ); [apply iterator_NoDup|done|done|]|].
    + intros x Hin. apply (conn_counted tr w id c x HC Hid); [auto|]. unfold conn_has. rewrite Ec.
      apply rb_iterator_elems in Hin. by rewrite bool_decide_true.
    + cbn beta. intros ? w' [HJ' Ha]. apply Hend; [|done]. eapply availed_ext; [|exact Ha]. intros i Hi.
      cbn beta. change (rel w2 i) with (rel w i). destruct (decide (i ∈ rb_iterator (pc_peerPieces c1))) as [Hin|Hin]; rewrite rb_iterator_elems in Hin.
      * rewrite decide_True by exact Hin. done.
      * rewrite decide_False by exact Hin. done.
Qed.

(** Removing a closed connection that has nothing requested. *)
Lemma Conns_removed tr w id c : Conns tr w -> w_conns w !! id = Some c -> pc_closed c = true -> reqs c = [] ->
  Conns tr (w <| w_conns := delete id (w_conns w) |>) /\ w_connsWithAllPieces w ⊆ dom (delete id (w_conns w)).
Proof using Type.
  clear Hst HL.
  intros HC Hid Ec Er. pose proof (pr_conns tr w HC id c Hid) as [Hall _ _]. set (w1 := w <| w_conns := _ |>).
  assert (w_connsWithAllPieces w ⊆ dom (delete id (w_conns w))) as Hsub.
  { intros j Hj. rewrite dom_delete. pose proof (pr_all tr w HC j Hj). assert (j <> id); [|set_solver].
    intros ->. apply Hall in Hj as [_ ?]. congruence. }
  split; [|done]. destruct HC. split; try done; change (w_conns w1) with (delete id (w_conns w)).
  - intros j cj [_ Hj]%lookup_delete_Some. by apply (pr_conns0 j).
  - intros j cj [_ Hj]%lookup_delete_Some. by apply (pr_fits0 j).
  - change (w_webSeeds w1) with (w_webSeeds w). rewrite map_size_delete_Some by done. lia.
  - intros i Hi. change (rel w i = having (delete id (w_conns w)) (w_webSeeds w) i). unfold rel. rewrite pr_rel0 by done.
    unfold having. rewrite (number_delete (conn_has i) _ _ _ Hid). unfold conn_has at 1. by rewrite Ec.
  - by apply (Reqs_removed e w w1 id c).
Qed.

Context (Hrange : forall w l, e_range e w l ≡ₚ l).

(** Taking back the requests, if there are any. *)
Lemma takeBack_wp w id c : Reqs e w -> w_conns w !! id = Some c ->
  wp (when (negb (ob_IsEmpty (pc_Requests c))) (deleteRequests id)) (fun _ w' => idle e w id w') w.
Proof using GLL RBL.
  clear Hst HL Hrange.
  intros HR Hid. rewrite (ob_IsEmpty_holds _ _ (cr_holds e c (rq_conns e w HR id c Hid))).
  unfold when. apply wp_if; intros Hb; [by apply (deleteRequests_wp e w id c)|]. apply wp_ret.
  apply negb_false_iff, bool_decide_eq_true_1 in Hb. split; [apply asked_refl|]. split; [done|]. exists c. by rewrite insert_id.
Qed.

Lemma deletePeerConn_wp J (HJ : steady J) tr w id c :
  J w -> Conns tr w -> w_conns w !! id = Some c -> pc_closed c = true ->
  wp (deletePeerConn e id) (fun ok w' => ok = true /\ J w' /\ Conns tr w' /\ redone w w' /\
    w_webSeeds w' = w_webSeeds w /\ like (delete id (w_conns w)) (w_conns w') /\ w_requestState w' ⊆ w_requestState w) w.
Proof using GLL RBL Hrange.
  clear Hst HL.
  intros HJw HC Hid Ec. unfold deletePeerConn. apply wp_bind, wp_gets. rewrite Hid. cbn [from_option]. rewrite Ec. cbn [negb].
  apply wp_bind. eapply wp_mono; [apply (takeBack_wp w id c (pr_reqs tr w HC) Hid)|]. cbn beta. intros ? w1 (Ha1 & HR1 & c1 & E1 & Er1).
  assert (w_conns w1 !! id = Some c1) as Hid1 by (by rewrite E1, lookup_insert_eq).
  assert (pc_closed c1 = true) as Ec1.
  { destruct (talked_conn w w1 id c (proj1 Ha1) Hid) as (c1' & Hid1' & _ & _ & E). rewrite Hid1 in Hid1'. injection Hid1' as <-. congruence. }
  destruct (Conns_removed tr w1 id c1 (Conns_talked tr w w1 HC (proj1 Ha1) HR1) Hid1 Ec1 Er1) as [HC2 Hsub2].
  pose proof (steady_talked J HJ w w1 (proj1 Ha1) HJw) as HJ1. apply wp_bind, wp_modify. set (w2 := w1 <| w_conns := _ |>) in *.
  assert (J w2) as HJ2 by exact (sy_peers J HJ w1 _ (w_webSeeds w1) (w_connsWithAllPieces w1) (w_requestState w1) (w_requestPieceStates w1) (w_requestPieceStatesGen w1) HJ1).
  apply wp_bind. eapply (wp_mono _ (fun _ w' => asked w2 w' /\ Reqs e w')).
  { unfold when. apply wp_if; intros _; [by apply tellIdle_wp, (pr_reqs tr)|]. apply wp_ret. split; [apply asked_refl|by apply (pr_reqs tr)]. }
  cbn beta. intros ? w3 [Ha3 HR3]. pose proof (Conns_talked tr w2 w3 HC2 (proj1 Ha3) HR3) as HC3.
  assert (like (delete id (w_conns w)) (w_conns w3)) as Hl.
  { eapply like_trans; [apply like_delete, (talked_like _ _ (proj1 Ha1))|]. exact (talked_like _ _ (proj1 Ha3)). }
  apply wp_bind, wp_gets. rewrite (proj2 (andb_false_iff _ _)).
  2:{ destruct (Nat.eqb_spec (size (w_conns w3)) 0) as [E|]; [right|by left].
      rewrite (Reqs_none e w3 HR3) by (by apply map_size_empty_inv). by rewrite map_size_empty. }
  apply wp_bind, wp_gets, wp_bind, wp_gets. rewrite (proj2 (andb_false_iff _ _)).
  2:{ destruct (Nat.eqb_spec (size (w_conns w3) + size (w_webSeeds w3)) 0) as [E|]; [right|by left].
      apply negb_false_iff, bool_decide_eq_true. pose proof (pr_all tr w3 HC3) as Hs.
      rewrite (map_size_empty_inv (w_conns w3)), dom_empty_L in Hs by lia. set_solver. }
  apply wp_ret. rewrite bool_decide_true by eauto. split; [done|]. split; [by apply (steady_talked J HJ w2), HJ2; apply Ha3|]. split; [done|].
  assert (redone w1 w2) as Hr2 by exact (redone_peers w1 _ (w_webSeeds w1) (w_connsWithAllPieces w1) (w_requestState w1) (w_requestPieceStates w1) (w_requestPieceStatesGen w1)).
  split; [eapply redone_trans; [apply redone_talked, Ha1|]; eapply redone_trans; [exact Hr2|apply redone_talked, Ha3]|].
  split; [|split; [done|transitivity (w_requestState w1); [apply Ha3|apply Ha1]]].
  destruct Ha3 as [(? & ? & ? & ? & -> & _) _]. by destruct Ha1 as [(? & ? & ? & ? & -> & _) _].
Qed.

Lemma Peers_counted tr w w' : counted w w' -> Peers tr w -> Peers tr w'.
Proof. intros (h & d & ->). apply Peers_frame; eauto. Qed.

Lemma dropConnection_wp tr w id c :
  Good w -> Peers tr w -> w_conns w !! id = Some c ->
  (pc_closed c = false -> forall x, x ∈ rb_elems (pc_peerPieces c) -> x < n) ->
  wp (dropConnection e id) (fun _ w' => Good w' /\ Peers tr w' /\ redone w w' /\ w_webSeeds w' = w_webSeeds w /\
    like (delete id (w_conns w)) (w_conns w')) w.
Proof.
  intros HG [HC HO] Hid Hx. unfold dropConnection. apply wp_bind.
  eapply wp_mono; [by apply (close_wp Good steady_Good tr w id c)|]. cbn beta. intros ? w1 (HG1 & HC1 & Hr1 & Es1 & Ec1 & Eq1).
  apply wp_bind. eapply wp_mono; [apply (deletePeerConn_wp Good steady_Good tr w1 id (c <| pc_closed := true |>) HG1 HC1); [by rewrite Ec1, lookup_insert_eq|done]|].
  cbn beta. intros ok w2 (-> & HG2 & HC2 & Hr2 & Es2 & Ec2 & Eq2). cbn [when]. rewrite Ec1, delete_insert_eq in Ec2.
  eapply wp_mono; [by apply openNewConns_good|]. cbn beta. intros ? w3 [Hc3 HG3]. split; [done|].
  assert (Peers tr w2) as HP2.
  { split; [done|]. intros Htr. destruct (HO Htr) as (H1 & H2 & H3). rewrite Es2, Es1. rewrite Eq1, H3 in Eq2.
    split; [|split; [done|by apply map_below_empty]].
    intros j c' Hj. destruct (like_back _ _ j c' Ec2 Hj) as (cj & [_ Hcj]%lookup_delete_Some & _ & _ & ->). by eapply H1. }
  split; [by eapply Peers_counted|].
  split; [eapply redone_trans; [exact Hr1|]; eapply redone_trans; [exact Hr2|]; by apply redone_counted|].
  destruct Hc3 as (h & d & ->). cbn. by rewrite Es2, Es1.
Qed.

(** With all pieces complete, all pieces are looked after. *)
Lemma haveAllPieces_wp tr w (Q : bool -> World -> Prop) : w_haveInfo w = true -> Peers tr w ->
  (forall b, (b = true -> n = N) -> Q b w) -> wp (haveAllPieces e) Q w.
Proof.
  intros Hh [HC _] HQ. unfold haveAllPieces. apply wp_bind, wp_gets. rewrite Hh. cbn [negb].
  destruct (lo_num L n HL) as [N0 EN]. apply wp_bind. eapply wp_lift; [done|]. apply wp_gets, HQ.
  pose proof (pr_total tr w HC) as Ht. rewrite EN in Ht |- *. cbn in Ht |- *. intros E%Z.eqb_eq.
  rewrite rb_GetCardinality_elems in E. pose proof (lo_range L n HL).
  assert (Z.of_nat (size (rb_elems (w_completed w))) <= n).
  { assert (size (rb_elems (w_completed w)) <= size (range 0 n))%nat as Hs.
    { apply subseteq_size. intros x Hx. apply elem_of_range. by apply (pr_completed tr w HC). }
    rewrite size_range in Hs. lia. }
  rewrite wrapU_small in E by lia. lia.
Qed.

Lemma peerHasAllPieces_wp tr w id c (Q : bool * bool -> World -> Prop) : w_haveInfo w = true -> Conns tr w ->
  w_conns w !! id = Some c ->
  (forall r, (r = (true, true) -> pc_closed c = false -> forall x, x ∈ rb_elems (pc_peerPieces c) -> x < N) -> Q r w) ->
  wp (peerHasAllPieces e c) Q w.
Proof.
  intros Hh HC Hid HQ. destruct (lo_num L n HL) as [N0 EN]. unfold peerHasAllPieces. apply wp_if.
  - intros Ea. apply wp_ret, HQ. intros _ _ x. rewrite (co_empty _ _ _ (pr_conns tr w HC id c Hid) Ea). set_solver.
  - intros _. apply wp_bind, wp_gets. rewrite Hh. cbn [negb]. apply wp_bind. eapply wp_lift; [done|]. apply wp_ret, HQ.
    intros [= E%Z.eqb_eq] Ec x Hx. apply (pr_fits tr w HC id c Hid Ec x Hx). right. rewrite EN. cbn.
    rewrite rb_GetCardinality_elems in E. rewrite E. pose proof (pr_total tr w HC) as Ht. rewrite EN in Ht. cbn in Ht.
    pose proof (lo_range L n HL). apply wrapU_small. lia.
Qed.

Lemma peerHasWanted_wp tr w id c : w_haveInfo w = true -> Peers tr w -> w_conns w !! id = Some c ->
  wp (peerHasWantedPieces e c) (fun _ w' => w' = w) w.
Proof.
  intros Hh HP Hid. unfold peerHasWantedPieces. apply wp_bind, (peerHasAllPieces_wp tr w id c _ Hh (proj1 HP) Hid). intros r _.
  apply wp_if; intros _.
  - apply wp_bind, (haveAllPieces_wp tr w _ Hh HP). intros b _. by apply wp_gets.
  - apply wp_bind, wp_gets. apply wp_if; intros _; [by apply wp_ret|by apply wp_gets].
Qed.

Lemma useful_wp tr w id c : Good w -> Peers tr w -> w_conns w !! id = Some c -> wp (useful e c) (fun _ w' => counted w w') w.
Proof.
  intros (m & HM & Hs) HP Hid. unfold useful. apply wp_if; intros _; [apply wp_ret, counted_refl|].
  apply wp_bind, wp_gets. rewrite (mid_info _ _ HM). cbn [negb].
  apply wp_bind. eapply wp_mono; [apply (seeding_wp w m HM); intros i Hi; by apply synced_matched, Hs|]. cbn beta.
  intros s w1 Hc1. apply wp_if; intros _; [by apply wp_ret|].
  eapply wp_mono; [apply (peerHasWanted_wp tr w1 id c); destruct Hc1 as (h & d & ->); [apply (mid_info _ _ HM)|by apply (Peers_counted tr w); [eexists _, _|]|done]|].
  by intros ? ? ->.
Qed.

Lemma maybeDrop_wp tr w id :
  Good w -> Peers tr w -> is_Some (w_conns w !! id) ->
  wp (maybeDropMutuallyCompletePeer e id) (fun _ w' => Good w' /\ Peers tr w' /\ redone w w' /\
    w_webSeeds w' = w_webSeeds w /\ (w_conns w' = w_conns w \/ like (delete id (w_conns w)) (w_conns w'))) w.
Proof.
  intros HG HP [c Hid]. pose proof HG as (m & HM & Hs). unfold maybeDropMutuallyCompletePeer.
  assert (forall w', counted w w' -> Good w' /\ Peers tr w' /\ redone w w' /\ w_webSeeds w' = w_webSeeds w /\
    (w_conns w' = w_conns w \/ like (delete id (w_conns w)) (w_conns w'))) as Hsame.
  { intros w' Hc. split; [exists m; split; [by eapply Mid_counted|by destruct Hc as (h & d & ->)]|].
    split; [by eapply Peers_counted|]. split; [by apply redone_counted|]. destruct Hc as (h & d & ->). auto. }
  apply wp_bind. unfold wp at 1. rewrite (conn_run w id c Hid). apply wp_if; intros _; [apply wp_ret, Hsame, counted_refl|].
  apply wp_bind, (haveAllPieces_wp tr); [eauto|done|]. intros have Hn. destruct have; cbn [negb]; [|apply wp_ret, Hsame, counted_refl].
  specialize (Hn eq_refl). apply wp_bind, (peerHasAllPieces_wp tr w id c); [eauto|apply HP|done|]. intros [all known] Hx.
  apply wp_if; [intros _; apply wp_ret, Hsame, counted_refl|]. cbn [fst snd]. intros [->%negb_false_iff ->%negb_false_iff]%orb_false_iff.
  specialize (Hx eq_refl). apply wp_bind. eapply wp_mono; [by apply (useful_wp tr w id c)|].
  cbn beta. intros use w1 Hc1. destruct (Hsame w1 Hc1) as (HG1 & HP1 & Hr1 & Es1 & _).
    unfold when. apply wp_if; intros _; [|by apply wp_ret, Hsame].
    eapply wp_mono; [apply (dropConnection_wp tr w1 id c HG1 HP1)|].
    + by destruct Hc1 as (h & d & ->).
    + intros Ec x Hxx. rewrite Hn. by apply Hx.
    + cbn beta. intros ? w' (HG' & HP' & Hr' & Es' & Ec'). split; [done|]. split; [done|].
      split; [by eapply redone_trans|]. split; [by rewrite Es', Es1|]. right. by destruct Hc1 as (h & d & ->).
Qed.

(** ** Hashing *)

Definition is_hashing (h : hasher) : bool := match h with Hashing _ => true | Marking _ _ => false end.

(** The flags of the pieces are those of the goroutines [hs], one per piece. *)
Record Hashers (hs : list hasher) (w : World) : Prop := {
  h_nodup : NoDup (map hasher_piece hs);
  h_range h : h ∈ hs -> 0 <= hasher_piece h < n;
  h_hashing i : 0 <= i < n -> ps_hashing (ps w i) = true <-> Hashing i ∈ hs;
  h_marking i : 0 <= i < n -> ps_marking (ps w i) = true <-> exists p, Marking i p ∈ hs;
  h_readers : w_storageReaders w = Z.of_nat (length (filter (fun h => is_hashing h = true) hs));
  h_queued x : x ∈ rb_elems (w_queued w) -> 0 <= x < n;
}.

(** The ranges readers want are in the torrent, and the bitmaps are made from them. *)
Definition range_ok (r : Z * Z) : Prop := 0 <= r.1 <= n /\ 0 <= r.2 <= n.

Definition Readers (w : World) : Prop :=
  Forall range_ok (w_readers w) /\ readerPiecePriorities (w_readers w) = (w_now w, w_readahead w).

Context (tr : bool).

Record Inv (w : World) : Prop := {
  inv_good : Good w;
  inv_peers : Peers tr w;
  inv_readers : Readers w;
  inv_hash : Hashers (w_hashers w) w;
  inv_active : w_activePieceHashes w = Z.of_nat (length (w_hashers w));
  inv_limit : Z.of_nat (length (w_hashers w)) <= Z.max 0 (e_PieceHashersPerTorrent e);
}.

Lemma Hash_frame hs w w' :
  (forall i, 0 <= i < n -> ps_hashing (ps w' i) = ps_hashing (ps w i) /\ ps_marking (ps w' i) = ps_marking (ps w i)) ->
  w_storageReaders w' = w_storageReaders w -> w_queued w' = w_queued w -> Hashers hs w -> Hashers hs w'.
Proof.
  intros Hp Er Eq [H1 H2 H3 H4 H5 H6]. split; [done|done| | |by rewrite Er|by rewrite Eq].
  - intros i Hi. destruct (Hp i Hi) as [-> _]. by apply H3.
  - intros i Hi. destruct (Hp i Hi) as [_ ->]. by apply H4.
Qed.

Lemma Hash_perm hs hs' w : hs ≡ₚ hs' -> Hashers hs w -> Hashers hs' w.
Proof.
  intros Hp []. split; try done.
  - by rewrite <-Hp.
  - intros h Hh. rewrite <-Hp in Hh. auto.
  - intros i Hi. rewrite <-Hp. auto.
  - intros i Hi. setoid_rewrite <-Hp. auto.
  - by rewrite <-Hp.
Qed.

(** The result of an operation that leaves the goroutines alone. *)
Lemma Inv_refreshed w w1 w' :
  Inv w -> Good w' -> refreshed w1 w' -> Readers w1 -> Peers tr w1 ->
  (forall i, 0 <= i < n -> ps_hashing (ps w1 i) = ps_hashing (ps w i) /\ ps_marking (ps w1 i) = ps_marking (ps w i)) ->
  w_storageReaders w1 = w_storageReaders w -> w_queued w1 = w_queued w ->
  w_hashers w1 = w_hashers w -> w_activePieceHashes w1 = w_activePieceHashes w -> Inv w'.
Proof.
  intros HI HG Hr HR HP Hp Er Eq Eh Ea. pose proof (Peers_refreshed tr w1 w' Hr HP) as HP'.
  destruct Hr as (o & p & h & d & cs & -> & _). destruct HI as [_ _ _ H2 H3 H4].
  split; [done|done|done| |cbn; congruence|cbn; by rewrite Eh].
  cbn. rewrite Eh. by apply (Hash_frame _ w).
Qed.

(** ** Operations on one piece *)

Lemma SetPriority_wp w i p : Inv w -> 0 <= i < n -> wp (SetPriority e i p) (fun _ w' => Inv w') w.
Proof.
  intros HI Hi. destruct (inv_good w HI) as (m & HM & Hs). pose proof (mid_wf _ _ HM) as Hw.
  unfold SetPriority. apply wp_bind. unfold wp at 1. rewrite set_piece_run by done.
  eapply wp_mono; [apply (update_wp _ m _ i)|].
  - by apply Mid_set.
  - done.
  - apply (change_others m w); [done..|]. intros j Hj Hne. by apply set_other.
  - assert (forall j, 0 <= j < n -> ps (set_ps w i ((ps w i) <| ps_priority := p |>)) j =
      (ps w j) <| ps_priority := ps_priority (ps (set_ps w i ((ps w i) <| ps_priority := p |>)) j) |>) as Hps.
    { intros j Hj. rewrite ps_set by (done || lia). destruct (decide (j = i)) as [->|]; [done|]. by destruct (ps w j). }
    intros [] w' [Hr HG]. eapply Inv_refreshed; try done; [apply HI|apply (Peers_frame tr w); eauto; [|apply HI]|];
      intros j Hj; by rewrite Hps.
Qed.

(** Changes that matter only for the order: dirty chunks and availability. *)
Lemma reorder_inv w w1 i :
  Inv w -> 0 <= i < n -> (forall m, Mid w m -> Mid w1 m) -> w_pending w1 = w_pending w -> Readers w1 -> Peers tr w1 ->
  (forall j, 0 <= j < n -> ign w1 j = ign w j /\ prio w1 j = prio w j) ->
  (forall i, 0 <= i < n -> ps_hashing (ps w1 i) = ps_hashing (ps w i) /\ ps_marking (ps w1 i) = ps_marking (ps w i)) ->
  w_storageReaders w1 = w_storageReaders w -> w_queued w1 = w_queued w ->
  w_hashers w1 = w_hashers w -> w_activePieceHashes w1 = w_activePieceHashes w ->
  wp (updatePieceRequestOrderPiece e i;; mret tt) (fun _ w' => Inv w' /\ exists o, w' = w1 <| w_orders := o |>) w1.
Proof.
  intros HI Hi HM1 Ep HR HP Hj Hps Er Eq Eh Ea. destruct (inv_good w HI) as (m & HM & Hs).
  apply wp_bind. eapply wp_mono; [apply (reorder_good w1 m i)|].
  - auto.
  - done.
  - apply (change_others m w); auto.
  - destruct (Hj i Hi) as [E1 E2]. destruct (Hs i Hi) as [E3 _]. unfold pends, wants in *. by rewrite Ep, E1, E2.
  - intros ? w' (o & -> & HG). apply wp_ret. split; [|by exists o]. apply (Inv_refreshed w w1); try done.
    replace (w1 <| w_orders := o |>) with (w1 <| w_orders := o |> <| w_pending := w_pending w1 |> <| w_herp := w_herp w1 |> <| w_derp := w_derp w1 |>)
      by (by destruct w1). apply refreshed_here.
Qed.

Lemma Mid_dirty w m d : Mid w m -> Mid (w <| w_dirty := d |>) m.
Proof. intros []. split; [by apply (wf_frame w)|by apply (Ord_frame w)|done..]. Qed.

Lemma unpend_wp w i c : Inv w -> 0 <= i < n ->
  wp (unpendChunkIndex e i c) (fun _ w' => Inv w' /\ exists d o, w' = w <| w_dirty := d |> <| w_orders := o |>) w.
Proof.
  intros HI Hi. unfold unpendChunkIndex. apply wp_bind, wp_modify. eapply wp_mono.
  - apply (reorder_inv w); try done; [intros; by apply Mid_dirty|apply HI|apply (Peers_frame tr w); eauto; apply HI].
  - cbn beta. intros _ w' [HI' [o ->]]. split; [done|]. by eexists _, o.
Qed.

Lemma pend_wp w i c : Inv w -> 0 <= i < n ->
  wp (pendChunkIndex e i c) (fun _ w' => Inv w' /\ exists d o, w' = w <| w_dirty := d |> <| w_orders := o |>) w.
Proof.
  intros HI Hi. unfold pendChunkIndex. apply wp_bind, wp_modify. eapply wp_mono.
  - apply (reorder_inv w); try done; [intros; by apply Mid_dirty|apply HI|apply (Peers_frame tr w); eauto; apply HI].
  - cbn beta. intros _ w' [HI' [o ->]]. split; [done|]. by eexists _, o.
Qed.

(** ** Files and readers *)

(** Priorities of a range of pieces were changed. *)
Lemma refresh_inv w w1 reason l :
  Inv w -> (forall m, Mid w m -> Mid w1 m) -> w_pending w1 = w_pending w -> Readers w1 -> Peers tr w1 ->
  (forall j, 0 <= j < n -> ign w1 j = ign w j) ->
  (forall j, 0 <= j < n -> j ∉ l -> prio w1 j = prio w j) -> (forall j, j ∈ l -> 0 <= j < n) ->
  w_pieces w1 = w_pieces w -> w_storageReaders w1 = w_storageReaders w -> w_queued w1 = w_queued w ->
  w_hashers w1 = w_hashers w -> w_activePieceHashes w1 = w_activePieceHashes w ->
  wp (for_each (updatePiecePriority e reason) l) (fun _ w' => Inv w') w1.
Proof.
  intros HI HM1 Ep HR HP Ei Hl Hr Eps Er Eq Eh Ea. destruct (inv_good w HI) as (m & HM & Hs).
  assert (forall j, 0 <= j < n -> pends w1 j = pends w j /\ filed m w1 j = filed m w j) as Hpf.
  { intros j Hj. split; [unfold pends; by rewrite Ep|]. apply filed_ext; auto. }
  eapply wp_mono; [apply (refresh_wp w1 m reason l); auto|].
  - intros j Hj. destruct (Hpf j Hj) as [E1 E2]. unfold matched. rewrite E1, E2. by apply synced_matched, Hs.
  - intros j Hj Hne. destruct (Hpf j Hj) as [E1 E2]. apply (synced_ext m m w); auto.
    unfold wants. by rewrite (Ei j Hj), (Hl j Hj Hne).
  - intros [] w' [Hr' HG]. apply (Inv_refreshed w w1); try done. intros i Hi. unfold ps. by rewrite Eps.
Qed.

Lemma File_SetPriority_wp w k p :
  layout_full L n -> Inv w -> 0 <= k < Z.of_nat (length (t_files L)) -> wp (File_SetPriority e k p) (fun _ w' => Inv w') w.
Proof.
  intros HF HI Hk. destruct (inv_good w HI) as (m & HM & _). pose proof (mid_wf _ _ HM) as Hw.
  destruct (at_lookup (w_filePrio w) k) as [old Eo]; [by rewrite (wf_files w Hw)|].
  destruct (at_lookup (t_files L) k Hk) as [f Ef]. destruct (lf_pieces L n HF k f Ef) as (pb & pe & Eb & Ee & Hpb & Hpe).
  unfold File_SetPriority. apply wp_bind, wp_gets, wp_bind. eapply wp_lift; [done|].
  apply wp_bind. eapply wp_lift; [done|]. unfold when. apply wp_if; [intros _|by intros _].
  apply wp_bind, wp_modify, wp_bind. eapply wp_lift; [done|]. apply wp_bind. eapply wp_lift; [done|].
  set (w1 := w <| w_filePrio := _ |>). unfold updatePiecePriorities. apply (refresh_inv w); try done.
  - intros m' []. split; [|by apply (Ord_frame w)|done..]. split; [by destruct mid_wf0..|].
    change (w_filePrio w1) with (<[Z.to_nat k := p]> (w_filePrio w)). rewrite length_insert. by destruct mid_wf0.
  - apply HI.
  - apply (Peers_frame tr w); eauto; apply HI.
  - intros j Hj Hout. unfold prio. do 2 f_equal. unfold file_prios.
    destruct (lo_files L n HL j Hj) as (b & e' & Hb & He & Hcov). rewrite Hb, He.
    apply map_ext_in. intros x Hx%list_elem_of_In%elem_of_seqZ. f_equal.
    change (w_filePrio w1) with (<[Z.to_nat k := p]> (w_filePrio w)). unfold at_.
    destruct (Z.ltb_spec x 0); [done|]. apply list_lookup_insert_ne. intros E.
    assert (x = k) as -> by lia. destruct (Hcov k) as (f' & pb' & pe' & Ef' & Eb' & Ee' & Hin); [lia|].
    rewrite Ef in Ef'. injection Ef' as <-. rewrite Eb in Eb'. rewrite Ee in Ee'.
    injection Eb' as <-. injection Ee' as <-. apply Hout, elem_of_seqZ. lia.
  - intros j Hj%elem_of_seqZ. lia.
Qed.

(** What the readers want: the piece they are at, and the ones ahead. *)
Definition reads_now (rs : list (Z * Z)) (x : Z) : Prop := exists r, r ∈ rs /\ r.1 < r.2 /\ x = r.1.
Definition reads_ahead (rs : list (Z * Z)) (x : Z) : Prop := exists r, r ∈ rs /\ r.1 < x < r.2.

Lemma readerPiecePriorities_elems rs :
  Forall range_ok rs ->
  forall x, (x ∈ rb_elems (readerPiecePriorities rs).1 <-> reads_now rs x) /\
            (x ∈ rb_elems (readerPiecePriorities rs).2 <-> reads_ahead rs x).
Proof.
  intros Hrs x. unfold readerPiecePriorities. pose proof (lo_range L n HL).
  assert (forall acc, let res := foldl (fun acc p => if p.1 >=? p.2 then acc
            else (tb_Add p.1 acc.1, rb_AddRange (wrapU 64 (p.1 + 1)) (wrapU 64 p.2) acc.2)) acc rs in
          (x ∈ rb_elems res.1 <-> x ∈ rb_elems acc.1 \/ reads_now rs x) /\
          (x ∈ rb_elems res.2 <-> x ∈ rb_elems acc.2 \/ reads_ahead rs x)) as Hf.
  { unfold reads_now, reads_ahead. induction Hrs as [|[b e'] rs [Hb He] _ IH]; intros acc; simpl.
    - split; (split; [by left|]); intros [?|(? & ?%elem_of_nil & _)]; done.
    - destruct (IH (if b >=? e' then acc else (tb_Add b acc.1, rb_AddRange (wrapU 64 (b + 1)) (wrapU 64 e') acc.2)))
        as [-> ->]. setoid_rewrite elem_of_cons. rewrite Z.geb_leb. simpl in Hb, He.
      destruct (Z.leb_spec e' b) as [|Hlt].
      + split; split; intros [?|(r & Hr & ?)]; eauto; destruct Hr as [->|]; eauto; simpl in *; lia.
      + unfold tb_Add. cbn [fst snd]. rewrite rb_Add_elems, rb_AddRange_elems, !elem_of_union, elem_of_singleton, elem_of_range.
        rewrite !wrapU_small by lia. split; split.
        * intros [[->|?]|(r & ? & ?)]; [right; exists (b, e'); auto|by left|right; exists r; auto].
        * intros [?|(r & [->|?] & ? & ?)]; [by left; right|left; by left|right; exists r; auto].
        * intros [[?|?]|(r & ? & ?)]; [by left|right; exists (b, e'); split; [by left|simpl; lia]|right; exists r; auto].
        * intros [?|(r & [->|?] & ?)]; [by left; left|left; right; simpl in *; lia|right; exists r; auto]. }
  destruct (Hf (rb_New, rb_New)) as [-> ->]. cbn [fst snd]. rewrite rb_New_elems. set_solver.
Qed.

Lemma reads_insert (rs : list (Z * Z)) k from to x :
  rs !! k = Some from -> ~ from.1 <= x < from.2 -> ~ to.1 <= x < to.2 ->
  (reads_now (<[k := to]> rs) x <-> reads_now rs x) /\ (reads_ahead (<[k := to]> rs) x <-> reads_ahead rs x).
Proof.
  intros Hk Hf Ht.
  assert (forall r, r ∈ <[k := to]> rs -> r = to \/ r ∈ rs) as H1.
  { intros r [j Hj]%list_elem_of_lookup. destruct (decide (j = k)) as [->|].
    - apply list_lookup_insert_Some in Hj as [(_ & -> & _)|[]]; [by left|done].
    - rewrite list_lookup_insert_ne in Hj by done. right. by eapply list_elem_of_lookup_2. }
  assert (forall r, r ∈ rs -> r = from \/ r ∈ <[k := to]> rs) as H2.
  { intros r [j Hj]%list_elem_of_lookup. destruct (decide (j = k)) as [->|]; [left; congruence|].
    right. apply (list_elem_of_lookup_2 _ j). by rewrite list_lookup_insert_ne. }
  unfold reads_now, reads_ahead. split; split; intros (r & Hr & Hx).
  all: first [destruct (H1 r Hr) as [->|] | destruct (H2 r Hr) as [->|]]; try (exfalso; lia); by exists r.
Qed.

Lemma prio_readers w w1 j :
  0 <= j < n -> w_pieces w1 = w_pieces w -> w_filePrio w1 = w_filePrio w -> Readers w -> Readers w1 ->
  (reads_now (w_readers w1) j <-> reads_now (w_readers w) j) ->
  (reads_ahead (w_readers w1) j <-> reads_ahead (w_readers w) j) -> prio w1 j = prio w j.
Proof.
  intros Hj Ep Ef [Hr Er] [Hr1 Er1] Hn Ha. pose proof (lo_range L n HL).
  destruct (readerPiecePriorities_elems _ Hr j) as [En Ea].
  destruct (readerPiecePriorities_elems _ Hr1 j) as [En1 Ea1]. rewrite Er in En, Ea. rewrite Er1 in En1, Ea1.
  cbn [fst snd] in *.
  assert (tb_Contains j (w_now w1) = tb_Contains j (w_now w)) as E1.
  { unfold tb_Contains. rewrite !rb_Contains_elems, wrapU_small by lia. apply bool_decide_ext. tauto. }
  assert (tb_Contains j (w_readahead w1) = tb_Contains j (w_readahead w)) as E2.
  { unfold tb_Contains. rewrite !rb_Contains_elems, wrapU_small by lia. apply bool_decide_ext. tauto. }
  unfold prio, ps. by rewrite Ep, Ef, E1, E2.
Qed.

Definition with_readers (w : World) (rs : list (Z * Z)) : World :=
  w <| w_readers := rs |> <| w_now := (readerPiecePriorities rs).1 |> <| w_readahead := (readerPiecePriorities rs).2 |>.

Lemma Readers_with w rs : Forall range_ok rs -> Readers (with_readers w rs).
Proof. intros Hr. split; [done|]. apply surjective_pairing. Qed.

Lemma Mid_readers w m rs : Mid w m -> Mid (with_readers w rs) m.
Proof. intros []. split; [by apply (wf_frame w)|by apply (Ord_frame w)|done..]. Qed.

Lemma readersChanged_wp w rs :
  layout_full L n -> Inv w -> Forall range_ok rs -> wp (readersChanged e rs) (fun _ w' => Inv w') w.
Proof.
  intros HF HI Hr. unfold readersChanged, updateAllPiecePriorities, updatePiecePriorities.
  apply wp_bind, wp_modify, wp_bind, wp_modify, wp_bind. eapply wp_lift; [apply (lf_num L n HF)|].
  apply (refresh_inv w (with_readers w rs)); try done.
  - intros m. apply Mid_readers.
  - by apply Readers_with.
  - apply (Peers_frame tr w); eauto; apply HI.
  - intros j Hj Hne. exfalso. apply Hne, elem_of_seqZ. lia.
  - intros j Hj%elem_of_seqZ. lia.
Qed.

(** The pieces [readerPosChanged] updates include both ranges. *)
Definition pos_pieces (from to : Z * Z) : list Z :=
  let '(l, h) := if from.1 >? to.1 then (to, from) else (from, to) in
  if l.2 <? h.1 then seqZ l.1 (l.2 - l.1) ++ seqZ h.1 (h.2 - h.1) else seqZ l.1 (Z.max l.2 h.2 - l.1).

Lemma pos_pieces_range from to x : range_ok from -> range_ok to ->
  (x ∈ pos_pieces from to -> 0 <= x < n) /\ (from.1 <= x < from.2 \/ to.1 <= x < to.2 -> x ∈ pos_pieces from to).
Proof.
  intros [Hf1 Hf2] [Ht1 Ht2]. unfold pos_pieces. rewrite Z.gtb_ltb.
  destruct (Z.ltb_spec to.1 from.1); case_match; bool_to_prop; rewrite ?elem_of_app, ?elem_of_seqZ; lia.
Qed.

Lemma for_each_app {S E A} (f : A -> go S E unit) l1 l2 s :
  for_each f (l1 ++ l2) s = (for_each f l1;; for_each f l2) s.
Proof.
  revert s. induction l1 as [|x l1 IH]; intros s; [done|]. simpl. unfold mbind, go_bind in *.
  destruct (f x s) as [[] s'| |]; [apply IH|done..].
Qed.

Lemma posChanged_wp w k to :
  Inv w -> range_ok to -> (k < length (w_readers w))%nat -> wp (posChanged e k to) (fun _ w' => Inv w') w.
Proof.
  intros HI Ht Hk. destruct (inv_readers w HI) as [Hr Er]. destruct (lookup_lt_is_Some_2 _ _ Hk) as [from Ef].
  assert (range_ok from) as Hfrom by (rewrite Forall_lookup in Hr; eauto).
  unfold posChanged. apply wp_bind, wp_gets, wp_bind. eapply wp_lift; [done|].
  apply wp_if; [by intros _|]. intros Hne%bool_decide_eq_false_1. apply wp_bind, wp_modify. unfold readerPosChanged.
  rewrite bool_decide_false by congruence. apply wp_bind, wp_modify.
  set (rs := <[k := to]> (w_readers w)).
  assert (wp (for_each (updatePiecePriority e "Torrent.readerPosChanged") (pos_pieces from to)) (fun _ w' => Inv w') (with_readers w rs)) as Hgo.
  { apply (refresh_inv w); try done.
    - intros m. apply Mid_readers.
    - apply Readers_with. by apply Forall_insert.
    - apply (Peers_frame tr w); eauto; apply HI.
    - intros j Hj Hout. destruct (pos_pieces_range from to j Hfrom Ht) as [_ Hin].
      destruct (reads_insert (w_readers w) k from to j Ef) as [E1 E2]; [tauto..|].
      apply prio_readers; try done. apply Readers_with. by apply Forall_insert.
    - intros j Hj. by apply (pos_pieces_range from to j Hfrom Ht). }
  unfold pos_pieces in Hgo. unfold updatePiecePriorities.
  destruct (if from.1 >? to.1 then _ else _) as [l h]. destruct (l.2 <? h.1); [|exact Hgo].
  unfold wp in Hgo |- *. by rewrite for_each_app in Hgo.
Qed.
(** ** Completion *)

(** The state after caching a completion [u] of piece [i]. *)
Record cached (i : Z) (u : option bool) (w w1 : World) : Prop := {
  ca_shape : exists s c, w1 = (set_ps w i s) <| w_completed := c |> /\
    ps_hashV2 s = ps_hashV2 (ps w i) /\ ps_priority s = ps_priority (ps w i) /\
    ps_hashing s = ps_hashing (ps w i) /\ ps_marking s = ps_marking (ps w i) /\
    ps_storageCompletionOk s = (match u with Some _ => true | None => false end) /\
    tb_Contains i c = bool_decide (u = Some true) /\
    (forall j, 0 <= j < n -> j <> i -> tb_Contains j c = tb_Contains j (w_completed w)) /\
    (forall x, x ∈ rb_elems c -> x = i \/ x ∈ rb_elems (w_completed w)) /\
    ps_relativeAvailability s = ps_relativeAvailability (ps w i);
}.

Lemma completion_run w i : wf w -> 0 <= i < n ->
  completion i w = Ret (if ps_storageCompletionOk (ps w i) then Some (tb_Contains i (w_completed w)) else None) w.
Proof.
  intros Hw Hi. destruct (state_run w i Hw Hi) as [_ Es]. unfold completion. rewrite (bind_step _ _ _ _ _ Es).
  by destruct (ps_storageCompletionOk (ps w i)).
Qed.

Lemma setCached_wp w i u : wf w -> 0 <= i < n ->
  wp (setCachedPieceCompletion i u) (fun changed w1 => cached i u w w1 /\
    (changed = false -> u = if ps_storageCompletionOk (ps w i) then Some (tb_Contains i (w_completed w)) else None)) w.
Proof.
  intros Hw Hi. pose proof (lo_range L n HL). unfold setCachedPieceCompletion. apply wp_bind. unfold wp at 1.
  rewrite (completion_run w i Hw Hi). apply wp_bind. unfold wp at 1. rewrite (set_piece_run w i _ Hw Hi).
  assert (forall c, tb_Contains i c = bool_decide (u = Some true) ->
            (forall x, x <> i -> x ∈ rb_elems c <-> x ∈ rb_elems (w_completed w)) ->
            cached i u w ((set_ps w i ((ps w i) <| ps_storageCompletionOk := match u with Some _ => true | None => false end |>
              <| ps_storageCompletionHasBeenOk := ps_storageCompletionHasBeenOk (ps w i) ||
                   match u with Some _ => true | None => false end |>)) <| w_completed := c |>)) as Hc.
  { intros c Hi' Hx. split. eexists _, c. split; [reflexivity|]. repeat split; [done| |].
    - intros j Hj Hne. by apply (tb_Contains_change _ _ i).
    - intros x Hin. destruct (decide (x = i)) as [->|Hne]; [by left|right]. by apply Hx. }
  assert (forall b, tb_Contains i (rb_Remove (wrapU 32 i) b) = false) as Hrem.
  { intros b. unfold tb_Contains. rewrite rb_Contains_elems, rb_Remove_elems. apply bool_decide_false. set_solver. }
  apply wp_bind. destruct u as [[]|]; apply wp_modify, wp_ret; (split; [apply Hc|]).
  all: try (intros Hch%negb_false_iff%bool_decide_eq_true_1; by symmetry).
  - unfold tb_Contains, tb_CheckedAdd. cbn [w_completed]. rewrite rb_Contains_elems, rb_CheckedAdd_elems.
    rewrite !bool_decide_true; set_solver.
  - unfold tb_CheckedAdd. intros x Hx. cbn. rewrite rb_CheckedAdd_elems, wrapU_small by lia. set_solver.
  - apply Hrem.
  - unfold tb_Remove. intros x Hx. cbn. rewrite rb_Remove_elems, wrapU_small by lia. set_solver.
  - apply Hrem.
  - unfold tb_Remove. intros x Hx. cbn. rewrite rb_Remove_elems, wrapU_small by lia. set_solver.
Qed.

Lemma ign_completed w c j : ign (w <| w_completed := c |>) j =
  (negb (ps_storageCompletionOk (ps w j)) || ps_hashing (ps w j) || ps_marking (ps w j) ||
   negb (hash_known w j) || w_disallowed w || tb_Contains j c || tb_Contains j (w_queued w)).
Proof. reflexivity. Qed.

Section Cached.
Context (w w1 : World) (i : Z) (u : option bool) (Hc : cached i u w w1) (Hw : wf w) (Hi : 0 <= i < n).

Lemma cached_other j : 0 <= j < n -> j <> i -> ign w1 j = ign w j /\ prio w1 j = prio w j.
Proof using Hc Hw Hi.
  intros Hj Hne. destruct Hc as [(s & c & -> & _ & _ & _ & _ & _ & _ & Hoth & _)].
  destruct (set_other w i s j Hw Hi Hj Hne) as [Ei Ep]. split; [|exact Ep].
  rewrite <-Ei, ign_completed, Hoth by done. done.
Qed.

Lemma cached_same :
  u = (if ps_storageCompletionOk (ps w i) then Some (tb_Contains i (w_completed w)) else None) ->
  ign w1 i = ign w i /\ prio w1 i = prio w i.
Proof using Hc Hw Hi.
  intros Hu. destruct Hc as [(s & c & -> & E1 & E2 & E3 & E4 & E5 & E6 & _)].
  destruct (set_same w i s i Hw Hi Hi E1 E2) as [Ei Ep].
  { rewrite E5, Hu. by destruct (ps_storageCompletionOk (ps w i)). }
  { by rewrite E3, E4. }
  split; [|exact Ep]. rewrite <-Ei, ign_completed, E6. unfold ign.
  rewrite ps_set by (done || lia). destruct (decide (i = i)); [|done]. rewrite E5, Hu.
  destruct (ps_storageCompletionOk (ps w i)); [|done].
  change (w_completed (set_ps w i s)) with (w_completed w).
  by destruct (tb_Contains i (w_completed w)); cbn; rewrite ?bool_decide_true, ?bool_decide_false by congruence.
Qed.

Lemma cached_marking : ps_marking (ps w i) = true -> ign w1 i = true.
Proof using Hc Hw Hi.
  intros Hm. destruct Hc as [(s & c & -> & _ & _ & _ & E4 & _)]. unfold ign.
  assert (ps_marking (ps ((set_ps w i s) <| w_completed := c |>) i) = true) as ->.
  { change (ps_marking (ps (set_ps w i s) i) = true). rewrite ps_set by (done || lia).
    destruct (decide (i = i)); [|done]. by rewrite E4. }
  by rewrite !orb_true_r.
Qed.

Lemma cached_mid m : Mid w m -> Mid w1 m.
Proof using Hc Hi.
  intros HM. destruct Hc as [(s & c & -> & E1 & _)]. pose proof (Mid_set w m i s HM Hi E1) as [].
  split; [by apply (wf_frame (set_ps w i s))|by apply (Ord_frame (set_ps w i s))|done..].
Qed.

Lemma cached_flags j : 0 <= j < n ->
  ps_hashing (ps w1 j) = ps_hashing (ps w j) /\ ps_marking (ps w1 j) = ps_marking (ps w j).
Proof using Hc Hw Hi.
  intros Hj. destruct Hc as [(s & c & -> & _ & _ & E3 & E4 & _)].
  change (ps_hashing (ps (set_ps w i s) j) = ps_hashing (ps w j) /\ ps_marking (ps (set_ps w i s) j) = ps_marking (ps w j)).
  rewrite ps_set by (done || lia). destruct (decide (j = i)) as [->|]; done.
Qed.

Lemma cached_peers : Peers tr w -> Peers tr w1.
Proof using Hc Hw Hi.
  destruct Hc as [(s & c & -> & _ & _ & _ & _ & _ & _ & _ & Hx & Er)]. apply Peers_frame; [done..| |].
  - cbn. intros x [->|Hin]%Hx; auto.
  - intros j Hj. change (rel (set_ps w i s) j = rel w j). unfold rel. rewrite ps_set by (done || lia).
    by destruct (decide (j = i)) as [->|].
Qed.

Lemma cached_frame : w_pending w1 = w_pending w /\ w_storageReaders w1 = w_storageReaders w /\
  w_queued w1 = w_queued w /\ w_hashers w1 = w_hashers w /\ w_activePieceHashes w1 = w_activePieceHashes w /\
  (Readers w -> Readers w1).
Proof using Hc. destruct Hc as [(s & c & -> & _)]. done. Qed.
End Cached.

(** The state after chunks of a piece were forgotten, a check perhaps made, and connections told. *)
Definition chunks_only (w w' : World) : Prop :=
  exists x h d cs, w' = w <| w_dirty := x |> <| w_herp := h |> <| w_derp := d |> <| w_conns := cs |> /\ told (w_conns w) cs.

Lemma chunks_dirty w x : chunks_only w (w <| w_dirty := x |>).
Proof. exists x, (w_herp w), (w_derp w), (w_conns w). split; [by destruct w|apply told_refl]. Qed.

Lemma chunks_tells w w1 w' : chunks_only w w1 -> tells w1 w' -> chunks_only w w'.
Proof. intros (x & h & d & cs & -> & Ht) (cs' & -> & Ht'). exists x, h, d, cs'. split; [done|]. by eapply told_trans. Qed.

Lemma Mid_chunks w m w' : Mid w m -> chunks_only w w' -> Mid w' m.
Proof. intros [] (x & h & d & cs & -> & _). split; [by apply (wf_frame w)|by apply (Ord_frame w)|done..]. Qed.

Lemma Others_chunks w m w' i : Others m w i -> chunks_only w w' -> Others m w' i.
Proof. intros Ho (x & h & d & cs & -> & _). exact Ho. Qed.

Lemma redone_chunks w w' : chunks_only w w' -> redone w w'.
Proof.
  intros (x & h & d & cs & -> & _). by apply (redone_pieces w _ (w_orders w) (w_pending w) h d x cs (w_webSeeds w) (w_connsWithAllPieces w)
    (w_requestState w) (w_requestPieceStates w) (w_requestPieceStatesGen w)); destruct w.
Qed.

Lemma Peers_chunks w w' : chunks_only w w' -> Peers tr w -> Peers tr w'.
Proof.
  intros (x & h & d & cs & -> & Ht) HP. apply (Peers_tells tr (w <| w_dirty := x |> <| w_herp := h |> <| w_derp := d |>)); [by exists cs|].
  apply (Peers_frame tr w); eauto.
Qed.

Lemma Mid_asked w m w' : Mid w m -> asked w w' -> Mid w' m.
Proof. intros [] [(cs & rs & x & g & -> & _) _]. split; [by apply (wf_frame w)|by apply (Ord_frame w)|done..]. Qed.

Lemma Others_asked w m w' i : Others m w i -> asked w w' -> Others m w' i.
Proof. intros Ho [(cs & rs & x & g & -> & _) _]. exact Ho. Qed.

(** Connections of no use may be dropped when all is in agreement; otherwise they are kept. *)
Lemma tellCompleted_wp w m i :
  Mid w m -> 0 <= i < n -> Others m w i -> Peers tr w -> (e_DropMutuallyCompletePeers e = true -> synced m w i) -> forall ids,
  wp (for_each (fun id => conn ← gets (fun w => w_conns w !! id);
        match conn with Some _ => have id i;; maybeDropMutuallyCompletePeer e id | None => mret tt end) ids)
    (fun _ w' => redone w w' /\ Peers tr w' /\ exists m', Mid w' m' /\ Others m' w' i) w.
Proof.
  intros HM Hi Ho HP Hd ids. destruct (e_DropMutuallyCompletePeers e) eqn:Ed.
  - eapply wp_mono; [apply (wp_for_each _ _ (fun _ w' => Good w' /\ Peers tr w' /\ redone w w'))|].
    + split; [by apply (others_good m _ i); [| |apply Hd]|]. split; [done|apply redone_refl].
    + intros pre id post w2 _ (HG & HP2 & Hr). apply wp_bind, wp_gets. destruct (w_conns w2 !! id) as [c|] eqn:Ec; [|by apply wp_ret].
      apply wp_bind. eapply wp_mono; [apply (have_wp e w2 id c i (pr_reqs tr w2 (proj1 HP2)) Ec)|]. cbn beta. intros ? w3 Hs.
      destruct (stays_at _ _ _ _ _ Hs) as (c3 & Hid3 & _). apply stays_asked in Hs as (Ha & HR3 & _).
      eapply wp_mono; [apply (maybeDrop_wp tr w3 id); [apply (steady_talked Good steady_Good w2); [apply Ha|done]|by apply (Peers_asked tr w2)|by exists c3]|].
      cbn beta. intros ? w4 (HG4 & HP4 & Hr4 & _). split; [done|]. split; [done|].
      eapply redone_trans; [exact Hr|]. eapply redone_trans; [apply redone_talked, (proj1 Ha)|done].
    + cbn beta. intros ? w' ((m' & HM' & Hs) & HP' & Hr). split; [done|]. split; [done|]. exists m'. split; [done|].
      intros j Hj _. by apply Hs.
  - eapply wp_mono; [apply (wp_for_each _ _ (fun _ w' => asked w w' /\ Reqs e w'))|].
    + split; [apply asked_refl|apply HP].
    + intros pre id post w2 _ [Ha HR]. apply wp_bind, wp_gets. destruct (w_conns w2 !! id) as [c|] eqn:Ec; [|by apply wp_ret].
      apply wp_bind. eapply wp_mono; [apply (have_wp e w2 id c i HR Ec)|]. cbn beta. intros ? w3 Hs.
      destruct (stays_at _ _ _ _ _ Hs) as (c3 & Hid3 & _). apply stays_asked in Hs as (Ha3 & HR3 & _).
      unfold maybeDropMutuallyCompletePeer. apply wp_bind. unfold wp at 1. rewrite (conn_run w3 id c3 Hid3), Ed. apply wp_ret.
      split; [by eapply asked_trans|done].
    + cbn beta. intros ? w' [Ha HR]. split; [apply redone_talked, Ha|]. split; [by apply (Peers_asked tr w)|].
      exists m. split; [by apply (Mid_asked w)|by apply (Others_asked w)].
Qed.

Lemma onPieceCompleted_wp w m i :
  Mid w m -> 0 <= i < n -> Others m w i -> Peers tr w -> (e_DropMutuallyCompletePeers e = true -> synced m w i) ->
  wp (onPieceCompleted e i) (fun _ w' => redone w w' /\ Peers tr w' /\ exists m', Mid w' m' /\ Others m' w' i) w.
Proof.
  intros HM Hi Ho HP Hd. unfold onPieceCompleted, pendAllChunkSpecs, connIds. apply wp_bind, wp_modify.
  set (w1 := w <| w_dirty := _ |>). assert (chunks_only w w1) as Hc by apply chunks_dirty.
  pose proof (Mid_chunks w m w1 HM Hc) as HM1. pose proof (Others_chunks w m w1 i Ho Hc) as Ho1.
  pose proof (Peers_chunks w w1 Hc HP) as HP1. apply wp_bind.
  eapply wp_mono; [apply (cancelPiece_wp e w1 i (pr_reqs tr w1 (proj1 HP1))), (lo_chunks L n HL i Hi)|].
  cbn beta. intros ? w2 [Ha2 HR2]. apply wp_bind, wp_gets.
  eapply wp_mono; [apply (tellCompleted_wp w2 m i); [by apply (Mid_asked w1)|done|by apply (Others_asked w1)|by apply (Peers_asked tr w1)|]|].
  - intros Ed. destruct Ha2 as [(cs & rs & x & g & -> & _) _]. exact (Hd Ed).
  - cbn beta. intros ? w' (Hr & HP' & HM'). split; [|done].
    eapply redone_trans; [by apply redone_chunks|]. eapply redone_trans; [apply redone_talked, Ha2|done].
Qed.

Lemma chunks_only_refl w : chunks_only w w.
Proof. exists (w_dirty w), (w_herp w), (w_derp w), (w_conns w). split; [by destruct w|apply told_refl]. Qed.

Lemma onIncompletePiece_wp w i : wf w -> w_haveInfo w = true -> 0 <= i < n ->
  wp (onIncompletePiece e i) (fun _ w' => chunks_only w w') w.
Proof.
  intros Hw Hh Hi. unfold onIncompletePiece. apply wp_bind. unfold wp at 1. rewrite (allDirty_run w i Hi).
  apply wp_bind. eapply (wp_mono _ (fun _ w1 => chunks_only w w1)).
  { unfold when, pendAllChunkSpecs. destruct (all_dirty w i); [apply wp_modify, chunks_dirty|apply wp_ret, chunks_only_refl]. }
  cbn beta. intros _ w1 Hc. assert (wf w1 /\ w_haveInfo w1 = true) as [Hw1 Hh1] by (destruct Hc as (x & h & d & cs & -> & _); by split; [apply (wf_frame w)|]).
  apply wp_bind. unfold wp at 1. rewrite (ignore_run w1 i Hw1 Hi). apply wp_if; intros _; [by apply wp_ret|]. unfold connIds. apply wp_bind, wp_gets.
  eapply wp_mono; [apply each_tells|]; [|cbn beta; intros ? w2; by apply chunks_tells]. intros id w' Hh'. apply wp_bind, wp_gets.
  destruct (w_conns w' !! id) as [c|] eqn:Hid; [|apply wp_ret, tells_refl]. apply wp_bind. unfold wp at 1.
  destruct (peerHasPiece_reads w' c i) as [b ->]; [congruence|]. unfold when. apply wp_if; intros _; [by apply (onNeed_tells w' id c)|apply wp_ret, tells_refl].
Qed.

Lemma pieceCompletionChanged_wp w m i :
  Mid w m -> 0 <= i < n -> Others m w i -> Peers tr w ->
  (e_DropMutuallyCompletePeers e = true -> tb_Contains i (w_completed w) = true -> synced m w i) ->
  wp (pieceCompletionChanged e i) (fun _ w' => redone w w' /\ Good w' /\ Peers tr w') w.
Proof.
  intros HM Hi Ho HP Hd. unfold pieceCompletionChanged, pieceComplete. apply wp_bind, wp_gets, wp_bind.
  eapply (wp_mono _ (fun _ w' => redone w w' /\ Peers tr w' /\ exists m', Mid w' m' /\ Others m' w' i)).
  - destruct (tb_Contains i (w_completed w)); [eapply onPieceCompleted_wp; eauto|].
    eapply wp_mono; [apply onIncompletePiece_wp; eauto|]. cbn beta. intros ? w' Hc. split; [by apply redone_chunks|].
    split; [by eapply Peers_chunks|]. exists m. split; [by eapply Mid_chunks|by eapply Others_chunks].
  - cbn beta. intros [] w1 (Hr1 & HP1 & m1 & HM1 & Ho1). eapply wp_mono; [by apply (update_wp w1 m1 _ i)|].
    cbn beta. intros ? w' [Hr HG]. split; [by eapply redone_trans, redone_refreshed|]. split; [done|].
    by eapply Peers_refreshed.
Qed.

Lemma afterSet_wp changed w m i :
  Mid w m -> 0 <= i < n -> Others m w i -> Peers tr w ->
  (changed = false \/ e_DropMutuallyCompletePeers e = true /\ tb_Contains i (w_completed w) = true -> pends w i = wants w i) ->
  wp (afterSetPieceCompletion e i changed) (fun _ w' => redone w w' /\ Good w' /\ Peers tr w') w.
Proof.
  intros HM Hi Ho HP Hp. unfold afterSetPieceCompletion. apply wp_bind. unfold wp at 1.
  rewrite (completion_run w i); eauto. apply wp_bind. eapply wp_mono; [by apply (reorder_wp w m i)|].
  cbn beta. intros ? w1 (o & m1 & -> & HM1 & Ho1 & Hf1). set (w1 := w <| w_orders := o |>) in *.
  assert (redone w w1) as Hr1.
  { apply (redone_local w _ o (w_pending w) (w_herp w) (w_derp w) (w_dirty w)). unfold w1. by destruct w. }
  assert (Peers tr w1) as HP1 by (apply (Peers_frame tr w); eauto).
  apply wp_bind. eapply (wp_mono _ (fun _ w' => redone w w' /\ Good w' /\ Peers tr w')).
  - unfold when. destruct changed.
    + eapply wp_mono; [apply (pieceCompletionChanged_wp w1 m1 i); try done|].
      * intros Hd Hc. split; [|done]. apply Hp. by right.
      * cbn beta. intros ? w' (Hr & HG & HP'). split; [exact (redone_trans _ _ _ Hr1 Hr)|done].
    + apply wp_ret. split; [done|]. split; [|done]. apply (others_good m1 _ i); [done..|]. split; [|done]. apply Hp. by left.
  - cbn beta. intros [] w2 (Hr & HG & HP2). unfold when. apply wp_if; intros _; [|by apply wp_ret].
    eapply wp_mono; [by apply openNewConns_good|]. cbn beta. intros ? w3 [Hc HG'].
    split; [by eapply redone_trans, redone_counted|]. split; [done|]. by eapply Peers_counted.
Qed.

(** ** Completion from the storage *)

Lemma Storage_hash_wp w i (Q : option bytes -> World -> Prop) :
  wf w -> 0 <= i < n -> (forall h, Q h w) -> wp (Storage_hash e i) Q w.
Proof.
  intros Hw Hi HQ. destruct (lo_hash L n HL i Hi) as (v1 & Ev & Hv). destruct (state_run w i Hw Hi) as [_ Es].
  unfold Storage_hash. apply wp_bind. eapply wp_lift; [done|]. destruct v1 as [h|]; [apply wp_ret, HQ|].
  destruct (Hv eq_refl) as (layer & El & Hf). apply wp_bind. eapply wp_lift; [done|]. destruct layer; cbn [negb].
  - apply wp_bind. unfold wp at 1. rewrite Es. apply wp_ret, HQ.
  - destruct (Hf eq_refl) as (f & root & Em & Er). apply wp_bind. eapply wp_lift; [done|].
    apply wp_bind. eapply wp_lift; [done|]. apply wp_ret, HQ.
Qed.

Lemma pieceCompleteUncached_wp sc w i (Q : Completion -> World -> Prop) :
  wf w -> 0 <= i < n -> c_Err (sc i) = false -> (forall c, c_Err c = false -> Q c w) ->
  wp (pieceCompleteUncached e sc i) Q w.
Proof.
  intros Hw Hi Hsc HQ. destruct (state_run w i Hw Hi) as [_ Es]. unfold pieceCompleteUncached.
  apply wp_bind. unfold wp at 1. rewrite Es. apply wp_if; intros _; [by apply wp_ret, HQ|].
  rewrite Hst. apply wp_bind, Storage_hash_wp; [done..|]. intros _. by apply wp_ret, HQ.
Qed.

Lemma setCachedFromStorage_wp sc w i : wf w -> 0 <= i < n -> c_Err (sc i) = false ->
  wp (setCachedPieceCompletionFromStorage e sc i) (fun changed w1 => exists u, cached i u w w1 /\
    (changed = false -> u = if ps_storageCompletionOk (ps w i) then Some (tb_Contains i (w_completed w)) else None)) w.
Proof.
  intros Hw Hi Hsc. unfold setCachedPieceCompletionFromStorage. apply wp_bind.
  apply pieceCompleteUncached_wp; [done..|]. intros c Hc. rewrite Hc. unfold when. apply wp_bind, wp_ret.
  eapply wp_mono; [by apply setCached_wp|]. intros changed w1 Hw1. eexists. exact Hw1.
Qed.

Lemma cached_others m w w1 i u :
  Mid w m -> (forall j, 0 <= j < n -> synced m w j) -> 0 <= i < n -> cached i u w w1 -> Others m w1 i.
Proof.
  intros HM Hs Hi Hc. apply (change_others m w); [done| |].
  - by eapply cached_frame.
  - intros j Hj Hne. eapply (cached_other w w1 i u); eauto.
Qed.

Lemma redone_flags w w' j : redone w w' -> 0 <= j < n ->
  ps_hashing (ps w' j) = ps_hashing (ps w j) /\ ps_marking (ps w' j) = ps_marking (ps w j).
Proof. intros (o & p & h & d & y & l & cs & ss & a & rs & x & g & _ & Hp) Hj. by rewrite Hp. Qed.

Lemma redone_frame w w' : redone w w' -> w_storageReaders w' = w_storageReaders w /\ w_queued w' = w_queued w /\
  w_hashers w' = w_hashers w /\ w_activePieceHashes w' = w_activePieceHashes w /\ (Readers w -> Readers w').
Proof. by intros (o & p & h & d & y & l & cs & ss & a & rs & x & g & -> & _). Qed.

Lemma redone_inv w w1 w' :
  Inv w -> redone w1 w' -> Good w' -> Peers tr w' -> Readers w1 ->
  (forall i, 0 <= i < n -> ps_hashing (ps w1 i) = ps_hashing (ps w i) /\ ps_marking (ps w1 i) = ps_marking (ps w i)) ->
  w_storageReaders w1 = w_storageReaders w -> w_queued w1 = w_queued w ->
  w_hashers w1 = w_hashers w -> w_activePieceHashes w1 = w_activePieceHashes w -> Inv w'.
Proof.
  intros HI Hr HG HP HR Hf Es Eq Eh Ea. destruct (redone_frame w1 w' Hr) as (E1 & E2 & E3 & E4 & E5).
  destruct HI as [_ _ _ H2 H3 H4]. split; [done|done|by apply E5| |congruence|by rewrite E3, Eh].
  rewrite E3, Eh. apply (Hash_frame _ w); [|congruence..|done]. intros i Hi.
  destruct (redone_flags w1 w' i Hr Hi) as [-> ->]. by apply Hf.
Qed.

Lemma Inv_fewer w w' : Inv w -> talked w w' -> w_requestState w' ⊆ w_requestState w -> Reqs e w' -> Inv w'.
Proof.
  intros HI Ha Hs HR. apply (redone_inv w w); try done.
  - by apply redone_talked.
  - apply (steady_talked Good steady_Good w); [done|apply HI].
  - apply (Peers_fewer tr w); [apply HI|done..].
  - apply HI.
Qed.

(** What is left alone by changing the completion of a piece. *)
Lemma cached_inv w w1 w' i u :
  Inv w -> 0 <= i < n -> cached i u w w1 -> redone w1 w' -> Good w' -> Peers tr w' -> Inv w'.
Proof.
  intros HI Hi Hc Hr HG HP. destruct (inv_good w HI) as (m & HM & _).
  destruct (cached_frame w w1 i u Hc) as (_ & E2 & E3 & E4 & E5 & HR). apply (redone_inv w w1); try done.
  - exact (HR (inv_readers w HI)).
  - intros j Hj. eapply (cached_flags w w1 i u); eauto.
Qed.

Lemma completed_unwanted w i : tb_Contains i (w_completed w) = true -> wants w i = false.
Proof. intros Hc. unfold wants, ign. by rewrite Hc, !orb_true_r. Qed.

Lemma updatePieceCompletion_wp sc w i : Inv w -> 0 <= i < n -> c_Err (sc i) = false ->
  (e_DropMutuallyCompletePeers e = true -> pends w i = false) ->
  wp (updatePieceCompletion e sc i) (fun _ w' => Inv w') w.
Proof.
  intros HI Hi Hsc Hdrop. destruct (inv_good w HI) as (m & HM & Hs). unfold updatePieceCompletion, setPieceCompletionFromStorage.
  apply wp_bind. eapply wp_mono; [apply setCachedFromStorage_wp; eauto|]. intros changed w1 (u & Hc & Hch).
  apply wp_bind. eapply wp_mono; [apply (afterSet_wp changed w1 m i)|].
  - eapply cached_mid; eauto.
  - done.
  - by eapply cached_others.
  - eapply cached_peers; eauto. apply HI.
  - destruct (cached_frame w w1 i u Hc) as (Ep & _). unfold pends. rewrite Ep. fold (pends w i). intros [Hf|[Hd Hco]].
    + destruct (cached_same w w1 i u Hc (mid_wf _ _ HM) Hi (Hch Hf)) as [E1 E2]. destruct (Hs i Hi) as [E3 _].
      unfold wants in *. by rewrite E1, E2.
    + by rewrite (completed_unwanted w1 i Hco), Hdrop.
  - cbn beta. intros [] w' (Hr & HG & HP). apply wp_ret. by eapply cached_inv.
Qed.
(** ** Starting to hash *)

Lemma getPieceToHash_wp hs w : wf w -> Hashers hs w ->
  wp getPieceToHash (fun r w' => w' = w /\ forall pi, r = Some pi ->
    pi ∈ rb_elems (w_queued w) /\ ps_hashing (ps w pi) = false /\ ps_marking (ps w pi) = false) w.
Proof.
  intros Hw HH. unfold getPieceToHash. apply wp_bind, wp_gets.
  assert (forall l, (forall x, x ∈ l -> x ∈ rb_elems (w_queued w)) ->
    wp (firstToHash l) (fun r w' => w' = w /\ forall pi, r = Some pi ->
      pi ∈ rb_elems (w_queued w) /\ ps_hashing (ps w pi) = false /\ ps_marking (ps w pi) = false) w) as Hl.
  { induction l as [|x l IH]; intros Hin; simpl; [by apply wp_ret|]. assert (x ∈ rb_elems (w_queued w)) as Hx by (apply Hin; by left).
    destruct (state_run w x Hw (h_queued _ _ HH x Hx)) as [_ Es]. apply wp_bind. unfold wp at 1. rewrite Es.
    apply wp_if; [intros _; apply IH; intros y Hy; apply Hin; by right|].
    intros [E1 E2]%orb_false_iff. apply wp_ret. split; [done|]. by intros pi [= <-]. }
  apply Hl. intros x Hx. by apply rb_iterator_elems.
Qed.

(** Changes of the queue at one piece. *)
Lemma queue_other w q i j :
  0 <= i < n -> 0 <= j < n -> j <> i -> (forall x, x <> i -> x ∈ rb_elems q <-> x ∈ rb_elems (w_queued w)) ->
  ign (w <| w_queued := q |>) j = ign w j /\ prio (w <| w_queued := q |>) j = prio w j.
Proof.
  intros Hi Hj Hne Hq. split; [|done]. unfold ign.
  change (w_queued (w <| w_queued := q |>)) with q. by rewrite (tb_Contains_change (w_queued w) q i j).
Qed.

Lemma Mid_queue w m q : Mid w m -> Mid (w <| w_queued := q |>) m.
Proof. intros []. split; [by apply (wf_frame w)|by apply (Ord_frame w)|done..]. Qed.

(** The fields that matter for the order and the pending pieces. *)
Lemma Good_frame w w' : Good w ->
  w_pieces w' = w_pieces w -> w_filePrio w' = w_filePrio w -> w_orders w' = w_orders w -> w_pending w' = w_pending w ->
  w_closed w' = w_closed w -> w_now w' = w_now w -> w_readahead w' = w_readahead w ->
  w_completed w' = w_completed w -> w_queued w' = w_queued w -> w_disallowed w' = w_disallowed w ->
  w_haveInfo w' = w_haveInfo w -> Good w'.
Proof.
  intros (m & [] & Hs) E1 E2 E3 E4 E5 E6 E7 E8 E9 E10 E11. exists m.
  assert (forall i, ign w' i = ign w i /\ prio w' i = prio w i) as Hi.
  { intros i. unfold ign, prio, hash_known, ps. by rewrite E1, E2, E6, E7, E8, E9, E10. }
  split.
  - split; [by apply (wf_frame w)|by apply (Ord_frame w)| | |by rewrite E5|by rewrite E11].
    + unfold pend_range. by rewrite E4.
    + intros i Hi'. unfold hash_known, ps. rewrite E1. by apply mid_hash0.
  - intros i Hi'. destruct (Hi i) as [E13 E12]. apply (synced_ext m m w); [|by apply filed_ext| |by apply Hs].
    + unfold pends. by rewrite E4.
    + unfold wants. by rewrite E13, E12.
Qed.

(** All goroutines but the one of piece [pi] agree with the flags. *)
Record HashX (pi : Z) (rest : list hasher) (w : World) : Prop := {
  hx_nodup : NoDup (pi :: map hasher_piece rest);
  hx_range h : h ∈ rest -> 0 <= hasher_piece h < n;
  hx_flags j : 0 <= j < n -> j <> pi ->
    (ps_hashing (ps w j) = true <-> Hashing j ∈ rest) /\ (ps_marking (ps w j) = true <-> exists p, Marking j p ∈ rest);
  hx_queued x : x ∈ rb_elems (w_queued w) -> 0 <= x < n;
}.

Lemma HashX_cons h rest w : Hashers (h :: rest) w -> HashX (hasher_piece h) rest w.
Proof.
  intros []. split; [done| | |done].
  - intros h' Hh. apply h_range0. by right.
  - intros j Hj Hne. rewrite h_hashing0, h_marking0 by done. setoid_rewrite elem_of_cons.
    destruct h; simpl in Hne; naive_solver.
Qed.

Lemma HashX_of pi rest w : Hashers rest w -> 0 <= pi < n -> ps_hashing (ps w pi) = false ->
  ps_marking (ps w pi) = false -> HashX pi rest w.
Proof.
  intros [] Hpi E1 E2. split; [|done| |done].
  - apply NoDup_cons. split; [|done]. intros (h & -> & Hh)%list_elem_of_fmap.
    destruct h as [x|x p]; simpl in *.
    + apply h_hashing0 in Hh; [congruence|done].
    + assert (exists p, Marking x p ∈ rest) as Hm by eauto. apply h_marking0 in Hm; [congruence|done].
  - intros j Hj _. split; auto.
Qed.

(** Adding the goroutine of a piece. *)
Lemma Hash_add h rest w :
  HashX (hasher_piece h) rest w -> 0 <= hasher_piece h < n ->
  ps_hashing (ps w (hasher_piece h)) = is_hashing h -> ps_marking (ps w (hasher_piece h)) = negb (is_hashing h) ->
  w_storageReaders w = Z.of_nat (length (filter (fun h => is_hashing h = true) (h :: rest))) ->
  Hashers (h :: rest) w.
Proof.
  intros [Hn Hr Hf Hq] Hpi E1 E2 E3. pose proof (NoDup_cons_1_1 _ _ Hn) as Hnotin.
  assert (forall x, x ∈ rest -> hasher_piece x <> hasher_piece h) as Hne.
  { intros x Hx E. apply Hnotin. rewrite <-E. by apply list_elem_of_fmap_2. }
  split; [done| | | |done|done].
  - intros h' [->|Hh]%elem_of_cons; auto.
  - intros j Hj. rewrite elem_of_cons. destruct (decide (j = hasher_piece h)) as [->|Hj'].
    + rewrite E1. destruct h as [x|x p]; simpl in *; split; try done; [by left|].
      intros [?|Hin]; [done|]. by apply Hne in Hin.
    + rewrite (proj1 (Hf j Hj Hj')). split; [by right|]. intros [<-|]; done.
  - intros j Hj. setoid_rewrite elem_of_cons. destruct (decide (j = hasher_piece h)) as [->|Hj'].
    + rewrite E2. destruct h as [x|x p]; simpl in *; split; try done; [|by exists p; left].
      intros (p & [?|Hin]); [done|]. by apply Hne in Hin.
    + rewrite (proj2 (Hf j Hj Hj')). split; [intros [p ?]; exists p; by right|].
      intros (p & [<-|]); [done|by exists p].
Qed.

(** Without one. *)
Lemma Hash_rest pi rest w :
  HashX pi rest w -> 0 <= pi < n -> ps_hashing (ps w pi) = false -> ps_marking (ps w pi) = false ->
  w_storageReaders w = Z.of_nat (length (filter (fun h => is_hashing h = true) rest)) -> Hashers rest w.
Proof.
  intros [Hn Hr Hf Hq] Hpi E1 E2 E3. apply NoDup_cons in Hn as [Hnotin Hn].
  split; [done|done| | |done|done].
  - intros j Hj. destruct (decide (j = pi)) as [->|]; [|by apply Hf]. rewrite E1. split; [done|].
    intros Hin. exfalso. apply Hnotin. by apply (list_elem_of_fmap_2 hasher_piece _ (Hashing pi)).
  - intros j Hj. destruct (decide (j = pi)) as [->|]; [|by apply Hf]. rewrite E2. split; [done|].
    intros [p Hin]. exfalso. apply Hnotin. by apply (list_elem_of_fmap_2 hasher_piece _ (Marking pi p)).
Qed.

Lemma HashX_frame pi rest w w' :
  HashX pi rest w ->
  (forall j, 0 <= j < n -> j <> pi -> ps_hashing (ps w' j) = ps_hashing (ps w j) /\ ps_marking (ps w' j) = ps_marking (ps w j)) ->
  (forall x, x ∈ rb_elems (w_queued w') -> 0 <= x < n) -> HashX pi rest w'.
Proof.
  intros [] Hp Hq. split; [done|done| |done]. intros j Hj Hne. destruct (Hp j Hj Hne) as [-> ->]. auto.
Qed.

(** A state in which a goroutine of piece [pi] was started beside [hs]. *)
Record started (pi : Z) (hs : list hasher) (w w' : World) : Prop := {
  sd_good : Good w';
  sd_peers : Peers tr w';
  sd_readers : Readers w';
  sd_hash : Hashers (Hashing pi :: hs) w';
  sd_active : w_activePieceHashes w' = w_activePieceHashes w + 1;
  sd_hashers : w_hashers w' = w_hashers w;
  sd_queued : rb_elems (w_queued w') = rb_elems (w_queued w) ∖ {[pi]};
}.

Lemma startHash_wp pi hs w :
  Good w -> Peers tr w -> Readers w -> Hashers hs w -> pi ∈ rb_elems (w_queued w) ->
  ps_hashing (ps w pi) = false -> ps_marking (ps w pi) = false ->
  wp (startHash e pi) (fun _ w' => started pi hs w w') w.
Proof.
  intros (m & HM & Hs) HP HR HH Hq E1 E2. pose proof (mid_wf _ _ HM) as Hw. pose proof (lo_range L n HL).
  assert (0 <= pi < n) as Hpi by (by apply (h_queued _ _ HH)).
  unfold startHash. apply wp_bind, wp_modify. set (w1 := w <| w_queued := tb_Remove pi (w_queued w) |>).
  assert (rb_elems (w_queued w1) = rb_elems (w_queued w) ∖ {[pi]}) as Eq.
  { change (w_queued w1) with (tb_Remove pi (w_queued w)). unfold tb_Remove. by rewrite rb_Remove_elems, wrapU_small by lia. }
  assert (wf w1) as Hw1 by (by apply (wf_frame w)).
  apply wp_bind. unfold wp at 1. rewrite (set_piece_run w1 pi _ Hw1 Hpi). cbn beta.
  set (s := (ps w1 pi) <| ps_hashing := true |>). set (w2 := set_ps w1 pi s).
  apply wp_bind. eapply wp_mono; [apply (update_wp w2 m _ pi)|].
  - apply Mid_set; [by apply Mid_queue|done..].
  - done.
  - apply (change_others m w); [done..|]. intros j Hj Hne. destruct (set_other w1 pi s j Hw1 Hpi Hj Hne) as [Ei Ep].
    fold w2 in Ei, Ep. rewrite Ei, Ep. apply (queue_other w _ pi); [done..|]. intros x Hx. fold w1. change (tb_Remove pi (w_queued w)) with (w_queued w1).
    rewrite Eq. set_solver.
  - assert (Peers tr w2) as HP2.
    { apply (Peers_frame tr w); eauto. intros j Hj. change (rel (set_ps w1 pi s) j = rel w j). unfold rel.
      rewrite ps_set by (done || lia). by destruct (decide (j = pi)) as [->|]. }
    intros [] w3 [Hr HG]. pose proof (Peers_refreshed tr w2 w3 Hr HP2) as HP3. destruct Hr as (o & p & h & d & cs & -> & _).
    set (w3 := w2 <| w_orders := o |> <| w_pending := p |> <| w_herp := h |> <| w_derp := d |> <| w_conns := cs |>) in *. apply wp_modify.
    assert (HashX pi hs w3) as HX.
    { apply (HashX_frame _ _ w); [by apply HashX_of| |].
      - intros j Hj Hne. change (ps w3 j) with (ps (set_ps w1 pi s) j). rewrite ps_set by (done || lia).
        by destruct (decide (j = pi)).
      - intros x. change (w_queued w3) with (w_queued w1). rewrite Eq. intros [Hx _]%elem_of_difference.
        by apply (h_queued _ _ HH). }
    split.
    + by apply (Good_frame w3).
    + apply (Peers_frame tr w3); eauto.
    + exact HR.
    + apply Hash_add; simpl hasher_piece.
      * apply (HashX_frame _ _ w3); [done|done|apply HX].
      * done.
      * change (ps_hashing (ps (set_ps w1 pi s) pi) = true). rewrite ps_set by (done || lia). by destruct (decide (pi = pi)).
      * change (ps_marking (ps (set_ps w1 pi s) pi) = false). rewrite ps_set by (done || lia). by destruct (decide (pi = pi)).
      * rewrite filter_cons_True by done. cbn. change (w_storageReaders w + 1 = Z.of_nat (S (length (filter (fun h => is_hashing h = true) hs)))).
        rewrite (h_readers _ _ HH). lia.
    + done.
    + done.
    + exact Eq.
Qed.

Lemma considerStarting_wp w (Q : bool -> World -> Prop) :
  (forall b, (b = true -> w_activePieceHashes w < e_PieceHashersPerTorrent e) -> Q b w) ->
  wp (considerStartingHashers e) Q w.
Proof.
  intros HQ. unfold considerStartingHashers. rewrite Hst. apply wp_bind, wp_gets. rewrite Z.geb_leb.
  destruct (Z.leb_spec (e_PieceHashersPerTorrent e) (w_activePieceHashes w)); [by apply wp_ret, HQ|].
  apply wp_bind, wp_gets. apply wp_if; intros _; [by apply wp_ret, HQ|]. by apply wp_gets, HQ.
Qed.

Lemma startPieceHashers_loop_wp fuel w :
  Inv w -> (size (rb_elems (w_queued w)) < fuel)%nat -> wp (startPieceHashers_loop e fuel) (fun _ w' => Inv w') w.
Proof.
  revert w. induction fuel as [|fuel IH]; intros w HI Hf; [lia|]. destruct (inv_good w HI) as (m & HM & Hs). cbn.
  apply wp_bind, considerStarting_wp. intros b Hb. destruct b; cbn [negb]; [|by apply wp_ret].
  unfold startSinglePieceHasher. apply wp_bind, wp_bind.
  eapply wp_mono; [apply (getPieceToHash_wp (w_hashers w)); [eauto|apply HI]|].
  intros r w' [-> Hr]. destruct r as [pi|]; [|by apply wp_ret, wp_ret].
  destruct (Hr pi eq_refl) as (Hq & E1 & E2). apply wp_bind.
  eapply wp_mono; [apply (startHash_wp pi (w_hashers w)); try done; apply HI|].
  intros [] w1 [HG HP HR HH Ha Eh Eq]. apply wp_bind, wp_modify, wp_ret. cbn [negb].
  set (w2 := w1 <| w_hashers := _ |>).
  assert (w_hashers w2 = w_hashers w ++ [Hashing pi]) as Eh2 by (unfold w2; cbn; by rewrite Eh).
  apply IH.
  - split.
    + by apply (Good_frame w1).
    + apply (Peers_frame tr w1); eauto.
    + exact HR.
    + rewrite Eh2. apply (Hash_perm (Hashing pi :: w_hashers w)); [apply Permutation_cons_append|].
      by apply (Hash_frame _ w1).
    + rewrite Eh2, length_app. change (w_activePieceHashes w2) with (w_activePieceHashes w1).
      rewrite Ha, (inv_active w HI). cbn. lia.
    + rewrite Eh2, length_app. pose proof (inv_active w HI). specialize (Hb eq_refl). cbn. lia.
  - change (w_queued w2) with (w_queued w1). rewrite Eq.
    assert (size ({[pi]} : gset Z) = 1%nat) by apply size_singleton.
    assert (size ({[pi]} : gset Z) <= size (rb_elems (w_queued w)))%nat by (apply subseteq_size; set_solver).
    rewrite size_difference by set_solver. lia.
Qed.
Lemma startPieceHashers_wp w : Inv w -> wp (startPieceHashers e) (fun ok w' => ok = true /\ Inv w') w.
Proof.
  intros HI. destruct (inv_good w HI) as (m & HM & _). unfold startPieceHashers. apply wp_bind, wp_gets.
  rewrite (mid_open _ _ HM). apply wp_bind, wp_gets, wp_bind. rewrite rb_GetCardinality_elems.
  eapply wp_mono; [apply startPieceHashers_loop_wp; [done|lia]|]. intros [] w' HI'. by apply wp_ret.
Qed.

(** The number of hashes after which one that began after now has ended. *)
Definition novel_hash_count (w : World) (i : Z) : Z :=
  if ps_hashing (ps w i) then ps_numVerifies (ps w i) + 2 else ps_numVerifies (ps w i) + 1.

Lemma queuePieceCheck_wp w i : Inv w -> 0 <= i < n ->
  wp (queuePieceCheck e i) (fun r w' => Inv w' /\ r = Some (novel_hash_count w i)) w.
Proof.
  intros HI Hi. destruct (inv_good w HI) as (m & HM & Hs). pose proof (mid_wf _ _ HM) as Hw. pose proof (lo_range L n HL).
  unfold queuePieceCheck. apply wp_bind. unfold wp at 1. rewrite (haveHash_run w i Hw Hi), (mid_hash _ _ HM i Hi). cbn [negb].
  assert (nextNovelHashCount i w = Ret (novel_hash_count w i) w) as En.
  { unfold nextNovelHashCount. destruct (state_run w i Hw Hi) as [_ Es]. by rewrite (bind_step _ _ _ _ _ Es). }
  apply wp_bind. unfold wp at 1. rewrite En. apply wp_bind, wp_gets. destruct (tb_Contains i (w_queued w)); [by apply wp_ret|].
  apply wp_bind, wp_modify, wp_bind. set (w1 := w <| w_queued := _ |>).
  assert (forall x, x ∈ rb_elems (w_queued w1) <-> x = i \/ x ∈ rb_elems (w_queued w)) as Eq.
  { intros x. change (w_queued w1) with (tb_Add i (w_queued w)). unfold tb_Add. rewrite rb_Add_elems, wrapU_small by lia. set_solver. }
  eapply wp_mono; [apply (update_wp w1 m _ i)|].
  - by apply Mid_queue.
  - done.
  - apply (change_others m w); [done..|]. intros j Hj Hne. apply (queue_other w _ i); [done..|].
    intros x Hx. change (tb_Add i (w_queued w)) with (w_queued w1). rewrite (Eq x). naive_solver.
  - assert (Peers tr w1) as HP1 by (apply (Peers_frame tr w); eauto; apply HI).
    intros [] w' [Hr HG]. pose proof (Peers_refreshed tr w1 w' Hr HP1) as HP'. destruct Hr as (o & p & h & d & cs & -> & _).
    apply wp_bind. eapply wp_mono; [apply startPieceHashers_wp|].
    + destruct HI as [_ HP HR [] Ha Hl]. split; try done.
      split; try done. intros x [->|Hx]%Eq; [done|auto].
    + intros ok w' [_ HI']. by apply wp_ret.
Qed.

(** ** Uploads *)

Lemma Inv_tells w w' : Inv w -> tells w w' -> Inv w'.
Proof.
  intros HI Ht. pose proof (Peers_tells tr w w' Ht (inv_peers w HI)) as HP. destruct Ht as (cs & -> & _).
  destruct HI as [HG _ HR HH Ha Hl]. split; [by apply (Good_frame w)|done|done|by apply (Hash_frame _ w)|done|done].
Qed.

Lemma Inv_upload w b : Inv w -> Inv (w <| w_uploadDisallowed := b |>).
Proof.
  intros [HG HP HR HH Ha Hl]. split; [by apply (Good_frame w)|apply (Peers_frame tr w); eauto|done|by apply (Hash_frame _ w)|done|done].
Qed.

Lemma tell_all_wp w reason : Inv w ->
  wp (ids ← connIds e; for_each (fun id => onNeedUpdateRequests id reason) ids) (fun _ w' => Inv w') w.
Proof.
  intros HI. unfold connIds. apply wp_bind, wp_gets. eapply wp_mono; [|cbn beta; intros ? w'; by apply Inv_tells].
  apply (wp_for_each _ _ (fun _ w' => tells w w')); [apply tells_refl|]. intros pre id post w' Hl (cs & -> & Ht).
  assert (id ∈ e_range e w (elements (dom (w_conns w)))) as Hid by (rewrite Hl; set_solver).
  rewrite Hrange, elem_of_elements, elem_of_dom in Hid. destruct Hid as [c Hc]. destruct (told_from _ _ _ _ Ht Hc) as [u Hu].
  eapply wp_mono; [by eapply onNeed_tells|]. cbn beta. intros ? w''. apply tells_trans. by exists cs.
Qed.

Lemma AllowUpload_wp w : Inv w -> wp (AllowDataUpload e) (fun _ w' => Inv w') w.
Proof.
  intros HI. unfold AllowDataUpload. apply wp_bind, wp_gets. unfold when. apply wp_if; intros _; [|by apply wp_ret].
  apply wp_bind, wp_modify. by apply tell_all_wp, Inv_upload.
Qed.

Lemma DisallowUpload_wp w : Inv w -> wp (DisallowDataUpload e) (fun _ w' => Inv w') w.
Proof. intros HI. unfold DisallowDataUpload. apply wp_bind, wp_modify. by apply tell_all_wp, Inv_upload. Qed.

(** ** The goroutines *)

Lemma delete_insert_at {A} (l : list A) k x : delete k (<[k := x]> l) = delete k l.
Proof. revert k. induction l as [|y l IH]; intros [|k]; simpl; [done..|]. by f_equal. Qed.

Lemma hashers_at (hs : list hasher) k h : hs !! k = Some h ->
  exists rest, hs ≡ₚ h :: rest /\ (forall h', <[k := h']> hs ≡ₚ h' :: rest) /\ delete k hs ≡ₚ rest.
Proof.
  intros Hk. exists (delete k hs). pose proof (lookup_lt_Some _ _ _ Hk).
  split; [by apply delete_Permutation|]. split; [|done]. intros h'.
  assert (<[k := h']> hs !! k = Some h') as E by (by apply list_lookup_insert_eq).
  rewrite (delete_Permutation _ _ _ E). by rewrite delete_insert_at.
Qed.

Lemma set_ps_twice w i a b : set_ps (set_ps w i a) i b = set_ps w i b.
Proof.
  transitivity (w <| w_pieces := <[Z.to_nat i := b]> (<[Z.to_nat i := a]> (w_pieces w)) |>); [done|].
  by rewrite list_insert_insert_eq.
Qed.
Lemma set_piece_again w i a f : wf w -> 0 <= i < n -> set_piece i f (set_ps w i a) = Ret tt (set_ps w i (f a)).
Proof.
  intros Hw Hi. rewrite set_piece_run by (done || by apply wf_set). rewrite set_ps_twice, ps_set by (done || lia).
  by destruct (decide (i = i)).
Qed.

(** Hashing has ended: the piece is no longer hashing but marking, and still not wanted. *)
Lemma hashed_wp w k pi correct :
  Inv w -> w_hashers w !! k = Some (Hashing pi) -> wp (hashed e k pi correct) (fun _ w' => Inv w') w.
Proof.
  intros HI Hk. destruct (inv_good w HI) as (m & HM & Hs). destruct (hashers_at _ _ _ Hk) as (rest & Hp & Hins & _).
  pose proof (Hash_perm _ _ _ Hp (inv_hash w HI)) as HH.
  assert (0 <= pi < n) as Hpi by (apply (h_range _ _ HH (Hashing pi)); by left).
  assert (ps_hashing (ps w pi) = true) as Eh by (apply (h_hashing _ _ HH); [done|by left]).
  unfold hashed. apply wp_bind, wp_modify. set (w1 := w <| w_storageReaders := _ |>).
  assert (wf w1) as Hw1 by (apply (wf_frame w); eauto).
  apply wp_bind. unfold wp at 1. rewrite (set_piece_run w1 pi _ Hw1 Hpi).
  apply wp_bind. unfold wp at 1. rewrite (set_piece_again w1 pi _ _ Hw1 Hpi).
  apply wp_bind, wp_gets. change (w_closed (set_ps w1 pi _)) with (w_closed w). rewrite (mid_open _ _ HM).
  apply wp_bind. unfold wp at 1. rewrite (set_piece_again w1 pi _ _ Hw1 Hpi). cbn beta.
  match goal with |- context [set_ps w1 pi ?x] => set (s := x) end.
  assert (Mid (set_ps w1 pi s) m) as HM2.
  { apply Mid_set; [|done|done]. destruct HM. split; [done|by apply (Ord_frame w)|done..]. }
  apply wp_bind, Storage_hash_wp; [eauto|done|]. intros _. apply wp_modify.
  set (w3 := (set_ps w1 pi s) <| w_hashers := _ |>).
  assert (forall j, 0 <= j -> ps w3 j = if decide (j = pi) then s else ps w j) as Eps.
  { intros j Hj. change (ps w3 j) with (ps (set_ps w1 pi s) j). by rewrite ps_set. }
  split.
  - apply (Good_frame (set_ps w1 pi s)); [|done..]. exists m. split; [done|]. intros j Hj.
    destruct (set_same w1 pi s j Hw1 Hpi Hj) as [Ei Ep]; [done..| |].
    { change (true = ps_hashing (ps w pi) || ps_marking (ps w pi)). by rewrite Eh. }
    apply (synced_ext m m w); [done|by apply filed_ext| |by apply Hs]. unfold wants. by rewrite Ei, Ep.
  - apply (Peers_frame tr w); eauto; [|apply HI]. intros j Hj. rewrite Eps by lia. by destruct (decide (j = pi)) as [->|].
  - apply HI.
  - change (w_hashers w3) with (<[k := Marking pi correct]> (w_hashers w)). apply (Hash_perm (Marking pi correct :: rest)); [done|].
    apply Hash_add; simpl hasher_piece.
    + apply (HashX_frame _ _ w); [by apply (HashX_cons (Hashing pi))| |apply HH].
      intros j Hj Hne. rewrite Eps by lia. by destruct (decide (j = pi)).
    + done.
    + rewrite Eps by lia. by destruct (decide (pi = pi)).
    + rewrite Eps by lia. by destruct (decide (pi = pi)).
    + rewrite filter_cons_False by done. change (w_storageReaders w3) with (w_storageReaders w - 1).
      rewrite (h_readers _ _ HH), filter_cons_True by done. cbn. lia.
  - change (w_hashers w3) with (<[k := Marking pi correct]> (w_hashers w)). rewrite length_insert. apply HI.
  - change (w_hashers w3) with (<[k := Marking pi correct]> (w_hashers w)). rewrite length_insert. apply HI.
Qed.
Lemma finishHash_end_wp w m k pi h :
  Mid w m -> 0 <= pi < n -> Others m w pi -> Peers tr w -> Readers w -> w_hashers w !! k = Some h ->
  Hashers (delete k (w_hashers w)) w -> w_activePieceHashes w = Z.of_nat (length (w_hashers w)) ->
  Z.of_nat (length (w_hashers w)) <= Z.max 0 (e_PieceHashersPerTorrent e) ->
  wp (finishHash_end e k pi) (fun _ w' => Inv w') w.
Proof.
  intros HM Hpi Ho HP HR Hk HH Ha Hlim. pose proof (lookup_lt_Some _ _ _ Hk) as Hlt.
  destruct (hashers_at _ _ _ Hk) as (rest & Hp & Hins & Hdel).
  assert (length (delete k (w_hashers w)) = length (w_hashers w) - 1)%nat as Hlen by (by apply length_delete).
  unfold finishHash_end. apply wp_bind. eapply wp_mono; [by apply (update_wp w m _ pi)|].
  intros [] w1 [Href HG]. assert (Peers tr w1) as HP1 by (by eapply Peers_refreshed). destruct Href as (o & p & c & d & cs & -> & _).
  apply wp_bind, wp_modify.
  match goal with |- wp _ _ ?x => set (w2 := x) end.
  assert (Good w2) as HG2 by (by eapply Good_frame). assert (Peers tr w2) as HP2 by (match type of HP1 with Peers tr ?x => apply (Peers_frame tr x) end; eauto).
  assert (Hashers (delete k (w_hashers w)) w2) as HH2 by (by apply (Hash_frame _ w)).
  assert (w_activePieceHashes w2 = Z.of_nat (length (w_hashers w)) - 1) as Ha2 by (by rewrite <-Ha).
  apply wp_bind, wp_gets. destruct HG2 as (m2 & HM2 & Hs2). rewrite (mid_open _ _ HM2). apply wp_bind.
  eapply wp_mono; [apply (getPieceToHash_wp (delete k (w_hashers w))); eauto|].
  intros r w' [-> Hr]. destruct r as [pi'|].
  - destruct (Hr pi' eq_refl) as (Hq & E1 & E2). apply wp_bind.
    eapply wp_mono; [apply (startHash_wp pi' (delete k (w_hashers w))); try done; by exists m2|].
    intros [] w3 [HG3 HP3 HR3 HH3 Ha3 Eh3 _]. apply wp_modify. set (w4 := w3 <| w_hashers := _ |>).
    assert (w_hashers w4 = <[k := Hashing pi']> (w_hashers w)) as Eh4 by (unfold w4; cbn; by rewrite Eh3).
    split; [by apply (Good_frame w3)|apply (Peers_frame tr w3); eauto|done| | |]; rewrite Eh4, ?length_insert; [| |done].
    + apply (Hash_perm (Hashing pi' :: delete k (w_hashers w))); [by rewrite Hins, Hdel|]. by apply (Hash_frame _ w3).
    + change (w_activePieceHashes w4) with (w_activePieceHashes w3). rewrite Ha3, Ha2. lia.
  - apply wp_bind, wp_modify. set (w3 := w2 <| w_hashers := _ |>).
    assert (w_hashers w3 = delete k (w_hashers w)) as Eh3 by done.
    assert (Inv w3) as HI3.
    { split; [apply (Good_frame w2); [by exists m2|done..]|apply (Peers_frame tr w2); eauto|done| | |]; rewrite Eh3, ?Hlen.
      - by apply (Hash_frame _ w2).
      - change (w_activePieceHashes w3) with (w_activePieceHashes w2). rewrite Ha2. lia.
      - lia. }
    apply wp_bind, wp_gets, wp_bind. eapply (wp_mono _ (fun _ w' => w' = w3)).
    + apply wp_if; intros _; [by apply considerStarting_wp|by apply wp_ret].
    + intros b ? ->. unfold when. apply wp_if; intros _; [|by apply wp_ret]. apply wp_bind.
      eapply wp_mono; [by apply startPieceHashers_wp|]. intros ok w' [_ HI']. by apply wp_ret.
Qed.

(** The storage was told: a piece that is marking is not wanted, whatever its completion. *)
Lemma marking_unwanted w m pi : Mid w m -> (forall j, 0 <= j < n -> synced m w j) -> 0 <= pi < n ->
  ps_marking (ps w pi) = true -> pends w pi = false.
Proof.
  intros HM Hs Hpi Em. rewrite (proj1 (Hs pi Hpi)). unfold wants, ign. by rewrite Em, !orb_true_r.
Qed.

Lemma setPieceCompletion_marking w m pi u :
  Mid w m -> (forall j, 0 <= j < n -> synced m w j) -> Peers tr w -> 0 <= pi < n -> ps_marking (ps w pi) = true ->
  wp (setPieceCompletion e pi u) (fun _ w' => exists w1, cached pi u w w1 /\ redone w1 w' /\ Good w' /\ Peers tr w') w.
Proof.
  intros HM Hs HP Hpi Em. pose proof (mid_wf _ _ HM) as Hw. unfold setPieceCompletion. apply wp_bind.
  eapply wp_mono; [by apply setCached_wp|]. intros changed w1 [Hc _].
  eapply wp_mono; [apply (afterSet_wp changed w1 m pi)|].
  - by eapply cached_mid.
  - done.
  - by eapply cached_others.
  - by eapply cached_peers.
  - intros _. unfold wants. rewrite (cached_marking w w1 pi u Hc Hw Hpi Em). cbn.
    destruct (cached_frame w w1 pi u Hc) as [Ep _]. unfold pends. rewrite Ep. by apply (marking_unwanted w m).
  - intros [] w' Hw'. by exists w1.
Qed.

(** What a finished hash leaves alone, apart from the completion. *)
Record settled (w w' : World) : Prop := {
  se_good : Good w';
  se_peers : Peers tr w';
  se_flags j : 0 <= j < n -> ps_hashing (ps w' j) = ps_hashing (ps w j) /\ ps_marking (ps w' j) = ps_marking (ps w j);
  se_readers : w_storageReaders w' = w_storageReaders w;
  se_queued : w_queued w' = w_queued w;
  se_hashers : w_hashers w' = w_hashers w;
  se_active : w_activePieceHashes w' = w_activePieceHashes w;
  se_ranges : Readers w -> Readers w';
}.

Lemma marked_completion w w0 m pi u :
  Mid w m -> chunks_only w w0 -> (forall j, 0 <= j < n -> synced m w j) -> Peers tr w -> 0 <= pi < n -> ps_marking (ps w pi) = true ->
  wp (setPieceCompletion e pi u) (fun _ w' => settled w w') w0.
Proof.
  intros HM Hco Hs HP Hpi Em. assert (Mid w0 m) as HM0 by (by apply (Mid_chunks w)). pose proof (Peers_chunks w w0 Hco HP) as HP0.
  destruct Hco as (d & h & c & cs & -> & _). set (w0 := w <| w_dirty := d |> <| w_herp := h |> <| w_derp := c |> <| w_conns := cs |>) in *.
  eapply wp_mono; [apply (setPieceCompletion_marking w0 m pi u); try done|].
  cbn beta. intros [] w' (w1 & Hc & Hr & HG & HP'). destruct (cached_frame w0 w1 pi u Hc) as (E1 & E2 & E3 & E4 & E5 & HR).
  destruct (redone_frame w1 w' Hr) as (F1 & F2 & F3 & F4 & F5).
  split; [done|done| |by rewrite F1, E2|by rewrite F2, E3|by rewrite F3, E4|by rewrite F4, E5|auto].
  intros j Hj. destruct (redone_flags w1 w' j Hr Hj) as [-> ->].
  exact (cached_flags w0 w1 pi u Hc (mid_wf _ _ HM0) Hpi j Hj).
Qed.

Lemma marked_wp w k pi passed :
  Inv w -> w_hashers w !! k = Some (Marking pi passed) -> wp (marked e k pi passed) (fun _ w' => Inv w') w.
Proof.
  intros HI Hk. destruct (inv_good w HI) as (m & HM & Hs). destruct (hashers_at _ _ _ Hk) as (rest & Hp & _ & Hdel).
  pose proof (Hash_perm _ _ _ Hp (inv_hash w HI)) as HH. pose proof (mid_wf _ _ HM) as Hw.
  assert (0 <= pi < n) as Hpi by (apply (h_range _ _ HH (Marking pi passed)); by left).
  assert (ps_marking (ps w pi) = true) as Em by (apply (h_marking _ _ HH); [done|by exists passed; left]).
  assert (ps_hashing (ps w pi) = false) as Eh.
  { apply not_true_is_false. intros Eh%(h_hashing _ _ HH); [|done]. apply elem_of_cons in Eh as [?|Eh]; [done|].
    pose proof (h_nodup _ _ HH) as Hn. apply NoDup_cons_1_1 in Hn. apply Hn. by apply (list_elem_of_fmap_2 hasher_piece _ (Hashing pi)). }
  unfold marked. apply wp_bind, wp_gets. rewrite (mid_open _ _ HM). cbn [negb when].
  apply wp_bind. eapply (wp_mono _ (fun _ w' => settled w w')).
  - destruct passed; apply wp_bind.
    + apply wp_modify. eapply wp_mono; [apply (marked_completion w _ m pi (Some true)); try done; [apply chunks_dirty|apply HI]|]. by intros [].
    + eapply wp_mono; [apply onIncompletePiece_wp; [done|apply HM|done]|]. cbn beta. intros [] w1 Hc.
      apply (marked_completion w w1 m); try done; apply HI.
  - intros [] w1 [(m1 & HM1 & Hs1) HP1 Hf Er Eq Ehs Ea HR]. pose proof (mid_wf _ _ HM1) as Hw1.
    apply wp_bind. unfold wp at 1. rewrite (set_piece_run w1 pi _ Hw1 Hpi).
    match goal with |- context [set_ps w1 pi ?x] => set (s := x) end.
    assert (Others m1 (set_ps w1 pi s) pi) as Ho.
    { apply (change_others m1 w1); [done..|]. intros j Hj Hne. by apply set_other. }
    eapply (finishHash_end_wp _ m1 k pi (Marking pi passed)).
    + by apply Mid_set.
    + done.
    + done.
    + apply (Peers_frame tr w1); eauto. intros j Hj. rewrite ps_set by (done || lia). by destruct (decide (j = pi)) as [->|].
    + apply HR, HI.
    + cbn. by rewrite Ehs.
    + change (w_hashers (set_ps w1 pi s)) with (w_hashers w1). rewrite Ehs.
      apply (Hash_perm rest); [done|]. apply (Hash_rest pi).
      * apply (HashX_frame _ _ w); [by apply (HashX_cons (Marking pi passed))| |].
        -- intros j Hj Hne. rewrite ps_set by (done || lia). destruct (decide (j = pi)); [done|]. by apply Hf.
        -- cbn. rewrite Eq. apply HH.
      * done.
      * rewrite ps_set by (done || lia). destruct (decide (pi = pi)); [|done]. cbn. by rewrite (proj1 (Hf pi Hpi)).
      * rewrite ps_set by (done || lia). by destruct (decide (pi = pi)).
      * cbn. rewrite Er, (h_readers _ _ HH), filter_cons_False by done. done.
    + cbn. rewrite Ehs, Ea. apply HI.
    + cbn. rewrite Ehs. apply HI.
Qed.

Lemma hasher_step_wp w k correct :
  Inv w -> (k < length (w_hashers w))%nat -> wp (hasher_step e k correct) (fun _ w' => Inv w') w.
Proof.
  intros HI Hk. destruct (lookup_lt_is_Some_2 _ _ Hk) as [h Eh]. unfold hasher_step.
  apply wp_bind, wp_gets, wp_bind. eapply wp_lift; [done|]. destruct h as [pi|pi passed].
  - by apply hashed_wp.
  - by apply marked_wp.
Qed.
End PiecesTheory.
