(* ===== verification/PeersTheory.v ===== *)
(** * Theory of the peers of a torrent

    What peers say they have, connections and web seeds that come and go, and how setting the info
    and closing the torrent deal with them, over the invariant of [PiecesTheory]. *)

From coqutil Require Import Datatypes.RecordSettersUsingExistingGetters.
From stdpp Require Import fin_maps.
From S2P Require Import Prelude Segments Metainfo PeerProtocol Types Bitmap OrderedBitmap Multiless RequestOrder RequestOrderTheory Chunks World RequestState RequestTheory Pieces PiecesTheory.
Local Open Scope Z_scope.

(** ** Counting the peers that have a piece *)

Lemma number_to_list {A} (p : A -> bool) (m : gmap nat A) :
  number p m = length (List.filter (fun x => p x.2) (map_to_list m)).
Proof.
  induction m as [|k a m Hk IH] using map_ind; [done|].
  rewrite number_insert, delete_id by done. rewrite IH.
  assert (forall l1 l2 : list (nat * A), l1 ≡ₚ l2 ->
    length (List.filter (fun x => p x.2) l1) = length (List.filter (fun x => p x.2) l2)) as Hp.
  { induction 1 as [|x l1 l2 _ IH'|x y l|l1 l2 l3 _ IH1 _ IH2]; simpl; [done| | |congruence].
    - destruct (p x.2); simpl; congruence.
    - by destruct (p x.2), (p y.2). }
  rewrite (Hp _ _ (map_to_list_insert m k a Hk)). simpl. by destruct (p a).
Qed.

Lemma number_none {A} (p : A -> bool) (m : gmap nat A) : (forall k a, m !! k = Some a -> p a = false) -> number p m = 0%nat.
Proof.
  intros Hp. apply map_size_empty_iff, map_empty. intros k. apply map_lookup_filter_None. right. intros a Hk. cbn. by rewrite (Hp k a Hk).
Qed.

Lemma number_sum {A} (p q r : A -> bool) (m : gmap nat A) :
  (forall k a, m !! k = Some a -> Nat.b2n (r a) = Nat.b2n (p a) + Nat.b2n (q a))%nat -> (number r m = number p m + number q m)%nat.
Proof.
  induction m as [|k a m Hk IH] using map_ind; intros H; [done|].
  rewrite !number_insert, !delete_id by done. pose proof (H k a (lookup_insert_eq _ _ _)) as Ha.
  rewrite IH; [|intros j b Hj; apply (H j); rewrite lookup_insert_ne; [done|congruence]].
  destruct (p a), (q a), (r a); cbn in Ha |- *; lia.
Qed.

Section Counting.
Context {ML : Multiless} {AJ : AjwernerSet} {RB : Roaring} {RBL : RoaringLaws RB} {GL : GenericList} {GLL : GenericListLaws GL}.
Context (e : Env).
Notation L := (e_layout e).

Lemma count_run {A} (p : A -> go World unit bool) (q : A -> bool) l (w : World) :
  (forall x, x ∈ l -> p x w = Ret (q x) w) -> count p l w = Ret (Z.of_nat (length (List.filter q l))) w.
Proof.
  induction l as [|x l IH]; intros Hp; [done|]. simpl. rewrite (bind_step _ _ _ _ _ (Hp x ltac:(by left))).
  rewrite (bind_step _ _ _ _ _ (IH (fun y Hy => Hp y (list_elem_of_further _ _ _ Hy)))).
  destruct (q x); unfold mret, go_ret; simpl; do 2 f_equal; lia.
Qed.

(** A set of [N] numbers below [N] has them all. *)
Lemma full_set (X : gset Z) (n : Z) i : (forall x, x ∈ X -> 0 <= x < n) -> Z.of_nat (size X) = n -> 0 <= i < n -> i ∈ X.
Proof.
  intros HX Hs Hi. assert (X = range 0 n) as ->; [|by apply elem_of_range].
  apply set_subseteq_size_eq; [intros x Hx; by apply elem_of_range, HX|]. rewrite size_range. lia.
Qed.

Lemma selective_run (n : Z) (tail : list pieceState) w i :
  is_Some (numPieces L) -> w_haveInfo w = true -> Peers e n false w -> 0 <= i < default 0 (numPieces L) ->
  selectivePieceAvailabilityFromPeers e i w = Ret (having (w_conns w) (w_webSeeds w) i) w.
Proof.
  intros [N EN] Hh [HC HO] Hi. destruct (HO eq_refl) as (Hopen & Hseeds & _). pose proof (pr_total _ _ _ _ HC) as Ht.
  rewrite EN in Hi, Ht. cbn in Hi, Ht. assert (0 <= i < 2 ^ 31) as Hi32 by lia.
  unfold selectivePieceAvailabilityFromPeers, having. go_simpl.
  rewrite (count_run _ (fun p => conn_has i p.2)), (count_run _ (fun p => seed_has i p.2)).
  - rewrite !number_to_list. unfold mret, go_ret. do 2 f_equal. lia.
  - intros [u s] Hu%elem_of_map_to_list. destruct (Hseeds u s Hu) as [Eo Ee]. cbn [snd].
    unfold webseed_peerHasPiece, peerHasPiece, webseed_peerHasAllPieces, seed_has. go_simpl. rewrite Hh. cbn. rewrite EN. cbn.
    rewrite rb_GetCardinality_elems, rb_Contains_elems, Ee, size_empty, wrapU_small by lia.
    rewrite (proj2 (Z.eqb_neq _ _)) by lia. rewrite !bool_decide_false by set_solver. by rewrite andb_false_r.
  - intros [id c] Hid%elem_of_map_to_list. destruct (pr_conns _ _ _ _ HC id c Hid) as [Hall Hemp Hu]. cbn [fst snd].
    pose proof (Hopen id c Hid) as Eo. unfold conn_has. rewrite Eo. cbn [negb andb].
    case_bool_decide as Hin; [rewrite (Hemp (proj1 (proj1 Hall Hin))); by rewrite bool_decide_false by set_solver|].
    unfold conn_peerHasPiece, peerHasPiece, peerHasAllPieces. destruct (pc_peerSentHaveAll c) eqn:Ea; [by destruct Hin; apply Hall|].
    go_simpl. rewrite Hh. cbn. rewrite EN. cbn. rewrite rb_GetCardinality_elems, rb_Contains_elems, !wrapU_small by lia.
    destruct (Z.eqb_spec (Z.of_nat (size (rb_elems (pc_peerPieces c)))) N) as [E|E]; [|done]. cbn. symmetry. f_equal.
    apply bool_decide_true, (full_set _ N); [|done|done]. intros x Hx. split; [by apply Hu|].
    pose proof (pr_fits _ _ _ _ HC id c Hid Eo x Hx) as Hf. rewrite EN in Hf. apply Hf. by right.
Qed.
End Counting.

(** ** Setting the info: pieces are taken up one after the other *)

Section OnSetInfo.
Context {ML : Multiless} {MLL : MultilessLaws ML} {AJ : AjwernerSet} {AJL : AjwernerLaws AJ}.
Context {RB : Roaring} {RBL : RoaringLaws RB} {GL : GenericList} {GLL : GenericListLaws GL}.
Context (e : Env) (st : Storage) (Hst : e_storage e = Some st).
Notation L := (e_layout e).
Context (n : Z) (HL : layout_ok L n) (Hrange : forall w l, e_range e w l ≡ₚ l).
Context (b : Z) (Hb : 0 <= b < n) (s0 : pieceState) (tail : list pieceState).

Lemma wf_next (w : World) : wf e b (s0 :: tail) w -> wf e (b + 1) tail w /\ ps w b = s0.
Proof using Hb.
  intros [Hl Ht Hf]. cbn in Hl.
  assert (w_pieces w !! Z.to_nat b = Some s0) as Es.
  { rewrite <-(Nat.add_0_r (Z.to_nat b)), <-lookup_drop, Ht. done. }
  split.
  - split; [lia| |done]. replace (Z.to_nat (b + 1)) with (S (Z.to_nat b)) by lia.
    apply (f_equal (drop 1)) in Ht. rewrite drop_drop in Ht. replace (Z.to_nat b + 1)%nat with (S (Z.to_nat b)) in Ht by lia. done.
  - unfold ps, at_. destruct (Z.ltb_spec b 0); [lia|]. by rewrite Es.
Qed.

Lemma addRequestOrderPiece_wp w m :
  wf e (b + 1) tail w -> Ord e st b w m ->
  wp (addRequestOrderPiece e b) (fun _ w' => exists o m', w' = w <| w_orders := o |> /\ Ord e st (b + 1) w' m' /\
    forall k, k <> pieceRequestOrderKey e b -> m' !! k = m !! k) w.
Proof using Hst HL Hb.
  intros Hw [(pro & Ep & Hr) Hkeys Hcap Hown]. assert (layout_ok L (b + 1)) as HLb by (apply (layout_prefix L n); [done|lia]).
  assert (0 <= b < b + 1) as Hb1 by lia.
  unfold addRequestOrderPiece. rewrite Hst. apply wp_bind, wp_gets, wp_bind.
  eapply (wp_mono _ (fun ign w' => w' = w /\ (hasStorageCap st = true -> ign = false))).
  { destruct (hasStorageCap st); [by apply wp_ret|]. unfold wp. by rewrite (ignore_run e (b + 1) tail HLb w b Hw Hb1). }
  intros i ? [-> Hi]. unfold when. destruct i; cbn [negb].
  - apply wp_ret. exists (w_orders w), m. split; [by destruct w|]. split; [|done]. split.
    + exists pro. done.
    + intros k s Hk Hh. specialize (Hkeys k s Hk Hh). lia.
    + intros i Hc. by specialize (Hi Hc).
    + done.
  - apply wp_bind. eapply wp_lift; [done|]. apply wp_bind. unfold wp at 1.
    rewrite (order_state_run e (b + 1) tail HLb w b Hw Hb1).
    destruct (Add_refines (HL := ajwerner_btree_laws AJ AJL) (pieceRequestOrderKey e b) (order_state e w b) pro m Hr) as (pro' & Ea & Hr').
    apply wp_bind. eapply wp_lift; [exact Ea|]. apply wp_modify.
    eexists _, (<[pieceRequestOrderKey e b := order_state e w b]> m). split; [done|]. split.
    + split.
      * exists pro'. split; [apply lookup_insert_eq|done].
      * intros k s. destruct (decide (k = pieceRequestOrderKey e b)) as [->|]; [intros _ _; cbn; lia|].
        rewrite lookup_insert_ne by done. intros Hk Hh. specialize (Hkeys k s Hk Hh). lia.
      * intros i Hc Hi'. destruct (decide (i = b)) as [->|]; [rewrite lookup_insert_eq; eauto|].
        rewrite lookup_insert_ne by (by intros [= ?]). apply Hcap; [done|lia].
      * by apply insert_own.
    + intros k Hk. by rewrite lookup_insert_ne.
Qed.

(** A piece that nothing hashes is taken up. *)
Lemma Hash_next w w3 :
  Hashers b (w_hashers w) w -> ps w b = s0 -> ps_hashing s0 = false -> ps_marking s0 = false ->
  (forall j, 0 <= j < b + 1 -> ps_hashing (ps w3 j) = ps_hashing (ps w j) /\ ps_marking (ps w3 j) = ps_marking (ps w j)) ->
  w_storageReaders w3 = w_storageReaders w -> w_queued w3 = w_queued w -> w_hashers w3 = w_hashers w ->
  Hashers (b + 1) (w_hashers w3) w3.
Proof using Hb.
  intros [H1 H2 H3 H4 H5 H6] E1 E2 E3 Hf E4 E5 E6. rewrite E6.
  split; [done| | | |by rewrite E4|].
  - intros h' Hh. specialize (H2 h' Hh). lia.
  - intros i Hi. destruct (Hf i Hi) as [-> _].
    destruct (decide (i = b)) as [->|]; [|apply H3; lia]. rewrite E1, E2. split; [done|].
    intros Hin. specialize (H2 _ Hin). simpl in H2. lia.
  - intros i Hi. destruct (Hf i Hi) as [_ ->].
    destruct (decide (i = b)) as [->|]; [|apply H4; lia]. rewrite E1, E3. split; [done|].
    intros [q Hin]. specialize (H2 _ Hin). simpl in H2. lia.
  - intros y Hy. rewrite E5 in Hy. specialize (H6 y Hy). lia.
Qed.

(** The piece after the first [b] counts the peers that have it. *)
Lemma Peers_next w w2 :
  Peers e b false w -> w_conns w2 = w_conns w -> w_requestState w2 = w_requestState w -> w_webSeeds w2 = w_webSeeds w ->
  w_connsWithAllPieces w2 = w_connsWithAllPieces w -> w_completed w2 = w_completed w ->
  (forall i, 0 <= i < b -> rel w2 i = rel w i) -> rel w2 b = having (w_conns w) (w_webSeeds w) b ->
  b < default 0 (numPieces L) -> Peers e (b + 1) false w2.
Proof.
  intros [[] HO] E1 Eq E2 E3 E4 Hr Hrb Hlt. split; [|unfold Opened; by rewrite E1, E2, Eq].
  split; rewrite ?E1, ?E2, ?E3, ?E4; try done.
  - lia.
  - intros x Hx. specialize (pr_completed x Hx). lia.
  - intros i Hi. change (rel w2 i = having (w_conns w) (w_webSeeds w) i). destruct (decide (i = b)) as [->|Hne]; [done|].
    rewrite Hr by lia. apply pr_rel. lia.
  - by apply (Reqs_frame e w).
Qed.

Lemma onSetInfo_piece_wp sc w :
  numPieces L = Some n ->
  Inv e st b (s0 :: tail) false w -> ps_hashing s0 = false -> ps_marking s0 = false -> ps_relativeAvailability s0 = 0 ->
  hash_known e w b = true -> c_Err (sc b) = false ->
  wp (onSetInfo_piece e sc b) (fun _ w' => Inv e st (b + 1) tail false w') w.
Proof using Hst HL Hb Hrange MLL.
  intros EN HI Eh Em Ea Hh Hsc. destruct (inv_good _ _ _ _ _ _ HI) as (m & HM & Hs).
  assert (layout_ok L (b + 1)) as HLb by (apply (layout_prefix L n); [done|lia]).
  assert (0 <= b < b + 1) as Hb1 by lia. pose proof (inv_peers _ _ _ _ _ _ HI) as HP.
  destruct (wf_next w (mid_wf _ _ _ _ _ _ HM)) as [Hw Eps].
  unfold onSetInfo_piece. destruct (state_run e (b + 1) tail w b Hw Hb1) as [_ Est].
  apply wp_bind. unfold wp at 1. rewrite Est, Eps, Ea. cbn [negb Z.eqb].
  apply wp_bind. unfold wp at 1. rewrite (selective_run e b (s0 :: tail) w b); [|eauto|apply HM|done|rewrite EN; cbn; lia].
  pose proof (having_bound e b false w b HP) as Hhb.
  rewrite wrapS_small by (unfold min_int, max_int; change (2 ^ (32 - 1)) with (2 ^ 31); lia).
  apply wp_bind. unfold wp at 1. rewrite (set_piece_run e (b + 1) tail w b _ Hw Hb1). rewrite Eps.
  match goal with |- context [set_ps w b ?x] => set (s1 := x) end. set (w1 := set_ps w b s1).
  assert (wf e (b + 1) tail w1) as Hw1 by (by apply wf_set).
  assert (forall j, 0 <= j -> ps w1 j = if decide (j = b) then s1 else ps w j) as Eps1.
  { intros j Hj. by apply (ps_set e (b + 1) tail). }
  apply wp_bind. eapply wp_mono; [apply (addRequestOrderPiece_wp w1 m Hw1); by apply (Ord_frame _ _ _ w), HM|].
  intros [] w2 (o & m' & -> & HO & Hkeep). set (w2 := w1 <| w_orders := o |>) in *.
  assert (Mid e st (b + 1) tail w2 m') as HM2.
  { split; [by apply (wf_frame _ _ _ w1)|done| | |apply HM..].
    - intros x Hx. pose proof (mid_pend _ _ _ _ _ _ HM x Hx). lia.
    - intros i Hi. unfold hash_known. change (ps w2 i) with (ps w1 i). rewrite Eps1 by lia.
      destruct (decide (i = b)) as [->|]; [|by apply (mid_hash _ _ _ _ _ _ HM); lia].
      unfold hash_known in Hh. by rewrite Eps in Hh. }
  assert (Peers e (b + 1) false w2) as HP2.
  { apply (Peers_next w); try done; [| |rewrite EN; cbn; lia]; unfold rel; change (ps w2) with (ps w1).
    - intros i Hi. rewrite Eps1 by lia. by destruct (decide (i = b)); [lia|].
    - rewrite Eps1 by lia. by destruct (decide (b = b)). }
  assert (pends w b = false) as Hpb.
  { apply not_true_is_false. intros Hp. unfold pends, tb_Contains in Hp. rewrite rb_Contains_elems, bool_decide_eq_true in Hp.
    pose proof (lo_range L n HL). rewrite wrapU_small in Hp by lia. pose proof (mid_pend _ _ _ _ _ _ HM b Hp). lia. }
  assert (Others e (b + 1) m' w2 b) as Ho.
  { intros j Hj Hne. assert (0 <= j < b) as Hjb by lia.
    destruct (set_other e (b + 1) tail w b s1 j Hw Hb1 Hj Hne) as [Ei Ep]. apply (synced_ext e m m' w); [done| | |by apply Hs].
    - apply filed_ext; [|exact Ei]. apply Hkeep. by intros [= ?].
    - unfold wants. change (negb (ign e w1 j) && negb (prio e w1 j =? PiecePriorityNone) = wants e w j).
      unfold wants, w1. by rewrite Ei, Ep. }
  apply wp_bind. unfold setInitialPieceCompletionFromStorage.
  eapply (wp_mono _ (fun _ w' => Inv e st (b + 1) tail false w')).
  - apply wp_bind. eapply wp_mono; [apply (setCachedFromStorage_wp e st Hst (b + 1) tail HLb Hrange sc w2 b); [apply HM2|done|done]|].
    intros changed w3 (u & Hc & _).
    destruct (cached_frame (b + 1) w2 w3 b u Hc) as (E1 & E2 & E3 & E4 & E5 & HR).
    eapply wp_mono; [apply (afterSet_wp e st Hst (b + 1) tail HLb Hrange false true w3 m' b)|].
    + by eapply cached_mid.
    + done.
    + intros j Hj Hne. destruct (cached_other e (b + 1) tail w2 w3 b u Hc (mid_wf _ _ _ _ _ _ HM2) Hb1 j Hj Hne) as [Ei Ep].
      apply (synced_ext e m' m' w2); [unfold pends; by rewrite E1|by apply filed_ext|unfold wants; by rewrite Ei, Ep|by apply Ho].
    + by eapply (cached_peers e (b + 1) tail false w2); [|apply HM2| |].
    + intros [?|[_ Hco]]; [done|]. rewrite (completed_unwanted e w3 b Hco). unfold pends. rewrite E1. exact Hpb.
    + cbn beta. intros [] w4 (Hr & HG & HP4). destruct (redone_frame _ _ _ Hr) as (F1 & F2 & F3 & F4 & F5).
      assert (forall j, 0 <= j < b + 1 -> ps_hashing (ps w4 j) = ps_hashing (ps w j) /\ ps_marking (ps w4 j) = ps_marking (ps w j)) as Hfl.
      { intros j Hj. destruct (redone_flags (b + 1) w3 w4 j Hr Hj) as [-> ->].
        destruct (cached_flags e (b + 1) tail w2 w3 b u Hc (mid_wf _ _ _ _ _ _ HM2) Hb1 j Hj) as [-> ->].
        change (ps w2 j) with (ps w1 j). rewrite Eps1 by lia. destruct (decide (j = b)) as [->|]; [by rewrite Eps|done]. }
      assert (w_hashers w4 = w_hashers w /\ w_activePieceHashes w4 = w_activePieceHashes w) as [F6 F7] by (by rewrite F3, F4, E4, E5).
      split; [done|done| |apply (Hash_next w w4); try done; [apply HI|by rewrite F1, E2|by rewrite F2, E3]|
        rewrite F6, F7; apply HI|rewrite F6; apply HI].
      apply F5, HR. destruct (inv_readers _ _ _ _ _ _ HI) as [Hr' Er]. split; [|done].
      eapply Forall_impl; [exact Hr'|]. intros r [? ?]. split; lia.
  - intros [] w5 HI5. destruct (inv_good _ _ _ _ _ _ HI5) as (m5 & HM5 & _). unfold queueInitialPieceCheck.
    apply wp_if; intros _; [by apply wp_ret|].
    destruct (state_run e (b + 1) tail w5 b (mid_wf _ _ _ _ _ _ HM5) Hb1) as [_ Es5].
    apply wp_bind. unfold wp at 1. rewrite Es5. apply wp_if; intros _; [by apply wp_ret|]. apply wp_bind.
    eapply wp_mono; [by apply (queuePieceCheck_wp e st Hst (b + 1) tail HLb Hrange)|]. intros r w6 [HI6 _]. by apply wp_ret.
Qed.
End OnSetInfo.

(** ** What peers say *)

Section Messages.
Context {ML : Multiless} {MLL : MultilessLaws ML} {AJ : AjwernerSet} {AJL : AjwernerLaws AJ}.
Context {RB : Roaring} {RBL : RoaringLaws RB} {GL : GenericList} {GLL : GenericListLaws GL}.
Context (e : Env) (st : Storage) (Hst : e_storage e = Some st).
Notation L := (e_layout e).
Context (n : Z) (HF : layout_full L n) (Hrange : forall w l, e_range e w l ≡ₚ l).
Let HL : layout_ok L n := lf_ok L n HF.
Let EN : numPieces L = Some n := lf_num L n HF.
Notation Good := (Good e st n []).
Notation Conns := (Conns e n).
Notation redone := (redone n).
Notation Inv := (Inv e st n [] true).
Let HG : steady e n [] Good := steady_Good e st Hst n [] HL.

Lemma total : default 0 (numPieces L) = n.
Proof using EN. by rewrite EN. Qed.

Lemma Peers_true w : Conns true w -> Peers e n true w.
Proof. by split. Qed.

Lemma peers_inv tr w w' : PiecesTheory.Inv e st n [] tr w -> redone w w' -> Good w' -> Conns true w' -> Inv w'.
Proof using HL.
  intros [_ _ HR HH HA HM] Hr HG' HC. destruct (redone_frame n w w' Hr) as (E1 & E2 & E3 & E4 & E5).
  split; [done|by apply Peers_true|by apply E5| |congruence|by rewrite E3].
  rewrite E3. apply (Hash_frame n _ w); [|congruence..|done]. intros i Hi. by apply (redone_flags n w w').
Qed.

(** From here on, only what the handlers of messages change. *)
Definition Step (w w' : World) : Prop := Good w' /\ Conns true w' /\ redone w w'.

Lemma Step_inv w w' : Inv w -> Step w w' -> Inv w'.
Proof using HL. intros HI (HG' & HC & Hr). by apply (peers_inv true w). Qed.

Lemma Step_refl w : Good w -> Conns true w -> Step w w.
Proof. intros. split; [done|]. split; [done|]. apply redone_refl. Qed.

Lemma Step_trans w1 w2 w3 : Step w1 w2 -> Step w2 w3 -> Step w1 w3.
Proof. intros (_ & _ & Hr) (? & ? & Hr'). split; [done|]. split; [done|]. by eapply redone_trans. Qed.

(** The availability of the pieces is changed to [g], and a connection with it. *)
Lemma Step_set w w1 w2 id c c' a g :
  Conns true w -> w_conns w !! id = Some c -> Good w1 -> availed n g w w1 ->
  w2 = w1 <| w_conns := <[id := c']> (w_conns w1) |> <| w_connsWithAllPieces := a |> ->
  (forall j, j <> id -> j ∈ a <-> j ∈ w_connsWithAllPieces w) ->
  same_reqs c c' -> conn_ok a id c' -> (pc_closed c' = false -> fits e true c') ->
  (forall i, 0 <= i < n -> g i = rel w i - Z.b2z (conn_has i c) + Z.b2z (conn_has i c')) -> Step w w2.
Proof using HL Hst Hrange.
  intros HC Hid HG1 Hav E Ha Hq Hok Hf Hg. pose proof Hav as (o & l & E1 & _). split; [|split].
  - subst w2. exact (sy_peers _ _ _ _ HG w1 (<[id := c']> (w_conns w1)) (w_webSeeds w1) a (w_requestState w1) (w_requestPieceStates w1) (w_requestPieceStatesGen w1) HG1).
  - apply (Conns_conn e n true w w2 id c c'); [done|done|by rewrite E, E1|by rewrite E, E1|done|by rewrite E, E1..| | |done|].
    + intros j Hj. rewrite E. by apply Ha.
    + by rewrite E.
    + intros i Hi. transitivity (rel w1 i); [by rewrite E|]. rewrite (availed_rel n g w w1 i Hav Hi). by apply Hg.
  - eapply redone_trans; [eapply redone_availed, Hav|]. rewrite E.
    exact (redone_peers n w1 (<[id := c']> (w_conns w1)) (w_webSeeds w1) a (w_requestState w1) (w_requestPieceStates w1) (w_requestPieceStatesGen w1)).
Qed.

(** Nothing the pieces depend on is changed. *)
Lemma set_conn_step w id c f :
  Good w -> Conns true w -> w_conns w !! id = Some c ->
  unasked c (f c) ->
  wp (set_conn id f) (fun _ w' => Step w w' /\ w' = w <| w_conns := <[id := f c]> (w_conns w) |>) w.
Proof using HL Hst Hrange.
  intros HG' HC Hid [(E1 & E2 & E3) Hq]. unfold wp. rewrite (set_conn_run w id c f Hid). split; [|done].
  destruct (pr_conns e n true w HC id c Hid) as [H1 H2 H3].
  eapply (Step_set w w _ id c (f c) (w_connsWithAllPieces w) (rel w)); try done.
  - apply availed_refl.
  - split; rewrite ?E1, ?E2, ?E3; done.
  - unfold fits. rewrite E1, E3. by apply (pr_fits e n true w HC id c).
  - intros i Hi. unfold conn_has. rewrite E1, E3. lia.
Qed.

Lemma raise_step w id c newMin :
  Good w -> Conns true w -> w_conns w !! id = Some c ->
  wp (raisePeerMinPieces id newMin) (fun _ w' => Step w w' /\ w_connsWithAllPieces w' = w_connsWithAllPieces w /\
    w_haveInfo w' = w_haveInfo w /\
    exists c', w_conns w' !! id = Some c' /\ pc_peerPieces c' = pc_peerPieces c /\
      pc_peerSentHaveAll c' = pc_peerSentHaveAll c /\ pc_closed c' = pc_closed c) w.
Proof using HL Hst Hrange.
  intros HG' HC Hid. unfold raisePeerMinPieces. apply wp_bind. unfold wp at 1. rewrite (conn_run w id c Hid).
  unfold when. apply wp_if; intros _.
  - eapply wp_mono; [by apply (set_conn_step w id c)|]. cbn beta. intros ? w' [Hs ->]. split; [done|]. split; [done|].
    split; [done|]. eexists. split; [apply lookup_insert_eq|done].
  - apply wp_ret. split; [by apply Step_refl|]. split; [done|]. split; [done|]. by exists c.
Qed.

Lemma changed_step w id :
  Good w -> Conns true w -> is_Some (w_conns w !! id) -> wp (peerPiecesChanged e id) (fun _ w' => Step w w') w.
Proof using HL Hst Hrange.
  intros HG' HC Hid. unfold peerPiecesChanged.
  eapply wp_mono; [apply (maybeDrop_wp e st Hst n [] HL Hrange true w id HG' (Peers_true w HC) Hid)|].
  cbn beta. intros ? w' (HG2 & [HC2 _] & Hr & _). done.
Qed.

(** What is requested does not matter. *)
Lemma talked_step w w' : Good w -> Conns true w -> talked w w' -> Reqs e w' -> Step w w'.
Proof using HL Hst.
  intros HG' HC Ha HR. split; [by apply (steady_talked e n [] _ HG w)|]. split; [by apply (Conns_talked e n true w)|by apply redone_talked].
Qed.

Lemma tell_step w id (b : bool) reason : Good w -> Conns true w -> is_Some (w_conns w !! id) ->
  wp (when b (onNeedUpdateRequests id reason)) (fun _ w' => Step w w' /\ is_Some (w_conns w' !! id)) w.
Proof using HL Hst.
  intros HG' HC [c Hid]. unfold when. apply wp_if; intros _; [|apply wp_ret; split; [by apply Step_refl|eauto]].
  eapply wp_mono; [by apply (onNeed_wp e w id c reason (pr_reqs e n true w HC))|]. cbn beta. intros ? w' Hs.
  destruct (stays_at _ _ _ _ _ Hs) as (c' & Hid' & _). apply stays_asked in Hs as (Ha & HR & _). split; [by apply talked_step; [| |apply Ha|]|eauto].
Qed.

(** Perhaps telling the connection to update its requests, and then seeing whether it is of use. *)
Lemma tell_changed_step w id (b : bool) reason : Good w -> Conns true w -> is_Some (w_conns w !! id) ->
  wp (when b (onNeedUpdateRequests id reason);; peerPiecesChanged e id) (fun _ w' => Step w w') w.
Proof using HL Hst Hrange.
  intros HG' HC Hid. apply wp_bind. eapply wp_mono; [by apply tell_step|]. cbn beta. intros ? w1 [Hs1 Hid1].
  pose proof Hs1 as (HG1 & HC1 & _). eapply wp_mono; [by apply changed_step|]. cbn beta. intros ? w2 Hs2. by eapply Step_trans.
Qed.

(** [peerHasPiece] of a connection *)
Definition has (c : PeerConn) (i : Z) : bool :=
  pc_peerSentHaveAll c || (Z.of_nat (size (rb_elems (pc_peerPieces c))) =? n) || bool_decide (i ∈ rb_elems (pc_peerPieces c)).

Lemma has_run w c i : w_haveInfo w = true -> 0 <= i < n -> conn_peerHasPiece e c i w = Ret (has c i) w.
Proof using HL EN.
  intros Hh Hi. pose proof (lo_range L n HL). unfold conn_peerHasPiece, peerHasPiece, peerHasAllPieces, has.
  destruct (pc_peerSentHaveAll c); [done|]. go_simpl. rewrite Hh. cbn. rewrite EN. cbn.
  rewrite rb_GetCardinality_elems, rb_Contains_elems, !wrapU_small by lia. by destruct (_ =? n).
Qed.

Lemma Good_info w : Good w -> w_haveInfo w = true.
Proof using HG. apply (sy_info _ _ _ _ HG). Qed.

(** A peer that does not count for a piece leaves room for one. *)
Lemma uncounted w id c i : Conns true w -> w_conns w !! id = Some c -> 0 <= i < n -> conn_has i c = false ->
  - 2 ^ 31 <= rel w i + 1 < 2 ^ 31.
Proof using HL.
  intros HC Hid Hi Hh. unfold rel. rewrite (pr_rel e n true w HC i Hi). unfold having.
  rewrite (number_delete (conn_has i) _ _ _ Hid), Hh. pose proof (number_le (conn_has i) (delete id (w_conns w))) as H1.
  pose proof (number_le (seed_has i) (w_webSeeds w)) as H2. pose proof (pr_few e n true w HC) as H3.
  rewrite map_size_delete_Some in H1 by done.
  assert (size (w_conns w) <> 0)%nat by (intros E%map_size_empty_inv; by rewrite E in Hid). lia.
Qed.

Lemma conn_range w id c x : Conns true w -> w_conns w !! id = Some c -> pc_closed c = false ->
  x ∈ rb_elems (pc_peerPieces c) -> 0 <= x < n.
Proof using HL EN.
  intros HC Hid Ec Hx. split; [by apply (pr_conns e n true w HC id c Hid)|].
  pose proof (pr_fits e n true w HC id c Hid Ec x Hx) as Hf. rewrite total in Hf. apply Hf. by left.
Qed.

Lemma peerSentHave_wp w id c piece :
  Good w -> Conns true w -> w_conns w !! id = Some c -> pc_closed c = false ->
  wp (peerSentHave e id piece) (fun ok w' => ok = bool_decide (0 <= piece < n) /\ Step w w') w.
Proof using HL EN Hst Hrange.
  intros HG' HC Hid Ec. pose proof (lo_range L n HL). unfold peerSentHave. apply wp_bind, wp_gets. rewrite (Good_info w HG').
  apply wp_bind, wp_bind. eapply wp_lift; [exact EN|]. apply wp_ret. rewrite Z.geb_leb.
  apply wp_if; [intros Hb; apply wp_ret; split; [rewrite bool_decide_false by (apply orb_true_iff in Hb; bool_to_prop; destruct Hb; bool_to_prop; lia); done|by apply Step_refl]|].
  intros Hp. bool_to_prop. assert (0 <= piece < n) as Hpn by lia. rewrite bool_decide_true by done.
  apply wp_bind. unfold wp at 1. rewrite (conn_run w id c Hid). apply wp_bind. unfold wp at 1. rewrite (has_run w c piece (Good_info w HG') Hpn).
  destruct (has c piece) eqn:Eh; [by apply wp_ret; split; [|apply Step_refl]|].
  apply wp_bind. eapply wp_mono; [by apply (raise_step w id c)|]. cbn beta.
  intros ? w1 (Hs1 & Ea1 & _ & c1 & Hid1 & Ep1 & Eh1 & Ec1). pose proof Hs1 as (HG1 & HC1 & _).
  apply wp_bind. unfold wp at 1. rewrite (conn_run w1 id c1 Hid1).
  apply wp_bind. unfold wp at 1. rewrite (has_run w1 c1 piece (Good_info w1 HG1) Hpn).
  assert (has c1 piece = false) as E1 by (unfold has in *; by rewrite Ep1, Eh1). rewrite E1. cbn [negb when].
  unfold has in E1. apply orb_false_iff in E1 as [[E1 _]%orb_false_iff Hnot%bool_decide_eq_false_1].
  assert (conn_has piece c1 = false) as Hch by (unfold conn_has; rewrite bool_decide_false by done; apply andb_false_r).
  apply wp_bind. eapply wp_mono; [apply (inc_wp e n [] _ HG w1 piece HG1 Hpn (uncounted w1 id c1 piece HC1 Hid1 Hpn Hch))|].
  cbn beta. intros ? w2 [HG2 Hav]. pose proof Hav as (o & l & E2 & _).
  assert (w_conns w2 !! id = Some c1) as Hid2 by (by rewrite E2). apply wp_bind. unfold wp at 1. rewrite (set_conn_run w2 id c1 _ Hid2).
  set (c3 := c1 <| pc_peerPieces := _ |>). set (w3 := w2 <| w_conns := _ |>).
  assert (rb_elems (pc_peerPieces c3) = {[piece]} ∪ rb_elems (pc_peerPieces c1)) as E3.
  { change (pc_peerPieces c3) with (tb_Add piece (pc_peerPieces c1)). unfold tb_Add. by rewrite rb_Add_elems, wrapU_small by lia. }
  destruct (pr_conns e n true w1 HC1 id c1 Hid1) as [K1 K2 K3].
  assert (Step w1 w3) as Hs3.
  { apply (Step_set w1 w2 w3 id c1 c3 (w_connsWithAllPieces w1) (at_piece piece (rel w1 piece + 1) (rel w1))); try done.
    - unfold w3. by rewrite E2.
    - split; [done| |].
      + change (pc_peerSentHaveAll c3) with (pc_peerSentHaveAll c1). congruence.
      + intros x. rewrite E3, elem_of_union, elem_of_singleton. intros [->|Hx]; [lia|auto].
    - intros _ x. rewrite E3, elem_of_union, elem_of_singleton, total. intros [->|Hx] _; [lia|].
      by apply (conn_range w1 id c1); [| |rewrite Ec1|].
    - intros i Hi. unfold at_piece, conn_has. rewrite E3. change (pc_closed c3) with (pc_closed c1). rewrite Ec1, Ec. cbn [negb andb].
      destruct (decide (i = piece)) as [->|Hne].
      + rewrite (bool_decide_false (piece ∈ rb_elems (pc_peerPieces c1))) by done. rewrite bool_decide_true by set_solver. cbn. lia.
      + rewrite (bool_decide_ext (i ∈ {[piece]} ∪ rb_elems (pc_peerPieces c1)) (i ∈ rb_elems (pc_peerPieces c1))) by set_solver. lia. }
  pose proof Hs3 as (HG3 & HC3 & _). apply wp_bind, wp_gets, wp_bind.
  eapply wp_mono; [apply (tell_step w3 id _ _ HG3 HC3); exists c3; apply lookup_insert_eq|].
  cbn beta. intros ? w4 [Hs4 Hid4]. pose proof Hs4 as (HG4 & HC4 & _). apply wp_bind.
  eapply wp_mono; [by apply (changed_step w4 id)|]. cbn beta. intros ? w5 Hs5. apply wp_ret. split; [done|].
  eapply Step_trans; [exact Hs1|]. eapply Step_trans; [exact Hs3|]. by eapply Step_trans.
Qed.
Lemma conn_has_empty i c : rb_elems (pc_peerPieces c) = ∅ -> conn_has i c = false.
Proof. intros E. unfold conn_has. rewrite E, bool_decide_false by set_solver. apply andb_false_r. Qed.

(** Forgetting what a connection has. *)
Lemma forget_wp w id c :
  Good w -> Conns true w -> w_conns w !! id = Some c -> pc_closed c = false ->
  wp (for_each (decPieceAvailability e) (rb_iterator (pc_peerPieces c))) (fun _ w' => Good w' /\
    availed n (fun i => rel w i - Z.b2z (conn_has i c)) w w') w.
Proof using HL EN Hst Hrange.
  intros HG' HC Hid Ec.
  eapply wp_mono; [apply (dec_loop e n [] _ HG); [apply iterator_NoDup|intros x Hx%rb_iterator_elems; by apply (conn_range w id c)|done|]|].
  - intros x Hx%rb_iterator_elems. apply (conn_counted e n true w id c x HC Hid); [by apply (conn_range w id c)|].
    unfold conn_has. by rewrite Ec, bool_decide_true.
  - cbn beta. intros ? w' [HG1 Hav]. split; [done|]. eapply availed_ext; [|exact Hav]. cbn beta. intros i Hi.
    unfold conn_has. rewrite Ec. cbn [negb andb].
    destruct (decide (i ∈ rb_iterator (pc_peerPieces c))) as [Hin|Hin]; rewrite rb_iterator_elems in Hin;
      [rewrite bool_decide_true by done|rewrite bool_decide_false by done]; cbn; lia.
Qed.

Lemma haveAll_wp w id c :
  Good w -> Conns true w -> w_conns w !! id = Some c -> pc_closed c = false ->
  wp (onPeerHasAllPieces e id) (fun _ w' => Step w w') w.
Proof using HL EN Hst Hrange.
  intros HG' HC Hid Ec. unfold onPeerHasAllPieces, onPeerHasAllPiecesNoTriggers, addConnWithAllPieces.
  apply wp_bind, wp_bind. unfold wp at 1. rewrite (conn_run w id c Hid). apply wp_bind, wp_gets. rewrite (Good_info w HG'). cbn [when].
  apply wp_bind. eapply wp_mono; [by apply (forget_wp w id c)|]. cbn beta. intros ? w1 [HG1 Hav]. pose proof Hav as (o & l & E1 & _).
  apply wp_bind, wp_modify. set (w2 := w1 <| w_connsWithAllPieces := _ |>).
  assert (w_conns w2 !! id = Some c) as Hid2 by (unfold w2; by rewrite E1).
  apply wp_bind. unfold wp at 1. rewrite (set_conn_run w2 id c _ Hid2). set (w3 := w2 <| w_conns := _ |>).
  unfold wp at 1. rewrite (set_conn_run w3 id (c <| pc_peerSentHaveAll := true |>)) by apply lookup_insert_eq.
  set (c' := _ <| pc_peerPieces := _ |>). set (w4 := w3 <| w_conns := _ |>).
  assert (rb_elems (pc_peerPieces c') = ∅) as Ee by (apply rb_Clear_elems).
  assert (Step w w4) as Hs4.
  { apply (Step_set w w1 w4 id c c' ({[id]} ∪ w_connsWithAllPieces w) _ HC Hid HG1 Hav).
    - transitivity (w1 <| w_connsWithAllPieces := {[id]} ∪ w_connsWithAllPieces w1 |>
        <| w_conns := <[id := c']> (<[id := c <| pc_peerSentHaveAll := true |>]> (w_conns w1)) |>); [done|].
      rewrite insert_insert_eq. by rewrite E1.
    - set_solver.
    - done.
    - split; [|done|rewrite Ee; set_solver]. set_solver.
    - intros _ x. rewrite Ee. set_solver.
    - intros i Hi. rewrite (conn_has_empty i c' Ee). cbn. lia. }
  pose proof Hs4 as (HG4 & HC4 & _). unfold peerHasAllPiecesTriggers. apply wp_bind, wp_gets.
  eapply wp_mono; [apply (tell_changed_step w4 id _ _ HG4 HC4); exists c'; apply lookup_insert_eq|].
  cbn beta. intros ? w5 Hs5. by eapply Step_trans.
Qed.

(** A peer that said it has all pieces does not take it back this way. *)
Lemma haveNone_wp w id c :
  Good w -> Conns true w -> w_conns w !! id = Some c -> pc_closed c = false -> pc_peerSentHaveAll c = false ->
  wp (peerSentHaveNone e id) (fun _ w' => Step w w') w.
Proof using HL EN Hst Hrange.
  intros HG' HC Hid Ec Eh. unfold peerSentHaveNone. apply wp_bind. unfold wp at 1. rewrite (conn_run w id c Hid), Eh. cbn [negb when].
  destruct (pr_conns e n true w HC id c Hid) as [K1 K2 K3]. assert (id ∉ w_connsWithAllPieces w) as Hnot by (rewrite K1, Eh; naive_solver).
  unfold decPeerPieceAvailability, deleteConnWithAllPieces. apply wp_bind, wp_bind, wp_bind, wp_gets, wp_bind, wp_modify, wp_ret.
  rewrite bool_decide_false by done. set (w1 := w <| w_connsWithAllPieces := _ |>).
  assert (w1 = w) as ->.
  { unfold w1. transitivity (w <| w_connsWithAllPieces := w_connsWithAllPieces w |>); [|by destruct w].
    by replace (w_connsWithAllPieces w ∖ {[id]}) with (w_connsWithAllPieces w) by set_solver. }
  apply wp_bind, wp_gets. rewrite (Good_info w HG'). cbn [when]. apply wp_bind. unfold wp at 1. rewrite (conn_run w id c Hid).
  eapply wp_mono; [by apply (forget_wp w id c)|]. cbn beta. intros ? w1 [HG1 Hav]. pose proof Hav as (o & l & E1 & _).
  assert (w_conns w1 !! id = Some c) as Hid1 by (by rewrite E1).
  apply wp_bind. unfold wp at 1. rewrite (set_conn_run w1 id c _ Hid1). set (c2 := c <| pc_peerPieces := _ |>).
  set (w2 := w1 <| w_conns := _ |>). apply wp_bind. unfold wp at 1. rewrite (set_conn_run w2 id c2) by apply lookup_insert_eq.
  set (c' := _ <| pc_peerSentHaveAll := _ |>). set (w4 := w2 <| w_conns := _ |>).
  assert (rb_elems (pc_peerPieces c') = ∅) as Ee by (apply rb_Clear_elems).
  assert (Step w w4) as Hs4.
  { apply (Step_set w w1 w4 id c c' (w_connsWithAllPieces w) _ HC Hid HG1 Hav).
    - transitivity (w1 <| w_conns := <[id := c']> (<[id := c2]> (w_conns w1)) |>); [done|].
      rewrite insert_insert_eq. by rewrite E1.
    - done.
    - done.
    - split; [|done|rewrite Ee; set_solver]. split; [done|]. by intros [? _].
    - intros _ x. rewrite Ee. set_solver.
    - intros i Hi. rewrite (conn_has_empty i c' Ee). cbn. lia. }
  pose proof Hs4 as (HG4 & HC4 & _). eapply wp_mono; [apply (changed_step w4 id HG4 HC4); exists c'; apply lookup_insert_eq|].
  cbn beta. intros ? w5 Hs5. by eapply Step_trans.
Qed.

(** *** Bit fields *)

Lemma boolSlice_elems slice x : Z.of_nat (length slice) <= 2 ^ 32 ->
  x ∈ rb_elems (boolSliceToBitmap slice) <-> 0 <= x /\ slice !! Z.to_nat x = Some true.
Proof.
  intros Hlen. unfold boolSliceToBitmap.
  assert (forall k (l : list bool) b0, 0 <= k -> k + Z.of_nat (length l) <= 2 ^ 32 ->
    x ∈ rb_elems (foldl (fun b p => if p.2 : bool then rb_Add (wrapU 32 p.1) b else b) b0 (zip (seqZ k (Z.of_nat (length l))) l)) <->
    x ∈ rb_elems b0 \/ k <= x /\ l !! Z.to_nat (x - k) = Some true) as Hgen.
  { intros k l. revert k. induction l as [|a l IH]; intros k b0 Hk Hl.
    - simpl. split; [by left|]. intros [?|[_ ?]]; [done|]. by rewrite lookup_nil in *.
    - cbn [length] in Hl |- *. rewrite seqZ_cons by lia. cbn [zip zip_with foldl fst snd].
      replace (Z.pred (Z.of_nat (S (length l)))) with (Z.of_nat (length l)) by lia.
      rewrite IH by lia. replace (Z.succ k) with (k + 1) by lia.
      assert ((k + 1 <= x /\ l !! Z.to_nat (x - (k + 1)) = Some true) <-> (k <= x /\ x <> k /\ (a :: l) !! Z.to_nat (x - k) = Some true)) as ->.
      { split; intros H; (repeat split; try lia).
        - replace (Z.to_nat (x - k)) with (S (Z.to_nat (x - (k + 1)))) by lia. apply H.
        - destruct H as (? & ? & H). replace (Z.to_nat (x - k)) with (S (Z.to_nat (x - (k + 1)))) in H by lia. apply H. }
      destruct a.
      + rewrite rb_Add_elems, elem_of_union, elem_of_singleton, wrapU_small by lia. split.
        * intros [[->|?]|(? & ? & ?)]; [right; split; [lia|by rewrite Z.sub_diag]|by left|by right].
        * intros [?|[? ?]]; [by left; right|]. destruct (decide (x = k)); [by left; left|by right].
      + split; [intros [?|(? & ? & ?)]; [by left|by right]|]. intros [?|[? H]]; [by left|right].
        split; [done|]. split; [|done]. intros ->. by rewrite Z.sub_diag in H. }
  rewrite (Hgen 0 slice rb_New) by lia. rewrite rb_New_elems, Z.sub_0_r. set_solver.
Qed.

(** The pieces of a bit field whose bits change, one after the other. *)
Lemma bitfield_loop w id c bm :
  Good w -> Conns true w -> w_conns w !! id = Some c -> pc_closed c = false -> (forall x, x ∈ rb_elems bm -> 0 <= x < n) ->
  wp (for_each (bitfield_change e id) (rb_iterator bm)) (fun _ w' => Good w' /\
    availed n (fun i => rel w i - Z.b2z (conn_has i c) +
      Z.b2z (bool_decide (i ∈ (rb_elems (pc_peerPieces c) ∖ rb_elems bm) ∪ (rb_elems bm ∖ rb_elems (pc_peerPieces c))))) w w') w.
Proof using HL EN Hst Hrange.
  intros HG' HC Hid Ec Hbm. pose proof (lo_range L n HL).
  eapply wp_mono; [apply (avail_loop e n [] _ HG (bitfield_change e id)
    (fun x => if conn_has x c then rel w x - 1 else rel w x + 1))|].
  - apply iterator_NoDup.
  - intros x Hx%rb_iterator_elems. auto.
  - done.
  - intros x g w' Hx%rb_iterator_elems HG1 Hav Er. specialize (Hbm x Hx). unfold bitfield_change.
    assert (w_conns w' !! id = Some c) as Hid' by (by destruct Hav as (o & l & -> & _)).
    apply wp_bind. unfold wp at 1. rewrite (conn_run w' id c Hid'). unfold tb_Contains. rewrite rb_Contains_elems, wrapU_small by lia.
    unfold conn_has. rewrite Ec. cbn [negb andb]. rewrite <-Er. case_bool_decide as Hin.
    + apply (dec_wp e n [] _ HG); [done..|]. rewrite Er. apply (conn_counted e n true w id c x HC Hid Hbm). unfold conn_has. by rewrite Ec, bool_decide_true.
    + apply (inc_wp e n [] _ HG); [done..|]. rewrite Er. apply (uncounted w id c x HC Hid Hbm). unfold conn_has. by rewrite Ec, bool_decide_false.
  - cbn beta. intros ? w' [HG1 Hav]. split; [done|]. eapply availed_ext; [|exact Hav]. cbn beta. intros i Hi.
    unfold conn_has. rewrite Ec. cbn [negb andb].
    destruct (decide (i ∈ rb_iterator bm)) as [Hin|Hin]; rewrite rb_iterator_elems in Hin;
      repeat case_bool_decide; cbn; try lia; exfalso; set_solver.
Qed.
(** The connection after it is no longer taken to have all pieces, and the bits that change. *)
Lemma bitfield_start w id c bm :
  Good w -> Conns true w -> w_conns w !! id = Some c -> pc_closed c = false ->
  wp (if pc_peerSentHaveAll c then
        deleted ← deleteConnWithAllPieces id;
        if negb deleted then panic tt
        else
          set_conn id (fun c => c <| pc_peerSentHaveAll := false |>);;
          if negb (rb_IsEmpty (pc_peerPieces c)) then panic tt else mret bm
      else mret (rb_Xor bm (pc_peerPieces c)))
    (fun bm' w' => Step w w' /\ exists c', w_conns w' !! id = Some c' /\ pc_closed c' = false /\
      pc_peerPieces c' = pc_peerPieces c /\ pc_peerSentHaveAll c' = false /\
      rb_elems bm' = (rb_elems bm ∖ rb_elems (pc_peerPieces c)) ∪ (rb_elems (pc_peerPieces c) ∖ rb_elems bm)) w.
Proof using HL EN Hst Hrange.
  intros HG' HC Hid Ec. destruct (pr_conns e n true w HC id c Hid) as [K1 K2 K3]. destruct (pc_peerSentHaveAll c) eqn:Eh.
  - unfold deleteConnWithAllPieces. apply wp_bind, wp_bind, wp_gets, wp_bind, wp_modify, wp_ret.
    rewrite bool_decide_true by (apply K1; auto). cbn [negb]. set (w1 := w <| w_connsWithAllPieces := _ |>).
    apply wp_bind. unfold wp at 1. rewrite (set_conn_run w1 id c _ Hid). set (c' := c <| pc_peerSentHaveAll := false |>).
    set (w2 := w1 <| w_conns := _ |>). rewrite rb_IsEmpty_elems, bool_decide_true by auto. cbn [negb]. apply wp_ret. split.
    + apply (Step_set w w w2 id c c' (w_connsWithAllPieces w ∖ {[id]}) (rel w)); try done.
      * apply availed_refl.
      * set_solver.
      * split; [|done|done]. split; [set_solver|by intros [? _]].
      * intros _. by apply (pr_fits e n true w HC id c).
      * intros i Hi. change (conn_has i c') with (conn_has i c). lia.
    + exists c'. split; [apply lookup_insert_eq|]. split; [done|]. split; [done|]. split; [done|]. rewrite (K2 eq_refl). set_solver.
  - apply wp_ret. split; [by apply Step_refl|]. exists c. rewrite rb_Xor_elems. done.
Qed.

Lemma bitfield_wp w id c bf :
  Good w -> Conns true w -> w_conns w !! id = Some c -> pc_closed c = false -> Z.of_nat (length bf) mod 8 = 0 ->
  wp (peerSentBitfield e id bf) (fun _ w' => Step w w') w.
Proof using HL EN Hst Hrange.
  intros HG' HC Hid Ec Hlen. pose proof (lo_range L n HL) as Hn. unfold peerSentBitfield. rewrite Hlen. cbn [negb Z.eqb].
  apply wp_bind. eapply wp_mono; [by apply (raise_step w id c)|]. cbn beta.
  intros ? w1 (Hs1 & _ & _ & c1 & Hid1 & Ep1 & Eh1 & Ec1). pose proof Hs1 as (HG1 & HC1 & _). rewrite Ec in Ec1.
  apply wp_bind, wp_gets. rewrite (Good_info w1 HG1). apply wp_bind. eapply wp_lift; [exact EN|]. cbn [andb].
  set (bf' := if Z.of_nat (length bf) >? n then _ else bf). set (bm := boolSliceToBitmap bf').
  assert (forall x, x ∈ rb_elems bm -> 0 <= x < n) as Hbm.
  { assert (Z.of_nat (length bf') <= n) as Hl.
    { unfold bf'. rewrite Z.gtb_ltb. destruct (Z.ltb_spec n (Z.of_nat (length bf))); [rewrite length_take|]; lia. }
    intros x [Hx E]%boolSlice_elems; [|lia]. apply lookup_lt_Some in E. lia. }
  apply wp_if; [intros _; eapply wp_mono; [by apply (haveAll_wp w1 id c1)|]; cbn beta; intros ? w' Hs; by eapply Step_trans|]. intros _.
  apply wp_bind. eapply (wp_mono _ (fun _ w' => Step w w' /\ exists c', w_conns w' !! id = Some c' /\ pc_closed c' = false)).
  { destruct (rb_Maximum bm) as [mx|]; [|apply wp_ret; split; [done|by exists c1]].
    eapply wp_mono; [by apply (raise_step w1 id c1)|]. cbn beta. intros ? w2 (Hs2 & _ & _ & c2 & Hid2 & _ & _ & Ec2).
    split; [by eapply Step_trans|]. exists c2. by rewrite Ec2. }
  cbn beta. intros ? w2 (Hs2 & c2 & Hid2 & Ec2). pose proof Hs2 as (HG2 & HC2 & _).
  apply wp_bind. unfold wp at 1. rewrite (conn_run w2 id c2 Hid2). apply wp_bind.
  eapply wp_mono; [by apply (bitfield_start w2 id c2 bm)|]. cbn beta.
  intros bm' w3 (Hs3 & c3 & Hid3 & Ec3 & Ep3 & Eh3 & Eb). pose proof Hs3 as (HG3 & HC3 & _).
  apply wp_bind. eapply wp_mono; [by apply (set_conn_step w3 id c3 (fun c => c <| pc_peerSentHaveAll := false |>))|]. cbn beta.
  set (c4 := c3 <| pc_peerSentHaveAll := false |>). intros ? w4 [Hs4 E4]. pose proof Hs4 as (HG4 & HC4 & _).
  assert (w_conns w4 !! id = Some c4) as Hid4 by (rewrite E4; apply lookup_insert_eq).
  assert (forall x, x ∈ rb_elems bm' -> 0 <= x < n) as Hbm'.
  { intros x. rewrite Eb. intros [[Hx _]%elem_of_difference|[Hx _]%elem_of_difference]%elem_of_union; [auto|by apply (conn_range w2 id c2)]. }
  apply wp_bind. unfold wp at 1. rewrite (conn_run w4 id c4 Hid4). apply wp_bind, wp_gets.
  apply wp_bind. eapply wp_mono; [by apply (bitfield_loop w4 id c4 bm')|]. cbn beta. intros ? w5 [HG5 Hav].
  pose proof Hav as (o & l & E5 & _). assert (w_conns w5 !! id = Some c4) as Hid5 by (by rewrite E5).
  apply wp_bind. unfold wp at 1. rewrite (set_conn_run w5 id c4 _ Hid5). set (c6 := c4 <| pc_peerPieces := _ |>). set (w6 := w5 <| w_conns := _ |>).
  destruct (pr_conns e n true w4 HC4 id c4 Hid4) as [K1 K2 K3].
  assert (rb_elems (pc_peerPieces c6) = (rb_elems (pc_peerPieces c4) ∖ rb_elems bm') ∪ (rb_elems bm' ∖ rb_elems (pc_peerPieces c4))) as E6
    by (apply rb_Xor_elems).
  assert (forall x, x ∈ rb_elems (pc_peerPieces c6) -> 0 <= x < n) as H6.
  { intros x. rewrite E6. intros [[Hx _]%elem_of_difference|[Hx _]%elem_of_difference]%elem_of_union; [by apply (conn_range w4 id c4)|auto]. }
  assert (Step w4 w6) as Hs6.
  { apply (Step_set w4 w5 w6 id c4 c6 (w_connsWithAllPieces w4) _ HC4 Hid4 HG5 Hav); try done.
    - unfold w6. by rewrite E5.
    - split; [done|done|]. intros x Hx%H6. lia.
    - intros _ x Hx%H6 _. rewrite total. lia.
    - intros i Hi. f_equal. unfold conn_has. rewrite E6. change (pc_closed c6) with (pc_closed c3). by rewrite Ec3. }
  pose proof Hs6 as (HG6 & HC6 & _). eapply wp_mono; [apply (tell_changed_step w6 id _ _ HG6 HC6); exists c6; apply lookup_insert_eq|].
  cbn beta. intros ? w7 Hs7. eapply Step_trans; [exact Hs2|]. eapply Step_trans; [exact Hs3|].
  eapply Step_trans; [exact Hs4|]. by eapply Step_trans.
Qed.

(** ** Connections come and go *)

Lemma close_step w id c : Good w -> Conns true w -> w_conns w !! id = Some c ->
  wp (close e id) (fun _ w' => Step w w' /\ w_webSeeds w' = w_webSeeds w /\
    w_conns w' = <[id := c <| pc_closed := true |>]> (w_conns w)) w.
Proof using HL EN Hst Hrange.
  intros HG' HC Hid. eapply wp_mono; [apply (close_wp e n [] _ HG true w id c HG' HC Hid)|].
  - intros Ec x Hx. by apply (conn_range w id c).
  - cbn beta. intros ? w' (HG1 & HC1 & Hr & Es & E & _). done.
Qed.

Lemma close_delete_step w id c : Good w -> Conns true w -> w_conns w !! id = Some c ->
  wp (close e id;; deletePeerConn e id) (fun ok w' => ok = true /\ Step w w' /\ w_webSeeds w' = w_webSeeds w /\
    like (delete id (w_conns w)) (w_conns w')) w.
Proof using HL EN Hst Hrange.
  intros HG' HC Hid. apply wp_bind. eapply wp_mono; [by apply (close_step w id c)|]. cbn beta. intros ? w1 (Hs1 & Es1 & E1).
  pose proof Hs1 as (HG1 & HC1 & _).
  eapply wp_mono; [apply (deletePeerConn_wp e n [] Hrange _ HG true w1 id (c <| pc_closed := true |>) HG1 HC1); [by rewrite E1, lookup_insert_eq|done]|].
  cbn beta. intros ok w2 (-> & HG2 & HC2 & Hr2 & Es2 & E2 & _). rewrite E1, delete_insert_eq in E2.
  split; [done|]. split; [|by rewrite Es2]. eapply Step_trans; [exact Hs1|]. done.
Qed.

Lemma drop_step w id c : Good w -> Conns true w -> w_conns w !! id = Some c ->
  wp (dropConnection e id) (fun _ w' => Step w w') w.
Proof using HL EN Hst Hrange.
  intros HG' HC Hid. eapply wp_mono; [apply (dropConnection_wp e st Hst n [] HL Hrange true w id c HG' (Peers_true w HC) Hid)|].
  - intros Ec x Hx. by apply (conn_range w id c).
  - cbn beta. intros ? w' (HG1 & [HC1 _] & Hr & _). done.
Qed.

(** Connections may be closed and dropped again after they were removed. *)
Lemma close_any w id : Good w -> Conns true w -> wp (close e id) (fun _ w' => Step w w') w.
Proof using HL EN Hst Hrange.
  intros HG' HC. destruct (w_conns w !! id) as [c|] eqn:Hid.
  - eapply wp_mono; [by apply (close_step w id c)|]. by intros ? w' [? _].
  - unfold close. apply wp_bind, wp_gets. rewrite Hid. by apply wp_ret, Step_refl.
Qed.

Lemma drop_any w id : Good w -> Conns true w -> wp (dropConnection e id) (fun _ w' => Step w w') w.
Proof using HL EN Hst Hrange.
  intros HG' HC. destruct (w_conns w !! id) as [c|] eqn:Hid; [by apply (drop_step w id c)|].
  unfold dropConnection, close, deletePeerConn. apply wp_bind, wp_bind, wp_gets. rewrite Hid. apply wp_ret, wp_bind, wp_bind, wp_gets.
  rewrite Hid. cbn [from_option negb when]. apply wp_bind, wp_ret, wp_bind, wp_modify. replace (w <| w_conns := _ |>) with w.
  2:{ transitivity (w <| w_conns := w_conns w |>); [by destruct w|]. by rewrite delete_id. }
  apply wp_bind, wp_ret, wp_bind, wp_gets. rewrite (proj2 (andb_false_iff _ _)).
  2:{ destruct (Nat.eqb_spec (size (w_conns w)) 0) as [E|]; [right|by left].
      rewrite (Reqs_none e w (pr_reqs e n true w HC)) by (by apply map_size_empty_inv). by rewrite map_size_empty. }
  apply wp_bind, wp_gets, wp_bind, wp_gets. rewrite (proj2 (andb_false_iff _ _)).
  - by apply wp_ret, wp_ret, Step_refl.
  - destruct (Nat.eqb_spec (size (w_conns w) + size (w_webSeeds w)) 0) as [E|]; [right|by left].
    apply negb_false_iff, bool_decide_eq_true. pose proof (pr_all e n true w HC) as Hsub.
    rewrite (map_size_empty_inv (w_conns w)) in Hsub by lia. rewrite dom_empty_L in Hsub. set_solver.
Qed.

Lemma drop_duplicates_step c ids w :
  Good w -> Conns true w -> NoDup ids -> (forall id, id ∈ ids -> is_Some (w_conns w !! id)) ->
  wp (drop_duplicates e c ids) (fun _ w' => Step w w' /\ w_webSeeds w' = w_webSeeds w /\ (size (w_conns w') <= size (w_conns w))%nat /\
    (forall id, w_conns w !! id = None -> w_conns w' !! id = None)) w.
Proof using HL EN Hst Hrange.
  revert w. induction ids as [|id ids IH]; intros w HG' HC Hn Hin; simpl.
  { apply wp_ret. split; [by apply Step_refl|done]. }
  apply NoDup_cons in Hn as [Hnot Hn]. destruct (Hin id) as [c0 Hid]; [by left|].
  assert (forall id, id ∈ ids -> is_Some (w_conns w !! id)) as Hin' by (intros; apply Hin; by right).
  apply wp_bind. unfold wp at 1. rewrite (conn_run w id c0 Hid). apply wp_if; intros _; [by apply IH|].
  apply wp_if; intros _; [|apply wp_ret; split; [by apply Step_refl|done]].
  pose proof (close_delete_step w id c0 HG' HC Hid) as Hcd. apply wp_bind. unfold wp, mbind, go_bind in Hcd. unfold wp at 1.
  destruct (close e id w) as [[] w0| |]; [|done..]. apply wp_bind. unfold wp at 1.
  destruct (deletePeerConn e id w0) as [ok w1| |]; [|done..]. destruct Hcd as (-> & Hs1 & Es1 & E1). pose proof Hs1 as (HG1 & HC1 & _).
  assert (size (w_conns w1) <= size (w_conns w))%nat as Hsz by (rewrite (like_size _ _ E1), map_size_delete_Some by eauto; lia).
  eapply wp_mono; [apply (IH w1 HG1 HC1 Hn)|].
  - intros j Hj. destruct (Hin' j Hj) as [cj Hcj]. destruct (like_conn _ _ j cj E1) as (cj' & ? & _); [|eauto].
    by rewrite lookup_delete_ne by set_solver.
  - cbn beta. intros ? w2 (Hs2 & Es2 & Hsz2 & Hnone). split; [by eapply Step_trans|]. split; [by rewrite Es2|]. split; [lia|].
    intros j Hj. apply Hnone. apply (like_None _ _ j E1). by apply lookup_delete_None; right.
Qed.

(** A connection that nothing is known of yet. *)
Definition new_conn (c : PeerConn) : Prop :=
  rb_elems (pc_peerPieces c) = ∅ /\ pc_peerSentHaveAll c = false /\ pc_closed c = false /\
  pc_Requests c = ob_zero /\ rb_elems (pc_Cancelled c) = ∅ /\ pc_validReceiveChunks c = ∅.

Lemma new_conn_reqs c : new_conn c -> conn_reqs e c /\ reqs c = [].
Proof.
  intros (_ & _ & _ & E1 & E2 & E3). pose proof zero_holds as Hz. pose proof (h_values _ _ Hz) as Ev. unfold reqs. rewrite E1, Ev.
  split; [|done]. split; unfold reqs; rewrite ?E1, ?E2, ?E3, ?Ev; [done|..].
  - intros r ?%elem_of_nil. done.
  - intros r _. apply not_elem_of_nil.
  - intros r. rewrite !bool_decide_false by (first [apply not_elem_of_nil|set_solver]). rewrite lookup_empty. cbn. lia.
  - rewrite size_empty. done.
Qed.

Lemma insert_step w id c :
  Good w -> Conns true w -> w_conns w !! id = None -> new_conn c ->
  Z.of_nat (S (size (w_conns w)) + size (w_webSeeds w)) < 2 ^ 31 -> Step w (w <| w_conns := <[id := c]> (w_conns w) |>).
Proof using HL EN Hst Hrange.
  intros HG' HC Hid Hnew Hfew. pose proof Hnew as (Ee & Eh & Ec & _). set (w' := w <| w_conns := _ |>). split; [|split].
  - exact (sy_peers _ _ _ _ HG w (<[id := c]> (w_conns w)) (w_webSeeds w) (w_connsWithAllPieces w) (w_requestState w) (w_requestPieceStates w) (w_requestPieceStatesGen w) HG').
  - destruct HC. assert (id ∉ w_connsWithAllPieces w) as Hnot.
    { intros Hin%pr_all. by apply elem_of_dom in Hin as [? ?]; congruence. }
    split; try done; change (w_conns w') with (<[id := c]> (w_conns w)).
    + intros j cj. destruct (decide (j = id)) as [->|]; [rewrite lookup_insert_eq; intros [= <-]|rewrite lookup_insert_ne by done; apply pr_conns].
      split; [|done|rewrite Ee; set_solver]. split; [done|]. by intros [? _]; congruence.
    + rewrite dom_insert. change (w_connsWithAllPieces w') with (w_connsWithAllPieces w). set_solver.
    + intros j cj. destruct (decide (j = id)) as [->|]; [rewrite lookup_insert_eq; intros [= <-]|rewrite lookup_insert_ne by done; apply pr_fits].
      intros _ x. rewrite Ee. set_solver.
    + rewrite map_size_insert_None by done. exact Hfew.
    + intros i Hi. change (rel w i = having (<[id := c]> (w_conns w)) (w_webSeeds w) i). unfold rel. rewrite pr_rel by done.
      unfold having. rewrite number_insert, delete_id, (conn_has_empty i c Ee) by done. done.
    + destruct (new_conn_reqs c Hnew). by apply (Reqs_added e w w' id c).
  - exact (redone_peers n w (<[id := c]> (w_conns w)) (w_webSeeds w) (w_connsWithAllPieces w) (w_requestState w) (w_requestPieceStates w) (w_requestPieceStatesGen w)).
Qed.

Lemma addPeerConn_wp w worst id c :
  Good w -> Conns true w -> w_conns w !! id = None -> new_conn c ->
  Z.of_nat (S (size (w_conns w)) + size (w_webSeeds w)) < 2 ^ 31 ->
  Z.of_nat (size (w_conns w)) <= e_maxEstablishedConns e ->
  (forall w' v, worst w' = Some v -> is_Some (w_conns w' !! v)) ->
  wp (addPeerConn e worst id c) (fun _ w' => Step w w') w.
Proof using HL EN Hst Hrange.
  intros HG' HC Hid Hnew Hfew Hmax Hworst. pose proof HG' as (m & HM & _). unfold addPeerConn, connIds.
  apply wp_bind, wp_gets. rewrite (mid_open _ _ _ _ _ _ HM). apply wp_bind, wp_gets, wp_bind.
  eapply wp_mono; [apply (drop_duplicates_step c _ w HG' HC)|].
  { rewrite Hrange. apply NoDup_elements. }
  { intros j. rewrite Hrange, elem_of_elements, elem_of_dom. done. }
  cbn beta. intros ok w1 (Hs1 & Es1 & Hsz & Hnone). apply wp_if; intros _; [by apply wp_ret|].
  pose proof Hs1 as (HG1 & HC1 & Hr1). specialize (Hnone id Hid). apply wp_bind, wp_gets, wp_bind.
  eapply (wp_mono _ (fun room w' => Step w w' /\ (room = true -> w_webSeeds w' = w_webSeeds w /\ w_conns w' !! id = None /\
    Z.of_nat (size (w_conns w')) < e_maxEstablishedConns e /\ (size (w_conns w') <= size (w_conns w))%nat))).
  - rewrite Z.geb_leb. destruct (Z.leb_spec (e_maxEstablishedConns e) (Z.of_nat (size (w_conns w1)))); [|by apply wp_ret].
    apply wp_bind, wp_gets. destruct (worst w1) as [v|] eqn:Ev; [|by apply wp_ret]. destruct (Hworst w1 v Ev) as [cv Hv].
    eapply wp_mono; [by apply (close_delete_step w1 v cv)|]. cbn beta. intros room w2 (-> & Hs2 & Es2 & E2).
    split; [by eapply Step_trans|]. intros _. split; [by rewrite Es2|]. rewrite (like_size _ _ E2), map_size_delete_Some by done.
    assert (size (w_conns w1) <> 0)%nat by (intros E%map_size_empty_inv; by rewrite E in Hv).
    split; [apply (like_None _ _ id E2), lookup_delete_None; by right|]. lia.
  - cbn beta. intros room w2 [Hs2 Hroom]. destruct room; cbn [negb]; [|by apply wp_ret].
    destruct (Hroom eq_refl) as (Es2 & Hid2 & Hlt & Hle). apply wp_bind, wp_gets.
    rewrite Z.geb_leb, (proj2 (Z.leb_gt _ _) Hlt). apply wp_bind, wp_modify, wp_ret. pose proof Hs2 as (HG2 & HC2 & _).
    eapply Step_trans; [exact Hs2|]. apply insert_step; try done. rewrite Es2. lia.
Qed.

(** ** Web seeds *)

Lemma webSeed_run w u s : w_webSeeds w !! u = Some s -> webSeed u w = Ret s w.
Proof. intros E. unfold webSeed. go_simpl. by rewrite E. Qed.

Lemma set_webSeed_run w u s f : w_webSeeds w !! u = Some s ->
  set_webSeed u f w = Ret tt (w <| w_webSeeds := <[u := f s]> (w_webSeeds w) |>).
Proof. intros E. unfold set_webSeed. by rewrite (bind_step _ _ _ _ _ (webSeed_run w u s E)). Qed.

(** A web seed is changed, and then the availability of the pieces to [g]. *)
Lemma Step_seed w w2 u s s' g :
  Conns true w -> w_webSeeds w !! u = Some s -> Good w2 ->
  availed n g (w <| w_webSeeds := <[u := s']> (w_webSeeds w) |>) w2 -> (forall x, x ∈ rb_elems (ws_Pieces s') -> 0 <= x < n) ->
  (forall i, 0 <= i < n -> g i = rel w i - Z.b2z (seed_has i s) + Z.b2z (seed_has i s')) -> Step w w2.
Proof using HL EN Hst Hrange.
  intros HC Hu HG2 Hav Hs Hg. pose proof Hav as (o & l & E & _). split; [done|split].
  - apply (Conns_seed e n true w w2 u s s'); [done|done|by rewrite E..|by rewrite total|].
    intros i Hi. rewrite (availed_rel n g _ w2 i Hav Hi). by apply Hg.
  - eapply redone_trans; [|eapply redone_availed, Hav].
    exact (redone_peers n w (w_conns w) (<[u := s']> (w_webSeeds w)) (w_connsWithAllPieces w) (w_requestState w) (w_requestPieceStates w) (w_requestPieceStatesGen w)).
Qed.

Lemma seed_counted w u s i : Conns true w -> w_webSeeds w !! u = Some s -> 0 <= i < n -> seed_has i s = true -> 0 < rel w i.
Proof using HL.
  intros HC Hu Hi Hh. unfold rel. rewrite (pr_rel e n true w HC i Hi). unfold having.
  rewrite (number_delete (seed_has i) _ _ _ Hu), Hh. lia.
Qed.

Lemma removeFilePieces_wp w u s fi :
  Good w -> Conns true w -> w_webSeeds w !! u = Some s -> ws_closed s = false -> 0 <= fi < Z.of_nat (length (t_files L)) ->
  wp (removeFilePieces e u fi) (fun _ w' => Step w w') w.
Proof using HL EN Hst HF Hrange.
  intros HG' HC Hu Ec Hfi. pose proof (lo_range L n HL). destruct (at_lookup (t_files L) fi Hfi) as [f Ef].
  destruct (lf_pieces L n HF fi f Ef) as (pb & pe & Eb & Ee & Hpb & Hpe). unfold removeFilePieces.
  do 3 (apply wp_bind; eapply wp_lift; [done|]).
  eapply wp_mono; [apply (wp_for_each _ _ (fun _ w' => Step w w' /\ exists s', w_webSeeds w' !! u = Some s' /\ ws_closed s' = false))|].
  - split; [by apply Step_refl|by exists s].
  - intros pre i post w1 Hl (Hs1 & s1 & Hu1 & Ec1). pose proof Hs1 as (HG1 & HC1 & _).
    assert (0 <= i < n) as Hi. { assert (i ∈ seqZ pb (pe - pb)) as ?%elem_of_seqZ by (rewrite Hl; set_solver). lia. }
    unfold removeFilePiece. apply wp_bind. unfold wp at 1. rewrite (webSeed_run w1 u s1 Hu1).
    apply wp_bind. unfold wp at 1. rewrite (set_webSeed_run w1 u s1 _ Hu1). set (s2 := s1 <| ws_Pieces := _ |>). set (w2 := w1 <| w_webSeeds := _ |>).
    assert (rb_elems (ws_Pieces s2) = rb_elems (ws_Pieces s1) ∖ {[i]}) as E2.
    { change (ws_Pieces s2) with (rb_CheckedRemove (wrapU 32 i) (ws_Pieces s1)).1. by rewrite rb_CheckedRemove_elems, wrapU_small by lia. }
    assert (Good w2) as HG2 by exact (sy_peers _ _ _ _ HG w1 (w_conns w1) (<[u := s2]> (w_webSeeds w1)) (w_connsWithAllPieces w1) (w_requestState w1) (w_requestPieceStates w1) (w_requestPieceStatesGen w1) HG1).
    assert (forall x, x ∈ rb_elems (ws_Pieces s2) -> 0 <= x < n) as H2.
    { intros x. rewrite E2. intros [Hx _]%elem_of_difference. rewrite <-total. by apply (pr_seeds e n true w1 HC1 u s1). }
    rewrite rb_CheckedRemove_ok, wrapU_small by lia. unfold when. case_bool_decide as Hin.
    + assert (seed_has i s1 = true) as Hsh by (unfold seed_has; by rewrite Ec1, bool_decide_true).
      eapply wp_mono; [apply (dec_wp e n [] _ HG w2 i HG2 Hi); exact (seed_counted w1 u s1 i HC1 Hu1 Hi Hsh)|].
      cbn beta. intros ? w3 [HG3 Hav]. pose proof Hav as (o & l & E3 & _). split; [|exists s2; split; [rewrite E3; apply lookup_insert_eq|done]].
      eapply Step_trans; [exact Hs1|]. eapply (Step_seed w1 w3 u s1 s2 _ HC1 Hu1 HG3 Hav H2).
      intros j Hj. unfold at_piece, seed_has. rewrite E2. change (ws_closed s2) with (ws_closed s1).
      rewrite Ec1. cbn [negb andb]. change (rel w2) with (rel w1). destruct (decide (j = i)) as [->|Hne].
      { rewrite bool_decide_true, bool_decide_false by set_solver. cbn. lia. }
      { rewrite (bool_decide_ext (j ∈ rb_elems (ws_Pieces s1) ∖ {[i]}) (j ∈ rb_elems (ws_Pieces s1))) by set_solver. lia. }
    + apply wp_ret. split; [|exists s2; split; [apply lookup_insert_eq|done]]. eapply Step_trans; [exact Hs1|].
      apply (Step_seed w1 w2 u s1 s2 (rel w1)); try done; [pose proof (availed_refl n w2) as Hav; exact Hav|].
      intros j Hj. unfold seed_has. rewrite E2. change (ws_closed s2) with (ws_closed s1).
      rewrite (bool_decide_ext (j ∈ rb_elems (ws_Pieces s1) ∖ {[i]}) (j ∈ rb_elems (ws_Pieces s1))) by set_solver. lia.
  - by cbn beta; intros ? w' [Hs' _].
Qed.

Lemma seed_has_empty i s : rb_elems (ws_Pieces s) = ∅ -> seed_has i s = false.
Proof. intros E. unfold seed_has. rewrite E, bool_decide_false by set_solver. apply andb_false_r. Qed.

Lemma seed_uncounted w u s i : Conns true w -> w_webSeeds w !! u = Some s -> 0 <= i < n -> seed_has i s = false ->
  - 2 ^ 31 <= rel w i + 1 < 2 ^ 31.
Proof using HL.
  intros HC Hu Hi Hh. unfold rel. rewrite (pr_rel e n true w HC i Hi). unfold having.
  rewrite (number_delete (seed_has i) _ _ _ Hu), Hh. pose proof (number_le (conn_has i) (w_conns w)) as H1.
  pose proof (number_le (seed_has i) (delete u (w_webSeeds w))) as H2. pose proof (pr_few e n true w HC) as H3.
  rewrite map_size_delete_Some in H2 by done.
  assert (size (w_webSeeds w) <> 0)%nat by (intros E%map_size_empty_inv; by rewrite E in Hu). lia.
Qed.

(** A web seed without pieces yet learns of the info. *)
Lemma webseed_info_wp w u s :
  Good w -> Conns true w -> w_webSeeds w !! u = Some s -> ws_closed s = false -> rb_elems (ws_Pieces s) = ∅ ->
  wp (webseed_onGotInfo e u) (fun _ w' => Step w w' /\ exists s', w_webSeeds w' = <[u := s']> (w_webSeeds w)) w.
Proof using HL EN Hst Hrange.
  intros HG' HC Hu Ec Ee. pose proof (lo_range L n HL). unfold webseed_onGotInfo. apply wp_bind. eapply wp_lift; [exact EN|].
  apply wp_bind. unfold wp at 1. rewrite (webSeed_run w u s Hu).
  set (s' := if ws_usable s then s <| ws_Pieces := rb_AddRange 0 (wrapU 64 n) (ws_Pieces s) |> else s).
  set (w1 := w <| w_webSeeds := <[u := s']> (w_webSeeds w) |>).
  assert (when (ws_usable s) (set_webSeed u (fun s => s <| ws_Pieces := rb_AddRange 0 (wrapU 64 n) (ws_Pieces s) |>)) w = Ret tt w1) as Eset.
  { unfold when, w1, s'. destruct (ws_usable s); [by rewrite (set_webSeed_run w u s _ Hu)|].
    rewrite insert_id by done. unfold mret, go_ret. by destruct w. }
  apply wp_bind. unfold wp at 1. rewrite Eset. apply wp_bind. unfold wp at 1.
  rewrite (webSeed_run w1 u s') by apply lookup_insert_eq.
  assert (ws_closed s' = false) as Ec' by (unfold s'; by destruct (ws_usable s)).
  assert (forall x, x ∈ rb_elems (ws_Pieces s') -> 0 <= x < n) as Hr.
  { intros x. unfold s'. destruct (ws_usable s); [|rewrite Ee; set_solver].
    change (x ∈ rb_elems (rb_AddRange 0 (wrapU 64 n) (ws_Pieces s)) -> 0 <= x < n).
    rewrite rb_AddRange_elems, Ee, wrapU_small, elem_of_union, elem_of_range by lia. set_solver. }
  assert (Good w1) as HG1 by exact (sy_peers _ _ _ _ HG w (w_conns w) (<[u := s']> (w_webSeeds w)) (w_connsWithAllPieces w) (w_requestState w) (w_requestPieceStates w) (w_requestPieceStatesGen w) HG').
  assert (forall i, seed_has i s = false) as Hno.
  { intros i. by apply seed_has_empty. }
  eapply wp_mono; [apply (avail_loop e n [] _ HG (incPieceAvailability e) (fun i => rel w i + 1))|].
  - apply iterator_NoDup.
  - intros x Hx%rb_iterator_elems. auto.
  - done.
  - intros x g w' Hx%rb_iterator_elems HG2 Hav Er. change (rel w1 x) with (rel w x) in Er. rewrite <-Er.
    apply (inc_wp e n [] _ HG); [done|auto|]. rewrite Er. apply (seed_uncounted w u s); auto.
  - cbn beta. intros ? w2 [HG2 Hav]. split.
    + eapply (Step_seed w w2 u s s' _ HC Hu HG2 Hav Hr). cbn beta. intros i Hi. change (rel w1 i) with (rel w i).
      rewrite (Hno i). unfold seed_has. rewrite Ec'. cbn [negb andb].
      destruct (decide (i ∈ rb_iterator (ws_Pieces s'))) as [Hin|Hin]; rewrite rb_iterator_elems in Hin;
        [rewrite bool_decide_true by done|rewrite bool_decide_false by done]; cbn; lia.
    + exists s'. by destruct Hav as (o & l & -> & _).
Qed.

Lemma addWebSeed_wp w u usable :
  Good w -> Conns true w -> Z.of_nat (size (w_conns w) + S (size (w_webSeeds w))) < 2 ^ 31 ->
  wp (addWebSeed e u usable) (fun _ w' => Step w w') w.
Proof using HL EN Hst Hrange.
  intros HG' HC Hfew. unfold addWebSeed. apply wp_bind, wp_gets. apply wp_if; intros _; [by apply wp_ret, Step_refl|].
  destruct (w_webSeeds w !! u) as [s|] eqn:Eu; [by apply wp_ret, Step_refl|]. apply wp_bind, wp_modify.
  set (s := Build_webseedPeer _ _ _). set (w1 := w <| w_webSeeds := _ |>).
  assert (Step w w1) as Hs1.
  { split; [exact (sy_peers _ _ _ _ HG w (w_conns w) (<[u := s]> (w_webSeeds w)) (w_connsWithAllPieces w) (w_requestState w) (w_requestPieceStates w) (w_requestPieceStatesGen w) HG')|].
    split; [|exact (redone_peers n w (w_conns w) (<[u := s]> (w_webSeeds w)) (w_connsWithAllPieces w) (w_requestState w) (w_requestPieceStates w) (w_requestPieceStatesGen w))].
    destruct HC. split; try done; change (w_webSeeds w1) with (<[u := s]> (w_webSeeds w)).
    - intros v sv x. destruct (decide (v = u)) as [->|]; [rewrite lookup_insert_eq; intros [= <-]; cbn; rewrite rb_New_elems; set_solver|].
      rewrite lookup_insert_ne by done. apply pr_seeds.
    - rewrite map_size_insert_None by done. exact Hfew.
    - intros i Hi. change (rel w i = having (w_conns w) (<[u := s]> (w_webSeeds w)) i). unfold rel. rewrite pr_rel by done.
      unfold having. rewrite (number_insert (seed_has i)), delete_id by done.
      rewrite (seed_has_empty i s) by apply rb_New_elems. done.
    - by apply (Reqs_frame e w). }
  pose proof Hs1 as (HG1 & HC1 & _). apply wp_bind, wp_gets. rewrite (Good_info w1 HG1). cbn [when]. apply wp_bind.
  eapply wp_mono; [apply (webseed_info_wp w1 u s HG1 HC1); [apply lookup_insert_eq|done|apply rb_New_elems]|].
  cbn beta. intros ? w2 [Hs2 _]. apply wp_ret. exact (Step_trans w w1 w2 Hs1 Hs2).
Qed.

(** ** The peers learn of the info *)

(** A connection forgets pieces the torrent does not have. *)
Lemma trim_wp w id c :
  Good w -> Peers e n false w -> w_conns w !! id = Some c ->
  wp (onGotInfo e id) (fun _ w' => Good w' /\ Peers e n false w' /\ redone w w' /\
    (forall j cj, w_conns w' !! j = Some cj -> j <> id -> exists cj0, w_conns w !! j = Some cj0 /\ kept cj0 cj) /\
    (forall c' x, w_conns w' !! id = Some c' -> x ∈ rb_elems (pc_peerPieces c') -> x < n)) w.
Proof using HL EN Hst Hrange.
  intros HG' [HC HO] Hid. pose proof (lo_range L n HL). unfold onGotInfo, setNumPieces. apply wp_bind. eapply wp_lift; [exact EN|].
  apply wp_bind. unfold wp at 1. rewrite (set_conn_run w id c _ Hid). set (c' := c <| pc_peerPieces := _ |>). set (w1 := w <| w_conns := _ |>).
  destruct (pr_conns e n false w HC id c Hid) as [K1 K2 K3].
  assert (forall x, x ∈ rb_elems (pc_peerPieces c') <-> x ∈ rb_elems (pc_peerPieces c) /\ x < n) as Hx.
  { intros x. change (pc_peerPieces c') with (rb_RemoveRange (wrapU 64 n) (2 ^ 32) (pc_peerPieces c)).
    rewrite rb_RemoveRange_elems, wrapU_small, elem_of_difference, elem_of_range by lia. split.
    - intros [H1 H2]. split; [done|]. specialize (K3 x H1). lia.
    - intros [H1 H2]. split; [done|]. lia. }
  assert (Good w1) as HG1 by exact (sy_peers _ _ _ _ HG w (<[id := c']> (w_conns w)) (w_webSeeds w) (w_connsWithAllPieces w) (w_requestState w) (w_requestPieceStates w) (w_requestPieceStatesGen w) HG').
  assert (Peers e n false w1) as HP1.
  { split.
    - apply (Conns_conn e n false w w1 id c c'); try done.
      + split; [done| |intros x [? _]%Hx; auto]. intros E%K2. apply set_eq. intros x. rewrite Hx, E. set_solver.
      + intros _ x [_ Hlt]%Hx _. by rewrite total.
      + intros i Hi. change (rel w1 i) with (rel w i). unfold conn_has. change (pc_closed c') with (pc_closed c).
        rewrite (bool_decide_ext (i ∈ rb_elems (pc_peerPieces c')) (i ∈ rb_elems (pc_peerPieces c))) by (rewrite Hx; naive_solver lia). lia.
    - intros Hf. destruct (HO Hf) as [H1 H2]. split; [|exact H2]. intros j cj.
      change (w_conns w1) with (<[id := c']> (w_conns w)). destruct (decide (j = id)) as [->|].
      + rewrite lookup_insert_eq. intros [= <-]. by apply (H1 id c).
      + rewrite lookup_insert_ne by done. apply H1. }
  eapply wp_mono; [apply (maybeDrop_wp e st Hst n [] HL Hrange false w1 id HG1 HP1); exists c'; apply lookup_insert_eq|].
  cbn beta. intros ? w' (HG2 & HP2 & Hr & _ & Ec). split; [done|]. split; [done|].
  split; [eapply redone_trans; [|exact Hr]; exact (redone_peers n w (<[id := c']> (w_conns w)) (w_webSeeds w) (w_connsWithAllPieces w) (w_requestState w) (w_requestPieceStates w) (w_requestPieceStatesGen w))|].
  change (w_conns w1) with (<[id := c']> (w_conns w)) in Ec. rewrite delete_insert_eq in Ec. split.
  - intros j cj Hj Hne. destruct Ec as [Ec|Ec].
    + rewrite Ec, lookup_insert_ne in Hj by done. exists cj. split; [done|apply kept_refl].
    + destruct (like_back _ _ j cj Ec Hj) as (cj0 & Hj0 & Hk). rewrite lookup_delete_ne in Hj0 by done. eauto.
  - intros cj x Hj. destruct Ec as [Ec|Ec]; [|by rewrite (like_None _ _ id Ec (lookup_delete_eq _ _)) in Hj].
    rewrite Ec, lookup_insert_eq in Hj. injection Hj as <-. intros [_ ?]%Hx. done.
Qed.

Lemma trim_tell_wp w id c :
  Good w -> Peers e n false w -> w_conns w !! id = Some c ->
  wp (onGotInfo e id;;
      conn ← gets (fun w => w_conns w !! id);
      match conn with Some _ => onNeedUpdateRequests id "onSetInfo" | None => mret tt end)
    (fun _ w' => Good w' /\ Peers e n false w' /\ redone w w' /\
    (forall j cj, w_conns w' !! j = Some cj -> j <> id -> exists cj0, w_conns w !! j = Some cj0 /\ kept cj0 cj) /\
    (forall c' x, w_conns w' !! id = Some c' -> x ∈ rb_elems (pc_peerPieces c') -> x < n)) w.
Proof using HL EN Hst Hrange.
  intros HG' HP Hid. apply wp_bind. eapply wp_mono; [by apply (trim_wp w id c)|]. cbn beta.
  intros ? w1 (HG1 & HP1 & Hr1 & Hsame & Htrim). apply wp_bind, wp_gets.
  destruct (w_conns w1 !! id) as [c1|] eqn:Hid1; [|apply wp_ret; rewrite Hid1; done].
  eapply wp_mono; [apply (onNeed_wp e w1 id c1 _ (pr_reqs e n false w1 (proj1 HP1)) Hid1)|]. cbn beta. intros ? w2 Hs.
  apply stays_asked in Hs as (Ha & HR & _). split; [apply (steady_talked e n [] _ HG w1); [apply Ha|done]|].
  split; [by apply (Peers_asked e n false w1)|]. split; [eapply redone_trans; [exact Hr1|apply redone_talked, Ha]|]. split.
  - intros j cj Hj Hne. destruct (talked_back w1 w2 j cj (proj1 Ha) Hj) as (cj1 & Hj1 & Hk1).
    destruct (Hsame j cj1 Hj1 Hne) as (cj0 & Hj0 & Hk0). exists cj0. split; [done|]. by eapply kept_trans.
  - intros c' x Hc' Hx. destruct (talked_back w1 w2 id c' (proj1 Ha) Hc') as (c0 & Hc0 & E & _). rewrite E in Hx.
    rewrite Hid1 in Hc0. injection Hc0 as <-. by eapply Htrim.
Qed.

Lemma trim_all_wp w ids :
  Good w -> Peers e n false w -> (forall id, is_Some (w_conns w !! id) -> id ∈ ids) ->
  wp (for_each (fun id => conn ← gets (fun w => w_conns w !! id);
                 match conn with
                 | Some _ =>
                     onGotInfo e id;;
                     conn ← gets (fun w => w_conns w !! id);
                     match conn with Some _ => onNeedUpdateRequests id "onSetInfo" | None => mret tt end
                 | None => mret tt
                 end) ids)
    (fun _ w' => Step w w' /\ Opened false w') w.
Proof using HL EN Hst Hrange.
  intros HG' HP Hids. eapply wp_mono; [apply (wp_for_each _ ids (fun pre w' => Good w' /\ Peers e n false w' /\ redone w w' /\
    (forall j cj, w_conns w' !! j = Some cj -> j ∈ ids) /\
    (forall j cj x, j ∈ pre -> w_conns w' !! j = Some cj -> x ∈ rb_elems (pc_peerPieces cj) -> x < n)))|].
  - split; [done|]. split; [done|]. split; [apply redone_refl|]. split; [eauto|]. intros j cj x ?%elem_of_nil. done.
  - intros pre id post w1 _ (HG1 & HP1 & Hr1 & Hin1 & Hpre1). apply wp_bind, wp_gets.
    destruct (w_conns w1 !! id) as [c|] eqn:Ec.
    + eapply wp_mono; [by apply (trim_tell_wp w1 id c)|]. cbn beta. intros ? w2 (HG2 & HP2 & Hr2 & Hsame & Htrim).
      split; [done|]. split; [done|]. split; [by eapply redone_trans|]. split.
      * intros j cj Hj. destruct (decide (j = id)) as [->|Hne]; [by eapply Hin1|]. destruct (Hsame j cj Hj Hne) as (cj0 & Hj0 & _). by eapply Hin1.
      * intros j cj x Hj Hcj Hx. destruct (decide (j = id)) as [->|Hne]; [by eapply Htrim|].
        apply elem_of_app in Hj as [Hj|?%list_elem_of_singleton]; [|done]. destruct (Hsame j cj Hcj Hne) as (cj0 & Hj0 & E & _).
        eapply (Hpre1 j cj0); [done|done|by rewrite <-E].
    + apply wp_ret. split; [done|]. split; [done|]. split; [done|]. split; [done|].
      intros j cj x [Hj|Hj%list_elem_of_singleton]%elem_of_app Hcj; [by eapply (Hpre1 j)|congruence].
  - cbn beta. intros ? w1 (HG1 & [HC1 HO1] & Hr1 & Hin1 & Htrim). split; [|done]. split; [done|]. split; [|done].
    destruct HC1. split; try done. intros id c Hid Hop x Hx _. rewrite total. by eapply Htrim; [eapply Hin1|..].
Qed.

Lemma seeds_info_wp w us :
  Good w -> Conns true w -> NoDup us ->
  (forall u, u ∈ us -> exists s, w_webSeeds w !! u = Some s /\ ws_closed s = false /\ rb_elems (ws_Pieces s) = ∅) ->
  wp (for_each (webseed_onGotInfo e) us) (fun _ w' => Step w w') w.
Proof using HL EN Hst Hrange.
  intros HG' HC Hn Hus. eapply wp_mono; [apply (wp_for_each _ us (fun pre w' => Step w w' /\
    forall u, u ∈ us -> u ∉ pre -> w_webSeeds w' !! u = w_webSeeds w !! u))|].
  - split; [by apply Step_refl|done].
  - intros pre u post w1 -> [Hs1 Hsame]. pose proof Hs1 as (HG1 & HC1 & _). apply NoDup_app in Hn as (_ & Hd & Hn).
    assert (u ∉ pre) as Hu by (intros Hu; apply (Hd u Hu); by left). destruct (Hus u) as (s & Es & Ec & Ee); [set_solver|].
    eapply wp_mono; [apply (webseed_info_wp w1 u s HG1 HC1); [rewrite Hsame by set_solver|..]; done|].
    cbn beta. intros ? w2 (Hs2 & s' & E2). split; [exact (Step_trans w w1 w2 Hs1 Hs2)|].
    intros v Hv Hnot. rewrite E2, lookup_insert_ne by set_solver. apply Hsame; set_solver.
  - by cbn beta; intros ? w' [? _].
Qed.

(** ** Availability *)

(** A connection whose peer has a piece, told of or not *)
Definition offers (i : Z) (c : PeerConn) : bool :=
  negb (pc_closed c) && (pc_peerSentHaveAll c || bool_decide (i ∈ rb_elems (pc_peerPieces c))).

Lemma all_number tr w : Conns tr w ->
  size (w_connsWithAllPieces w) = number (fun c => negb (pc_closed c) && pc_peerSentHaveAll c) (w_conns w).
Proof using Type.
  intros HC. unfold number. rewrite <-(size_dom (D := gset nat)). f_equal. apply set_eq. intros id.
  rewrite elem_of_dom. split.
  - intros Ha. pose proof (pr_all e n tr w HC id Ha) as [c Hid]%elem_of_dom. exists c. apply map_lookup_filter_Some. split; [done|].
    pose proof (proj1 (co_all _ _ _ (pr_conns e n tr w HC id c Hid)) Ha) as [H1 H2]. cbn. by rewrite H1, H2.
  - intros [c [Hid Hc]%map_lookup_filter_Some]. cbn in Hc. apply (co_all _ _ _ (pr_conns e n tr w HC id c Hid)).
    destruct (pc_closed c), (pc_peerSentHaveAll c); done.
Qed.

Lemma availability_wp w i : Inv w -> 0 <= i < n ->
  availability i w = Ret (Z.of_nat (number (offers i) (w_conns w) + number (seed_has i) (w_webSeeds w))) w.
Proof using Type.
  clear Hst HL HG HF EN Hrange.
  intros HI Hi. destruct (inv_peers _ _ _ _ _ _ HI) as [HC _]. destruct (inv_good _ _ _ _ _ _ HI) as (m & HM & _).
  unfold availability. rewrite (bind_step _ _ _ _ _ (proj2 (state_run e n [] w i (mid_wf _ _ _ _ _ _ HM) Hi))).
  unfold gets. rewrite (all_number true w HC), (pr_rel e n true w HC i Hi). unfold having.
  rewrite (number_sum (fun c => negb (pc_closed c) && pc_peerSentHaveAll c) (conn_has i) (offers i)); [do 2 f_equal; lia|].
  intros id c Hid. pose proof (co_empty _ _ _ (pr_conns e n true w HC id c Hid)) as Ee. unfold conn_has, offers.
  destruct (pc_closed c), (pc_peerSentHaveAll c); try done. rewrite (Ee eq_refl). by rewrite bool_decide_false by set_solver.
Qed.

(** ** Closing the torrent *)

Notation Core := (Core e st n []).
Notation K := (clientPieceRequestOrderKey e st).

Lemma close_conns_wp w ids :
  Core w -> Conns true w -> NoDup ids -> (forall id, id ∈ ids <-> is_Some (w_conns w !! id)) ->
  wp (for_each (close e) ids) (fun _ w' => Core w' /\ Conns true w' /\ w_webSeeds w' = w_webSeeds w /\
    forall id c, w_conns w' !! id = Some c -> pc_closed c = true) w.
Proof using HL EN Hst Hrange.
  intros Hc HC Hn Hids. eapply wp_mono; [apply (wp_for_each _ ids (fun pre w' => Core w' /\ Conns true w' /\ w_webSeeds w' = w_webSeeds w /\
    (forall id, is_Some (w_conns w' !! id) <-> id ∈ ids) /\ forall id c, id ∈ pre -> w_conns w' !! id = Some c -> pc_closed c = true))|].
  - split; [done|]. split; [done|]. split; [done|]. split; [by intros id; rewrite Hids|]. intros id c ?%elem_of_nil. done.
  - intros pre id post w1 -> (Hc1 & HC1 & Es1 & Hids1 & Hcl). destruct (proj2 (Hids1 id)) as [c Hid]; [set_solver|].
    eapply wp_mono; [apply (close_wp e n [] _ (steady_Core e st Hst n [] HL) true w1 id c Hc1 HC1 Hid)|].
    + intros Eo x Hx. by apply (conn_range w1 id c).
    + cbn beta. intros ? w2 (Hc2 & HC2 & _ & Es2 & E2 & _). split; [done|]. split; [done|]. split; [by rewrite Es2|]. rewrite E2. split.
      * intros j. rewrite <-Hids1. destruct (decide (j = id)) as [->|]; [rewrite lookup_insert_eq, Hid; split; eauto|].
        by rewrite lookup_insert_ne.
      * intros j cj Hj. destruct (decide (j = id)) as [->|Hne]; [rewrite lookup_insert_eq; by intros [= <-]|].
        rewrite lookup_insert_ne by done. apply elem_of_app in Hj as [Hj|?%list_elem_of_singleton]; [|done]. by apply Hcl.
  - cbn beta. intros ? w1 (Hc1 & HC1 & Es1 & Hids1 & Hcl). split; [done|]. split; [done|]. split; [done|].
    intros id c Hid. eapply Hcl; [|done]. apply Hids1. eauto.
Qed.

Lemma webseed_close_wp w u s :
  Core w -> Conns true w -> w_webSeeds w !! u = Some s ->
  wp (webseed_close e u) (fun _ w' => Core w' /\ Conns true w' /\ w_conns w' = w_conns w /\
    w_webSeeds w' = <[u := s <| ws_closed := true |>]> (w_webSeeds w)) w.
Proof using HL EN Hst Hrange.
  intros Hc HC Hu. pose proof (steady_Core e st Hst n [] HL) as HS. unfold webseed_close. apply wp_bind. unfold wp at 1. rewrite (webSeed_run w u s Hu).
  destruct (ws_closed s) eqn:Ec; cbn [negb when].
  { apply wp_ret. split; [done|]. split; [done|]. split; [done|]. rewrite insert_id; [done|]. rewrite Hu. f_equal.
    by destruct s; cbn in Ec; subst. }
  apply wp_bind. unfold wp at 1. rewrite (set_webSeed_run w u s _ Hu). set (s' := s <| ws_closed := true |>). set (w1 := w <| w_webSeeds := _ |>).
  assert (Core w1) as Hc1 by exact (sy_peers _ _ _ _ HS w (w_conns w) (<[u := s']> (w_webSeeds w)) (w_connsWithAllPieces w) (w_requestState w) (w_requestPieceStates w) (w_requestPieceStatesGen w) Hc).
  apply wp_bind, wp_gets. rewrite (sy_info _ _ _ _ HS w1 Hc1). cbn [when].
  assert (forall x, x ∈ rb_iterator (ws_Pieces s) -> 0 <= x < n) as Hr.
  { intros x Hx%rb_iterator_elems. rewrite <-total. by apply (pr_seeds e n true w HC u s). }
  eapply wp_mono; [apply (dec_loop e n [] _ HS (rb_iterator (ws_Pieces s)) w1); [apply iterator_NoDup|done|done|]|].
  - intros x Hx. change (0 < rel w x). apply (seed_counted w u s); auto. unfold seed_has. apply rb_iterator_elems in Hx. by rewrite Ec, bool_decide_true.
  - cbn beta. intros ? w2 [Hc2 Hav]. pose proof Hav as (o & l & E2 & _). split; [done|]. split; [|by rewrite E2].
    apply (Conns_seed e n true w w2 u s s'); [done|done|by rewrite E2..| |].
    + intros x. apply (pr_seeds e n true w HC u s x Hu).
    + intros i Hi. rewrite (availed_rel n _ w1 w2 i Hav Hi). cbn beta. change (rel w1 i) with (rel w i). unfold seed_has.
      rewrite Ec. cbn [negb andb]. change (ws_closed s') with true. cbn [negb andb].
      destruct (decide (i ∈ rb_iterator (ws_Pieces s))) as [Hin|Hin]; rewrite rb_iterator_elems in Hin;
        [rewrite bool_decide_true by done|rewrite bool_decide_false by done]; cbn; lia.
Qed.

Lemma close_seeds_wp w us :
  Core w -> Conns true w -> NoDup us -> (forall u, u ∈ us <-> is_Some (w_webSeeds w !! u)) ->
  wp (for_each (webseed_close e) us) (fun _ w' => Core w' /\ Conns true w' /\ w_conns w' = w_conns w /\
    forall u s, w_webSeeds w' !! u = Some s -> ws_closed s = true) w.
Proof using HL EN Hst Hrange.
  intros Hc HC Hn Hus. eapply wp_mono; [apply (wp_for_each _ us (fun pre w' => Core w' /\ Conns true w' /\ w_conns w' = w_conns w /\
    (forall u, is_Some (w_webSeeds w' !! u) <-> u ∈ us) /\ forall u s, u ∈ pre -> w_webSeeds w' !! u = Some s -> ws_closed s = true))|].
  - split; [done|]. split; [done|]. split; [done|]. split; [by intros u; rewrite Hus|]. intros u s ?%elem_of_nil. done.
  - intros pre u post w1 -> (Hc1 & HC1 & Es1 & Hus1 & Hcl). destruct (proj2 (Hus1 u)) as [s Hu]; [set_solver|].
    eapply wp_mono; [by apply (webseed_close_wp w1 u s)|]. cbn beta. intros ? w2 (Hc2 & HC2 & Es2 & E2).
    split; [done|]. split; [done|]. split; [by rewrite Es2|]. rewrite E2. split.
    + intros j. rewrite <-Hus1. destruct (decide (j = u)) as [->|]; [rewrite lookup_insert_eq, Hu; split; eauto|].
      by rewrite lookup_insert_ne.
    + intros j cj Hj. destruct (decide (j = u)) as [->|Hne]; [rewrite lookup_insert_eq; by intros [= <-]|].
      rewrite lookup_insert_ne by done. apply elem_of_app in Hj as [Hj|?%list_elem_of_singleton]; [|done]. by apply Hcl.
  - cbn beta. intros ? w1 (Hc1 & HC1 & Es1 & Hus1 & Hcl). split; [done|]. split; [done|]. split; [done|].
    intros u s Hu. eapply Hcl; [|done]. apply Hus1. eauto.
Qed.

Lemma deleteOrder_wp w m : Ord e st n w m ->
  wp (deletePieceRequestOrder e) (fun _ w' => exists o, w' = w <| w_orders := o |>) w.
Proof using EN Hst.
  intros [(pro & Ep & Hr) _ _]. unfold deletePieceRequestOrder. rewrite Hst. apply wp_bind. eapply wp_lift; [exact EN|].
  apply wp_bind. eapply wp_mono; [apply (wp_for_each _ _ (fun _ w' => exists o pro m, w' = w <| w_orders := o |> /\ o !! K = Some pro /\
    RequestOrderTheory.refines (HL := ajwerner_btree_laws AJ AJL) pro m))|].
  - exists (w_orders w), pro, m. split; [by destruct w|done].
  - intros pre i post w1 _ (o & pro1 & m1 & -> & Ep1 & Hr1). unfold delete_order_piece. apply wp_bind, wp_gets, wp_bind.
    eapply wp_lift; [exact Ep1|].
    destruct (Delete_refines (HL := ajwerner_btree_laws AJ AJL) (pieceRequestOrderKey e i) pro1 m1 Hr1) as (pro2 & Ed & Hr2).
    apply wp_bind. eapply wp_lift; [exact Ed|]. apply wp_modify. exists (<[K := pro2]> o), pro2, (delete (pieceRequestOrderKey e i) m1). split; [reflexivity|].
    split; [apply lookup_insert_eq|exact Hr2].
  - cbn beta. intros ? w1 (o & pro1 & m1 & -> & Ep1 & _). apply wp_bind, wp_gets, wp_bind. eapply wp_lift; [exact Ep1|].
    unfold when. apply wp_if; intros _; [apply wp_modify|apply wp_ret]; by eexists.
Qed.

(** Nothing is left over when the torrent is closed. *)
Lemma Torrent_close_wp w :
  Inv w ->
  wp (Torrent_close e) (fun _ w' => forall s, s ∈ w_pieces w' -> ps_relativeAvailability s = 0) w.
Proof using HL EN Hst Hrange.
  intros HI. destruct (inv_good _ _ _ _ _ _ HI) as (m & HM & _). destruct (inv_peers _ _ _ _ _ _ HI) as [HC _].
  unfold Torrent_close, connIds, seedIds. apply wp_bind, wp_gets. rewrite (mid_open _ _ _ _ _ _ HM). apply wp_bind, wp_modify.
  set (w1 := w <| w_closed := true |>).
  assert (Core w1) as Hc1.
  { split; [apply (wf_frame e n [] w); [done|done|apply HM]|]. split; [apply HM|]. exists m. apply (Ord_frame e st n w); [done|apply HM]. }
  assert (Conns true w1) as HC1 by (apply (Peers_frame e n true w w1); try done; eauto using inv_peers).
  apply wp_bind, wp_gets, wp_bind. eapply wp_mono; [apply (close_conns_wp w1 _ Hc1 HC1)|].
  { rewrite Hrange. apply NoDup_elements. }
  { intros id. by rewrite Hrange, elem_of_elements, elem_of_dom. }
  cbn beta. intros ? w2 (Hc2 & HC2 & Es2 & Hcl2). apply wp_bind, wp_gets, wp_bind. eapply wp_mono; [apply (close_seeds_wp w2 _ Hc2 HC2)|].
  { rewrite Hrange. apply NoDup_elements. }
  { intros u. by rewrite Hrange, elem_of_elements, elem_of_dom. }
  cbn beta. intros ? w3 (Hc3 & HC3 & Ec3 & Hcl3). pose proof Hc3 as (Hw3 & _ & m3 & HO3).
  apply wp_bind. eapply wp_mono; [by apply (deleteOrder_wp w3 m3)|]. cbn beta. intros ? w4 (o & ->).
  unfold assertAllPiecesRelativeAvailabilityZero. apply wp_bind, wp_gets. change (w_pieces (w3 <| w_orders := o |>)) with (w_pieces w3).
  assert (forall s, s ∈ w_pieces w3 -> ps_relativeAvailability s = 0) as Hzero.
  { intros s Hs. apply list_elem_of_lookup in Hs as [k Hk]. pose proof (lookup_lt_Some _ _ _ Hk) as Hlt.
    assert (0 <= Z.of_nat k < n) as Hkn by (pose proof (wf_pieces _ _ _ _ Hw3) as E; cbn in E; lia).
    assert (ps w3 (Z.of_nat k) = s) as <-.
    { unfold ps, at_. destruct (Z.ltb_spec (Z.of_nat k) 0); [lia|]. by rewrite Nat2Z.id, Hk. }
    rewrite (pr_rel e n true w3 HC3 _ Hkn). unfold having. rewrite !number_none; [done|..].
    - intros j c Hj. unfold seed_has. by rewrite (Hcl3 j c Hj).
    - intros j c Hj. rewrite Ec3 in Hj. unfold conn_has. by rewrite (Hcl2 j c Hj). }
  replace (forallb _ (w_pieces w3)) with true; [by apply wp_ret|]. symmetry. apply forallb_forall.
  intros s Hs%list_elem_of_In. by apply Z.eqb_eq, Hzero.
Qed.
End Messages.
