(* ===== verification/RequestingTheory.v ===== *)
(** * Theory of making requests

    The comparison the heap of desired requests is made with is a strict order on them.  The
    chunks a connection desires are in pieces that are wanted and that the peer has.  Making the
    requests keeps the torrent's record of requests and what the connections have the same, never
    fails a check, and fits the write buffer. *)

From coqutil Require Import Datatypes.RecordSettersUsingExistingGetters.
From S2P Require Import Prelude Merkle Segments Metainfo PeerProtocol Types Bitmap OrderedBitmap Multiless RequestOrder RequestOrderTheory Chunks ChunksTheory World RequestState RequestTheory Pieces Requesting PiecesTheory PeersTheory.
Local Open Scope Z_scope.

(** ** The order of requests *)

(** Comparing by one number after the other. *)
Definition compare_by {A} (keys : list (A -> Z)) (x y : A) : comparison :=
  foldr (fun k c => thenc (k x ?= k y) c) Eq keys.

Lemma Ordered_by {A} (keys : list (A -> Z)) : Ordered (compare_by keys).
Proof.
  induction keys as [|k keys IH]; [by split|]. apply (Ordered_thenc (fun x y => k x ?= k y)); [|done].
  apply (Ordered_key Z.compare k), Ordered_Z.
Qed.

Lemma time_Sub_compare a b : (time_Sub a b ?= 0) = (a ?= b).
Proof.
  unfold time_Sub. change (min_int 64) with (-9223372036854775808). change (max_int 64) with 9223372036854775807.
  destruct (Z.compare_spec a b), (Z.compare_spec (Z.max (-9223372036854775808) (Z.min 9223372036854775807 (a - b))) 0);
    first [done|exfalso; lia].
Qed.

Lemma bool_compare_b2z a b : bool_compare a b = (Z.b2z a ?= Z.b2z b).
Proof. by destruct a, b. Qed.

Section RequestOrder.
Context {ML : Multiless} {MLL : MultilessLaws ML} {AJ : AjwernerSet} {RB : Roaring} {RBL : RoaringLaws RB}.
Context {GL : GenericList} {GLL : GenericListLaws GL} {GH : GenericHeap}.
Context (e : Env) (active : bool).
Notation L := (e_layout e).

Definition piece_of (x : Z) : Z := default 0 (pieceIndexOfRequestIndex L x).
Definition state_of (w : World) (x : Z) : PieceRequestOrderState := default zeroState (w_requestPieceStates w !! piece_of x).
Definition owner (w : World) (x : Z) : option nat := rq_peer <$> w_requestState w !! x.

(** How many requests the connection that has request [x] has, and since when it has it. *)
Definition owner_load (w : World) (x : Z) : Z :=
  match owner w x ≫= fun id => w_conns w !! id with Some c => Z.of_nat (length (reqs c)) | None => 0 end.
Definition owned_since (w : World) (x : Z) : Z := from_option rq_when 0 (w_requestState w !! x).

(** What connection [id], [c] looks at, the most important first: when choked, pieces the peer
    allows all the same; the priority of the piece; requests it has already; requests no other has;
    requests of others, the one with most requests first, the latest first; then, from the end when
    there are requests to web seeds, else rare pieces first, and the order of the pieces. *)
Definition request_keys (w : World) (id : nat) (c : PeerConn) : list (Z -> Z) :=
  [(fun x => if pc_peerChoking c then Z.b2z (negb (tb_Contains (piece_of x) (pc_peerAllowedFast c))) else 0);
   (fun x => - st_Priority (state_of w x));
   (fun x => Z.b2z (negb (bool_decide (owner w x = Some id))));
   (fun x => Z.b2z (negb (bool_decide (owner w x = None))));
   (fun x => - owner_load w x);
   (fun x => - owned_since w x)] ++
  (if active then [Z.opp]
   else [(fun x => st_Availability (state_of w x));
         (fun x => if st_Priority (state_of w x) =? PiecePriorityReadahead then piece_of x
                   else default 0 (at_ (e_pieceRequestOrder e) (piece_of x)));
         (fun x => x)]).

Definition request_order (w : World) (id : nat) (c : PeerConn) : Z -> Z -> comparison := compare_by (request_keys w id c).

(** A request that may be in the heap: its piece was looked at. *)
Record ranked (w : World) (x : Z) : Prop := {
  rk_piece : pieceIndexOfRequestIndex L x = Some (piece_of x);
  rk_state : w_requestPieceStates w !! piece_of x = Some (state_of w x);
  rk_order : is_Some (at_ (e_pieceRequestOrder e) (piece_of x));
}.

Lemma flip_bools a b : bool_compare b a = (Z.b2z (negb a) ?= Z.b2z (negb b)).
Proof. by destruct a, b. Qed.

Lemma compare_opp a b : (b ?= a) = (- a ?= - b).
Proof. by rewrite Z.compare_opp. Qed.

Lemma must_less (c : Computation) cmp w : ml_ord c = cmp -> cmp <> Eq ->
  lift (S := World) (ml_MustLess c) w = Ret (bool_decide (cmp = Lt)) w.
Proof. intros E Hne. unfold lift. rewrite ml_MustLess_ord, E, decide_False by done. done. Qed.
Lemma load_card w id c : Reqs e w -> w_conns w !! id = Some c -> ob_GetCardinality (pc_Requests c) = Z.of_nat (length (reqs c)).
Proof.
  intros HR Hid. pose proof (rq_conns e w HR id c Hid) as Hc. apply ob_GetCardinality_holds; [apply Hc|].
  pose proof (cr_max e c Hc) as Hm. change maxLocalToRemoteRequests with 963 in Hm. lia.
Qed.

(** The three stages of the comparison. *)
Definition cmp_choice (w : World) (id : nat) (c : PeerConn) := compare_by (take 2 (request_keys w id c)).
Definition cmp_owner (w : World) (id : nat) (c : PeerConn) := compare_by (take 2 (drop 2 (request_keys w id c))).
Definition cmp_rest (w : World) (id : nat) (c : PeerConn) := compare_by (drop 4 (request_keys w id c)).

Lemma thenc_Eq_r c : thenc c Eq = c.
Proof. by destruct c. Qed.

Lemma request_stages w id c x y :
  request_order w id c x y = thenc (cmp_choice w id c x y) (thenc (cmp_owner w id c x y) (cmp_rest w id c x y)).
Proof.
  unfold request_order, cmp_choice, cmp_owner, cmp_rest, compare_by, request_keys. cbn. by rewrite !thenc_Eq_r, !thenc_assoc.
Qed.

Lemma cmp_rest_total w id c x y : x <> y -> cmp_rest w id c x y <> Eq.
Proof.
  intros Hne. unfold cmp_rest, compare_by, request_keys. destruct active; cbn; rewrite !thenc_Eq; intros E; destruct_and!;
    match goal with H : (_ ?= _) = Eq |- _ => apply Z.compare_eq in H; lia end.
Qed.

Lemma byOwner_run w id c x y (ml : Computation) :
  Reqs e w -> ml_ord ml = Eq -> cmp_owner w id c x y = Eq ->
  exists ml', byOwner (w_requestState w !! x) (w_requestState w !! y) ml w = Ret ml' w /\
    ml_ord ml' = thenc (- owner_load w x ?= - owner_load w y) (- owned_since w x ?= - owned_since w y).
Proof.
  intros HR Eml Eo. unfold cmp_owner, request_keys, compare_by, owner in Eo. cbn in Eo. apply thenc_Eq in Eo as [_ [Eo _]%thenc_Eq].
  unfold byOwner, owner_load, owned_since, owner.
  destruct (w_requestState w !! x) as [ls|] eqn:El, (w_requestState w !! y) as [rs|] eqn:Er; cbn in Eo; try done; [|by exists ml].
  destruct (rq_owner e w HR x ls El) as (lc & Hl & _), (rq_owner e w HR y rs Er) as (rc & Hr & _).
  pose proof (rq_since e w HR x ls El). pose proof (rq_since e w HR y rs Er). go_simpl.
  rewrite (conn_run w _ rc Hr), (conn_run w _ lc Hl), Hl, Hr.
  destruct (Z.eqb_spec (rq_when ls) 0); [lia|]. destruct (Z.eqb_spec (rq_when rs) 0); [lia|]. cbn. eexists. split; [done|].
  rewrite ml_ord_CmpInt64, ml_ord_Uint64, Eml, time_Sub_compare, (load_card w _ rc HR Hr), (load_card w _ lc HR Hl). cbn. by rewrite <-!compare_opp.
Qed.

Lemma byPiece_run w id c x y (ml : Computation) :
  ranked w x -> ranked w y -> x <> y -> cmp_choice w id c x y = Eq ->
  ml_ord ml = thenc (- owner_load w x ?= - owner_load w y) (- owned_since w x ?= - owned_since w y) ->
  byPiece e active x y (piece_of x) (piece_of y) (state_of w x) (state_of w y) ml w = Ret (bool_decide (cmp_rest w id c x y = Lt)) w.
Proof.
  intros [_ _ [ox Ox]] [_ _ [oy Oy]] Hxy Ec Eml. pose proof (cmp_rest_total w id c x y Hxy) as Hne.
  unfold cmp_choice, request_keys, compare_by in Ec. cbn in Ec. apply thenc_Eq in Ec as [_ [Ec%Z.compare_eq _]%thenc_Eq].
  assert (st_Priority (state_of w y) = st_Priority (state_of w x)) as Ep by lia.
  unfold byPiece. revert Hne. unfold cmp_rest, compare_by, request_keys. destruct active; cbn [app drop foldr]; rewrite ?thenc_Eq_r; intros Hne.
  - apply must_less; [|done]. rewrite ml_ord_Cmp, Eml, thenc_assoc. do 2 f_equal.
    rewrite <-compare_opp. destruct (Z.compare_spec x y), (Z.compare_spec y x); cbn; first [done|exfalso; lia].
  - rewrite Ep, Ox, Oy in *. change (default 0 (Some ox)) with ox in Hne |- *. change (default 0 (Some oy)) with oy in Hne |- *. destruct (_ =? PiecePriorityReadahead); go_simpl; apply must_less; try done;
      by rewrite ml_ord_EagerOrdered, !ml_ord_Int, Eml, !thenc_assoc.
Qed.

(** [lessByValue] does not panic on two requests that may be in the heap, and is their order. *)
Lemma lessByValue_run w id c x y :
  Reqs e w -> w_conns w !! id = Some c -> ranked w x -> ranked w y -> x <> y ->
  lessByValue e active id (w_requestPieceStatesGen w) x y w = Ret (bool_decide (request_order w id c x y = Lt)) w.
Proof.
  intros HR Hid Hx Hy Hxy. rewrite request_stages.
  remember (cmp_choice w id c x y) as o1 eqn:D1. remember (cmp_owner w id c x y) as o2 eqn:D2. remember (cmp_rest w id c x y) as o3 eqn:D3.
  unfold lessByValue. go_simpl. rewrite Z.eqb_refl. cbn [negb].
  rewrite (rk_piece w x Hx), (rk_piece w y Hy). go_simpl. rewrite (conn_run w id c Hid). unfold pieceStates_Get. go_simpl.
  rewrite (rk_state w x Hx), (rk_state w y Hy). go_simpl.
  match goal with |- context [ml_Ok (ml_Int ?a ?b ?m)] => set (ml1 := ml_Int a b m) end.
  assert (ml_ord ml1 = o1) as E1.
  { rewrite D1. unfold ml1, cmp_choice, compare_by, request_keys. cbn. rewrite ml_ord_Int, thenc_Eq_r. f_equal.
    destruct (pc_peerChoking c); [|by rewrite ml_ord_New]. by rewrite ml_ord_Bool, ml_ord_New, bool_compare_b2z. }
  rewrite (ml_Ok_ord ml1), E1. destruct (decide (o1 = Eq)) as [->|Ec].
  2:{ rewrite bool_decide_false by done. cbn. etransitivity; [exact (must_less _ _ _ E1 Ec)|]. by destruct o1. }
  assert (st_Priority (state_of w x) = st_Priority (state_of w y)) as Ep.
  { symmetry in D1. apply thenc_Eq in D1 as [_ [D1%Z.compare_eq _]%thenc_Eq]. lia. }
  rewrite (bool_decide_true (Eq = Eq) eq_refl), Ep, Z.eqb_refl. cbn.
  match goal with |- context [ml_Ok ?m] => set (ml2 := m) end.
  assert (ml_ord ml2 = o2) as E2.
  { rewrite D2. unfold ml2, cmp_owner, compare_by, request_keys, owner. cbn. rewrite !ml_ord_Bool, E1, thenc_Eq_r, !flip_bools. done. }
  rewrite (ml_Ok_ord ml2), E2. destruct (decide (o2 = Eq)) as [->|Eo].
  2:{ rewrite bool_decide_false by done. cbn. etransitivity; [exact (must_less _ _ _ E2 Eo)|]. by destruct o2. }
  rewrite (bool_decide_true (Eq = Eq) eq_refl). cbn. destruct (byOwner_run w id c x y ml2 HR E2 (eq_sym D2)) as (ml3 & -> & E3).
  rewrite D3. by apply byPiece_run.
Qed.

End RequestOrder.

(** ** The desired requests *)

Section Requesting.
Context {ML : Multiless} {MLL : MultilessLaws ML} {AJ : AjwernerSet} {AJL : AjwernerLaws AJ}.
Context {RB : Roaring} {RBL : RoaringLaws RB} {GL : GenericList} {GLL : GenericListLaws GL}.
Context {GH : GenericHeap} {GHL : GenericHeapLaws GH}.
Context (e : Env) (st : Storage) (Hst : e_storage e = Some st).
Notation L := (e_layout e).
Context (n : Z) (HF : layout_full L n) (Hrange : forall w l, e_range e w l ≡ₚ l).
Let HL : layout_ok L n := lf_ok L n HF.
Let HN : numbered L n := lf_requests L n HF.
Notation Good := (Good e st n []).
Notation Conns := (Conns e n).
Notation cpp := (t_chunksPerRegularPiece L).
Notation has := (has n).
Notation wants := (wants e).
Notation prio := (prio e).
Notation key := (pieceRequestOrderKey e).

Local Existing Instance ajwerner_btree_laws.

(** A change of the states of the pieces alone. *)
Definition noted (w w' : World) : Prop := exists m g, w' = w <| w_requestPieceStates := m |> <| w_requestPieceStatesGen := g |>.

(** The chunks of a piece that are not there yet. *)
Definition undirtied (w : World) (i : Z) : list Z :=
  filter (fun r => r ∉ rb_elems (w_dirty w)) (seqZ (i * cpp) (default 0 (pieceNumChunks L i))).

Lemma begin_of i : 0 <= i < n -> pieceRequestIndexBegin L i = i * cpp.
Proof using HN.
  intros Hi. pose proof (nb_cpp L n HN). pose proof (nb_small L n HN). unfold pieceRequestIndexBegin, mul32.
  rewrite (wrapU_small 32 i) by nia. rewrite wrapU_small by nia. done.
Qed.

Lemma undirtied_run w i : 0 <= i < n -> iterUndirtiedRequestIndexesInPiece e i w = Ret (undirtied w i) w.
Proof using HN.
  intros Hi. destruct (nb_chunks L n HN i Hi) as (k & Ek & Hk). pose proof (nb_small L n HN). pose proof (nb_cpp L n HN).
  unfold iterUndirtiedRequestIndexesInPiece, undirtied. rewrite (begin_of i Hi), Ek. go_simpl.
  unfold add32. rewrite wrapU_small by nia. rewrite iterBitmapUnset_spec by nia. do 3 f_equal. lia.
Qed.

(** A request and its piece. *)
Lemma undirtied_elem w i r : 0 <= i < n -> r ∈ undirtied w i ->
  0 <= r < 2 ^ 32 /\ pieceIndexOfRequestIndex L r = Some i /\ exists k c, pieceNumChunks L i = Some k /\ 0 <= c < k /\ r = i * cpp + c.
Proof using HN.
  intros Hi [_ Hr%elem_of_seqZ]%list_elem_of_filter. destruct (nb_chunks L n HN i Hi) as (k & Ek & Hk). rewrite Ek in Hr. cbn in Hr.
  pose proof (nb_small L n HN). pose proof (nb_cpp L n HN). split; [nia|]. split.
  - unfold pieceIndexOfRequestIndex, divU. destruct (Z.eqb_spec cpp 0); [lia|]. f_equal. symmetry. apply (Z.div_unique _ _ _ (r - i * cpp)); lia.
  - exists k, (r - i * cpp). split; [done|]. lia.
Qed.

(** Whether a chunk of a piece is desired. *)
Definition takes (c : PeerConn) (allowedFast : bool) (r : Z) : bool :=
  negb (negb allowedFast && pc_peerChoking c && negb (ob_Contains r (pc_Requests c))) &&
  negb (negb (rb_IsEmpty (pc_Cancelled c)) && tb_Contains r (pc_Cancelled c)).

Lemma desire_all c af rs d :
  let d' := foldl (desire c af) d rs in
  d_requestIndexes d' = d_requestIndexes d ++ filter (fun r => takes c af r = true) rs /\
  d_pieceStatesGen d' = d_pieceStatesGen d /\ d_Interested d' = d_Interested d || negb af && negb (bool_decide (rs = [])).
Proof.
  revert d. induction rs as [|r rs IH]; intros d; cbn [foldl]; [rewrite app_nil_r; cbn; by rewrite andb_false_r, orb_false_r|].
  destruct (IH (desire c af d r)) as (E1 & E2 & E3). cbn zeta. rewrite E1, E2, E3. clear IH E1 E2 E3.
  rewrite (bool_decide_false (r :: rs = [])) by done. unfold desire.
  destruct (takes c af r) eqn:Et; [rewrite filter_cons_True by done|rewrite filter_cons_False by congruence]; unfold takes in Et.
  all: destruct (negb af && pc_peerChoking c && negb (ob_Contains r (pc_Requests c)));
    destruct (negb (rb_IsEmpty (pc_Cancelled c)) && tb_Contains r (pc_Cancelled c)); cbn in Et; try done.
  all: destruct af; cbn; unfold RecordSettersUsingExistingGetters.const; rewrite <-?app_assoc; split; try done; split; try done;
    by destruct (d_Interested d).
Qed.

(** The requests desired of a piece of the order. *)
Definition picked (w : World) (c : PeerConn) (it : PieceRequestOrderItem) : bool :=
  bool_decide (key_InfoHash (item_Key it) = e_shortHash e) && wants w (key_Index (item_Key it)) && has c (key_Index (item_Key it)).

Definition piece_desires (w : World) (c : PeerConn) (it : PieceRequestOrderItem) : list Z :=
  let i := key_Index (item_Key it) in
  if picked w c it then filter (fun r => takes c (tb_Contains i (pc_peerAllowedFast c)) r = true) (undirtied w i) else [].

Lemma raise_all_ge l z : z <= raise_all l z.
Proof.
  unfold raise_all. revert z. induction l as [|x l IH]; intros z; cbn; [done|]. etransitivity; [|apply IH].
  unfold Raise. destruct (_ >? _) eqn:E; cbn; lia.
Qed.

Lemma request_run w i : Good w -> 0 <= i < n -> t_PieceRequest (strategyTorrent e) i w = Ret (wants w i) w.
Proof using HL.
  intros (m & HM & _) Hi. cbn [strategyTorrent t_PieceRequest]. rewrite (bind_step _ _ _ _ _ (effective_run e n [] HL w i (mid_wf _ _ _ _ _ _ HM) Hi)).
  assert (PiecePriorityNone <= prio w i) as Hp by apply raise_all_ge.
  unfold PiecesTheory.wants. destruct (ign e w i); [done|]. cbn. unfold mret, go_ret. f_equal.
  destruct (Z.eqb_spec (prio w i) PiecePriorityNone) as [->|]; cbn; lia.
Qed.

Lemma unverified_run w i : Good w -> 0 <= i < n -> wp (t_PieceCountUnverified (strategyTorrent e) i) (fun _ w' => w' = w) w.
Proof using HL.
  intros (m & HM & _) Hi. cbn [strategyTorrent t_PieceCountUnverified]. apply wp_bind. unfold wp at 1.
  rewrite (proj2 (state_run e n [] w i (mid_wf _ _ _ _ _ _ HM) Hi)).
  apply wp_if; intros _; [by apply wp_ret|by apply wp_gets].
Qed.

Lemma noted_steady w m g : Good w -> Good (w <| w_requestPieceStates := m |> <| w_requestPieceStatesGen := g |>).
Proof using HL Hst.
  intros HG. pose proof (sy_peers _ _ _ _ (steady_Good e st Hst n [] HL) w (w_conns w) (w_webSeeds w) (w_connsWithAllPieces w) (w_requestState w) m g HG) as H.
  exact H.
Qed.

(** What the pieces before add up to. *)
Record Desired (w : World) (c : PeerConn) (pre : list PieceRequestOrderItem) (d : desiredRequestState) (w' : World) : Prop := {
  ds_noted : noted w w';
  ds_gen : d_pieceStatesGen d = w_requestPieceStatesGen w';
  ds_requests : d_requestIndexes d = pre ≫= piece_desires w c;
  ds_interested : d_Interested d = existsb (fun it => picked w c it && negb (tb_Contains (key_Index (item_Key it)) (pc_peerAllowedFast c)) &&
    negb (bool_decide (undirtied w (key_Index (item_Key it)) = []))) pre;
  ds_states it : it ∈ pre -> picked w c it = true -> w_requestPieceStates w' !! key_Index (item_Key it) = Some (item_State it);
}.

Lemma Desired_skip w c pre it d w' : Desired w c pre d w' -> picked w c it = false -> Desired w c (pre ++ [it]) d w'.
Proof using Type.
  clear HL HN. intros [] Hp. split; try done.
  - rewrite bind_app. cbn. unfold piece_desires at 2. by rewrite Hp, !app_nil_r.
  - rewrite existsb_app. cbn. by rewrite Hp, !orb_false_r.
  - intros it' [Hin| ->%list_elem_of_singleton]%elem_of_app Hp'; [auto|congruence].
Qed.

Lemma desirePiece_wp w id c pre it d w1 : Good w -> w_conns w !! id = Some c -> Desired w c pre d w1 ->
  0 <= key_Index (item_Key it) < n -> key_InfoHash (item_Key it) = e_shortHash e -> wants w (key_Index (item_Key it)) = true ->
  st_Priority (item_State it) <> PiecePriorityNone ->
  (forall it', it' ∈ pre -> key_InfoHash (item_Key it') = e_shortHash e -> key_Index (item_Key it') = key_Index (item_Key it) -> item_State it' = item_State it) ->
  wp (desirePiece e id (key_InfoHash (item_Key it)) (key_Index (item_Key it)) (item_State it) d)
    (fun r w2 => Desired w c (pre ++ [it]) r.1 w2 /\ r.2 = true) w1.
Proof using HL HN HF.
  intros HG Hid HD Hi Hh Hw Hp Hsame. pose proof (ds_noted _ _ _ _ _ HD) as (m & g & E1). unfold desirePiece. rewrite bool_decide_true by done. cbn [negb].
  assert (w_conns w1 !! id = Some c) as Hid1 by (by rewrite E1). apply wp_bind. unfold wp at 1. rewrite (conn_run w1 id c Hid1).
  assert (w_haveInfo w1 = true) as Hinfo by (rewrite E1; destruct HG as (mm & HM & _); exact (mid_info _ _ _ _ _ _ HM)).
  apply wp_bind. unfold wp at 1. rewrite (has_run e n HF w1 c _ Hinfo Hi). destruct (has c (key_Index (item_Key it))) eqn:Eh; cbn [negb].
  2:{ apply wp_ret. split; [|done]. apply Desired_skip; [done|]. unfold picked. by rewrite Eh, andb_false_r. }
  assert (picked w c it = true) as Ep by (unfold picked; by rewrite bool_decide_true, Hw, Eh).
  unfold pieceStates_Set. rewrite decide_False by (intros E; apply Hp; by rewrite E). apply wp_bind, wp_modify, wp_bind.
  unfold wp at 1. rewrite (undirtied_run _ _ Hi). apply wp_ret. cbn [fst snd]. split; [|done].
  match goal with |- Desired _ _ _ _ ?w2 => set (w' := w2) end.
  match goal with |- Desired _ _ _ (foldl (desire _ ?af) _ ?rs) _ => destruct (desire_all c af rs d) as (F1 & F2 & F3) end.
  cbn zeta in F1, F2, F3. assert (forall i, undirtied w' i = undirtied w i) as Eu by (intros; unfold w'; by rewrite E1).
  destruct HD as [D1 D2 D3 D4 D5]. split.
  - unfold w'. rewrite E1. by eexists _, _.
  - rewrite F2, D2. done.
  - rewrite F1, D3, bind_app. change ([it] ≫= piece_desires w c) with (piece_desires w c it ++ []). rewrite app_nil_r. f_equal. unfold piece_desires. rewrite Ep. f_equal. apply Eu.
  - rewrite F3, D4, existsb_app. cbn [existsb]. rewrite Ep, orb_false_r. do 4 f_equal. apply bool_decide_ext. by rewrite Eu.
  - intros it' Hin Hp'. change (<[key_Index (item_Key it) := item_State it]> (w_requestPieceStates w1) !! key_Index (item_Key it') = Some (item_State it')).
    destruct (decide (key_Index (item_Key it) = key_Index (item_Key it'))) as [E|Hne].
    + rewrite E, lookup_insert_eq. f_equal. apply elem_of_app in Hin as [Hin| ->%list_elem_of_singleton]; [|done]. symmetry. apply Hsame; [done| |done].
      unfold picked in Hp'. by apply andb_true_iff in Hp' as [[?%bool_decide_eq_true _]%andb_true_iff _].
    + rewrite lookup_insert_ne by done. apply elem_of_app in Hin as [Hin| ->%list_elem_of_singleton]; [by apply D5|done].
Qed.

(** A chunk worth requesting: it is missing, its piece is wanted and the peer has it, the request
    was not cancelled, and the peer would serve it. *)
Record desirable (w : World) (c : PeerConn) (i r : Z) : Prop := {
  de_piece : 0 <= i < n;
  de_wants : wants w i = true;
  de_has : has c i = true;
  de_missing : r ∈ undirtied w i;
  de_cancelled : r ∉ rb_elems (pc_Cancelled c);
  de_choking : pc_peerChoking c = true -> tb_Contains i (pc_peerAllowedFast c) = true \/ r ∈ reqs c;
}.

Record Desires (w : World) (c : PeerConn) (d : desiredRequestState) (w' : World) : Prop := {
  dd_noted : noted w w';
  dd_NoDup : NoDup (d_requestIndexes d);
  dd_gen r : r ∈ d_requestIndexes d -> d_pieceStatesGen d = w_requestPieceStatesGen w';
  dd_sound r : r ∈ d_requestIndexes d -> exists i, desirable w c i r /\ is_Some (w_requestPieceStates w' !! i);
  dd_complete i r : s_Capacity st = None -> e_MaxUnverifiedBytes e = 0 -> desirable w c i r -> r ∈ d_requestIndexes d;
}.

Lemma takes_iff w c i r : conn_reqs e c -> 0 <= i < n -> r ∈ undirtied w i ->
  takes c (tb_Contains i (pc_peerAllowedFast c)) r = true <->
  r ∉ rb_elems (pc_Cancelled c) /\ (pc_peerChoking c = true -> tb_Contains i (pc_peerAllowedFast c) = true \/ r ∈ reqs c).
Proof using HN.
  intros Hc Hi Hr. destruct (undirtied_elem w i r Hi Hr) as (Hr32 & _). unfold takes.
  rewrite (ob_Contains_holds _ _ r (cr_holds e c Hc) Hr32). unfold tb_Contains at 2. rewrite rb_Contains_elems, rb_IsEmpty_elems, (wrapU_small 32 r) by done.
  assert (negb (bool_decide (rb_elems (pc_Cancelled c) = ∅)) && bool_decide (r ∈ rb_elems (pc_Cancelled c)) = bool_decide (r ∈ rb_elems (pc_Cancelled c))) as ->.
  { destruct (decide (r ∈ rb_elems (pc_Cancelled c))) as [Hin|Hin]; [|by rewrite (bool_decide_false _ Hin), andb_false_r].
    rewrite bool_decide_false; [done|]. intros E. rewrite E in Hin. by apply elem_of_empty in Hin. }
  rewrite andb_true_iff, !negb_true_iff, !andb_false_iff, !negb_false_iff, bool_decide_eq_false, bool_decide_eq_true.
  generalize (r ∈ rb_elems (pc_Cancelled c)), (r ∈ reqs c), (tb_Contains i (pc_peerAllowedFast c)). clear.
  intros P Q []; destruct (pc_peerChoking c); intuition congruence.
Qed.

Lemma piece_desires_iff w c it r : conn_reqs e c -> 0 <= key_Index (item_Key it) < n -> key_InfoHash (item_Key it) = e_shortHash e ->
  r ∈ piece_desires w c it <-> desirable w c (key_Index (item_Key it)) r.
Proof using HN.
  intros Hc Hi Hh. unfold piece_desires, picked. rewrite bool_decide_true by done. cbn [andb].
  destruct (wants w _) eqn:Ew; [|split; [by intros ?%not_elem_of_nil|intros []; congruence]].
  destruct (has c _) eqn:Eh; cbn [andb]; [|split; [by intros ?%not_elem_of_nil|intros []; congruence]].
  rewrite list_elem_of_filter. split.
  - intros [Ht Hr]. apply (takes_iff w) in Ht as [? ?]; [|done..]. by split.
  - intros []. split; [|done]. by apply (takes_iff w).
Qed.

(** The pieces in the order. *)
Record listed (w : World) (items : list PieceRequestOrderItem) : Prop := {
  li_NoDup : NoDup items;
  li_keys it it' : it ∈ items -> it' ∈ items -> item_Key it = item_Key it' -> it = it';
  li_piece it : it ∈ items -> key_InfoHash (item_Key it) = e_shortHash e -> 0 <= key_Index (item_Key it) < n;
  li_own it : it ∈ items -> s_Capacity st = None -> key_InfoHash (item_Key it) = e_shortHash e;
  li_wants it : it ∈ items -> key_InfoHash (item_Key it) = e_shortHash e -> wants w (key_Index (item_Key it)) = true ->
    st_Priority (item_State it) <> PiecePriorityNone;
  li_all i : 0 <= i < n -> wants w i = true -> exists it, it ∈ items /\ item_Key it = key i;
}.

Lemma own_key it : key_InfoHash (item_Key it) = e_shortHash e -> key (key_Index (item_Key it)) = item_Key it.
Proof using Type. intros E. unfold pieceRequestOrderKey. rewrite <-E. by destruct (item_Key it). Qed.

Lemma listed_ok w : Good w ->
  exists pro, w_orders w !! clientPieceRequestOrderKey e st = Some pro /\ listed w (bt_Scan (pro_tree pro)).
Proof using AJL MLL.
  clear HL HN. intros (m & HM & Hs). destruct (mid_ord _ _ _ _ _ _ HM) as [(pro & Ep & _ & l & Hl & Hm) Hkeys _ Hown]. exists pro. split; [done|].
  rewrite (bt_scan _ _ Hl).
  assert (forall i, 0 <= i < n -> wants w i = true -> filed e m w i = true) as Hf by (intros i Hi Hw; by rewrite (proj2 (Hs i Hi))).
  split.
  - apply sorted_NoDup, (bt_sorted _ _ Hl).
  - intros [k1 s1] [k2 s2] H1%Hm H2%Hm E. cbn in *. congruence.
  - intros it Hin%Hm. by eapply Hkeys.
  - intros it Hin%Hm ?. by eapply Hown.
  - intros it Hin%Hm Eh Hw. pose proof (Hkeys _ _ Hin Eh) as Hi. pose proof (Hf _ Hi Hw) as Hfi. unfold filed in Hfi.
    rewrite (own_key it Eh), Hin in Hfi. by apply andb_true_iff in Hfi as [_ Hp%negb_true_iff%Z.eqb_neq].
  - intros i Hi Hw. pose proof (Hf i Hi Hw) as Hfi. unfold filed in Hfi. destruct (m !! key i) as [s|] eqn:Es; [|done].
    exists (mkItem (key i) s). split; [|done]. by apply Hm.
Qed.

(** Pieces of distinct items of this torrent are distinct, so no request is desired twice. *)
Lemma desires_NoDup w c items :
  conn_reqs e c -> NoDup items -> (forall it it', it ∈ items -> it' ∈ items -> item_Key it = item_Key it' -> it = it') ->
  (forall it, it ∈ items -> key_InfoHash (item_Key it) = e_shortHash e -> 0 <= key_Index (item_Key it) < n) ->
  NoDup (items ≫= piece_desires w c).
Proof using HN.
  clear Hst Hrange st GHL GH. intros Hc Hn Hk Hi. induction Hn as [|it items Hin Hn IH]; cbn; [constructor|].
  assert (forall it r, r ∈ piece_desires w c it -> key_InfoHash (item_Key it) = e_shortHash e) as Hhash.
  { intros it' r. unfold piece_desires, picked. case_bool_decide; [done|]. by intros ?%not_elem_of_nil. }
  apply NoDup_app. split; [|split; [|apply IH; [intros; apply Hk; set_solver|intros; apply Hi; set_solver]]].
  - unfold piece_desires. destruct (picked w c it); [|constructor]. apply NoDup_filter, NoDup_filter, NoDup_seqZ.
  - intros r Hr (it' & Hr' & Hit')%list_elem_of_bind.
    pose proof (Hhash it r Hr) as H1. pose proof (Hhash it' r Hr') as H2.
    assert (0 <= key_Index (item_Key it) < n) as B1 by (apply Hi; set_solver). assert (0 <= key_Index (item_Key it') < n) as B2 by (apply Hi; set_solver).
    apply (piece_desires_iff w c it r Hc B1 H1) in Hr as [_ _ _ Hm _ _]. apply (piece_desires_iff w c it' r Hc B2 H2) in Hr' as [_ _ _ Hm' _ _].
    apply undirtied_elem in Hm as (_ & E1 & _); [|done]. apply undirtied_elem in Hm' as (_ & E2 & _); [|done].
    assert (it = it') as ->; [|done]. apply Hk; [set_solver..|]. destruct (item_Key it) as [a1 b1], (item_Key it') as [a2 b2]. cbn in *. congruence.
Qed.

Lemma desire_step w id c items pre it post d w1 :
  Good w -> w_conns w !! id = Some c -> listed w items -> items = pre ++ it :: post -> Desired w c pre d w1 ->
  let t := in_Torrent (getRequestStrategyInput e st) (key_InfoHash (item_Key it)) in
  wp (t_PieceRequest t (key_Index (item_Key it))) (fun b w' => Desired w c pre d w' /\ if b : bool then
    wp (desirePiece e id (key_InfoHash (item_Key it)) (key_Index (item_Key it)) (item_State it) d) (fun r w2 => Desired w c (pre ++ [it]) r.1 w2 /\ r.2 = true) w'
  else wp (t_PieceCountUnverified t (key_Index (item_Key it))) (fun _ w2 => Desired w c (pre ++ [it]) d w2) w') w1.
Proof using HL HN HF Hst.
  intros HG Hid HI Es HD t. assert (it ∈ items) as Hin by (rewrite Es; apply elem_of_app; right; by left).
  pose proof (ds_noted _ _ _ _ _ HD) as (m & g & E1). assert (Good w1) as HG1 by (rewrite E1; by apply noted_steady).
  assert (forall i, wants w1 i = wants w i) as Ew by (intros; by rewrite E1).
  destruct (decide (key_InfoHash (item_Key it) = e_shortHash e)) as [Eh|Eh].
  - assert (t = strategyTorrent e) as ->.
    { unfold t, getRequestStrategyInput. destruct (s_Capacity st) as [[??]|]; cbn; [by rewrite decide_True|done]. }
    pose proof (li_piece w items HI it Hin Eh) as Hi. unfold wp at 1. rewrite (request_run w1 _ HG1 Hi), Ew. split; [done|].
    destruct (wants w (key_Index (item_Key it))) eqn:Ewi.
    + apply (desirePiece_wp w id c pre it d w1); try done; [by apply (li_wants w items)|]. intros it' Hin' Eh' Ei. f_equal.
      apply (li_keys w items HI); [rewrite Es; apply elem_of_app; by left|done|]. by rewrite <-(own_key it Eh), <-(own_key it' Eh'), Ei.
    + eapply wp_mono; [by apply unverified_run|]. cbn beta. intros ? w2 ->. apply Desired_skip; [done|]. unfold picked. by rewrite Ewi, andb_false_r.
  - destruct (s_Capacity st) as [[k cap]|] eqn:Ecap; [|by destruct (Eh (li_own w items HI it Hin Ecap))].
    assert (t = otherStrategyTorrent (e_torrents e (key_InfoHash (item_Key it)))) as ->.
    { unfold t, getRequestStrategyInput. rewrite Ecap. cbn. by rewrite decide_False. }
    assert (Desired w c (pre ++ [it]) d w1) as Hskip by (apply Desired_skip; [done|]; unfold picked; by rewrite bool_decide_false).
    apply wp_ret. split; [done|]. destruct (ot_request _ _); [|by apply wp_ret].
    unfold desirePiece. rewrite bool_decide_false by done. by apply wp_ret.
Qed.

Lemma Desired_end w c items pre post d w' :
  conn_reqs e c -> listed w items -> items = pre ++ post -> Desired w c pre d w' ->
  (s_Capacity st = None -> e_MaxUnverifiedBytes e = 0 -> pre = items) -> Desires w c d w'.
Proof using HN HF.
  intros Hc HI Es HD Hall.
  assert (forall it, it ∈ pre -> it ∈ items) as Hsub by (intros it Hin; rewrite Es; apply elem_of_app; by left).
  assert (forall r it, it ∈ pre -> r ∈ piece_desires w c it -> picked w c it = true /\ desirable w c (key_Index (item_Key it)) r) as Hp.
  { intros r it Hin Hr. assert (picked w c it = true) as Ep.
    { unfold piece_desires in Hr. destruct (picked w c it); [done|by apply not_elem_of_nil in Hr]. }
    split; [done|]. assert (key_InfoHash (item_Key it) = e_shortHash e) as Eh.
    { unfold picked in Ep. by apply andb_true_iff in Ep as [[?%bool_decide_eq_true _]%andb_true_iff _]. }
    apply (piece_desires_iff w c it r); [done|apply (li_piece w items); auto|done|done]. }
  destruct HD as [D1 D2 D3 D4 D5]. split; try done.
  - rewrite D3. apply desires_NoDup; [done| | |].
    + pose proof (li_NoDup w items HI) as Hn. rewrite Es in Hn. by apply NoDup_app in Hn as [? _].
    + intros it it' H1 H2. apply (li_keys w items HI); auto.
    + intros it H1. apply (li_piece w items HI); auto.
  - rewrite D3. intros r (it & Hr & Hin)%list_elem_of_bind. destruct (Hp r it Hin Hr) as [Ep Hd]. eexists. split; [exact Hd|]. eexists. by apply D5.
  - rewrite D3. intros i r Ecap Emax Hd. destruct (li_all w items HI i (de_piece _ _ _ _ Hd) (de_wants _ _ _ _ Hd)) as (it & Hin & Ek).
    apply list_elem_of_bind. exists it. rewrite (Hall Ecap Emax). split; [|done]. apply piece_desires_iff; rewrite ?Ek; try done. apply Hd.
Qed.

Lemma getDesired_wp w id c : Good w -> Reqs e w -> w_conns w !! id = Some c ->
  wp (getDesiredRequestState e id) (fun d w' => Desires w c d w') w.
Proof using HL HN HF Hst.
  intros HG HR Hid. pose proof (rq_conns e w HR id c Hid) as Hc. pose proof HG as (m & HM & _). unfold getDesiredRequestState.
  apply wp_bind, wp_gets, wp_bind, wp_gets, wp_bind, wp_gets. rewrite (mid_info _ _ _ _ _ _ HM), (mid_open _ _ _ _ _ _ HM). cbn [negb orb].
  destruct (w_disallowed w) eqn:Ed.
  { apply wp_ret. split; cbn; [|constructor|by intros ? ?%not_elem_of_nil..|].
    - exists (w_requestPieceStates w), (w_requestPieceStatesGen w). by destruct w.
    - intros i r _ _ [_ Hw _ _ _ _]. exfalso. revert Hw. unfold PiecesTheory.wants, ign. rewrite Ed, !orb_true_r. done. }
  unfold pieceStates_Clear. apply wp_bind, wp_modify, wp_bind, wp_gets. unfold getRequestablePieces. apply wp_bind. eapply wp_lift; [exact Hst|].
  destruct (listed_ok w HG) as (pro & Ep & HI). apply wp_bind, wp_gets, wp_bind. eapply wp_lift; [exact Ep|].
  set (w1 := w <| w_requestPieceStates := _ |> <| w_requestPieceStatesGen := _ |>). set (d0 := _ <| d_pieceStatesGen := _ |>).
  apply wp_bind. eapply wp_mono; [apply (requestable_wp _ _ (fun pre d w' => Desired w c pre d w' /\ exists post, bt_Scan (pro_tree pro) = pre ++ post))|].
  - split; [|by eexists]. split; try done; [by eexists _, _|by intros ? ?%not_elem_of_nil].
  - intros pre it post d w2 Es [HD Hpost]. assert (exists post, bt_Scan (pro_tree pro) = (pre ++ [it]) ++ post) by (exists post; by rewrite <-app_assoc).
    eapply wp_mono; [by apply (desire_step w id c (bt_Scan (pro_tree pro)) pre it post d w2)|]. cbn beta. intros b w3 [HD3 Hb]. split; [done|].
    destruct b; (eapply wp_mono; [exact Hb|]); cbn beta; [intros r w4 [? ?]|intros r w4 ?]; done.
  - cbn beta. intros [d b] w2 (pre & [HD [post Epost]] & Hall). apply wp_ret. cbn [fst] in *.
    apply (Desired_end w c _ pre post d w2 Hc HI Epost HD). intros Ecap Emax. apply Hall; unfold getRequestStrategyInput; by rewrite Ecap.
Qed.

(** ** Making the requests *)

Context (now : Z) (active : bool) (Hnow : 0 < now) (Horder : Z.of_nat (length (e_pieceRequestOrder e)) = n).

(** What making requests does to the connection. *)
Record onward (c c' : PeerConn) : Prop := {
  ow_kept : kept c c';
  ow_cancelled : pc_Cancelled c' = pc_Cancelled c;
  ow_choking : pc_peerChoking c' = pc_peerChoking c;
  ow_allowed : pc_peerAllowedFast c' = pc_peerAllowedFast c;
  ow_reqs r : r ∈ reqs c -> r ∈ reqs c';
  ow_buffer : (length (pc_writeBuffer c') + 17 * length (reqs c) <= length (pc_writeBuffer c) + 17 * length (reqs c'))%nat;
}.

Record Applied (w : World) (id : nat) (c : PeerConn) (w' : World) : Prop := {
  ap_talked : talked w w';
  ap_states : w_requestPieceStates w' = w_requestPieceStates w;
  ap_gen : w_requestPieceStatesGen w' = w_requestPieceStatesGen w;
  ap_reqs : Reqs e w';
  ap_conn : exists c', w_conns w' !! id = Some c' /\ onward c c';
}.

Lemma onward_refl c : onward c c.
Proof using Type. clear HL HN Horder HF Hst Hrange. by split. Qed.

Lemma onward_trans c1 c2 c3 : onward c1 c2 -> onward c2 c3 -> onward c1 c3.
Proof using Type. clear HL HN Horder HF Hst Hrange. intros [] []. split; [by eapply kept_trans|congruence..|auto|lia]. Qed.

Lemma Applied_refl w id c : Reqs e w -> w_conns w !! id = Some c -> Applied w id c w.
Proof using Type. clear HL HN Horder HF Hst Hrange. intros HR Hid. split; try done; [apply talked_refl|]. exists c. split; [done|apply onward_refl]. Qed.

Lemma Applied_trans w1 w2 w3 id c1 c2 : w_conns w2 !! id = Some c2 -> Applied w1 id c1 w2 -> Applied w2 id c2 w3 -> Applied w1 id c1 w3.
Proof using Type.
  clear HL HN Horder HF Hst Hrange. intros Hid [A1 A2 A3 A4 (c & Hc & A5)] [B1 B2 B3 B4 (c3 & Hc3 & B5)]. rewrite Hid in Hc. injection Hc as <-.
  split; [by eapply talked_trans|congruence|congruence|done|]. exists c3. split; [done|]. by eapply onward_trans.
Qed.

Lemma desirable_onward w w' c c' i r : talked w w' -> onward c c' -> desirable w c i r -> desirable w' c' i r.
Proof using Type.
  clear HL HN Horder HF Hst Hrange. intros (cs & rs & x & g & -> & _) [(K1 & K2 & _) E1 E2 E3 H1 _] [D1 D2 D3 D4 D5 D6].
  split; try done.
  - unfold PeersTheory.has in *. by rewrite K1, K2.
  - by rewrite E1.
  - rewrite E2, E3. intros [?|?]%D6; auto.
Qed.

(** Adding a request to a connection. *)
Lemma added_reqs c r : conn_reqs e c -> 0 <= r < 2 ^ 32 -> r ∉ reqs c -> r ∉ rb_elems (pc_Cancelled c) -> is_Some (requestIndexToRequest L r) ->
  Z.of_nat (length (reqs c) + size (rb_elems (pc_Cancelled c))) < maxLocalToRemoteRequests ->
  let c' := c <| pc_Requests := ob_Add r (pc_Requests c) |>
    <| pc_validReceiveChunks := <[r := default 0 (pc_validReceiveChunks c !! r) + 1]> (pc_validReceiveChunks c) |> in
  reqs c' = reqs c ++ [r] /\ conn_reqs e c'.
Proof using RBL GLL.
  clear HL HN Horder HF Hst Hrange Hnow now GHL GH. intros Hc Hr Hnew Hcan Hv Hmax c'. pose proof (ob_Add_holds _ _ r (cr_holds e c Hc) Hr) as Ho. rewrite decide_False in Ho by done.
  assert (reqs c' = reqs c ++ [r]) as E by apply (h_values _ _ Ho). destruct Hc as [H1 H2 H3 H4 H5]. split; [done|].
  split; rewrite ?E; try done; change (pc_Cancelled c') with (pc_Cancelled c).
  - intros x [Hx|Hx]%elem_of_app; [auto|]. by apply list_elem_of_singleton in Hx as ->.
  - intros x Hx [Hin|Hin]%elem_of_app; [by apply (H3 x)|]. by apply list_elem_of_singleton in Hin as ->.
  - intros x. change (pc_validReceiveChunks c') with (<[r := default 0 (pc_validReceiveChunks c !! r) + 1]> (pc_validReceiveChunks c)).
    specialize (H4 x). destruct (decide (x = r)) as [->|Hne].
    + rewrite lookup_insert_eq. rewrite (bool_decide_false (r ∈ reqs c)) in H4 by done.
      rewrite bool_decide_true by set_solver. cbn [Z.b2z] in *. change (default 0 (Some ?x)) with x. lia.
    + rewrite lookup_insert_ne by done. rewrite (bool_decide_ext (x ∈ reqs c ++ [r]) (x ∈ reqs c)); [done|].
      rewrite elem_of_app, list_elem_of_singleton. naive_solver.
  - rewrite length_app. cbn. lia.
Qed.

Lemma nominal_max c : nominalMaxRequests c <= maxLocalToRemoteRequests.
Proof using Type. clear HL HN Horder HF Hst Hrange. unfold nominalMaxRequests. change maxLocalToRemoteRequests with 963. lia. Qed.

Lemma wants_idle w i : wants w i = true -> ps_hashing (ps w i) || ps_marking (ps w i) || tb_Contains i (w_queued w) = false.
Proof using Type.
  clear HL HN Horder HF Hst Hrange. unfold PiecesTheory.wants, ign. intros [Hi%negb_true_iff _]%andb_true_iff. rewrite !orb_false_iff in Hi. destruct_and!.
  by rewrite !orb_false_iff.
Qed.

Lemma shouldRequest_wp w id c i r : Good w -> Reqs e w -> w_conns w !! id = Some c -> pc_closed c = false -> desirable w c i r ->
  wp (shouldRequest e id r) (fun _ w' => w' = w /\ is_Some (requestIndexToRequest L r)) w.
Proof using HF HL HN.
  intros (m & HM & _) HR Hid Hcl [D1 D2 D3 D4 D5 D6]. pose proof (rq_conns e w HR id c Hid) as Hc.
  destruct (undirtied_elem w i r D1 D4) as (Hr & Epi & k & ch & Ek & Hch & Er). destruct (nb_request L n HN i k ch D1 Ek Hch) as (req & Ereq & _ & _ & _ & Echk).
  rewrite <-Er in Ereq. pose proof (mid_wf _ _ _ _ _ _ HM) as Hwf. pose proof (wants_idle w i D2) as Hidle.
  unfold shouldRequest. apply wp_bind. eapply wp_lift; [exact Ereq|]. apply wp_bind. eapply wp_lift; [exact Echk|].
  apply wp_bind. eapply wp_lift; [exact Epi|]. apply wp_bind. unfold wp at 1. rewrite (conn_run w id c Hid).
  unfold tb_Contains at 1. rewrite rb_Contains_elems, (wrapU_small 32 r), bool_decide_false by done.
  apply wp_bind. unfold wp at 1. rewrite (has_run e n HF w c i (mid_info _ _ _ _ _ _ HM) D1), D3, Hcl. cbn [negb orb].
  apply wp_bind. unfold wp at 1. rewrite (proj2 (state_run e n [] w i Hwf D1)). apply wp_bind, wp_gets. rewrite Hidle.
  rewrite (ob_Contains_holds _ _ r (cr_holds e c Hc) Hr). apply wp_if; intros Hb; [|by apply wp_ret].
  exfalso. apply andb_true_iff in Hb as [[Hb1 Hb2%negb_true_iff]%andb_true_iff Hb3%negb_true_iff%bool_decide_eq_false].
  destruct (D6 Hb1); congruence.
Qed.

(** A request is made; when there is no more room, the buffer is full. *)
Lemma request_wp w id c i r :
  Good w -> Reqs e w -> w_conns w !! id = Some c -> pc_closed c = false -> desirable w c i r ->
  Z.of_nat (length (reqs c) + size (rb_elems (pc_Cancelled c))) < nominalMaxRequests c ->
  (r ∈ reqs c \/ w_requestState w !! r = None) ->
  wp (request e now id r) (fun more w' => Applied w id c w' /\
    (more = false -> exists c', w_conns w' !! id = Some c' /\ writeBufferFull (pc_writeBuffer c') = true)) w.
Proof using HF HL HN Hnow.
  intros HG HR Hid Hcl Hd Hmax Hown. pose proof (rq_conns e w HR id c Hid) as Hc. pose proof (nominal_max c) as Hnom. unfold request. apply wp_bind.
  eapply wp_mono; [by apply (shouldRequest_wp w id c i r)|]. cbn beta. intros ? w0 [-> [req Ereq]].
  destruct (undirtied_elem w i r (de_piece _ _ _ _ Hd) (de_missing _ _ _ _ Hd)) as (Hr & _).
  apply wp_bind. unfold wp at 1. rewrite (conn_run w id c Hid), (ob_Contains_holds _ _ r (cr_holds e c Hc) Hr).
  apply wp_if; [intros _; apply wp_ret; split; [by apply Applied_refl|done]|]. intros Hnew%bool_decide_eq_false. destruct Hown as [?|Hown]; [done|].
  rewrite (load_card e w id c HR Hid). change maxLocalToRemoteRequests with 963 in Hnom.
  rewrite wrapS64_small by (unfold maxInt, max_int; lia).
  apply wp_if; [intros Hb; exfalso; lia|]. intros _.
  destruct (added_reqs c r Hc Hr Hnew (de_cancelled _ _ _ _ Hd)) as [Er1 Hc1]; [by rewrite Ereq|change maxLocalToRemoteRequests with 963; lia|].
  set (c1 := c <| pc_Requests := _ |> <| pc_validReceiveChunks := _ |>) in *.
  apply wp_bind. unfold wp at 1. rewrite (set_conn_run w id c _ Hid). apply wp_bind, wp_modify.
  match goal with |- wp _ _ ?v => set (w1 := v) end.
  assert (w_conns w1 !! id = Some c1) as Hid1 by (exact (lookup_insert_eq _ _ _)).
  assert (Reqs e w1) as HR1 by (by eapply (Reqs_made e w w1 id c c1 r {| rq_peer := id; rq_when := now |})).
  assert (talked w w1) as Ht1 by exact (talked_set w id c c1 _ Hid (kept_refl c)).
  apply wp_bind. eapply wp_lift; [exact Ereq|].
  destruct (write_request (ToMsg req mtRequest) (pc_writeBuffer c1)) as (m & Em & Hm); [done..|].
  eapply wp_mono; [by apply (write_wp e w1 id c1 _ m)|]. cbn beta. intros more w2 ((Ha & HR2 & Es & Ec2) & ->).
  assert (w_conns w2 !! id = Some (c1 <| pc_writeBuffer := pc_writeBuffer c1 ++ m |>)) as Hid2 by (by rewrite Ec2, lookup_insert_eq).
  split; [|intros Hb%negb_false_iff; eexists; split; [exact Hid2|done]].
  destruct Ha as (Ht2 & _ & E1 & E2). split; [by eapply talked_trans|done..|]. eexists. split; [exact Hid2|]. split; try done.
  - intros x Hx. change (x ∈ reqs c1). rewrite Er1. apply elem_of_app. by left.
  - change (length (pc_writeBuffer c ++ m) + 17 * length (reqs c) <= length (pc_writeBuffer c) + 17 * length (reqs c1))%nat.
    rewrite Er1, !length_app, Hm. cbn [length]. lia.
Qed.

(** Taking a request over: nobody else has it then. *)
Lemma obtain_wp w id c r : Reqs e w -> w_conns w !! id = Some c ->
  wp (obtain e now id r) (fun ok w' => Applied w id c w' /\ w_conns w' !! id = Some c /\
    (ok = true -> r ∈ reqs c \/ w_requestState w' !! r = None)) w.
Proof using RBL GLL.
  clear HL HN. intros HR Hid. pose proof (Applied_refl w id c HR Hid) as Hrefl. unfold obtain, requestingPeer.
  apply wp_bind. unfold wp at 1. rewrite (conn_run w id c Hid). apply wp_bind, wp_gets.
  destruct (w_requestState w !! r) as [s|] eqn:Es; cbn [fmap option_fmap option_map]; [|by apply wp_ret; auto].
  destruct (rq_owner e w HR r s Es) as (c' & Hc' & Hr).
  destruct (Nat.eqb_spec (rq_peer s) id) as [E|Hne]; [apply wp_ret; rewrite E, Hid in Hc'; injection Hc' as <-; by auto|].
  apply wp_if; intros _; [by apply wp_ret|]. apply wp_bind. unfold wp at 1. rewrite (conn_run w _ c' Hc').
  apply wp_if; intros _; [by apply wp_ret|]. apply wp_bind.
  assert (wp (stealRequestGraceElapsed e now r) (fun _ w' => w' = w) w) as Hsteal.
  { unfold stealRequestGraceElapsed. apply wp_if; intros _; [by apply wp_ret|]. apply wp_bind, wp_gets. by apply wp_ret. }
  eapply wp_mono; [exact Hsteal|]. cbn beta. intros elapsed ? ->. apply wp_if; intros _; [by apply wp_ret|]. apply wp_bind.
  eapply wp_mono; [by apply cancelRequest_wp|]. cbn beta. intros ? w' ((Ht & _ & E1 & E2) & HR' & Es' & Hoth). apply wp_ret.
  assert (w_conns w' !! id = Some c) as Hid' by (rewrite Hoth; [done|]; rewrite Es; cbn; congruence).
  split; [|split; [done|]; intros _; right; by rewrite Es', lookup_delete_eq]. split; try done. exists c. split; [done|apply onward_refl].
Qed.

(** What may be in the heap. *)
Record heaped (w : World) (c : PeerConn) (gen : Z) (h : list Z) : Prop := {
  hp_NoDup : NoDup h;
  hp_gen r : r ∈ h -> gen = w_requestPieceStatesGen w;
  hp_desirable r : r ∈ h -> exists i, desirable w c i r /\ is_Some (w_requestPieceStates w !! i);
}.

Lemma heaped_sub w c gen h h' : heaped w c gen h -> NoDup h' -> (forall r, r ∈ h' -> r ∈ h) -> heaped w c gen h'.
Proof using Type. clear HL HN. intros [] Hn Hs. split; eauto. Qed.

Lemma heaped_perm w c gen h h' : heaped w c gen h -> h' ≡ₚ h -> heaped w c gen h'.
Proof using Type. clear HL HN. intros Hh Hp. eapply heaped_sub; [done|rewrite Hp; apply Hh|intros r; by rewrite Hp]. Qed.

Lemma heaped_applied w id c gen h w' c' : heaped w c gen h -> Applied w id c w' -> w_conns w' !! id = Some c' -> heaped w' c' gen h.
Proof using Type.
  clear HL HN. intros [H1 H2 H3] [A1 A2 A3 A4 (c1 & Hc1 & A5)] Hid. rewrite Hid in Hc1. injection Hc1 as <-. split; [done|rewrite A3; done|].
  rewrite A2. intros r (i & Hd & Hi)%H3. exists i. split; [|done]. by eapply desirable_onward.
Qed.

Lemma heaped_ranked w c gen h r : heaped w c gen h -> r ∈ h -> ranked e w r.
Proof using HN Horder.
  intros Hh Hr. destruct (hp_desirable w c gen h Hh r Hr) as (i & [D1 _ _ D4 _ _] & [s Es]).
  destruct (undirtied_elem w i r D1 D4) as (_ & Epi & _). assert (piece_of e r = i) as E by (unfold piece_of; by rewrite Epi).
  split; rewrite ?E; [done| |].
  - unfold state_of. by rewrite E, Es.
  - destruct (at_lookup (e_pieceRequestOrder e) i) as [o Eo]; [lia|by rewrite Eo].
Qed.

Lemma heaped_comparable w id c gen h : Reqs e w -> w_conns w !! id = Some c -> heaped w c gen h -> comparable (less_at e active id gen w) h.
Proof using MLL RBL GLL HN Horder.
  intros HR Hid Hh. split; [apply Hh|]. intros x y Hx Hy Hne. rewrite (hp_gen w c gen h Hh x Hx). unfold less_at.
  rewrite (lessByValue_run e active w id c x y HR Hid); [by eexists| | |done]; by eapply heaped_ranked.
Qed.

(** How much is in the buffer, at most, after so many requests. *)
Definition room (c : PeerConn) : Prop := Z.of_nat (length (pc_writeBuffer c)) <= 16389 + 17 * Z.of_nat (length (reqs c)).

Lemma room_onward c c' : room c -> onward c c' -> room c'.
Proof using Type. clear HL HN Horder. unfold room. intros ? []. lia. Qed.

Lemma room_left c : conn_reqs e c -> room c -> writeBufferFull (pc_writeBuffer c) = false.
Proof using Type.
  clear HL HN Horder. intros Hc Hr. pose proof (cr_max e c Hc) as Hm. unfold room, writeBufferFull in *. change maxLocalToRemoteRequests with 963 in Hm.
  change writeBufferHighWaterLen with 32768. lia.
Qed.

Lemma pending_count w id c : Reqs e w -> w_conns w !! id = Some c ->
  wrapS 64 (wrapU 64 (ob_GetCardinality (pc_Requests c) + rb_GetCardinality (pc_Cancelled c))) =
  Z.of_nat (length (reqs c) + size (rb_elems (pc_Cancelled c))).
Proof using RBL GLL.
  clear HL HN Horder. intros HR Hid. pose proof (cr_max e c (rq_conns e w HR id c Hid)) as Hm. change maxLocalToRemoteRequests with 963 in Hm.
  rewrite (load_card e w id c HR Hid), rb_GetCardinality_elems, wrapU_small, wrapS64_small by (unfold maxInt, max_int; lia). lia.
Qed.

Lemma apply_loop_wp fuel id gen h w c :
  Good w -> Reqs e w -> w_conns w !! id = Some c -> pc_closed c = false -> room c -> heaped w c gen h -> (length h <= fuel)%nat ->
  wp (apply_loop e now active fuel id gen h) (fun more w' => more = true /\ Applied w id c w') w.
Proof using MLL RBL GLL GHL HF HL HN Horder Hnow Hst.
  revert h w c. induction fuel as [|fuel IH]; intros h w c HG HR Hid Hcl Hroom Hh Hlen.
  { destruct h; [|cbn in Hlen; lia]. cbn [apply_loop]. apply wp_ret. split; [done|by apply Applied_refl]. }
  cbn [apply_loop]. destruct h as [|x0 h0]; [apply wp_ret; split; [done|by apply Applied_refl]|]. set (h := x0 :: h0) in *.
  apply wp_bind. unfold wp at 1. rewrite (conn_run w id c Hid), (pending_count w id c HR Hid).
  apply wp_if; intros Hmax; [apply wp_ret; split; [done|by apply Applied_refl]|].
  apply wp_bind, wp_gets, wp_bind.
  destruct (heap_Pop_ok (less_at e active id gen w) h ltac:(done) (heaped_comparable w id c gen h HR Hid Hh)) as (x & h' & Epop & Hp).
  eapply wp_lift; [exact Epop|]. cbn [fst snd].
  pose proof (heaped_perm w c gen h (x :: h') Hh (symmetry Hp)) as Hxh.
  assert (heaped w c gen h') as Hh'.
  { pose proof (hp_NoDup _ _ _ _ Hxh) as [_ Hn]%NoDup_cons. apply (heaped_sub w c gen (x :: h')); [done..|]. intros r Hr. by right. }
  assert (length h' <= fuel)%nat as Hlen' by (apply Permutation_length in Hp; cbn in Hp, Hlen; lia).
  apply wp_if; intros _; [by apply IH|]. apply wp_bind. eapply wp_mono; [by apply (obtain_wp w id c x)|]. cbn beta. intros ok w1 (Ha1 & Hid1 & Hown).
  assert (Good w1) as HG1 by exact (steady_talked e n [] Good (steady_Good e st Hst n [] HL) w w1 (ap_talked _ _ _ _ Ha1) HG).
  pose proof (ap_reqs _ _ _ _ Ha1) as HR1. pose proof (heaped_applied w id c gen _ w1 c Hxh Ha1 Hid1) as Hxh1.
  pose proof (heaped_applied w id c gen _ w1 c Hh' Ha1 Hid1) as Hh1.
  destruct ok; cbn [negb].
  2:{ eapply wp_mono; [by apply (IH h' w1 c)|]. cbn beta. intros more w2 [-> Ha2]. split; [done|by eapply Applied_trans]. }
  destruct (hp_desirable _ _ _ _ Hxh1 x ltac:(by left)) as (i & Hd & _).
  apply wp_bind. eapply wp_mono; [apply (request_wp w1 id c i x); try done; [by rewrite Z.geb_leb, Z.leb_gt in Hmax|by apply Hown]|]. cbn beta. intros more w2 [Ha2 Hmore].
  pose proof (ap_conn _ _ _ _ Ha2) as (c2 & Hid2 & Hon). pose proof (room_onward c c2 Hroom Hon) as Hroom2. pose proof (ap_reqs _ _ _ _ Ha2) as HR2.
  destruct more; cbn [negb]; [clear Hmore|destruct (Hmore eq_refl) as (c3 & Hid3 & Hfull); rewrite Hid2 in Hid3; injection Hid3 as <-;
    rewrite (room_left c2 (rq_conns e w2 HR2 id c2 Hid2) Hroom2) in Hfull; done].
  eapply wp_mono; [apply (IH h' w2 c2); try done|].
  - exact (steady_talked e n [] Good (steady_Good e st Hst n [] HL) w1 w2 (ap_talked _ _ _ _ Ha2) HG1).
  - destruct (ow_kept _ _ Hon) as (_ & _ & ->). done.
  - by eapply heaped_applied.
  - cbn beta. intros more w3 [-> Ha3]. split; [done|]. eapply Applied_trans; [exact Hid1|exact Ha1|]. by eapply Applied_trans.
Qed.

Lemma allowNotInterested_wp w c : Good w -> Conns true w -> wp (allowSendNotInterested e c) (fun _ w' => w' = w) w.
Proof using HF HL.
  intros HG HC. pose proof HG as (m & HM & _). pose proof (mid_info _ _ _ _ _ _ HM) as Hinfo. unfold allowSendNotInterested.
  apply wp_bind, (haveAllPieces_wp e n HL true w _ Hinfo (Peers_true e n w HC)). intros b _. apply wp_if; intros _; [by apply wp_ret|].
  apply wp_bind. unfold peerHasAllPieces. apply wp_if; intros _; [apply wp_ret|].
  - apply wp_if; intros _; [by apply wp_ret|by apply wp_gets].
  - apply wp_bind, wp_gets. rewrite Hinfo. cbn [negb]. apply wp_bind. eapply wp_lift; [apply HF|]. apply wp_ret.
    apply wp_if; intros _; [by apply wp_ret|by apply wp_gets].
Qed.

(** What says whether we are interested fits in any case. *)
Lemma setInterested_wp w id c b : Reqs e w -> w_conns w !! id = Some c -> Z.of_nat (length (pc_writeBuffer c)) <= writeBufferLowWaterLen ->
  wp (setInterested id b) (fun ok w' => ok = true /\ asked w w' /\ Reqs e w' /\
    exists c', w_conns w' !! id = Some c' /\ room c' /\ kept c c' /\ reqs c' = reqs c /\ pc_Cancelled c' = pc_Cancelled c /\
      pc_peerChoking c' = pc_peerChoking c /\ pc_peerAllowedFast c' = pc_peerAllowedFast c) w.
Proof using RBL GLL.
  clear HL HN Horder. intros HR Hid Hlow. change writeBufferLowWaterLen with 16384 in Hlow. unfold setInterested, writeInterested.
  apply wp_bind. unfold wp at 1. rewrite (conn_run w id c Hid). apply wp_if; intros _.
  { apply wp_ret. split; [done|]. split; [apply asked_refl|]. split; [done|]. exists c. repeat split; try done. unfold room. lia. }
  apply wp_bind. eapply wp_mono; [by apply (set_unasked e w id c)|]. cbn beta. set (c1 := c <| pc_Interested := b |>). intros ? w1 (Ha1 & HR1 & _ & E1).
  assert (w_conns w1 !! id = Some c1) as Hid1 by (by rewrite E1, lookup_insert_eq).
  destruct (write_none (typeMessage (if b then mtInterested else mtNotInterested)) (pc_writeBuffer c1)) as (m & Em & Hm); [done|by destruct b|].
  eapply wp_mono; [by apply (write_wp e w1 id c1 _ m)|]. cbn beta. intros more w2 ((Ha2 & HR2 & _ & E2) & ->).
  assert (Z.of_nat (length (pc_writeBuffer c1 ++ m)) <= 16389) as Hlen by (rewrite length_app, Hm; change (pc_writeBuffer c1) with (pc_writeBuffer c); lia).
  split; [apply negb_true_iff; unfold writeBufferFull; change writeBufferHighWaterLen with 32768; lia|].
  split; [by eapply asked_trans|]. split; [done|]. eexists. split; [rewrite E2; apply lookup_insert_eq|]. repeat split; try done.
  unfold room. change (Z.of_nat (length (pc_writeBuffer c1 ++ m)) <= 16389 + 17 * Z.of_nat (length (reqs c1))). lia.
Qed.

(** Making the requests goes through: no check fails, and there is room for all. *)
Lemma applyRequestState_wp w id c next :
  Good w -> Conns true w -> w_conns w !! id = Some c -> pc_closed c = false ->
  Z.of_nat (length (pc_writeBuffer c)) <= writeBufferLowWaterLen ->
  heaped w c (d_pieceStatesGen next) (d_requestIndexes next) ->
  wp (applyRequestState e now active id next) (fun _ w' => talked w w' /\ Reqs e w') w.
Proof using MLL RBL GLL GHL HF HL HN Horder Hnow Hst.
  intros HG HC Hid Hcl Hlow Hh. pose proof (pr_reqs e n true w HC) as HR. unfold applyRequestState.
  apply wp_bind. unfold wp at 1. rewrite (conn_run w id c Hid). apply wp_bind.
  assert (wp (if negb (d_Interested next) && pc_Interested c then allow ← allowSendNotInterested e c; mret (negb allow) else mret (d_Interested next))
    (fun _ w' => w' = w) w) as Hint.
  { apply wp_if; intros _; [|by apply wp_ret]. apply wp_bind. eapply wp_mono; [by apply allowNotInterested_wp|]. cbn beta. intros ? ? ->. by apply wp_ret. }
  eapply wp_mono; [exact Hint|]. cbn beta. intros interested ? ->. apply wp_bind.
  eapply wp_mono; [by apply (setInterested_wp w id c)|]. cbn beta. intros ok w1 (-> & Ha1 & HR1 & c1 & Hid1 & Hroom & Hk & Er & Ec & F1 & F2). cbn [negb].
  pose proof Ha1 as (Ht1 & _ & G1 & G2).
  assert (heaped w1 c1 (d_pieceStatesGen next) (d_requestIndexes next)) as Hh1.
  { destruct Hh as [H1 H2 H3]. split; [done|by rewrite G2|]. rewrite G1. intros r (i & Hd & Hi)%H3. exists i. split; [|done].
    destruct Hd as [D1 D2 D3 D4 D5 D6]. destruct Ht1 as (cs & rs & x & g & -> & _). split; try done.
    - destruct Hk as (K1 & K2 & _). unfold PeersTheory.has in *. by rewrite K1, K2.
    - by rewrite Ec.
    - by rewrite F1, F2, Er. }
  destruct (heap_Init_ok (less_at e active id (d_pieceStatesGen next) w1) (d_requestIndexes next) (heaped_comparable w1 id c1 _ _ HR1 Hid1 Hh1)) as (h & Eh & Hp).
  apply wp_bind, wp_gets, wp_bind. eapply wp_lift; [exact Eh|]. apply wp_bind. unfold wp at 1. rewrite (conn_run w1 id c1 Hid1). apply wp_bind.
  eapply wp_mono; [apply (apply_loop_wp (length h) id (d_pieceStatesGen next) h w1 c1); try done|].
  - exact (steady_talked e n [] Good (steady_Good e st Hst n [] HL) w w1 Ht1 HG).
  - destruct Hk as (_ & _ & ->). done.
  - by eapply heaped_perm.
  - cbn beta. intros more w2 [-> [A1 _ _ A4 (c2 & Hid2 & _)]]. cbn [negb]. apply wp_bind. unfold wp at 1. rewrite (conn_run w2 id c2 Hid2).
    eapply wp_mono; [by apply (set_unasked e w2 id c2)|]. cbn beta. intros ? w3 (Ha3 & HR3 & _). split; [|done].
    eapply talked_trans; [exact Ht1|]. eapply talked_trans; [exact A1|apply Ha3].
Qed.

Lemma noted_talked w w' : noted w w' -> talked w w' /\ w_conns w' = w_conns w /\ w_requestState w' = w_requestState w.
Proof using Type.
  clear HL HN. intros (m & g & ->). split; [|done]. exists (w_conns w), (w_requestState w), m, g. split; [done|apply like_refl].
Qed.

Lemma Desires_heaped w c d w1 : Desires w c d w1 -> heaped w1 c (d_pieceStatesGen d) (d_requestIndexes d).
Proof using Type.
  clear HL HN. intros [D1 D2 D3 D4 _]. destruct (noted_talked w w1 D1) as (Ht1 & _). split; [done..|]. intros r (i & Hd & Hi)%D4.
  exists i. split; [|done]. by apply (desirable_onward w w1 c c i r Ht1 (onward_refl c)).
Qed.

Lemma maybeUpdate_wp w id c :
  Good w -> Conns true w -> w_conns w !! id = Some c -> Z.of_nat (length (pc_writeBuffer c)) <= writeBufferLowWaterLen ->
  wp (maybeUpdateActualRequestState e now active id) (fun _ w' => talked w w' /\ Reqs e w') w.
Proof using MLL AJL RBL GLL GHL HF HL HN Horder Hnow Hst.
  intros HG HC Hid Hlow. pose proof (pr_reqs e n true w HC) as HR. unfold maybeUpdateActualRequestState.
  apply wp_bind. unfold wp at 1. rewrite (conn_run w id c Hid).
  destruct (pc_needRequestUpdate c); [|apply wp_ret; split; [apply talked_refl|done]].
  unfold when. apply wp_if; intros Hcl%negb_true_iff || intros Hcl; [|apply wp_ret; split; [apply talked_refl|done]].
  apply wp_bind. eapply wp_mono; [by apply (getDesired_wp w id c)|]. cbn beta. intros d w1 HD.
  destruct (noted_talked w w1 (dd_noted _ _ _ _ HD)) as (Ht1 & Ec & Es).
  assert (w_conns w1 !! id = Some c) as Hid1 by (by rewrite Ec). assert (Reqs e w1) as HR1 by (by apply (Reqs_frame e w)).
  destruct (talked_step e st Hst n HF w w1 HG HC Ht1 HR1) as (HG1 & HC1 & _).
  pose proof (Desires_heaped w c d w1 HD) as Hh.
  apply wp_bind. eapply wp_mono; [by apply (applyRequestState_wp w1 id c d)|]. cbn beta. intros ? w2 [Ht2 HR2].
  destruct (talked_conn w1 w2 id c Ht2 Hid1) as (c2 & Hid2 & _).
  eapply wp_mono; [by apply (set_unasked e w2 id c2)|]. cbn beta. intros ? w3 (Ha3 & HR3 & _). split; [|done].
  eapply talked_trans; [exact Ht1|]. eapply talked_trans; [exact Ht2|apply Ha3].
Qed.

(** ** Requesting hashes *)

(** The files with hashes of their own to ask for have a root, and their pieces are there. *)
Fixpoint rooted (begin : Z) (files : list FileInfo) : Prop :=
  match files with
  | [] => True
  | file :: files' => exists k, quot64 (sub64 (add64 (fi_Length file) (PieceLength (t_info L))) 1) (PieceLength (t_info L)) = Some k /\
      if k <=? 1 then rooted begin files'
      else begin + k <= n /\ is_Some (fi_PiecesRoot file) /\ rooted (begin + k) files'
  end.

Lemma haveHashes_wp w c pieces : Good w -> (forall i, i ∈ pieces -> 0 <= i < n) -> wp (haveHashes e c pieces) (fun _ w' => w' = w) w.
Proof using HF.
  clear HL HN. intros HG. induction pieces as [|i pieces IH]; intros Hi; cbn [haveHashes]; [by apply wp_ret|].
  pose proof HG as (m & HM & _). pose proof (Hi i ltac:(by left)) as Hin. apply wp_bind. unfold wp at 1.
  rewrite (has_run e n HF w c i (mid_info _ _ _ _ _ _ HM) Hin). apply wp_if; intros _; [by apply wp_ret|].
  apply wp_bind. unfold wp at 1. rewrite (proj2 (state_run e n [] w i (mid_wf _ _ _ _ _ _ HM) Hin)). apply wp_bind.
  eapply wp_mono; [apply IH; intros j Hj; apply Hi; by right|]. cbn beta. intros r ? ->. by apply wp_ret.
Qed.

Lemma requestHashes_wp w id c root layer k index : Reqs e w -> w_conns w !! id = Some c ->
  wp (requestHashes id root layer k index) (fun _ w' => stays e w id c w') w.
Proof using RBL GLL.
  clear HL HN Horder. intros HR Hid. unfold requestHashes. apply wp_bind. unfold wp at 1. rewrite (conn_run w id c Hid). unfold when.
  apply wp_if; intros _; [|by apply wp_ret, stays_refl]. apply wp_bind.
  match goal with |- context [write id ?msg] => destruct (write_hash msg (pc_writeBuffer c)) as (m & Em & _); [done..|] end.
  eapply wp_mono; [by apply (write_stays e w id c _ m)|]. cbn beta. intros ? w1 Hs. destruct (stays_at e w id c w1 Hs) as (c1 & Hid1 & _).
  pose proof (stays_asked _ _ _ _ _ Hs) as (_ & HR1 & _). eapply wp_mono; [by apply (set_stays e w1 id c1)|]. cbn beta. intros ? w2 Hs2. by eapply stays_trans.
Qed.

Lemma missingHashes_wp w id c layer files begin : Good w -> Reqs e w -> w_conns w !! id = Some c -> 0 <= begin -> rooted begin files ->
  wp (missingHashes e id layer files begin) (fun _ w' => stays e w id c w') w.
Proof using RBL GLL HF Hst.
  clear Horder. revert w c begin. induction files as [|file files IH]; intros w c begin HG HR Hid Hb Hf; cbn [missingHashes]; [by apply wp_ret, stays_refl|].
  destruct Hf as (k & Ek & Hf). apply wp_bind. eapply wp_lift; [exact Ek|]. destruct (Z.leb_spec k 1); [by apply IH|]. destruct Hf as (Hk & [root Er] & Hf).
  apply wp_bind. unfold wp at 1. rewrite (conn_run w id c Hid). apply wp_bind.
  eapply wp_mono; [apply haveHashes_wp; [done|]; intros i Hi%elem_of_seqZ; lia|]. cbn beta. intros have ? ->. apply wp_bind.
  assert (forall w1, stays e w id c w1 -> wp (missingHashes e id layer files (begin + k)) (fun _ w' => stays e w id c w') w1) as Hrest.
  { intros w1 Hs. destruct (stays_at e w id c w1 Hs) as (c1 & Hid1 & _). pose proof (stays_asked _ _ _ _ _ Hs) as (Ha & HR1 & _).
    eapply wp_mono; [apply (IH w1 c1); try done; [|lia]|].
    - exact (steady_talked e n [] Good (steady_Good e st Hst n [] HL) w w1 (proj1 Ha) HG).
    - cbn beta. intros ? w2 Hs2. by eapply stays_trans. }
  destruct have as [[]|]; [by apply wp_ret, Hrest, stays_refl| |by apply wp_ret, Hrest, stays_refl].
  apply wp_bind. eapply wp_lift; [exact Er|]. eapply wp_mono; [apply (wp_for_each _ _ (fun _ w' => stays e w id c w')); [by apply stays_refl|]|].
  - intros pre index post w1 _ Hs. destruct (stays_at e w id c w1 Hs) as (c1 & Hid1 & _). pose proof (stays_asked _ _ _ _ _ Hs) as (_ & HR1 & _).
    eapply wp_mono; [by apply (requestHashes_wp w1 id c1)|]. cbn beta. intros ? w2 Hs2. by eapply stays_trans.
  - cbn beta. intros ? w1. apply Hrest.
Qed.

Lemma requestMissingHashes_wp w id c : Good w -> Reqs e w -> w_conns w !! id = Some c ->
  (HasV2 (t_info L) = true -> exists files, UpvertedFiles (t_info L) = Some files /\ rooted 0 files) ->
  wp (requestMissingHashes e id) (fun _ w' => stays e w id c w' /\ (pc_v2 c && HasV2 (t_info L) = false -> w' = w)) w.
Proof using RBL GLL HF Hst.
  clear Horder. intros HG HR Hid Hv2. pose proof HG as (m & HM & _). unfold requestMissingHashes, shouldRequestHashes, when.
  apply wp_bind. unfold wp at 1. rewrite (conn_run w id c Hid). apply wp_bind, wp_bind, wp_gets, wp_ret. rewrite (mid_info _ _ _ _ _ _ HM). cbn [andb].
  destruct (pc_v2 c && HasV2 (t_info L)) eqn:Eb; [|apply wp_ret; split; [by apply stays_refl|done]].
  apply andb_true_iff in Eb as [_ Eb]. destruct (Hv2 Eb) as (files & Ef & Hf). apply wp_bind. eapply wp_lift; [exact Ef|].
  eapply wp_mono; [by apply (missingHashes_wp w id c)|]. cbn beta. intros ? w' ?. split; [done|done].
Qed.

End Requesting.
