(* ===== verification/UploadTheory.v ===== *)
(** * Theory of serving a peer's requests

    A connection keeps no more requests than it announces, nor more data than it may, and none of a
    choked peer without the fast extension; so no check fails, whenever the goroutine that reads the
    data and the writer run. *)

From coqutil Require Import Datatypes.RecordSettersUsingExistingGetters.
From S2P Require Import Prelude Merkle Segments Metainfo PeerProtocol Types Bitmap OrderedBitmap Multiless RequestOrder RequestOrderTheory Chunks ChunksTheory World RequestState RequestTheory Pieces Requesting Upload PiecesTheory PeersTheory RequestingTheory.
Local Open Scope Z_scope.

(** ** The data that is held *)

Definition total_length (m : gmap Request bytes) : Z := map_fold (fun r (_ : bytes) n => n + req_Length r) 0 m.

Lemma total_insert m r d : m !! r = None -> total_length (<[r := d]> m) = total_length m + req_Length r.
Proof.
  intros Hr. unfold total_length. rewrite (map_fold_insert_L (fun r (_ : bytes) n => n + req_Length r)); [done| |done].
  intros j1 j2 _ _ y _ _ _. lia.
Qed.

Lemma total_delete m r d : m !! r = Some d -> total_length (delete r m) = total_length m - req_Length r.
Proof.
  intros Hr. assert (total_length m = total_length (<[r := d]> (delete r m))) as -> by (by rewrite insert_delete_id).
  rewrite total_insert by apply lookup_delete_eq. lia.
Qed.

Lemma total_nonneg m : (forall r, is_Some (m !! r) -> 0 <= req_Length r) -> 0 <= total_length m.
Proof.
  induction m as [|r d m Hr IH] using map_ind; intros Hlen; [done|]. rewrite total_insert by done.
  pose proof (Hlen r ltac:(rewrite lookup_insert_eq; eauto)). assert (0 <= total_length m); [|lia]. apply IH. intros r' Hr'. apply Hlen.
  destruct (decide (r = r')) as [->|]; [by rewrite Hr in Hr'; destruct Hr'|]. by rewrite lookup_insert_ne.
Qed.

Lemma total_subset m m' : m' ⊆ m -> (forall r, is_Some (m !! r) -> 0 <= req_Length r) -> total_length m' <= total_length m.
Proof.
  revert m. induction m' as [|r d m' Hr IH] using map_ind; intros m Hsub Hlen; [by apply total_nonneg|].
  assert (m !! r = Some d) as Hm by (apply (lookup_weaken (<[r := d]> m')); [apply lookup_insert_eq|done]).
  rewrite total_insert by done. pose proof (total_delete m r d Hm). assert (total_length m' <= total_length (delete r m)); [|lia]. apply IH.
  - rewrite <-(delete_insert_id m' r d Hr). by apply delete_mono.
  - intros r' [d' [_ Hd']%lookup_delete_Some]. apply Hlen. eauto.
Qed.

Section Uploads.
Context {AJ : AjwernerSet} {RB : Roaring} {GL : GenericList}.
Context (e : Env).

(** The fields of a request a message had. *)
Definition request_ok (r : Request) : Prop := 0 <= req_Index r < 2 ^ 32 /\ 0 <= req_Length r.

(** What holds of the peer's requests, for any connection [id]. *)
Record up_ok (id : nat) (u : uploads) : Prop := {
  uo_choked : e_fast e id = false -> u_choking u = true -> u_unreadPeerRequests u = ∅ /\ u_readyPeerRequests u = ∅;
  uo_few : numPeerRequests u <= localClientReqq;
  uo_disjoint r : r ∈ u_unreadPeerRequests u -> u_readyPeerRequests u !! r = None;
  uo_length r : r ∈ u_unreadPeerRequests u \/ is_Some (u_readyPeerRequests u !! r) ->
    request_ok r /\ forall b, e_uploadBurst e = Some b -> req_Length r <= b;
  uo_data r d : u_readyPeerRequests u !! r = Some d -> Z.of_nat (length d) = req_Length r;
  uo_room : total_length (u_readyPeerRequests u) +
    (match u_server u with Some (Reading r) => req_Length r | _ => 0 end) <= e_MaxAllocPeerRequestDataPerConn e;
  uo_server r : u_server u = Some (Reading r) \/ u_server u = Some (Waiting r) -> request_ok r;
}.

(** Requests may be dropped, and the peer unchoked. *)
Lemma up_fewer id u u' :
  up_ok id u -> u_unreadPeerRequests u' ⊆ u_unreadPeerRequests u -> u_readyPeerRequests u' ⊆ u_readyPeerRequests u ->
  (e_fast e id = false -> u_choking u' = true -> u_choking u = true \/ u_unreadPeerRequests u' = ∅ /\ u_readyPeerRequests u' = ∅) ->
  u_server u' = u_server u -> up_ok id u'.
Proof.
  intros [H1 H2 H3 H4 H5 H6 H7] Hun Hre Hch Hs. pose proof (subseteq_size _ _ Hun). pose proof (map_subseteq_size _ _ Hre).
  split; rewrite ?Hs; try done.
  - intros Hf Hc. destruct (Hch Hf Hc) as [Hc'|[-> ->]]; [|done]. destruct (H1 Hf Hc') as [E1 E2].
    split; [set_solver|]. apply (anti_symm (⊆)); [by rewrite <-E2|apply map_empty_subseteq].
  - unfold numPeerRequests in *. lia.
  - intros r Hr%Hun%H3. destruct (u_readyPeerRequests u' !! r) as [d|] eqn:E; [|done]. by rewrite (lookup_weaken _ _ _ _ E Hre) in Hr.
  - intros r [Hr|[d Hr]]; apply H4; [left; by apply Hun|right; exists d; by eapply lookup_weaken].
  - intros r d Hr. apply H5. by eapply lookup_weaken.
  - pose proof (total_subset _ _ Hre (fun r Hr => proj2 (proj1 (H4 r (or_intror Hr))))). lia.
Qed.

(** A request is queued. *)
Lemma up_add id u r : up_ok id u -> u_choking u = false -> numPeerRequests u < localClientReqq -> havePeerRequest u r = false ->
  request_ok r -> (forall b, e_uploadBurst e = Some b -> req_Length r <= b) ->
  up_ok id (u <| u_unreadPeerRequests := {[r]} ∪ u_unreadPeerRequests u |>).
Proof.
  intros [H1 H2 H3 H4 H5 H6 H7] Hc Hn [Hnu%bool_decide_eq_false Hnr%bool_decide_eq_false]%orb_false_iff Hl Hb. split; cbn; unfold RecordSettersUsingExistingGetters.const; try done.
  - intros _ E. congruence.
  - unfold numPeerRequests in *. cbn. unfold RecordSettersUsingExistingGetters.const. rewrite size_union, size_singleton by set_solver. lia.
  - intros x [->%elem_of_singleton|Hx]%elem_of_union; [|auto]. by apply eq_None_not_Some.
  - intros x [[->%elem_of_singleton|Hx]%elem_of_union|Hx]; auto.
Qed.

(** Data was read for a request. *)
Lemma up_ready id u r d : up_ok id u -> r ∈ u_unreadPeerRequests u -> Z.of_nat (length d) = req_Length r -> u_server u = Some Starting ->
  total_length (u_readyPeerRequests u) + req_Length r <= e_MaxAllocPeerRequestDataPerConn e ->
  up_ok id (u <| u_unreadPeerRequests := u_unreadPeerRequests u ∖ {[r]} |> <| u_readyPeerRequests := <[r := d]> (u_readyPeerRequests u) |>).
Proof.
  intros [H1 H2 H3 H4 H5 H6 H7] Hr Hd Hs Ht. pose proof (H3 r Hr) as Hnone. split; cbn; unfold RecordSettersUsingExistingGetters.const; try done.
  - intros Hf Hc. destruct (H1 Hf Hc) as [E _]. rewrite E in Hr. by apply elem_of_empty in Hr.
  - unfold numPeerRequests in *. cbn. unfold RecordSettersUsingExistingGetters.const. rewrite size_difference, size_singleton, map_size_insert_None by set_solver.
    assert (size (u_unreadPeerRequests u) <> 0)%nat by (intros E%size_empty_inv; set_solver). lia.
  - intros x [Hx Hne]%elem_of_difference. rewrite lookup_insert_ne by set_solver. auto.
  - intros x [[Hx _]%elem_of_difference|Hx]; [auto|]. destruct (decide (x = r)) as [->|]; [auto|]. rewrite lookup_insert_ne in Hx by done. auto.
  - intros x d'. rewrite lookup_insert_Some. intros [[<- <-]|[_ ?]]; auto.
  - rewrite Hs, total_insert by done. lia.
Qed.

(** The server is elsewhere. *)
Lemma up_server id u sv : up_ok id u -> (forall r, sv = Some (Reading r) -> dataAlloc e u (req_Length r) = Allotted /\ request_ok r) ->
  (forall r, sv = Some (Waiting r) -> request_ok r) -> up_ok id (u <| u_server := sv |>).
Proof.
  intros [H1 H2 H3 H4 H5 H6 H7] Hr Hw. split; cbn; unfold RecordSettersUsingExistingGetters.const; try done.
  - assert (total_length (u_readyPeerRequests u) <= e_MaxAllocPeerRequestDataPerConn e) as Hm.
    { destruct (u_server u) as [[| |r]|]; try lia. pose proof (proj2 (H7 r (or_introl eq_refl))). lia. }
    destruct sv as [[| |r]|]; try lia. destruct (Hr r eq_refl) as [Ha _]. unfold dataAlloc in Ha. destruct (_ >? _); [done|].
    destruct (Z.leb_spec (peerRequestDataBuffered u + req_Length r) (e_MaxAllocPeerRequestDataPerConn e)); [done|done].
  - intros r [-> | ->]; [by apply Hr|by apply Hw].
Qed.

Lemma dropped_up id u r : up_ok id u ->
  up_ok id (u <| u_unreadPeerRequests := u_unreadPeerRequests u ∖ {[r]} |> <| u_readyPeerRequests := delete r (u_readyPeerRequests u) |>).
Proof.
  intros Hu. apply (up_fewer id u); try done; [|apply delete_subseteq|by left]. change (u_unreadPeerRequests u ∖ {[r]} ⊆ u_unreadPeerRequests u). set_solver.
Qed.

End Uploads.

(** ** The operations *)

Section UploadTheory.
Context {ML : Multiless} {MLL : MultilessLaws ML} {AJ : AjwernerSet} {AJL : AjwernerLaws AJ}.
Context {RB : Roaring} {RBL : RoaringLaws RB} {GL : GenericList} {GLL : GenericListLaws GL}.
Context {GH : GenericHeap} {GHL : GenericHeapLaws GH}.
Context (e : Env) (st : Storage) (Hst : e_storage e = Some st).
Notation L := (e_layout e).
Context (n : Z) (HF : layout_full L n) (Hrange : forall w l, e_range e w l ≡ₚ l).
Context (Hpick : forall w l, e_rangeRequests e w l ≡ₚ l).
Let HL : layout_ok L n := lf_ok L n HF.
Notation Inv := (Inv e st n [] true).
Notation Good := (Good e st n []).
Notation Conns := (Conns e n).
Notation up_ok := (up_ok e).

Lemma wp_on_world {A} (m : go World unit A) Q s :
  wp m (fun a w => Q a (s <| sw_world := w |>)) (sw_world s) -> wp (on_world m) Q s.
Proof using Type. clear HL. unfold wp, on_world. by destruct (m (sw_world s)). Qed.

(** Only what is of connection [id] was changed, besides the torrent. *)
Record only (id : nat) (s s' : Swarm) : Prop := {
  on_uploads j : j <> id -> sw_uploads s' !! j = sw_uploads s !! j;
  on_writes : sw_chunkWrites s' = sw_chunkWrites s;
  on_pending : sw_pendingWrites s' = sw_pendingWrites s;
  on_hashes : sw_receivedHashPieces s' = sw_receivedHashPieces s;
}.

Lemma only_refl id s : only id s s.
Proof using Type. by split. Qed.

Lemma only_trans id s1 s2 s3 : only id s1 s2 -> only id s2 s3 -> only id s1 s3.
Proof using Type. intros [] []. split; [intros j Hj; rewrite on_uploads1; auto|congruence..]. Qed.

Lemma only_world id s w : only id s (s <| sw_world := w |>).
Proof using Type. by split. Qed.

Lemma only_put id s m : (forall j, j <> id -> m !! j = sw_uploads s !! j) -> only id s (s <| sw_uploads := m |>).
Proof using Type. by split. Qed.

(** Messages may have been written, and the peer's requests changed. *)
Record moved (id : nat) (s s' : Swarm) : Prop := {
  mv_inv : Inv (sw_world s');
  mv_conns : dom (w_conns (sw_world s')) = dom (w_conns (sw_world s));
  mv_up : up_ok id (uploads_at s' id);
  mv_server : u_server (uploads_at s' id) = u_server (uploads_at s id);
  mv_unread : u_unreadPeerRequests (uploads_at s' id) ⊆ u_unreadPeerRequests (uploads_at s id);
  mv_only : only id s s';
}.

Lemma moved_refl id s : Inv (sw_world s) -> up_ok id (uploads_at s id) -> moved id s s.
Proof using Type. by split. Qed.

Lemma moved_trans id s1 s2 s3 : moved id s1 s2 -> moved id s2 s3 -> moved id s1 s3.
Proof using Type. intros [] []. split; [done|congruence|done|congruence|by etransitivity|by eapply only_trans]. Qed.

Lemma uploads_at_set s id u : uploads_at (s <| sw_uploads := <[id := u]> (sw_uploads s) |>) id = u.
Proof using Type. unfold uploads_at. change (sw_uploads (s <| sw_uploads := _ |>)) with (<[id := u]> (sw_uploads s)). by rewrite lookup_insert_eq. Qed.

(** Changing the peer's requests alone. *)
Lemma set_moved s id f : Inv (sw_world s) -> up_ok id (f (uploads_at s id)) -> u_server (f (uploads_at s id)) = u_server (uploads_at s id) ->
  u_unreadPeerRequests (f (uploads_at s id)) ⊆ u_unreadPeerRequests (uploads_at s id) ->
  wp (set_uploads id f) (fun _ s' => moved id s s' /\ uploads_at s' id = f (uploads_at s id) /\ sw_world s' = sw_world s) s.
Proof using Type.
  intros HI Hu Hs Hun. unfold set_uploads. apply wp_modify. pose proof (uploads_at_set s id (f (uploads_at s id))) as E.
  split; [|done]. split; rewrite ?E; try done. apply only_put. intros j Hj. by rewrite lookup_insert_ne.
Qed.

Definition encodable (msg : Message) : Prop := forall b, exists m, writeToBuffer msg b = Some (b ++ m).

Lemma encodable_none mt : class_of mt = CNone -> encodable (typeMessage mt).
Proof using Type. clear HL. intros Hc b. destruct (write_none (typeMessage mt) b) as (m & Em & _); [done..|]. by exists m. Qed.

Lemma encodable_request r mt : class_of mt = CRequest -> encodable (ToMsg r mt).
Proof using Type. clear HL. intros Hc b. destruct (write_request (ToMsg r mt) b) as (m & Em & _); [done..|]. by exists m. Qed.

Lemma encodable_piece r d : encodable (pieceMessage r d).
Proof using Type. clear HL. intros b. by apply write_piece. Qed.

Lemma talked_inv w w' : Inv w -> talked w w' -> Reqs e w' -> Inv w'.
Proof using HL Hst.
  intros HI Ht HR. apply (Step_inv e st n HF w); [done|]. apply (talked_step e st Hst n HF); [apply HI|apply HI|done..].
Qed.

Lemma post_wp s id msg : Inv (sw_world s) -> encodable msg ->
  wp (post id msg) (fun _ s' => exists w', s' = s <| sw_world := w' |> /\ Inv w' /\ dom (w_conns w') = dom (w_conns (sw_world s))) s.
Proof using HL Hst RBL GLL.
  intros HI Hm. unfold post. apply wp_bind, wp_gets.
  destruct (w_conns (sw_world s) !! id) as [c|] eqn:Hid; [|apply wp_ret; exists (sw_world s); split; [by destruct s|done]].
  apply wp_on_world. destruct (Hm (pc_writeBuffer c)) as [m Em]. pose proof (pr_reqs e n true _ (proj1 (inv_peers _ _ _ _ _ _ HI))) as HR.
  eapply wp_mono; [by apply (write_stays e (sw_world s) id c _ m)|]. cbn beta. intros ? w' Hs.
  pose proof (stays_asked _ _ _ _ _ Hs) as ((Ht & _) & HR' & _). exists w'. split; [done|]. split; [by apply (talked_inv (sw_world s))|apply like_dom, talked_like, Ht].
Qed.

Lemma post_moved s id msg : Inv (sw_world s) -> up_ok id (uploads_at s id) -> encodable msg ->
  wp (post id msg) (fun _ s' => moved id s s' /\ sw_uploads s' = sw_uploads s) s.
Proof using HL Hst RBL GLL.
  intros HI Hu Hm. eapply wp_mono; [by apply post_wp|]. cbn beta. intros ? s' (w' & -> & HI' & Ht). split; [|done]. by split.
Qed.

Lemma delete_moved s id r : Inv (sw_world s) -> up_ok id (uploads_at s id) ->
  wp (deletePeerRequest id r) (fun _ s' => moved id s s' /\ r ∉ u_unreadPeerRequests (uploads_at s' id)) s.
Proof using Type.
  intros HI Hu. eapply wp_mono; [apply set_moved; [done|by apply dropped_up|done|by apply subseteq_difference_l]|]. cbn beta. intros ? s' (Hm & -> & _). split; [done|].
  change (r ∉ u_unreadPeerRequests (uploads_at s id) ∖ {[r]}). intros [_ Hn]%elem_of_difference. by apply Hn, elem_of_singleton.
Qed.

Lemma reject_moved s id r : Inv (sw_world s) -> up_ok id (uploads_at s id) -> e_fast e id = true ->
  wp (reject e id r) (fun _ s' => moved id s s' /\ r ∉ u_unreadPeerRequests (uploads_at s' id)) s.
Proof using HL Hst RBL GLL.
  intros HI Hu Hf. unfold reject. rewrite Hf. cbn [negb]. apply wp_bind.
  eapply wp_mono; [apply post_moved; [done..|by apply encodable_request]|]. cbn beta. intros ? s1 [Hm1 _].
  eapply wp_mono; [apply delete_moved; apply Hm1|]. cbn beta. intros ? s2 [Hm2 Hr]. split; [by eapply moved_trans|done].
Qed.

Lemma choke_moved s id : Inv (sw_world s) -> up_ok id (uploads_at s id) ->
  wp (choke e id) (fun _ s' => moved id s s' /\ (e_fast e id = false -> u_unreadPeerRequests (uploads_at s' id) = ∅)) s.
Proof using HL Hst RBL GLL.
  intros HI Hu. unfold choke. apply wp_bind, wp_gets. destruct (u_choking (uploads_at s id)) eqn:Ec.
  { apply wp_ret. split; [by apply moved_refl|]. intros Hf. by apply (uo_choked e id _ Hu). }
  unfold set_uploads at 1. apply wp_bind, wp_modify. set (u1 := _ <| u_choking := true |>). set (s1 := s <| sw_uploads := _ |>).
  assert (uploads_at s1 id = u1) as E1 by apply uploads_at_set.
  assert (only id s s1) as Ho1 by (apply only_put; intros j Hj; by rewrite lookup_insert_ne).
  apply wp_bind. eapply wp_mono; [apply (post_wp s1); [done|by apply encodable_none]|]. cbn beta. intros more s2 (w2 & -> & HI2 & Ht2).
  set (s2 := s1 <| sw_world := w2 |>). assert (uploads_at s2 id = u1) as E2 by done.
  assert (only id s s2) as Ho2 by (apply (only_trans id s s1); [done|apply only_world]).
  apply wp_bind. unfold when. destruct (e_fast e id) eqn:Ef; cbn [negb].
  - apply wp_ret, wp_ret. split; [|done]. split; rewrite ?E2; try done. apply (up_fewer e id (uploads_at s id)); try done. congruence.
  - unfold deleteAllPeerRequests, set_uploads. apply wp_modify, wp_ret. set (u3 := _ <| u_unreadPeerRequests := ∅ |> <| u_readyPeerRequests := ∅ |>).
    set (s3 := s2 <| sw_uploads := _ |>). assert (uploads_at s3 id = u3) as E3 by apply uploads_at_set.
    assert (u_server u3 = u_server (uploads_at s id)) as Es by (change (u_server (uploads_at s2 id) = u_server (uploads_at s id)); by rewrite E2).
    split; [|intros _; by rewrite E3]. split; rewrite ?E3; try done.
    + apply (up_fewer e id (uploads_at s id)); [done|apply empty_subseteq|apply map_empty_subseteq|by right|done].
    + apply (only_trans id s s2); [done|]. apply only_put. intros j Hj. by rewrite lookup_insert_ne.
Qed.

Lemma unchoke_moved s id : Inv (sw_world s) -> up_ok id (uploads_at s id) ->
  wp (unchoke id) (fun _ s' => moved id s s' /\ u_readyPeerRequests (uploads_at s' id) = u_readyPeerRequests (uploads_at s id)) s.
Proof using HL Hst RBL GLL.
  intros HI Hu. unfold unchoke. apply wp_bind, wp_gets. destruct (u_choking (uploads_at s id)) eqn:Ec; cbn [negb].
  2:{ apply wp_ret. split; [by apply moved_refl|done]. }
  apply wp_bind. eapply wp_mono; [apply (set_moved s id); [done| |done..]|].
  - by apply (up_fewer e id (uploads_at s id)).
  - cbn beta. intros ? s1 (Hm1 & E1 & _). eapply wp_mono; [apply (post_moved s1); [apply Hm1..|by apply encodable_none]|].
    cbn beta. intros ? s2 [Hm2 E2]. split; [by eapply moved_trans|]. unfold uploads_at at 1. rewrite E2. fold (uploads_at s1 id). by rewrite E1.
Qed.

Lemma onCancel_moved s id r : Inv (sw_world s) -> up_ok id (uploads_at s id) -> wp (onPeerSentCancel e id r) (fun _ s' => moved id s s') s.
Proof using HL Hst RBL GLL.
  intros HI Hu. unfold onPeerSentCancel. apply wp_bind, wp_gets. apply wp_if; intros _; [by apply wp_ret, moved_refl|].
  destruct (e_fast e id) eqn:Ef; (eapply wp_mono; [first [by apply reject_moved|by apply delete_moved]|]); by intros ? s' [? _].
Qed.

Lemma bestReject_moved s id r : Inv (sw_world s) -> up_ok id (uploads_at s id) ->
  wp (useBestReject e id r) (fun _ s' => moved id s s' /\ r ∉ u_unreadPeerRequests (uploads_at s' id)) s.
Proof using HL Hst RBL GLL.
  intros HI Hu. unfold useBestReject. destruct (e_fast e id) eqn:Ef; [by apply reject_moved|]. apply wp_bind.
  eapply wp_mono; [by apply choke_moved|]. cbn beta. intros ? s' [Hm Hun]. apply wp_ret. split; [done|]. rewrite (Hun Ef). apply not_elem_of_empty.
Qed.

(** The torrent changed as well, in ways that keep its invariant. *)
Record ran (id : nat) (s s' : Swarm) : Prop := {
  rn_inv : Inv (sw_world s');
  rn_up : up_ok id (uploads_at s' id);
  rn_only : only id s s';
}.

Lemma moved_ran id s s' : moved id s s' -> ran id s s'.
Proof using Type. intros []. by split. Qed.

Lemma ran_trans id s1 s2 s3 : ran id s1 s2 -> ran id s2 s3 -> ran id s1 s3.
Proof using Type. intros [] []. split; try done. by eapply only_trans. Qed.

Lemma set_ran s id f : Inv (sw_world s) -> up_ok id (f (uploads_at s id)) ->
  wp (set_uploads id f) (fun _ s' => ran id s s' /\ uploads_at s' id = f (uploads_at s id) /\ sw_world s' = sw_world s) s.
Proof using Type.
  intros HI Hu. unfold set_uploads. apply wp_modify. pose proof (uploads_at_set s id (f (uploads_at s id))) as E.
  split; [|done]. split; rewrite ?E; try done. apply only_put. intros j Hj. by rewrite lookup_insert_ne.
Qed.

Lemma completed_piece w i : Inv w -> 0 <= i < 2 ^ 32 -> tb_Contains i (w_completed w) = true -> 0 <= i < n /\ pends w i = false.
Proof using HL.
  intros HI Hi Hc. pose proof Hc as Hc'. unfold tb_Contains in Hc'. rewrite rb_Contains_elems, wrapU_small in Hc' by done.
  apply bool_decide_eq_true in Hc'. pose proof (pr_completed e n true w (proj1 (inv_peers _ _ _ _ _ _ HI)) i Hc') as Hn. split; [done|].
  destruct (inv_good _ _ _ _ _ _ HI) as (m & _ & Hs). rewrite (proj1 (Hs i Hn)). unfold wants, ign. by rewrite Hc, !orb_true_r.
Qed.

Lemma onReadRequest_wp s id r : Inv (sw_world s) -> up_ok id (uploads_at s id) -> request_ok r ->
  wp (onReadRequest e id r) (fun _ s' => ran id s s') s.
Proof using HL HF Hst RBL GLL.
  intros HI Hu Hr. pose proof (moved_ran id s s (moved_refl id s HI Hu)) as Hrefl. unfold onReadRequest. apply wp_bind, wp_gets.
  assert (wp (when (e_fast e id) (reject e id r);; mret true) (fun _ s' => ran id s s') s) as Hrefuse.
  { apply wp_bind. unfold when. destruct (e_fast e id) eqn:Ef; [|by apply wp_ret, wp_ret].
    eapply wp_mono; [by apply reject_moved|]. cbn beta. intros ? s' [Hm _]. by apply wp_ret, moved_ran. }
  apply wp_if; intros Hhave; [by apply wp_ret|]. destruct (u_choking (uploads_at s id)) eqn:Ec; [done|].
  apply wp_if; intros Hq; [done|]. apply wp_if; intros Hburst.
  { destruct (e_fast e id) eqn:Ef; [|by apply wp_ret]. apply wp_bind. eapply wp_mono; [by apply reject_moved|]. cbn beta.
    intros ? s' [Hm _]. by apply wp_ret, moved_ran. }
  apply wp_bind, wp_gets. apply wp_if; intros Hh; [by apply wp_ret|]. apply negb_false_iff, andb_true_iff in Hh as [_ Hc].
  destruct (completed_piece _ _ HI (proj1 Hr) Hc) as [Hi _]. destruct (lo_chunks L n HL _ Hi) as [k Ek]. unfold pieceNumChunks in Ek.
  destruct (pieceLength L (req_Index r)) as [len|] eqn:El; [|done]. apply wp_bind. eapply wp_lift; [reflexivity|]. apply wp_if; intros _; [by apply wp_ret|].
  apply wp_bind. eapply wp_mono; [apply set_ran; [done|]|].
  - apply up_add; try done; [by rewrite Z.geb_leb, Z.leb_gt in Hq|]. intros b Eb. rewrite Eb in Hburst. cbn in Hburst. lia.
  - cbn beta. intros ? s1 (Hr1 & E1 & Ew1). apply wp_bind. unfold startPeerRequestServer. apply wp_bind, wp_gets.
    destruct (u_server (uploads_at s1 id)); [by apply wp_ret, wp_ret|].
    eapply wp_mono; [apply set_ran; [apply Hr1|]|]; [apply up_server; [apply Hr1|done|done]|]. cbn beta. intros ? s2 (Hr2 & _). apply wp_ret. by eapply ran_trans.
Qed.

(** ** The server *)

Lemma assertServed_wp s id r : r ∉ u_unreadPeerRequests (uploads_at s id) -> wp (assertServed id r) (fun _ s' => s' = s) s.
Proof using Type. intros Hr. unfold assertServed. apply wp_bind, wp_gets. rewrite bool_decide_false by done. by apply wp_ret. Qed.

Lemma serveRefused_wp s id r : Inv (sw_world s) -> up_ok id (uploads_at s id) ->
  wp (serveRefused e id r) (fun _ s' => moved id s s' /\ r ∉ u_unreadPeerRequests (uploads_at s' id)) s.
Proof using HL Hst RBL GLL.
  intros HI Hu. unfold serveRefused, when. apply wp_bind, wp_gets, wp_bind.
  assert (forall s', moved id s s' -> r ∉ u_unreadPeerRequests (uploads_at s' id) ->
    wp (assertServed id r) (fun _ s' => moved id s s' /\ r ∉ u_unreadPeerRequests (uploads_at s' id)) s') as Hend.
  { intros s' Hm Hr. eapply wp_mono; [by apply assertServed_wp|]. by intros ? ? ->. }
  case_bool_decide; [|apply wp_ret; apply Hend; [by apply moved_refl|done]].
  eapply wp_mono; [by apply bestReject_moved|]. cbn beta. intros ? s' [? ?]. by apply Hend.
Qed.

Lemma serveBegin_wp s id r : Inv (sw_world s) -> up_ok id (uploads_at s id) -> request_ok r ->
  wp (serveBegin e id r) (fun done s' => ran id s s' /\ (done = true -> moved id s s' /\ r ∉ u_unreadPeerRequests (uploads_at s' id))) s.
Proof using HL Hst RBL GLL.
  intros HI Hu Hr. unfold serveBegin. apply wp_bind, wp_gets. destruct (dataAlloc e (uploads_at s id) (req_Length r)) eqn:Ea; apply wp_bind.
  - eapply wp_mono; [by apply serveRefused_wp|]. cbn beta. intros ? s' [? ?]. apply wp_ret. split; [by apply moved_ran|done].
  - eapply wp_mono; [apply set_ran; [done|]; apply up_server; [done| |done]; by intros r' [= <-]|]. cbn beta. intros ? s' [? _]. by apply wp_ret.
  - eapply wp_mono; [apply set_ran; [done|]; apply up_server; [done|done|]; by intros r' [= <-]|]. cbn beta. intros ? s' [? _]. by apply wp_ret.
Qed.

Lemma serve_loop_wp fuel s id : Inv (sw_world s) -> up_ok id (uploads_at s id) -> is_Some (u_server (uploads_at s id)) ->
  (size (u_unreadPeerRequests (uploads_at s id)) <= fuel)%nat -> wp (serve_loop e fuel id) (fun _ s' => ran id s s') s.
Proof using HL Hst RBL GLL Hpick.
  revert s. induction fuel as [|fuel IH]; intros s HI Hu [sv Hsv] Hfuel; cbn [serve_loop]; apply wp_bind, wp_gets, wp_bind, wp_gets, wp_bind, wp_gets.
  all: assert (wp (match u_server (uploads_at s id) with None => panic tt | Some _ => set_uploads id (fun u => u <| u_server := None |>) end)
    (fun _ s' => ran id s s') s) as Hstop
    by (rewrite Hsv; eapply wp_mono; [apply set_ran; [done|by apply up_server]|by intros ? s' [? _]]).
  all: destruct (from_option pc_closed true _); [done|].
  all: destruct (head (e_rangeRequests e (sw_world s) (elements (u_unreadPeerRequests (uploads_at s id))))) as [r|] eqn:Eh; [|done].
  all: assert (r ∈ u_unreadPeerRequests (uploads_at s id)) as Hr
    by (apply elem_of_elements; rewrite <-Hpick; by apply head_Some_elem_of).
  - apply Nat.le_0_r, size_empty_inv in Hfuel. rewrite Hfuel in Hr. by apply elem_of_empty in Hr.
  - apply wp_bind. eapply wp_mono; [apply serveBegin_wp; [done..|apply (uo_length e id _ Hu); by left]|]. cbn beta. intros done s1 [Hr1 Hdone].
    destruct done; [|by apply wp_ret]. destruct (Hdone eq_refl) as [Hm1 Hnr].
    eapply wp_mono; [apply IH|].
    + apply Hm1.
    + apply Hm1.
    + rewrite (mv_server _ _ _ Hm1). eauto.
    + assert (size (u_unreadPeerRequests (uploads_at s1 id)) < size (u_unreadPeerRequests (uploads_at s id)))%nat; [|lia].
      apply subset_size. split; [apply Hm1|]. intros Hsub. by apply Hnr, Hsub.
    + cbn beta. intros ? s2 Hr2. by eapply ran_trans.
Qed.

Lemma serve_again_wp s id : Inv (sw_world s) -> up_ok id (uploads_at s id) -> is_Some (u_server (uploads_at s id)) ->
  wp (serve_again e id) (fun _ s' => ran id s s') s.
Proof using HL Hst RBL GLL Hpick. intros HI Hu Hsv. unfold serve_again. apply wp_bind, wp_gets. by apply serve_loop_wp. Qed.

(** The storage reports no error, and reads short only with one. *)
Definition read_ok (res : ReadResult) (r : Request) : Prop := rr_err res = None -> Z.of_nat (length (rr_data res)) = req_Length r.

Lemma readFailed_wp sc s id r : Inv (sw_world s) -> up_ok id (uploads_at s id) -> request_ok r -> (forall i, c_Err (sc i) = false) ->
  wp (peerRequestDataReadFailed e sc id r) (fun _ s' => ran id s s' /\ u_server (uploads_at s' id) = u_server (uploads_at s id) /\
    r ∉ u_unreadPeerRequests (uploads_at s' id)) s.
Proof using HL Hst RBL GLL MLL Hrange.
  intros HI Hu Hr Hsc. destruct (inv_good _ _ _ _ _ _ HI) as (m & HM & _). unfold peerRequestDataReadFailed. apply wp_bind, wp_gets.
  rewrite (mid_open _ _ _ _ _ _ HM). apply wp_bind, wp_on_world, wp_gets. apply wp_bind.
  assert (forall w', Inv w' -> wp (useBestReject e id r) (fun _ s' => ran id s s' /\ u_server (uploads_at s' id) = u_server (uploads_at s id) /\
    r ∉ u_unreadPeerRequests (uploads_at s' id)) (s <| sw_world := w' |>)) as Hend.
  { intros w' HI'. eapply wp_mono; [by apply (bestReject_moved (s <| sw_world := w' |>))|]. cbn beta. intros ? s' [Hm Hnr].
    split; [|split; [apply Hm|done]]. eapply ran_trans; [|by apply moved_ran]. split; [done..|apply only_world]. }
  replace (s <| sw_world := sw_world s |>) with s by (by destruct s). unfold when. destruct (tb_Contains (req_Index r) (w_completed (sw_world s))) eqn:Ec.
  - destruct (completed_piece _ _ HI (proj1 Hr) Ec) as [Hi Hp]. apply wp_bind, wp_on_world.
    eapply wp_mono; [by apply (updatePieceCompletion_wp e st Hst n [] HL Hrange true)|]. cbn beta. intros ? w' HI'. by apply wp_ret, Hend.
  - apply wp_ret. pose proof (Hend (sw_world s) HI) as H0. by replace (s <| sw_world := sw_world s |>) with s in H0 by (by destruct s).
Qed.

Lemma serveRead_wp sc res s id r : Inv (sw_world s) -> up_ok id (uploads_at s id) -> request_ok r -> (forall i, c_Err (sc i) = false) -> read_ok res r ->
  u_server (uploads_at s id) = Some Starting ->
  total_length (u_readyPeerRequests (uploads_at s id)) + req_Length r <= e_MaxAllocPeerRequestDataPerConn e ->
  wp (serveRead e sc res id r) (fun _ s' => ran id s s' /\ u_server (uploads_at s' id) = Some Starting) s.
Proof using HL Hst RBL GLL MLL Hrange.
  intros HI Hu Hr Hsc Hres Hsv Hroom. unfold serveRead, readPeerRequestData. apply wp_bind.
  assert (wp (peerRequestDataReadFailed e sc id r;; assertServed id r) (fun _ s' => ran id s s' /\ u_server (uploads_at s' id) = Some Starting) s) as Hfail.
  { apply wp_bind. eapply wp_mono; [by apply readFailed_wp|]. cbn beta. intros ? s1 (Hr1 & E1 & Hnr).
    eapply wp_mono; [by apply assertServed_wp|]. cbn beta. intros ? ? ->. split; [done|congruence]. }
  destruct (Z.eqb_spec (Z.of_nat (length (rr_data res))) (req_Length r)) as [El|El].
  2:{ destruct (rr_err res) as [b|] eqn:Ee; [by apply wp_ret|]. exfalso. apply El, Hres, Ee. }
  assert (wp ((u ← uploadsOf id;
       if negb (bool_decide (r ∈ u_unreadPeerRequests u)) then mret tt
       else set_uploads id (fun u => u <| u_unreadPeerRequests := u_unreadPeerRequests u ∖ {[r]} |>
                                       <| u_readyPeerRequests := <[r := rr_data res]> (u_readyPeerRequests u) |>));; assertServed id r)
    (fun _ s' => ran id s s' /\ u_server (uploads_at s' id) = Some Starting) s) as Hok.
  { apply wp_bind, wp_bind, wp_gets. case_bool_decide as Hin; cbn [negb].
    - eapply wp_mono; [apply set_ran; [done|by apply up_ready]|]. cbn beta. intros ? s1 (Hr1 & E1 & _).
      eapply wp_mono; [apply assertServed_wp; rewrite E1|].
      + change (r ∉ u_unreadPeerRequests (uploads_at s id) ∖ {[r]}). intros [_ Hn]%elem_of_difference. by apply Hn, elem_of_singleton.
      + cbn beta. intros ? ? ->. split; [done|]. by rewrite E1.
    - apply wp_ret. eapply wp_mono; [by apply assertServed_wp|]. cbn beta. intros ? ? ->. split; [by apply moved_ran, moved_refl|done]. }
  destruct (rr_err res) as [[]|]; by apply wp_ret.
Qed.

Lemma starting_wp s id : Inv (sw_world s) -> up_ok id (uploads_at s id) ->
  wp (set_uploads id (fun u => u <| u_server := Some Starting |>)) (fun _ s' => ran id s s' /\
    uploads_at s' id = (uploads_at s id) <| u_server := Some Starting |> /\ sw_world s' = sw_world s) s.
Proof using Type. intros HI Hu. apply (set_ran s id (fun u => u <| u_server := Some Starting |>)); [done|]. by apply up_server. Qed.

(** Whenever the server goes on, and whatever it finds. *)
Lemma server_wp sc res closing s id : Inv (sw_world s) -> up_ok id (uploads_at s id) -> (forall i, c_Err (sc i) = false) ->
  (forall r, u_server (uploads_at s id) = Some (Reading r) -> read_ok res r) ->
  wp (peerRequestServer e sc res closing id) (fun _ s' => ran id s s') s.
Proof using HL Hst RBL GLL MLL Hrange Hpick.
  intros HI Hu Hsc Hres. unfold peerRequestServer. apply wp_bind, wp_gets. destruct (u_server (uploads_at s id)) as [sv|] eqn:Es.
  2:{ by apply wp_ret, moved_ran, moved_refl. }
  assert (forall s1, ran id s s1 -> is_Some (u_server (uploads_at s1 id)) -> wp (serve_again e id) (fun _ s' => ran id s s') s1) as Hagain.
  { intros s1 Hr1 Hs1. eapply wp_mono; [apply serve_again_wp; [apply Hr1..|done]|]. cbn beta. intros ? s2 Hr2. by eapply ran_trans. }
  destruct sv as [|r|r].
  - apply Hagain; [by apply moved_ran, moved_refl|by rewrite Es].
  - pose proof (uo_server e id _ Hu r (or_intror Es)) as Hr. apply wp_bind. eapply wp_mono; [by apply starting_wp|]. cbn beta.
    intros ? s1 (Hr1 & E1 & _). apply wp_bind. destruct closing.
    + apply wp_bind. eapply wp_mono; [apply serveRefused_wp; apply Hr1|]. cbn beta. intros ? s2 [Hm2 _]. apply wp_ret. apply Hagain; [by eapply ran_trans, moved_ran|].
      rewrite (mv_server _ _ _ Hm2), E1. by eexists.
    + eapply wp_mono; [apply serveBegin_wp; [apply Hr1..|done]|]. cbn beta. intros done s2 [Hr2 Hdone]. unfold when.
      destruct done; [|apply wp_ret; by eapply ran_trans]. apply Hagain; [by eapply ran_trans|]. destruct (Hdone eq_refl) as [Hm2 _].
      rewrite (mv_server _ _ _ Hm2), E1. by eexists.
  - pose proof (uo_server e id _ Hu r (or_introl Es)) as Hr. pose proof (uo_room e id _ Hu) as Hroom. rewrite Es in Hroom.
    apply wp_bind. eapply wp_mono; [by apply starting_wp|]. cbn beta. intros ? s1 (Hr1 & E1 & _).
    apply wp_bind. eapply wp_mono; [apply (serveRead_wp sc res s1 id r); try done; [apply Hr1|apply Hr1|by apply Hres|by rewrite E1|by rewrite E1]|].
    cbn beta. intros ? s2 [Hr2 E2]. apply Hagain; [by eapply ran_trans|]. rewrite E2. by eexists.
Qed.

(** ** Uploading *)

Lemma counted_inv w w' : Inv w -> counted w w' -> Inv w'.
Proof using HL.
  intros HI Hc. destruct (inv_good _ _ _ _ _ _ HI) as (m & HM & Hs). apply (Step_inv e st n HF w); [done|]. split.
  - exists m. split; [by eapply Mid_counted|]. by destruct Hc as (h & d & ->).
  - split; [by apply (Peers_counted e n true w), HI|by apply redone_counted].
Qed.

Lemma world_moved s id w' : Inv w' -> dom (w_conns w') = dom (w_conns (sw_world s)) -> up_ok id (uploads_at s id) -> moved id s (s <| sw_world := w' |>).
Proof using Type. by split. Qed.

Lemma uploadAllowed_wp s id ahead : Inv (sw_world s) -> up_ok id (uploads_at s id) -> is_Some (w_conns (sw_world s) !! id) ->
  wp (uploadAllowed e ahead id) (fun _ s' => moved id s s' /\ sw_uploads s' = sw_uploads s) s.
Proof using HL Hst RBL MLL GLL Hrange.
  intros HI Hu [c Hid]. pose proof (moved_refl id s HI Hu) as Hrefl. unfold uploadAllowed. apply wp_bind, wp_gets. apply wp_if; intros _; [by apply wp_ret|].
  destruct (inv_good _ _ _ _ _ _ HI) as (m & HM & Hs). apply wp_bind, wp_on_world.
  eapply wp_mono; [apply (seeding_wp e st Hst n [] HL (sw_world s) m HM); intros i Hi; by apply synced_matched, Hs|]. cbn beta. intros sd w1 Hc1.
  pose proof (counted_inv _ _ HI Hc1) as HI1. assert (w_conns w1 = w_conns (sw_world s)) as Ec by (by destruct Hc1 as (h & d & ->)).
  assert (moved id s (s <| sw_world := w1 |>)) as Hm1 by (apply world_moved; [done|by rewrite Ec|done]). apply wp_if; intros _; [by apply wp_ret|].
  apply wp_bind, wp_on_world. unfold wp at 1. change (sw_world (s <| sw_world := w1 |>)) with w1. rewrite (conn_run w1 id c) by (by rewrite Ec).
  apply wp_bind, wp_on_world. destruct (inv_good _ _ _ _ _ _ HI1) as (m1 & HM1 & _).
  eapply wp_mono; [apply (peerHasWanted_wp e st Hst n HL Hrange true w1 id c); [apply (mid_info _ _ _ _ _ _ HM1)|apply HI1|by rewrite Ec]|]. cbn beta. intros b ? ->. by apply wp_ret.
Qed.

Lemma sendChunk_wp s id r : Inv (sw_world s) -> up_ok id (uploads_at s id) -> is_Some (u_readyPeerRequests (uploads_at s id) !! r) ->
  wp (sendChunk id r) (fun _ s' => moved id s s' /\
    u_readyPeerRequests (uploads_at s' id) = delete r (u_readyPeerRequests (uploads_at s id))) s.
Proof using HL Hst RBL GLL.
  intros HI Hu [d Hd]. unfold sendChunk. apply wp_bind, wp_gets, wp_bind. eapply wp_lift; [exact Hd|]. apply wp_bind.
  eapply wp_mono; [apply (set_moved s id); [done| |done..]|].
  - apply (up_fewer e id (uploads_at s id)); try done; [apply delete_subseteq|]. intros Hf Hc. by left.
  - cbn beta. intros ? s1 (Hm1 & E1 & _). rewrite (uo_data e id _ Hu r d Hd), Z.eqb_refl. cbn [negb].
    eapply wp_mono; [apply post_moved; [apply Hm1..|apply encodable_piece]|]. cbn beta. intros ? s2 [Hm2 E2].
    split; [by eapply moved_trans|]. unfold uploads_at at 1. rewrite E2. fold (uploads_at s1 id). by rewrite E1.
Qed.

(** The limiter only refuses requests above its burst size. *)
Context (reserve : nat -> Request -> reservation).
Context (Hreserve : forall k r, reserve k r = NotOK -> exists b, e_uploadBurst e = Some b /\ b < req_Length r).

Lemma upload_loop_wp fuel ahead k s id : Inv (sw_world s) -> up_ok id (uploads_at s id) -> is_Some (w_conns (sw_world s) !! id) ->
  (size (u_readyPeerRequests (uploads_at s id)) <= fuel)%nat -> wp (upload_loop e fuel ahead reserve k id) (fun _ s' => moved id s s') s.
Proof using HL Hst RBL GLL MLL Hpick Hreserve Hrange.
  revert k s. induction fuel as [|fuel IH]; intros k s HI Hu Hid Hfuel; cbn [upload_loop].
  all: apply wp_bind; eapply wp_mono; [by apply uploadAllowed_wp|]; cbn beta; intros allowed s1 [Hm1 E1].
  all: assert (uploads_at s1 id = uploads_at s id) as Eu1 by (unfold uploads_at; by rewrite E1).
  all: apply wp_if; intros _; [eapply wp_mono; [apply choke_moved; apply Hm1|]; cbn beta; intros ? s2 [Hm2 _]; by eapply moved_trans|].
  all: apply wp_bind; eapply wp_mono; [apply unchoke_moved; apply Hm1|]; cbn beta; intros more s2 [Hm2 E2].
  all: pose proof (moved_trans _ _ _ _ Hm1 Hm2) as Hm; rewrite Eu1 in E2.
  all: apply wp_if; intros _; [by apply wp_ret|]; apply wp_bind, wp_gets, wp_bind, wp_gets.
  all: destruct (head (e_rangeRequests e (sw_world s2) (elements (dom (u_readyPeerRequests (uploads_at s2 id)))))) as [r|] eqn:Eh; [|by apply wp_ret].
  all: assert (is_Some (u_readyPeerRequests (uploads_at s2 id) !! r)) as Hr
    by (apply elem_of_dom, elem_of_elements; rewrite <-Hpick; by apply head_Some_elem_of).
  - exfalso. rewrite E2 in Hr. apply Nat.le_0_r, map_size_empty_inv in Hfuel. rewrite Hfuel, lookup_empty in Hr. by destruct Hr.
  - destruct (reserve k r) eqn:Er; [|by apply wp_ret|].
    { exfalso. destruct (Hreserve k r Er) as (b & Eb & Hb). pose proof (uo_length e id _ (mv_up _ _ _ Hm) r (or_intror Hr)) as [_ Hl]. specialize (Hl b Eb). lia. }
    apply wp_bind. eapply wp_mono; [apply sendChunk_wp; [apply Hm..|done]|]. cbn beta. intros more' s3 [Hm3 E3].
    pose proof (moved_trans _ _ _ _ Hm Hm3) as Hm03. apply wp_if; intros _; [by apply wp_ret|]. eapply wp_mono; [apply (IH (S k) s3)|].
    + apply Hm3.
    + apply Hm3.
    + apply elem_of_dom. rewrite (mv_conns _ _ _ Hm03). by apply elem_of_dom.
    + destruct Hr as [d Hd]. rewrite E2 in Hd. rewrite E3, E2, map_size_delete_Some by (by rewrite Hd).
      assert (size (u_readyPeerRequests (uploads_at s id)) <> 0)%nat; [|lia]. intros E%map_size_empty_inv. by rewrite E, lookup_empty in Hd.
    + cbn beta. intros ? s4 Hm4. by eapply moved_trans.
Qed.

(** ** The writer *)

Context (now : Z) (active : bool) (Hnow : 0 < now) (Horder : Z.of_nat (length (e_pieceRequestOrder e)) = n).

(** The version 2 hashes aside, filling the write buffer goes through. *)
Lemma fillWriteBuffer_wp s id c ahead : Inv (sw_world s) -> up_ok id (uploads_at s id) -> w_conns (sw_world s) !! id = Some c ->
  pc_v2 c && HasV2 (t_info L) = false ->
  wp (fillWriteBuffer e now active ahead reserve id) (fun _ s' => moved id s s') s.
Proof using All.
  intros HI Hu Hid Hv2. unfold fillWriteBuffer. apply wp_bind, wp_on_world. unfold wp at 1. rewrite (conn_run _ id c Hid).
  replace (s <| sw_world := sw_world s |>) with s by (by destruct s). apply wp_if; intros Hlow; [by apply wp_ret, moved_refl|].
  assert (Z.of_nat (length (pc_writeBuffer c)) <= writeBufferLowWaterLen) as Hlow' by lia. apply wp_bind, wp_on_world.
  assert (requestMissingHashes e id (sw_world s) = Ret tt (sw_world s)) as Ehash.
  { unfold requestMissingHashes, shouldRequestHashes. rewrite (bind_step _ _ _ _ _ (conn_run _ id c Hid)). go_simpl.
    by rewrite <-andb_assoc, Hv2, andb_false_r. }
  unfold wp at 1. rewrite Ehash. replace (s <| sw_world := sw_world s |>) with s by (by destruct s).
  apply wp_bind, wp_on_world. eapply wp_mono; [apply (maybeUpdate_wp e st Hst n HF now active Hnow Horder (sw_world s) id c); [apply HI..|done|done]|].
  cbn beta. intros ? w1 [Ht1 HR1]. assert (moved id s (s <| sw_world := w1 |>)) as Hm1.
  { apply world_moved; [by apply (talked_inv (sw_world s))|apply like_dom, talked_like, Ht1|done]. }
  apply wp_bind. unfold upload. apply wp_bind, wp_gets. eapply wp_mono; [apply upload_loop_wp; [apply Hm1..| |done]|].
  - apply elem_of_dom. rewrite (mv_conns _ _ _ Hm1). apply elem_of_dom. by rewrite Hid.
  - cbn beta. intros ? s2 Hm2. apply wp_ret. by eapply moved_trans.
Qed.

Lemma writer_wp s id late ahead : Inv (sw_world s) -> up_ok id (uploads_at s id) ->
  (forall c, w_conns (sw_world s) !! id = Some c -> pc_v2 c && HasV2 (t_info L) = false) ->
  wp (writer e now active late ahead reserve id) (fun _ s' => moved id s s') s.
Proof using All.
  intros HI Hu Hv2. unfold writer, conn_closed. apply wp_bind, wp_gets. destruct (w_conns (sw_world s) !! id) as [c|] eqn:Hid; cbn [from_option].
  2:{ by apply wp_ret, moved_refl. }
  destruct (pc_closed c); [by apply wp_ret, moved_refl|]. apply wp_bind.
  eapply wp_mono; [by apply (fillWriteBuffer_wp s id c); [..|apply Hv2]|]. cbn beta. intros ? s1 Hm1.
  assert (is_Some (w_conns (sw_world s1) !! id)) as [c1 Hid1].
  { apply elem_of_dom. rewrite (mv_conns _ _ _ Hm1). apply elem_of_dom. by rewrite Hid. }
  apply wp_bind, wp_on_world. unfold wp at 1. rewrite (conn_run _ id c1 Hid1). replace (s1 <| sw_world := sw_world s1 |>) with s1 by (by destruct s1).
  apply wp_bind, wp_on_world. eapply wp_mono; [apply (useful_wp e st Hst n [] HL Hrange true (sw_world s1) id c1); [apply Hm1|apply Hm1|done]|].
  cbn beta. intros keep w2 Hc2. pose proof (counted_inv _ _ (mv_inv _ _ _ Hm1) Hc2) as HI2.
  assert (w_conns w2 = w_conns (sw_world s1)) as Ec2 by (by destruct Hc2 as (h & d & ->)). apply wp_bind, wp_on_world.
  assert (w_conns w2 !! id = Some c1) as Hid2 by (by rewrite Ec2). pose proof (pr_reqs e n true _ (proj1 (inv_peers _ _ _ _ _ _ HI2))) as HR2.
  eapply wp_mono; [by apply (set_unasked e w2 id c1 (fun c => c <| pc_writeBuffer := [] |>))|]. cbn beta. intros ? w3 ((Ht3 & _) & HR3 & _). apply wp_ret.
  eapply moved_trans; [exact Hm1|]. change (moved id s1 (s1 <| sw_world := w3 |>)). apply world_moved; [by apply (talked_inv w2)| |apply Hm1].
  rewrite (like_dom _ _ (talked_like _ _ Ht3)). by rewrite Ec2.
Qed.

End UploadTheory.
