(* ===== verification/MessagesTheory.v ===== *)
(** * Messages keep the state of a swarm consistent

    What holds of a torrent, the chunks that are being written and its connections between any two
    steps, and that every message and every finished write keeps it, without a panic. *)

From coqutil Require Import Datatypes.RecordSettersUsingExistingGetters.
From S2P Require Import Prelude Segments Metainfo PeerProtocol PeerProtocolTheory Types Bitmap OrderedBitmap Multiless RequestOrder RequestOrderTheory Chunks ChunksTheory World RequestState RequestTheory Pieces Requesting Upload Messages PiecesTheory PeersTheory RequestingTheory UploadTheory.
Local Open Scope Z_scope.

Section MessagesTheory.
Context {ML : Multiless} {MLL : MultilessLaws ML} {AJ : AjwernerSet} {AJL : AjwernerLaws AJ}.
Context {RB : Roaring} {RBL : RoaringLaws RB} {GL : GenericList} {GLL : GenericListLaws GL}.
Context {GH : GenericHeap} {GHL : GenericHeapLaws GH}.
Context (e : Env) (st : Storage) (Hst : e_storage e = Some st).
Notation L := (e_layout e).
Context (n : Z) (HF : layout_full L n) (Hrange : forall w l, e_range e w l ≡ₚ l).
Context (Hchunk : t_chunkSize L <> 0).
Let HL : layout_ok L n := lf_ok L n HF.
Let HN : numbered L n := lf_requests L n HF.
Notation Inv := (Inv e st n [] true).
Notation up_ok := (up_ok e).

(** The chunks that are being written of a piece. *)
Definition writing (s : Swarm) (i : Z) : nat := length (filter (fun cw => cw_index cw = i) (sw_chunkWrites s)).

Record SInv (s : Swarm) : Prop := {
  si_inv : Inv (sw_world s);
  si_up id : up_ok id (uploads_at s id);
  si_count i : default 0 (sw_pendingWrites s !! i) = Z.of_nat (writing s i);
  si_writes cw : cw ∈ sw_chunkWrites s -> 0 <= cw_index cw < n /\ pieceIndexOfRequestIndex L (cw_req cw) = Some (cw_index cw);
}.

Lemma reqs_of w : Inv w -> Reqs e w.
Proof using Type. intros HI. apply (pr_reqs e n true _ (proj1 (inv_peers _ _ _ _ _ _ HI))). Qed.

Lemma SInv_world s w' : SInv s -> Inv w' -> SInv (s <| sw_world := w' |>).
Proof using Type. intros [] HI. by split. Qed.

Lemma SInv_ran s s' id : SInv s -> ran e st n id s s' -> SInv s'.
Proof using Type.
  intros [H1 H2 H3 H4] [R1 R2 [O1 O2 O3 O4]]. split; [done| | |by rewrite O2].
  - intros j. destruct (decide (j = id)) as [->|Hj]; [done|]. unfold uploads_at. rewrite O1 by done. apply H2.
  - intros i. unfold writing. rewrite O2, O3. apply H3.
Qed.

(** An operation on the torrent alone. *)
Lemma world_sinv {A} (m : go World unit A) s : SInv s -> (Inv (sw_world s) -> wp m (fun _ w' => Inv w') (sw_world s)) ->
  wp (on_world m) (fun _ s' => SInv s') s.
Proof using Type.
  intros HS Hm. apply wp_on_world. eapply wp_mono; [apply Hm, HS|]. cbn beta. intros ? w' HI. by apply SInv_world.
Qed.

(** One that only changes requests. *)
Lemma asked_sinv {A} (m : go World unit A) s : SInv s ->
  (Reqs e (sw_world s) -> wp m (fun _ w' => asked (sw_world s) w' /\ Reqs e w') (sw_world s)) ->
  wp (on_world m) (fun _ s' => SInv s') s.
Proof using HL Hst.
  intros HS Hm. apply world_sinv; [done|]. intros HI. eapply wp_mono; [by apply Hm, reqs_of|]. cbn beta.
  intros ? w' [[Ht _] HR]. by apply (talked_inv e st Hst n HF (sw_world s)).
Qed.

Lemma stays_sinv {A} (m : go World unit A) s id c : SInv s ->
  (Reqs e (sw_world s) -> wp m (fun _ w' => stays e (sw_world s) id c w') (sw_world s)) ->
  wp (on_world m) (fun _ s' => SInv s') s.
Proof using HL Hst.
  intros HS Hm. apply asked_sinv; [done|]. intros HR. eapply wp_mono; [by apply Hm|]. cbn beta. intros ? w' Hs.
  by apply stays_asked in Hs as (? & ? & _).
Qed.

(** ** Chunks *)

Lemma pending_small ri : 0 <= ri -> exists i, pieceIndexOfRequestIndex L ri = Some i.
Proof using HN.
  intros _. unfold pieceIndexOfRequestIndex, divU. pose proof (nb_cpp _ _ HN). destruct (Z.eqb_spec (t_chunksPerRegularPiece L) 0); [lia|eauto].
Qed.

(** A received chunk is that of a request index. *)
Lemma valid_chunk r : 0 <= req_Index r -> 0 <= cs_Begin (req_Chunk r) ->
  exists err, checkValidReceiveChunk L r = Some err /\
    (err = None -> exists c ri, 0 <= req_Index r < n /\ 0 <= ri < 2 ^ 32 /\ requestIndexFromRequest L r = Some ri /\
       chunkIndexFromChunkSpec L (req_Chunk r) = Some c /\ pieceIndexOfRequestIndex L ri = Some (req_Index r)).
Proof using HN.
  intros Hi Hb. destruct (nb_check _ _ HN r Hi Hb) as (err & Ee & Herr). exists err. split; [done|]. intros E.
  destruct (Herr E) as (i & k & c & Hin & Ek & Hc & Er). destruct (nb_request _ _ HN i k c Hin Ek Hc) as (r' & Er' & Ef & Ei & Ec & _).
  rewrite Er in Er'. injection Er' as <-. pose proof (nb_cpp _ _ HN). pose proof (nb_small _ _ HN).
  destruct (nb_chunks _ _ HN i Hin) as (k' & Ek' & Hk'). rewrite Ek in Ek'. injection Ek' as <-.
  exists c, (i * t_chunksPerRegularPiece L + c). rewrite Ei. split; [done|]. split; [nia|]. split; [done|]. split; [done|].
  unfold pieceIndexOfRequestIndex, divU. destruct (Z.eqb_spec (t_chunksPerRegularPiece L) 0); [lia|].
  f_equal. rewrite Z.div_add_l by lia. rewrite Z.div_small by lia. lia.
Qed.

Lemma haveChunk_wp s r c (Q : bool -> Swarm -> Prop) : chunkIndexFromChunkSpec L (req_Chunk r) = Some c -> (forall b, Q b s) ->
  wp (haveChunk e r) Q s.
Proof using Type.
  clear HL HN. intros Ec HQ. unfold haveChunk. apply wp_bind, wp_gets. apply wp_if; intros _; [by apply wp_ret|].
  apply wp_bind, wp_on_world, wp_gets. replace (s <| sw_world := sw_world s |>) with s by (by destruct s).
  apply wp_if; intros _; [by apply wp_ret|]. apply wp_bind. eapply wp_lift; [done|]. by apply wp_gets.
Qed.

(** The wire form of a message bounds its fields. *)
Lemma message_request msg r : wf_message msg = true -> newRequestFromMessage msg = Some r ->
  0 <= req_Index r < 2 ^ 32 /\ 0 <= cs_Begin (req_Chunk r) < 2 ^ 32 /\ 0 <= req_Length r < 2 ^ 32.
Proof using Type.
  clear HL HN. intros Hwf. unfold wf_message in Hwf. cbn in Hwf. bool_to_prop. repeat match goal with H : uint 32 _ = true |- _ => apply uint_spec in H end.
  unfold newRequestFromMessage. destruct (existsb _ _); [intros [= <-]; cbn; auto|]. destruct (_ =? _); [|done]. intros [= <-]. cbn.
  split; [done|]. split; [done|]. apply wrapU_range. lia.
Qed.

(** The chunk counts as there. *)
Lemma unpended s peer i c ri : SInv s -> 0 <= i < n -> pieceIndexOfRequestIndex L ri = Some i ->
  (forall id, peer = Some id -> forall c', w_conns (sw_world s) !! id = Some c' -> ri ∉ reqs c') ->
  wp (incrementPendingWrites i;;
      on_world (unpendChunkIndex e i c);;
      p ← on_world (requestingPeer ri);
      match p with
      | None => mret tt
      | Some id' => if bool_decide (peer = Some id') then panic tt else on_world (cancel e id' ri)
      end;;
      modify (fun s => s <| sw_chunkWrites := sw_chunkWrites s ++ [{| cw_peer := peer; cw_req := ri; cw_index := i; cw_writing := false |}] |>);;
      mret true) (fun _ s' => SInv s') s.
Proof using HL Hst RBL GLL MLL.
  intros HS Hi Hri Hno. apply wp_bind, wp_modify, wp_bind, wp_on_world. set (s1 := s <| sw_pendingWrites := _ |>).
  eapply wp_mono; [apply (unpend_wp e st Hst n [] HL true (sw_world s) i c); [apply HS|done]|]. cbn beta. intros _ w1 (HI1 & d & o & Ew1).
  apply wp_bind, wp_on_world, wp_gets. set (s2 := _ <| sw_world := _ |>). apply wp_bind.
  apply (wp_mono _ (fun _ s' => exists w', s' = s1 <| sw_world := w' |> /\ Inv w')).
  - change (sw_world s2) with w1. destruct (w_requestState w1 !! ri) as [q|] eqn:Eq; cbn [fmap option_fmap option_map].
    2:{ apply wp_ret. exists w1. by destruct s. }
    destruct (rq_owner e w1 (reqs_of w1 HI1) ri q Eq) as (c1 & Hid1 & Hr1). rewrite bool_decide_false.
    2:{ intros ->. apply (Hno _ eq_refl c1); [|done]. by rewrite Ew1 in Hid1. }
    apply wp_on_world. eapply wp_mono; [by apply (cancel_wp e w1 (rq_peer q) c1 ri (reqs_of w1 HI1))|]. cbn beta.
    intros _ w2 ((Ht & _) & HR2 & _). exists w2. split; [by destruct s|]. by apply (talked_inv e st Hst n HF w1).
  - intros _ s3 (w3 & -> & HI3). apply wp_bind, wp_modify, wp_ret. destruct HS as [H1 H2 H3 H4]. split; [done|exact H2| |].
    + intros j. change (default 0 (<[i := default 0 (sw_pendingWrites s !! i) + 1]> (sw_pendingWrites s) !! j) =
        Z.of_nat (length (filter (fun cw => cw_index cw = j) (sw_chunkWrites s ++ [{| cw_peer := peer; cw_req := ri; cw_index := i; cw_writing := false |}])))).
      rewrite filter_app, length_app, filter_cons, filter_nil. pose proof (H3 j) as Hj. unfold writing in Hj. cbn [cw_index].
      destruct (decide (i = j)) as [<-|Hne]; [rewrite lookup_insert_eq|rewrite lookup_insert_ne by done]; cbn; cbn in Hj; lia.
    + intros cw [Hcw | ->%list_elem_of_singleton]%elem_of_app; [by apply H4|done].
Qed.

Lemma prologue_wp now peer msg s : SInv s -> wf_message msg = true -> Type_ msg = mtPiece ->
  (forall id, peer = Some id -> is_Some (w_conns (sw_world s) !! id)) ->
  wp (receiveChunkPrologue e now peer msg) (fun _ s' => SInv s') s.
Proof using HL HN Hst RBL GLL MLL.
  intros HS Hwf Ht Hpeer. unfold receiveChunkPrologue. apply wp_bind.
  destruct (newRequestFromMessage msg) as [r|] eqn:Er; [|unfold newRequestFromMessage in Er; by rewrite Ht in Er].
  eapply wp_lift; [reflexivity|]. apply wp_bind, wp_gets. destruct (message_request msg r Hwf Er) as (Hi & Hb & _).
  destruct (inv_good _ _ _ _ _ _ (si_inv s HS)) as (m & HM & _). rewrite (mid_info _ _ _ _ _ _ HM). apply wp_bind, wp_bind.
  destruct (valid_chunk r (proj1 Hi) (proj1 Hb)) as (err & Ee & Herr). eapply wp_lift; [done|]. apply wp_ret.
  case_bool_decide as He; [|by apply wp_ret]. destruct (Herr He) as (c & ri & Hin & Hri & Ef & Ec & Epi).
  apply wp_bind. eapply wp_lift; [done|]. apply wp_bind.
  apply (wp_mono _ (fun ok s1 => SInv s1 /\ dom (w_conns (sw_world s1)) = dom (w_conns (sw_world s)) /\
    (ok <> None -> forall id, peer = Some id -> forall c', w_conns (sw_world s1) !! id = Some c' -> ri ∉ reqs c'))).
  { destruct peer as [id|]; [|by apply wp_ret]. destruct (Hpeer id eq_refl) as [c0 Hid]. apply wp_on_world.
    eapply wp_mono; [apply (checkReceivedChunk_wp e (sw_world s) id c0 ri); [apply reqs_of, HS|done|done]|]. cbn beta.
    intros ok w1 ((Ht1 & _) & HR1 & Hans). split; [apply SInv_world; [done|]; apply (talked_inv e st Hst n HF (sw_world s)); [apply HS|done|done]|].
    split; [apply like_dom, talked_like, Ht1|]. intros Hok ? [= <-]. by apply Hans. }
  intros ok s1 (HS1 & Hdom & Hno). destruct ok as [b|]; [|by apply wp_ret]. specialize (Hno ltac:(done)). apply wp_bind.
  apply (haveChunk_wp s1 r c); [done|]. intros have. destruct have; [by apply wp_ret|]. apply wp_bind.
  apply (wp_mono _ (fun _ s2 => SInv s2 /\ forall id, peer = Some id -> forall c', w_conns (sw_world s2) !! id = Some c' -> ri ∉ reqs c')).
  - destruct peer as [id|]; [|by apply wp_ret]. destruct (Hpeer id eq_refl) as [c0 Hid].
    assert (is_Some (w_conns (sw_world s1) !! id)) as [c1 Hid1] by (apply elem_of_dom; rewrite Hdom; apply elem_of_dom; eauto).
    apply wp_on_world. unfold wp. rewrite (set_conn_run _ id c1 _ Hid1). split.
    + apply SInv_world; [done|]. pose proof (set_stays e (sw_world s1) id c1 (fun c => c <| pc_lastUsefulChunkReceived := now |>) (reqs_of _ (si_inv s1 HS1)) Hid1) as Hs.
      unfold wp in Hs. rewrite (set_conn_run _ id c1 _ Hid1) in Hs. destruct (stays_asked _ _ _ _ _ (Hs ltac:(done))) as ((Ht1 & _) & HR1 & _).
      apply (talked_inv e st Hst n HF (sw_world s1)); [apply HS1|done|done].
    + intros ? [= <-] c' Hc'. change (<[id := c1 <| pc_lastUsefulChunkReceived := now |>]> (w_conns (sw_world s1)) !! id = Some c') in Hc'.
      rewrite lookup_insert_eq in Hc'. injection Hc' as <-. exact (Hno id eq_refl c1 Hid1).
  - intros _ s2 [HS2 Hno2].
    pose proof (unpended s2 peer (req_Index r) c ri HS2 Hin Epi Hno2) as Hu. unfold wp in Hu |- *. revert Hu. go_simpl. rewrite Ec. done.
Qed.

Lemma needsUpdate_wp s peer reason : SInv s -> wp (peerNeedsUpdate peer reason) (fun _ s' => SInv s') s.
Proof using HL Hst.
  intros HS. unfold peerNeedsUpdate. destruct peer as [id|]; [|by apply wp_ret]. apply wp_bind, wp_gets.
  destruct (w_conns (sw_world s) !! id) as [c|] eqn:Hid; [|by apply wp_ret]. apply (stays_sinv _ s id c); [done|]. intros HR. by apply onNeed_wp.
Qed.

(** The write of a chunk of piece [i] is done with. *)
Lemma decrement_wp s k cw : SInv s -> sw_chunkWrites s !! k = Some cw ->
  wp (decrementPendingWrites (cw_index cw)) (fun _ s' => SInv s' /\ sw_world s' = sw_world s) (s <| sw_chunkWrites := delete k (sw_chunkWrites s) |>).
Proof using Type.
  clear HL HN. intros [H1 H2 H3 H4] Hk. unfold decrementPendingWrites. apply wp_bind, wp_gets. cbn -[delete].
  set (cws := sw_chunkWrites s) in *. set (i := cw_index cw) in *.
  assert (forall j, length (filter (fun cw => cw_index cw = j) cws) =
    (length (filter (fun cw => cw_index cw = j) (delete k cws)) + if decide (i = j) then 1 else 0)%nat) as Hlen.
  { intros j. rewrite <-(take_drop_middle cws k cw Hk) at 1. rewrite delete_take_drop, !filter_app, filter_cons. fold i.
    destruct (decide (i = j)); rewrite !length_app; cbn; lia. }
  unfold writing in H3. fold cws in H3. assert (default 0 (sw_pendingWrites s !! i) >= 1) as Hpos.
  { rewrite H3, Hlen, decide_True by done. lia. }
  destruct (Z.ltb_spec (default 0 (sw_pendingWrites s !! i) - 1) 0); [lia|]. apply wp_modify. split; [|done]. split; [done|done| |].
  - intros j. change (default 0 (<[i := default 0 (sw_pendingWrites s !! i) - 1]> (sw_pendingWrites s) !! j) =
      Z.of_nat (length (filter (fun cw => cw_index cw = j) (delete k cws)))).
    pose proof (H3 j) as Hj. rewrite Hlen in Hj. destruct (decide (i = j)) as [<-|Hne]; [|by rewrite lookup_insert_ne, Hj, Nat.add_0_r by done].
    rewrite lookup_insert_eq, Hj. cbn -[delete]. lia.
  - cbn -[delete]. intros cw' Hcw'. apply H4. fold cws. rewrite delete_take_drop in Hcw'.
    rewrite <-(take_drop_middle cws k cw Hk). apply elem_of_app in Hcw' as [Hx|Hx]; apply elem_of_app; [by left|]. right. by right.
Qed.

Lemma writeChunk_wp s k : SInv s -> (k < length (sw_chunkWrites s))%nat -> wp (writeChunk k) (fun _ s' => SInv s') s.
Proof using Type.
  clear HL HN. intros HS Hk. destruct (lookup_lt_is_Some_2 _ _ Hk) as [cw Ek]. unfold writeChunk. apply wp_bind, wp_gets, wp_bind. eapply wp_lift; [done|].
  apply wp_bind, wp_gets. apply wp_if; intros _; [apply wp_bind, wp_modify; eapply wp_mono; [by apply decrement_wp|by intros ? s' [? _]]|].
  apply wp_modify. destruct HS as [H1 H2 H3 H4]. set (cw' := cw <| cw_writing := true |>). split; [done|done| |].
  - intros j. etrans; [exact (H3 j)|]. f_equal. unfold writing. cbn -[insert]. cbv [RecordSettersUsingExistingGetters.const].
    rewrite <-(take_drop_middle _ _ _ Ek) at 1. rewrite (insert_take_drop _ _ _ Hk), !filter_app, !filter_cons, !length_app.
    change (cw_index cw') with (cw_index cw). by destruct (decide (cw_index cw = j)).
  - cbn -[insert]. cbv [RecordSettersUsingExistingGetters.const]. intros x Hx. rewrite (insert_take_drop _ _ _ Hk) in Hx.
    apply elem_of_app in Hx as [Hx|[-> |Hx]%elem_of_cons]; [|apply (H4 cw); by eapply list_elem_of_lookup_2|];
      apply H4; rewrite <-(take_drop_middle _ _ _ Ek); apply elem_of_app; [by left|right; by right].
Qed.

Lemma chunkWritten_wp s k failed : SInv s -> (k < length (sw_chunkWrites s))%nat -> (failed = true -> e_userOnWriteChunkErr e = true) ->
  wp (chunkWritten e k failed) (fun _ s' => SInv s') s.
Proof using HL Hst RBL GLL MLL Hrange.
  intros HS Hk Hf. destruct (lookup_lt_is_Some_2 _ _ Hk) as [cw Ek]. destruct (si_writes s HS cw) as [Hi Epi]; [by eapply list_elem_of_lookup_2|].
  pose proof (decrement_wp s k cw HS Ek) as Hdec. unfold chunkWritten. apply wp_bind, wp_gets, wp_bind. eapply wp_lift; [done|].
  unfold when. apply wp_if; intros _; [|by apply wp_ret]. apply wp_bind, wp_modify. unfold receiveChunkEpilogue. apply wp_bind.
  eapply wp_mono; [exact Hdec|]. cbn beta. intros _ s1 [HS1 _]. destruct failed.
  - apply wp_bind. unfold pendRequest. apply (wp_mono _ (fun _ s' => SInv s')).
    + apply wp_bind. eapply wp_lift; [done|]. apply world_sinv; [done|]. intros HI. eapply wp_mono; [by apply (pend_wp e st Hst n [] HL true)|by intros ? w' [? _]].
    + intros _ s2 HS2. apply wp_bind. eapply wp_mono; [by apply needsUpdate_wp|]. cbn beta. intros _ s3 HS3. unfold onWriteChunkErr.
      rewrite Hf by done. by apply wp_ret.
  - apply wp_bind, wp_on_world. unfold wp at 1. rewrite (allDirty_run e n HL) by done.
    replace (s1 <| sw_world := sw_world s1 |>) with s1 by (by destruct s1). apply wp_bind, wp_gets. unfold when. apply wp_if; intros _; [|by apply wp_ret].
    apply wp_bind. eapply wp_mono; [apply world_sinv; [done|]; intros HI; eapply wp_mono; [by apply (queuePieceCheck_wp e st Hst n [] HL Hrange true)|by intros ? w' [? _]]|].
    cbn beta. intros _ s2 HS2. by apply wp_ret.
Qed.

(** ** The messages *)

Context (onReadExtendedMsg : nat -> Z -> bytes -> go Swarm unit bool).

(** What a peer may send; of a peer that had all pieces, of version 2 hashes and of extensions see
    elsewhere. *)
Record sendable (s : Swarm) (id : nat) (msg : Message) : Prop := {
  se_wf : wf_message msg = true;
  se_bitfield : Type_ msg = mtBitfield -> Z.of_nat (length (Bitfield msg)) mod 8 = 0;
  se_have c : w_conns (sw_world s) !! id = Some c -> Type_ msg = mtHaveNone -> pc_peerSentHaveAll c = false;
  se_extended : Type_ msg <> mtExtended;
  se_hashes c : w_conns (sw_world s) !! id = Some c -> Type_ msg = mtHashes -> hashRequestFromMessage msg ∉ pc_sentHashRequests c;
  se_hashRequest : Type_ msg = mtHashRequest -> HasV2 (t_info L) = false;
}.

Lemma step_sinv {A} (m : go World unit A) s : SInv s ->
  (Good e st n [] (sw_world s) -> Conns e n true (sw_world s) -> wp m (fun _ w' => Step e st n (sw_world s) w') (sw_world s)) ->
  wp (on_world m) (fun _ s' => SInv s') s.
Proof using HL.
  intros HS Hm. apply world_sinv; [done|]. intros HI. eapply wp_mono; [apply Hm; apply HI|]. cbn beta. intros ? w' Hs.
  by apply (Step_inv e st n HF (sw_world s)).
Qed.

Lemma then_ret {A B} (m : go Swarm unit A) (b : B) s : wp m (fun _ s' => SInv s') s -> wp (m;; mret b) (fun _ s' => SInv s') s.
Proof using Type. intros Hm. apply wp_bind. eapply wp_mono; [exact Hm|]. cbn beta. intros ? s' HS. by apply wp_ret. Qed.

Lemma deleteAll_wp w id c reason : Reqs e w -> w_conns w !! id = Some c -> wp (deleteAllRequests e id reason) (fun _ w' => asked w w' /\ Reqs e w') w.
Proof using Hrange RBL GLL.
  clear HL HN. intros HR Hid. unfold deleteAllRequests. apply wp_bind. unfold wp at 1. rewrite (conn_run w id c Hid). unfold when.
  apply wp_if; intros _; [|apply wp_ret; split; [apply asked_refl|done]]. apply wp_bind.
  eapply wp_mono; [by apply (deleteRequests_wp e w id c)|]. cbn beta. intros _ w1 (Ha1 & HR1 & _).
  eapply wp_mono; [by apply tellIdle_wp|]. cbn beta. intros _ w2 [Ha2 HR2]. split; [by eapply asked_trans|done].
Qed.

Lemma wp_conn {A} s id c (f : PeerConn -> go Swarm unit A) Q : w_conns (sw_world s) !! id = Some c -> wp (f c) Q s ->
  wp (c ← on_world (conn id); f c) Q s.
Proof using Type.
  clear HL HN. intros Hid Hf. apply wp_bind, wp_on_world. unfold wp at 1. rewrite (conn_run _ id c Hid). by destruct s.
Qed.

Lemma onChoke_wp s id c : SInv s -> w_conns (sw_world s) !! id = Some c -> wp (onChoke e id) (fun _ s' => SInv s') s.
Proof using HL Hst Hrange RBL GLL.
  intros HS Hid. unfold onChoke. apply (wp_conn s id c); [done|]. destruct (pc_peerChoking c); [by apply wp_ret|]. apply wp_bind.
  apply (wp_mono _ (fun _ s1 => SInv s1 /\ is_Some (w_conns (sw_world s1) !! id))).
  - unfold when. apply wp_if; intros _; [|apply wp_ret; eauto]. apply wp_on_world.
    eapply wp_mono; [apply (deleteAll_wp (sw_world s) id c); [apply reqs_of, HS|done]|]. cbn beta. intros _ w1 [[Ht _] HR]. split.
    + apply SInv_world; [done|]. apply (talked_inv e st Hst n HF (sw_world s)); [apply HS|done|done].
    + destruct (talked_conn _ _ id c Ht Hid) as (c1 & Hid1 & _). cbn. by exists c1.
  - intros _ s1 [HS1 [c1 Hid1]]. apply (stays_sinv _ s1 id c1); [done|]. intros HR. by apply set_stays.
Qed.

Lemma onUnchoke_wp s id c : SInv s -> w_conns (sw_world s) !! id = Some c -> wp (onUnchoke e id) (fun _ s' => SInv s') s.
Proof using HL HN Hst RBL GLL.
  intros HS Hid. unfold onUnchoke. apply (wp_conn s id c); [done|]. destruct (pc_peerChoking c); cbn [negb]; [|by apply wp_ret]. apply wp_bind, wp_on_world.
  pose proof (reqs_of _ (si_inv s HS)) as HR.
  eapply wp_mono; [by apply (set_unasked e (sw_world s) id c)|]. cbn beta. intros _ w1 ((Ht & _) & HR1 & _ & E1).
  assert (SInv (s <| sw_world := w1 |>)) as HS1 by (apply SInv_world; [done|]; apply (talked_inv e st Hst n HF (sw_world s)); [apply HS|done|done]).
  assert (w_conns w1 !! id = Some (c <| pc_peerChoking := false |>)) as Hid1 by (by rewrite E1, lookup_insert_eq).
  apply wp_bind. assert (is_Some (mapM (pieceIndexOfRequestIndex L) (ob_Iterate (pc_Requests c)))) as [l El].
  { apply mapM_is_Some_2, Forall_forall. intros r Hr. pose proof (reqs_range e c r (rq_conns e _ HR id c Hid) Hr).
    destruct (pending_small r) as [i Ei]; [lia|]. by exists i. }
  eapply wp_lift; [done|]. apply wp_bind, wp_gets. unfold when. apply wp_if; intros _; [|by apply wp_ret].
  eapply (stays_sinv _ _ id); [done|]. intros HR'. eapply onNeed_wp; [done|exact Hid1].
Qed.

Lemma onReject_wp s id c msg : SInv s -> w_conns (sw_world s) !! id = Some c -> Type_ msg = mtReject ->
  wp (onReject e id msg) (fun _ s' => SInv s') s.
Proof using HL Hst RBL GLL Hchunk.
  intros HS Hid Ht. unfold onReject. apply wp_bind. destruct (newRequestFromMessage msg) as [r|] eqn:Er; [|unfold newRequestFromMessage in Er; by rewrite Ht in Er].
  eapply wp_lift; [reflexivity|]. apply wp_bind.
  unfold requestIndexFromRequest, divU. destruct (Z.eqb_spec (t_chunkSize L) 0); [done|]. eapply wp_lift; [reflexivity|].
  apply asked_sinv; [done|]. intros HR. apply (remoteRejected_wp e _ id c); [done|done|]. apply wrapU_range. lia.
Qed.

Lemma onAllowedFast_wp s id c i : SInv s -> w_conns (sw_world s) !! id = Some c -> wp (onAllowedFast id i) (fun _ s' => SInv s') s.
Proof using HL Hst.
  intros HS Hid. unfold onAllowedFast. apply wp_bind, wp_on_world. pose proof (reqs_of _ (si_inv s HS)) as HR.
  eapply wp_mono; [by apply (set_unasked e (sw_world s) id c)|]. cbn beta. intros _ w1 ((Ht & _) & HR1 & _ & E1).
  assert (w_conns w1 !! id = Some (c <| pc_peerAllowedFast := tb_Add i (pc_peerAllowedFast c) |>)) as Hid1 by (by rewrite E1, lookup_insert_eq).
  eapply (stays_sinv _ _ id); [apply SInv_world; [done|]; apply (talked_inv e st Hst n HF (sw_world s)); [apply HS|done|done]|].
  intros HR'. eapply onNeed_wp; [done|exact Hid1].
Qed.

Lemma onMessage_wp now sc stored s id c msg : SInv s -> w_conns (sw_world s) !! id = Some c -> pc_closed c = false -> sendable s id msg ->
  wp (onMessage e onReadExtendedMsg now sc stored id msg) (fun _ s' => SInv s') s.
Proof using HL HN HF Hst Hrange RBL GLL MLL Hchunk.
  intros HS Hid Hc [Hwf Hbf Hhave Hext Hhashes Hhr]. unfold onMessage.
  assert (forall f, unasked c (f c) -> wp (on_world (set_conn id f);; mret true) (fun _ s' => SInv s') s) as Hset.
  { intros f Hf. apply then_ret, (stays_sinv _ s id c); [done|]. intros HR. by apply set_stays. }
  assert (forall r, newRequestFromMessage msg = Some r -> request_ok r) as Hreq.
  { intros r Hr. destruct (message_request msg r Hwf Hr) as (Hi & _ & Hl). split; [done|apply Hl]. }
  destruct (Z.eqb_spec (Type_ msg) mtChoke); [by eapply then_ret, onChoke_wp|].
  destruct (Z.eqb_spec (Type_ msg) mtUnchoke); [by eapply then_ret, onUnchoke_wp|].
  destruct (Z.eqb_spec (Type_ msg) mtInterested); [by apply Hset|].
  destruct (Z.eqb_spec (Type_ msg) mtNotInterested); [by apply Hset|].
  destruct (Z.eqb_spec (Type_ msg) mtHave).
  { apply step_sinv; [done|]. intros. eapply wp_mono; [by eapply (peerSentHave_wp e st Hst n HF Hrange)|naive_solver]. }
  destruct (Z.eqb_spec (Type_ msg) mtBitfield).
  { apply then_ret, step_sinv; [done|]. intros. eapply (bitfield_wp e st Hst n HF Hrange); eauto. }
  destruct (Z.eqb_spec (Type_ msg) mtRequest) as [Et|].
  { apply wp_bind. destruct (newRequestFromMessage msg) as [r|] eqn:Er; [|unfold newRequestFromMessage in Er; by rewrite Et in Er].
    eapply wp_lift; [reflexivity|]. eapply wp_mono; [apply (onReadRequest_wp e st Hst n HF); [apply HS|apply HS|by apply Hreq]|]. cbn beta. intros ? s'. by apply SInv_ran. }
  destruct (Z.eqb_spec (Type_ msg) mtPiece).
  { apply prologue_wp; [done..|]. intros ? [= <-]. by rewrite Hid. }
  destruct (Z.eqb_spec (Type_ msg) mtCancel) as [Et|].
  { apply wp_bind. destruct (newRequestFromMessage msg) as [r|] eqn:Er; [|unfold newRequestFromMessage in Er; by rewrite Et in Er].
    eapply wp_lift; [reflexivity|]. apply then_ret. eapply wp_mono; [apply (onCancel_moved e st Hst n HF); apply HS|]. cbn beta.
    intros ? s' Hm. by eapply SInv_ran, moved_ran. }
  destruct (Z.eqb_spec (Type_ msg) mtPort); [by apply wp_ret|].
  destruct (Z.eqb_spec (Type_ msg) mtSuggest).
  { apply then_ret, (stays_sinv _ s id c); [done|]. intros HR. by apply onNeed_wp. }
  destruct (Z.eqb_spec (Type_ msg) mtHaveAll).
  { apply then_ret, step_sinv; [done|]. intros. by eapply (haveAll_wp e st Hst n HF Hrange). }
  destruct (Z.eqb_spec (Type_ msg) mtHaveNone).
  { apply then_ret, step_sinv; [done|]. intros. eapply (haveNone_wp e st Hst n HF Hrange); eauto. }
  destruct (Z.eqb_spec (Type_ msg) mtReject); [by eapply onReject_wp|].
  destruct (Z.eqb_spec (Type_ msg) mtAllowedFast); [by eapply then_ret, onAllowedFast_wp|].
  destruct (Z.eqb_spec (Type_ msg) mtExtended); [done|].
  destruct (Z.eqb_spec (Type_ msg) mtHashes).
  { unfold onReadHashes. apply (wp_conn s id c); [done|]. rewrite bool_decide_false by eauto. by apply wp_ret. }
  destruct (Z.eqb_spec (Type_ msg) mtHashRequest).
  { unfold onHashRequest. apply wp_bind, wp_gets. rewrite Hhr, orb_true_r by done. by apply wp_ret. }
  destruct (_ =? _); by apply wp_ret.
Qed.

Lemma readMessage_wp now sc stored s id msg : SInv s -> (Keepalive msg = false -> sendable s id msg) ->
  wp (readMessage e onReadExtendedMsg now sc stored id msg) (fun _ s' => SInv s') s.
Proof using HL HN HF Hst Hrange RBL GLL MLL Hchunk.
  intros HS Hm. unfold readMessage, conn_closed. apply wp_bind, wp_gets, wp_bind, wp_gets.
  destruct (w_conns (sw_world s) !! id) as [c|] eqn:Hid; cbn [from_option]; [|rewrite orb_true_r; by apply wp_ret].
  apply wp_if; intros Hc; [by apply wp_ret|]. apply orb_false_iff in Hc as [_ Hc]. destruct (Keepalive msg) eqn:Hk; [by apply wp_ret|].
  apply wp_if; intros _; [by apply wp_ret|]. eapply onMessage_wp; eauto.
Qed.

(** What the peer sends next is such a message, or not a message. *)
Definition receivable (pool : option bytes) (s : Swarm) (id : nat) (input : bytes) : Prop :=
  forall m rest, Decode {| MaxLength := mul32 4 (wrapU 32 (Z.max (t_chunkSize L) defaultChunkSize)); Pool := pool |} zeroMessage input = (None, m, rest) ->
  Type_ m <> mtExtended /\ (Type_ m = mtHashRequest -> HasV2 (t_info L) = false) /\
  forall c, w_conns (sw_world s) !! id = Some c -> (Type_ m = mtHaveNone -> pc_peerSentHaveAll c = false) /\
    (Type_ m = mtHashes -> hashRequestFromMessage m ∉ pc_sentHashRequests c).

Lemma read_wp now sc stored pool s id input : SInv s -> receivable pool s id input ->
  wp (mainReadLoop e onReadExtendedMsg now sc stored pool id input) (fun _ s' => SInv s') s.
Proof using HL HN HF Hst Hrange RBL GLL MLL Hchunk.
  intros HS Hin. unfold mainReadLoop. set (d := {| MaxLength := _; Pool := _ |}). destruct (Decode d zeroMessage input) as [[err m] rest] eqn:Ed. cbn [fst snd].
  apply wp_bind. apply (wp_mono _ (fun _ s' => SInv s')).
  - destruct err as [x|]; [by apply wp_ret|]. destruct (Hin m rest Ed) as (H1 & H2 & H3). apply readMessage_wp; [done|]. intros Hk.
    pose proof (Decode_inv _ _ _ _ Ed) as (Hwf & _). split; try done.
    + intros Ht. apply (Decode_bitfield _ _ _ _ Ed Hk). by rewrite Ht.
    + intros c Hid. by apply (H3 c Hid).
    + intros c Hid. by apply (H3 c Hid).
  - intros more s1 HS1. destruct more; [by apply wp_ret|]. apply then_ret, step_sinv; [done|]. intros. by apply (drop_any e st Hst n HF Hrange).
Qed.

End MessagesTheory.
