(* ===== verification/PiecesHistory.v ===== *)
(** * The life of a torrent

    Setting the info, and what can happen to a torrent until it is closed, over the invariant of
    [PiecesTheory].  Disallowing and allowing the download of data, which can break the invariant,
    are left out. *)

From coqutil Require Import Datatypes.RecordSettersUsingExistingGetters.
From stdpp Require Import fin_maps.
From S2P Require Import Prelude Segments Metainfo PeerProtocol Types Bitmap OrderedBitmap Multiless RequestOrder RequestOrderTheory Chunks World RequestState RequestTheory Pieces PiecesTheory PeersTheory.
Local Open Scope Z_scope.

(** ** All that can happen *)

Inductive event {AJ : AjwernerSet} {RB : Roaring} {GL : GenericList} :=
| SetPiecePriority (i p : Z)
| SetFilePriority (k p : Z)
| SetReaders (rs : list (Z * Z))
| MoveReader (k : nat) (to : Z * Z)
| UpdateCompletion (sc : Z -> Completion) (i : Z)
| ChunkWritten (i c : Z)
| ChunkForgotten (i c : Z)
| VerifyPiece (i : Z)
| HasherRuns (k : nat) (correct : bool)
| NewConn (id : nat) (c : PeerConn) (worst : World -> option nat)
| PeerHave (id : nat) (i : Z)
| PeerBitfield (id : nat) (bf : list bool)
| PeerHaveAll (id : nat)
| PeerHaveNone (id : nat)
| PeerInterest (id : nat) (interested : bool)
| CloseConn (id : nat)
| DropConn (id : nat)
| AddWebSeed (u : nat) (usable : bool)
| WebSeedLacksFile (u : nat) (k : Z)
| AllowUpload
| DisallowUpload.

Section Torrent.
Context {ML : Multiless} {MLL : MultilessLaws ML} {AJ : AjwernerSet} {AJL : AjwernerLaws AJ}.
Context {RB : Roaring} {RBL : RoaringLaws RB} {GL : GenericList} {GLL : GenericListLaws GL}.
Context (e : Env).
Notation L := (e_layout e).

Definition do_event (ev : event) : go World unit unit :=
  match ev with
  | SetPiecePriority i p => SetPriority e i p
  | SetFilePriority k p => File_SetPriority e k p
  | SetReaders rs => readersChanged e rs
  | MoveReader k to => posChanged e k to
  | UpdateCompletion sc i => updatePieceCompletion e sc i;; mret tt
  | ChunkWritten i c => unpendChunkIndex e i c
  | ChunkForgotten i c => pendChunkIndex e i c
  | VerifyPiece i => queuePieceCheck e i;; mret tt
  | HasherRuns k correct => hasher_step e k correct
  | NewConn id c worst => addPeerConn e worst id c;; mret tt
  | PeerHave id i => peerSentHave e id i;; mret tt
  | PeerBitfield id bf => peerSentBitfield e id bf;; mret tt
  | PeerHaveAll id => onPeerHasAllPieces e id
  | PeerHaveNone id => peerSentHaveNone e id
  | PeerInterest id interested => set_conn id (fun c => c <| pc_peerInterested := interested |>)
  | CloseConn id => close e id
  | DropConn id => dropConnection e id
  | AddWebSeed u usable => addWebSeed e u usable;; mret tt
  | WebSeedLacksFile u k => removeFilePieces e u k
  | AllowUpload => AllowDataUpload e
  | DisallowUpload => DisallowDataUpload e
  end.

(** What the callers see to: indexes are in range, the storage answers, and messages are those of
    open connections; and, what they do not all see to: no connection is dropped for a pending
    piece that the storage reports as complete, no peer has none after it had all pieces, and a web
    seed that lacks a file was not closed. *)
Definition allowed (n : Z) (w : World) (ev : event) : Prop :=
  match ev with
  | SetPiecePriority i _ | ChunkWritten i _ | ChunkForgotten i _ | VerifyPiece i => 0 <= i < n
  | SetFilePriority k _ => 0 <= k < Z.of_nat (length (t_files L))
  | SetReaders rs => Forall (range_ok n) rs
  | MoveReader k to => range_ok n to /\ (k < length (w_readers w))%nat
  | UpdateCompletion sc i => 0 <= i < n /\ c_Err (sc i) = false /\
      (e_DropMutuallyCompletePeers e = true -> i ∉ rb_elems (w_pending w))
  | HasherRuns k _ => (k < length (w_hashers w))%nat
  | NewConn id c worst => w_conns w !! id = None /\ new_conn c /\
      Z.of_nat (S (size (w_conns w)) + size (w_webSeeds w)) < 2 ^ 31 /\
      Z.of_nat (size (w_conns w)) <= e_maxEstablishedConns e /\
      forall w' v, worst w' = Some v -> is_Some (w_conns w' !! v)
  | PeerHave id _ | PeerHaveAll id => exists c, w_conns w !! id = Some c /\ pc_closed c = false
  | PeerBitfield id bf => (exists c, w_conns w !! id = Some c /\ pc_closed c = false) /\ Z.of_nat (length bf) mod 8 = 0
  | PeerHaveNone id => exists c, w_conns w !! id = Some c /\ pc_closed c = false /\ pc_peerSentHaveAll c = false
  | PeerInterest id _ => is_Some (w_conns w !! id)
  | CloseConn _ | DropConn _ | AllowUpload | DisallowUpload => True
  | AddWebSeed u _ => Z.of_nat (size (w_conns w) + S (size (w_webSeeds w))) < 2 ^ 31
  | WebSeedLacksFile u k => 0 <= k < Z.of_nat (length (t_files L)) /\
      exists s, w_webSeeds w !! u = Some s /\ ws_closed s = false
  end.

(** A torrent whose info was just set; of the order other torrents may share, it has no piece.
    Connections may have told of pieces before, but no more of pieces the torrent turns out not to
    have than leave room for a missing one. *)
Record fresh (st : Storage) (n : Z) (w : World) : Prop := {
  fr_pieces : Z.of_nat (length (w_pieces w)) = n;
  fr_zero s : s ∈ w_pieces w -> ps_hashing s = false /\ ps_marking s = false /\ ps_relativeAvailability s = 0;
  fr_hash i : 0 <= i < n -> hash_known e w i = true;
  fr_files : length (w_filePrio w) = length (t_files L);
  fr_readers : Readers 0 w;
  fr_pending : rb_elems (w_pending w) = ∅;
  fr_queued : rb_elems (w_queued w) = ∅;
  fr_open : w_closed w = false;
  fr_hashers : w_hashers w = [] /\ w_activePieceHashes w = 0 /\ w_storageReaders w = 0;
  fr_info : w_haveInfo w = true;
  fr_peers : Peers e 0 false w;
  fr_order pro : w_orders w !! clientPieceRequestOrderKey e st = Some pro ->
    exists m, refines (HL := ajwerner_btree_laws AJ AJL) pro m /\
      (forall k s, m !! k = Some s -> key_InfoHash k <> e_shortHash e) /\ (s_Capacity st = None -> m = ∅);
}.

Context (st : Storage) (Hst : e_storage e = Some st) (n : Z) (HF : layout_full L n).
Context (Hrange : forall w l, e_range e w l ≡ₚ l).

(** An operation on the peers. *)
Lemma step_event {A} (m : go World unit A) w :
  Inv e st n [] true w -> (Good e st n [] w -> Conns e n true w -> wp m (fun _ w' => Step e st n w w') w) ->
  wp (m;; mret tt) (fun _ w' => Inv e st n [] true w') w.
Proof using HF.
  intros HI Hm. apply wp_bind. eapply wp_mono; [apply Hm; apply HI|]. cbn beta. intros ? w' Hs. apply wp_ret.
  by apply (Step_inv e st n HF w).
Qed.

Lemma step_event' (m : go World unit unit) w :
  Inv e st n [] true w -> (Good e st n [] w -> Conns e n true w -> wp m (fun _ w' => Step e st n w w') w) ->
  wp m (fun _ w' => Inv e st n [] true w') w.
Proof using HF.
  intros HI Hm. eapply wp_mono; [apply Hm; apply HI|]. cbn beta. intros ? w' Hs. by apply (Step_inv e st n HF w).
Qed.

Lemma event_inv w ev : Inv e st n [] true w -> allowed n w ev -> wp (do_event ev) (fun _ w' => Inv e st n [] true w') w.
Proof using Hst HF Hrange MLL.
  pose proof (lf_ok _ _ HF) as HL. intros HI Ha. destruct ev; cbn in Ha |- *.
  - by apply (SetPriority_wp e st Hst n [] HL true).
  - by apply (File_SetPriority_wp e st Hst n [] HL true).
  - by apply (readersChanged_wp e st Hst n [] HL true).
  - destruct Ha. by apply (posChanged_wp e st Hst n [] HL Hrange true).
  - destruct Ha as (Hi & Hsc & Hd). apply wp_bind.
    eapply wp_mono; [apply (updatePieceCompletion_wp e st Hst n [] HL Hrange true sc w i HI Hi Hsc)|by intros ? w' HI'; apply wp_ret].
    intros Hdrop. apply not_true_is_false. rewrite (pends_elem e n HL w i Hi). by apply Hd.
  - eapply wp_mono; [by apply (unpend_wp e st Hst n [] HL true)|by intros ? w' [? _]].
  - eapply wp_mono; [by apply (pend_wp e st Hst n [] HL true)|by intros ? w' [? _]].
  - apply wp_bind. eapply wp_mono; [by apply (queuePieceCheck_wp e st Hst n [] HL Hrange true)|]. intros r w' [HI' _]. by apply wp_ret.
  - by apply (hasher_step_wp e st Hst n [] HL Hrange true).
  - destruct Ha as (Hid & Hnew & Hfew & Hmax & Hw). apply step_event; [done|]. intros. by apply (addPeerConn_wp e st Hst n HF Hrange).
  - destruct Ha as (c & Hid & Hc). apply step_event; [done|]. intros. eapply wp_mono; [by eapply (peerSentHave_wp e st Hst n HF Hrange)|naive_solver].
  - destruct Ha as [(c & Hid & Hc) Hl]. apply step_event; [done|]. intros. by eapply (bitfield_wp e st Hst n HF Hrange).
  - destruct Ha as (c & Hid & Hc). apply step_event'; [done|]. intros. by eapply (haveAll_wp e st Hst n HF Hrange).
  - destruct Ha as (c & Hid & Hc & Hh). apply step_event'; [done|]. intros. by eapply (haveNone_wp e st Hst n HF Hrange).
  - destruct Ha as [c Hid]. apply step_event'; [done|]. intros. eapply wp_mono; [by eapply (set_conn_step e st Hst n HF Hrange)|naive_solver].
  - apply step_event'; [done|]. intros. by apply (close_any e st Hst n HF Hrange).
  - apply step_event'; [done|]. intros. by apply (drop_any e st Hst n HF Hrange).
  - apply step_event; [done|]. intros. by apply (addWebSeed_wp e st Hst n HF Hrange).
  - destruct Ha as (Hk & s & Hu & Hs). apply step_event'; [done|]. intros. by eapply (removeFilePieces_wp e st Hst n HF Hrange).
  - by apply (AllowUpload_wp e st Hst n [] HL Hrange true).
  - by apply (DisallowUpload_wp e st Hst n [] HL Hrange true).
Qed.

Lemma init_inv w : fresh st n w ->
  wp (initPieceRequestOrder e) (fun _ w' => w_pieces w' = w_pieces w /\ Inv e st 0 (w_pieces w) false w') w.
Proof using Hst.
  intros [Hp Hz Hh Hf HR Hpe Hq Ho (Hhs & Ha & Hr) Hinf HP Hord]. unfold initPieceRequestOrder. rewrite Hst.
  assert (forall w' m, (exists o, w' = w <| w_orders := o |>) -> Ord e st 0 w' m -> Inv e st 0 (w_pieces w) false w') as Hinv.
  { intros w' m [o ->] HO. split.
    - exists m. split; [|intros; lia]. split; [split; [done|by rewrite drop_0|done]|done| |intros; lia|done|done].
      intros x. cbn. rewrite Hpe. by intros ?%elem_of_empty.
    - apply (Peers_frame e 0 false w); try done; eauto.
    - exact HR.
    - cbn. rewrite Hhs. split; [constructor|by intros ? ?%elem_of_nil|intros; lia|intros; lia|done|].
      intros x. cbn. rewrite Hq. by intros ?%elem_of_empty.
    - cbn. by rewrite Hhs.
    - cbn. rewrite Hhs. cbn. lia. }
  apply wp_bind, wp_gets. destruct (w_orders w !! clientPieceRequestOrderKey e st) as [pro|] eqn:Ep.
  - apply wp_ret. split; [done|]. destruct (Hord pro eq_refl) as (m & Hr' & Hk & Hown).
    apply (Hinv w m); [exists (w_orders w); by destruct w|]. split; [by exists pro| |intros; lia|].
    + intros k s Hks Hhash. by apply Hk in Hks.
    + intros k s Hc Hm. by rewrite (Hown Hc), lookup_empty in Hm.
  - apply wp_modify. split; [done|]. eapply (Hinv _ ∅); [by eexists|]. split; [|by intros k s ?%lookup_empty_Some|intros; lia|by intros k s _ ?%lookup_empty_Some].
    eexists. split; [apply lookup_insert_eq|]. apply new_refines.
Qed.

Lemma onSetInfo_wp sc w :
  fresh st n w -> (forall i, c_Err (sc i) = false) ->
  wp (onSetInfo e sc) (fun _ w' => Inv e st n [] true w') w.
Proof using Hst HF MLL Hrange.
  intros Hfr Hsc. pose proof (lf_ok _ _ HF) as HL. pose proof (lo_range _ _ HL) as Hn. unfold onSetInfo.
  apply wp_bind. eapply wp_mono; [by apply init_inv|]. intros [] w1 [Ep HI]. apply wp_bind, wp_gets.
  rewrite Ep, (fr_pieces _ _ _ Hfr). apply wp_bind, wp_modify.
  set (w1' := w1 <| w_requestPieceStates := _ |> <| w_requestPieceStatesGen := _ |>).
  assert (talked w1 w1') as Ha1.
  { exists (w_conns w1), (w_requestState w1), (w_requestPieceStates w1'), (w_requestPieceStatesGen w1').
    split; [done|apply like_refl]. }
  assert (layout_ok L 0) as HL0 by (apply (layout_prefix L n); [done|lia]).
  apply (Inv_fewer e st Hst 0 (w_pieces w) HL0 false w1 w1') in HI;
    [|done|done|by apply (Reqs_frame e w1); [..|apply (pr_reqs e 0 false w1), HI]]. apply wp_bind.
  eapply wp_mono; [apply (wp_for_each _ _ (fun pre w' => Inv e st (Z.of_nat (length pre)) (List.skipn (length pre) (w_pieces w)) false w'))|].
  - by rewrite drop_0.
  - intros pre x post w' Hl HI'.
    assert (seqZ 0 n !! length pre = Some x) as Ex by (rewrite Hl; by rewrite list_lookup_middle).
    apply lookup_seqZ in Ex as [-> Hlt]. assert (length pre < length (w_pieces w))%nat as Hlt' by (pose proof (fr_pieces _ _ _ Hfr); lia).
    destruct (lookup_lt_is_Some_2 _ _ Hlt') as [s0 Es]. rewrite (drop_S _ s0) in HI' by done.
    destruct (inv_good _ _ _ _ _ _ HI') as (m & HM & _).
    assert (0 <= Z.of_nat (length pre) < n) as Hb by lia.
    destruct (wf_next e n (Z.of_nat (length pre)) Hb s0 _ w' (mid_wf _ _ _ _ _ _ HM)) as [_ Eps].
    destruct (fr_zero _ _ _ Hfr s0) as (E1 & E2 & E3); [by eapply list_elem_of_lookup_2|].
    rewrite length_app. cbn [length]. replace (Z.of_nat (length pre + 1)) with (Z.of_nat (length pre) + 1) by lia.
    rewrite Nat.add_1_r. eapply (onSetInfo_piece_wp e st Hst n HL Hrange); [done|by apply HF|exact HI'|done..| |done].
    pose proof (fr_hash _ _ _ Hfr (Z.of_nat (length pre)) Hb) as Hh. unfold hash_known in *. rewrite Eps.
    replace (ps w (Z.of_nat (length pre))) with s0 in Hh; [done|]. unfold ps, at_.
    destruct (Z.ltb_spec (Z.of_nat (length pre)) 0); [lia|]. by rewrite Nat2Z.id, Es.
  - cbn beta. intros [] w2 HI2. rewrite length_seqZ in HI2. rewrite Z2Nat.id in HI2 by lia.
    rewrite drop_ge in HI2 by (pose proof (fr_pieces _ _ _ Hfr); lia).
    apply wp_bind, wp_modify. replace (w2 <| w_requestState := _ |>) with w2.
    2:{ destruct (inv_peers _ _ _ _ _ _ HI2) as [_ HO2]. destruct (HO2 eq_refl) as (_ & _ & E).
        transitivity (w2 <| w_requestState := w_requestState w2 |>); [by destruct w2|by rewrite E]. }
    apply wp_bind. eapply wp_mono; [by apply (startPieceHashers_wp e st Hst n [] HL Hrange false)|]. cbn beta. intros ok w3 [-> HI3].
    cbn [negb]. unfold connIds, seedIds. apply wp_bind, wp_gets, wp_bind.
    eapply wp_mono; [apply (trim_all_wp e st Hst n HF Hrange w3); [apply HI3|apply HI3|]|].
    { intros id Hid. by rewrite Hrange, elem_of_elements, elem_of_dom. }
    cbn beta. intros ? w4 [(HG4 & HC4 & Hr4) HO4]. destruct (HO4 eq_refl) as (_ & Hseeds & _). apply wp_bind, wp_gets.
    eapply wp_mono; [apply (seeds_info_wp e st Hst n HF Hrange w4 _ HG4 HC4)|].
    { rewrite Hrange. apply NoDup_elements. }
    { intros u. rewrite Hrange, elem_of_elements, elem_of_dom. intros [s Hu]. exists s. split; [done|]. by apply (Hseeds u). }
    cbn beta. intros ? w5 (HG5 & HC5 & Hr5). apply (peers_inv e st n HF false w3 w5); [done| |done..].
    by eapply redone_trans.
Qed.

Inductive reachable (sc : Z -> Completion) (w0 : World) : World -> Prop :=
| reach_start w : onSetInfo e sc w0 = Ret tt w -> reachable sc w0 w
| reach_step w ev w' : reachable sc w0 w -> allowed n w ev -> do_event ev w = Ret tt w' -> reachable sc w0 w'.

Lemma wp_Ret {S E A} (m : go S E A) Q s a s' : wp m Q s -> m s = Ret a s' -> Q a s'.
Proof. unfold wp. intros H E'. by rewrite E' in H. Qed.

Lemma wp_returns {S E A} (m : go S E A) Q s : wp m Q s -> exists a s', m s = Ret a s'.
Proof. unfold wp. destruct (m s) as [a s'| |]; [eauto|done..]. Qed.

Lemma reachable_inv sc w0 w :
  fresh st n w0 -> (forall i, c_Err (sc i) = false) -> reachable sc w0 w -> Inv e st n [] true w.
Proof using Hst HF MLL Hrange.
  intros Hfr Hsc. induction 1 as [w Hw|w ev w' _ IH Ha He].
  - by apply (wp_Ret _ _ _ _ _ (onSetInfo_wp sc w0 Hfr Hsc) Hw).
  - by apply (wp_Ret _ _ _ _ _ (event_inv w ev IH Ha) He).
Qed.
End Torrent.
