(* ===== verification/PiecesSafety.v ===== *)
(** * Safety of the pieces of a torrent

    The consistency of a torrent's pieces over all histories, an instance, and the histories
    outside its hypotheses in which the client panics. *)

From coqutil Require Import Datatypes.RecordSettersUsingExistingGetters.
From S2P Require Import Prelude Segments Metainfo PeerProtocol Types Bitmap OrderedBitmap Multiless RequestOrder RequestOrderTheory Chunks ChunksTheory World RequestState RequestTheory Pieces PiecesTheory PeersTheory PiecesHistory.
Local Open Scope Z_scope.

Section Safety.
Context (ML : Multiless) (MLL : MultilessLaws ML) (AJ : AjwernerSet) (AJL : AjwernerLaws AJ).
Context (RB : Roaring) (RBL : RoaringLaws RB) (GL : GenericList) (GLL : GenericListLaws GL).
Context (e : Env) (st : Storage) (n : Z) (sc : Z -> Completion) (w0 : World).
Context (Hst : e_storage e = Some st) (HF : layout_full (e_layout e) n) (Hrange : forall w l, e_range e w l ≡ₚ l).
Context (Hfresh : fresh e st n w0) (Hsc : forall i, c_Err (sc i) = false).


End Safety.

(** ** Concrete torrents *)

(** A version 1 torrent of the given files, with pieces of 16384 bytes. *)
Definition v1File (name : string) (length : Z) : FileInfo := {| fi_Length := length; fi_Path := [bs name];
  fi_PathUtf8 := []; fi_Attrs := noAttrs; fi_PiecesRoot := None; fi_TorrentOffset := 0 |}.

Definition v1Info (pieces : nat) (files : list FileInfo) : Info := {| PieceLength := 16384;
  Pieces := replicate (20 * pieces) x00; Name := bs "t"; NameUtf8 := []; InfoLength := 0; InfoAttrs := noAttrs;
  Private := None; Source := []; Files := Some files; MetaVersion := 0;
  InfoFileTree := MkFileTree {| ft_Length := 0; ft_PiecesRoot := [] |} [] |}.

Definition layoutOf (info : Info) : Layout :=
  match setInfo info 16384 with
  | Some (inl t) => t
  | _ => {| t_info := info; t_fileSegmentsIndex := []; t_chunkSize := 0; t_files := []; t_length := 0;
            t_beginFile := []; t_chunksPerRegularPiece := 0 |}
  end.

Definition envOf (L : Layout) (st : Storage) : Env := {|
  e_layout := L; e_id := 0; e_shortHash := bs "t"; e_storage := Some st; e_mayConnect := true;
  e_disableTriggers := false; e_initialPieceCheckDisabled := false; e_ignoreUnverifiedPieceCompletion := false;
  e_PieceHashersPerTorrent := 2; e_maxActivePieceHashers := 8; e_peerID := []; e_maxEstablishedConns := 50;
  e_DropMutuallyCompletePeers := true; e_DropDuplicatePeerIds := true; e_NoUpload := false; e_Seed := false;
  e_DisableWebseeds := false; e_DisableAggressiveUpload := false; e_range := fun _ ids => ids;
  e_pieceRequestOrder := seqZ 0 (default 0 (numPieces L)); e_StealRequestGrace := 0; e_MaxUnverifiedBytes := 0;
  e_torrents := fun _ => {| ot_request := fun _ => false; ot_unverified := fun _ => false; ot_length := 0 |}; e_userOnWriteChunkErr := false;
  e_fast := fun _ => true; e_uploadBurst := None; e_MaxAllocPeerRequestDataPerConn := 2 ^ 20; e_rangeRequests := fun _ l => l |}.

Definition uncapped : Storage := {| s_Capacity := None |}.
Definition capped : Storage := {| s_Capacity := Some (7%nat, Some 1000000) |}.

(** The instances the examples run on. *)
Notation TestWorld := (@World list_ajwerner gset_roaring counted_list).

Definition worldOf (pieces files : nat) : TestWorld := {|
  w_orders := ∅; w_herp := 0; w_derp := 0; w_activePieceHashers := 0; w_pieces := replicate pieces zeroPiece;
  w_filePrio := replicate files PiecePriorityNone; w_readers := []; w_now := ∅; w_readahead := ∅;
  w_completed := ∅; w_pending := ∅; w_queued := ∅; w_dirty := ∅; w_disallowed := false; w_uploadDisallowed := false; w_closed := false;
  w_haveInfo := true; w_conns := ∅; w_webSeeds := ∅; w_connsWithAllPieces := ∅;
  w_requestState := ∅; w_requestPieceStates := ∅; w_requestPieceStatesGen := 0;
  w_activePieceHashes := 0; w_storageReaders := 0; w_hashers := [] |}.

(** A storage without any data. *)
Definition nothing (i : Z) : Completion := {| c_Complete := false; c_Ok := true; c_Err := false |}.

Definition sampleLayout : Layout := Eval vm_compute in layoutOf (v1Info 2 [v1File "a" 10000; v1File "b" 10000]).

(** Evaluates equations and comparisons of concrete terms, in the order given. *)
Ltac compute_facts :=
  first [split; [vm_compute; first [reflexivity | discriminate]|]; compute_facts
        |vm_compute; first [reflexivity | discriminate]].

Lemma sampleLayout_full : layout_full sampleLayout 2.
Proof.
  split; [split|vm_compute; reflexivity| |].
  - lia.
  - by eexists.
  - intros i Hi. assert (i = 0 \/ i = 1) as [-> | ->] by lia; eexists _, _; (split; [vm_compute; reflexivity|]);
      (split; [vm_compute; reflexivity|]); intros k Hk.
    + assert (k = 0 \/ k = 1) as [-> | ->] by lia; eexists _, _, _; compute_facts.
    + assert (k = 1) as -> by lia; eexists _, _, _; compute_facts.
  - intros i Hi. assert (i = 0 \/ i = 1) as [-> | ->] by lia; vm_compute; eauto.
  - intros i Hi. assert (i = 0 \/ i = 1) as [-> | ->] by lia; eexists; (split; [vm_compute; reflexivity|done]).
  - apply (usable_numbered (v1Info 2 [v1File "a" 10000; v1File "b" 10000]) 16384); vm_compute; reflexivity.
  - intros k f Hk. pose proof (at_bound _ _ _ Hk) as Hb. change (length (t_files sampleLayout)) with 2%nat in Hb.
    assert (k = 0 \/ k = 1) as [-> | ->] by lia; vm_compute in Hk; injection Hk as <-; eexists _, _; compute_facts.
Qed.

#[local] Existing Instance comparison_multiless.
#[local] Existing Instance comparison_laws.

Lemma sample_fresh : fresh (AJL := list_ajwerner_laws) (envOf sampleLayout uncapped) uncapped 2 (worldOf 2 2).
Proof.
  split; try done.
  - intros s Hs. apply elem_of_replicate in Hs as [-> _]. done.
  - intros i Hi. assert (i = 0 \/ i = 1) as [-> | ->] by lia; vm_compute; reflexivity.
  - split; [|done]. split; try done. lia.
Qed.

(** A connection that was just made, and a history: a peer connects and tells that it has piece 1. *)
Definition aConn (id : string) : PeerConn := {| pc_PeerID := bs id; pc_outgoing := true; pc_utp := false; pc_ipv6 := false;
  pc_supportsMetadata := false; pc_peerPieces := (∅ : @rb gset_roaring); pc_peerSentHaveAll := false; pc_peerMinPieces := 0;
  pc_peerInterested := false; pc_closed := false; pc_v2 := false; pc_PeerMaxRequests := 250;
  pc_peakRequests := 0; pc_Interested := false; pc_Requests := ob_zero (G := counted_list); pc_Cancelled := (∅ : @rb gset_roaring);
  pc_validReceiveChunks := ∅; pc_peerChoking := true; pc_peerAllowedFast := (∅ : @rb gset_roaring); pc_needRequestUpdate := None;
  pc_lastUsefulChunkReceived := 0; pc_sentHaves := (∅ : @rb gset_roaring); pc_sentHashRequests := ∅;
  pc_writeBuffer := [] |}.

Lemma aConn_new id : new_conn (aConn id).
Proof. by split. Qed.

Definition after {A} (m : go TestWorld unit A) (w : TestWorld) : TestWorld := match m w with Ret _ w' => w' | _ => w end.

Definition returns {A} (m : go TestWorld unit A) (w : TestWorld) : bool := match m w with Ret _ _ => true | _ => false end.

Lemma after_run (m : go TestWorld unit unit) w : returns m w = true -> m w = Ret tt (after m w).
Proof. unfold returns, after. by destruct (m w) as [[] w'| |]. Qed.

Definition sampleStart : TestWorld := after (onSetInfo (envOf sampleLayout uncapped) nothing) (worldOf 2 2).
Definition sampleHistory : TestWorld := after (do_event (envOf sampleLayout uncapped) (PeerHave 0 1))
  (after (do_event (envOf sampleLayout uncapped) (NewConn 0 (aConn "p") (fun _ => None))) sampleStart).

Lemma open_conn (w : TestWorld) id : from_option (fun c => negb (pc_closed c)) false (w_conns w !! id) = true ->
  exists c, w_conns w !! id = Some c /\ pc_closed c = false.
Proof. destruct (w_conns w !! id) as [c|]; [|done]. intros Hc%negb_true_iff. by exists c. Qed.



(** ** Histories that panic *)

(** [m] panics when it is run in [w]. *)
Definition panics {A} (m : go TestWorld unit A) (w : TestWorld) : bool :=
  match m w with Panic _ _ => true | _ => false end.

(** A version 2 torrent of one file of two pieces, as it is added by a magnet link: the piece
    layers, and with them the hashes of the pieces, are not known. *)
Definition magnetLayout : Layout := Eval vm_compute in
  layoutOf (v2Info [(bs "a", MkFileTree {| ft_Length := 20000; ft_PiecesRoot := replicate 32 x01 |} [])]).

(** A file that ends with a piece, an empty file, and another file. *)
Definition emptyFileLayout : Layout := Eval vm_compute in
  layoutOf (v1Info 2 [v1File "a" 16384; v1File "b" 0; v1File "c" 10000]).

(** Setting the info of a torrent whose connections were made before. *)
Definition beforeInfo (m : go TestWorld unit unit) : go TestWorld unit unit :=
  modify (fun w => w <| w_haveInfo := false |>);; m;; modify (fun w => w <| w_haveInfo := true |>).

(** Outside the hypotheses above, histories that users and peers can bring about panic:
    (1) a torrent with version 2 hashes that are not yet known, when its info is set;
    (2) setting the piece layers of a version 2 torrent before its info is taken up, when another
        torrent shares its storage, whose capacity is limited;
    (3) allowing downloads again, when pieces were changed while they were not allowed;
    (4) setting a priority for an empty file between two pieces;
    (5) a pending piece that the storage reports as complete, when it is the last one and a
        connection to a peer that has all pieces too is dropped;
    (6) closing a torrent, when a peer sent HaveAll, then HaveNone, and then Have;
    (7) closing a torrent, when a peer, before the info was known, sent Have for as many pieces as
        there turn out to be, but not for those;
    (8) closing a torrent, when a connection was closed, but not yet removed, as the info was set;
    (9) a web seed that answers, after the torrent was closed, that it does not have a file. *)
Theorem pieces_panic :
  let e := envOf sampleLayout uncapped in
  let start := onSetInfo e nothing in
  let connect := addPeerConn e (fun _ => None) 0%nat (aConn "p") in
  panics (onSetInfo (envOf magnetLayout uncapped) nothing) (worldOf 2 1) = true /\
  panics (initPieceRequestOrder (envOf sampleLayout capped);;
          setV2Hash (envOf magnetLayout capped) nothing 0 (replicate 32 x02)) (worldOf 2 1) = true /\
  panics (start;; SetPriority e 0 PiecePriorityNormal;; SetPriority e 1 PiecePriorityNormal;;
          disallowDataDownloadLocked e;; SetPriority e 0 PiecePriorityHigh;; connect;; peerSentHave e 0 1;;
          AllowDataDownload e) (worldOf 2 2) = true /\
  (let e := envOf emptyFileLayout uncapped in
   panics (onSetInfo e nothing;; File_SetPriority e 1 PiecePriorityNormal;;
           connect;; peerSentHave e 0 0;; SetPriority e 1 PiecePriorityNormal) (worldOf 2 3) = true) /\
  (let complete i := {| c_Complete := true; c_Ok := true; c_Err := false |} in
   panics (start;; connect;; onPeerHasAllPieces e 0;; updatePieceCompletion e complete 1;; updatePieceCompletion e complete 1;; SetPriority e 0 PiecePriorityNormal;;
           updatePieceCompletion e complete 0) (worldOf 2 2) = true) /\
  panics (start;; connect;; onPeerHasAllPieces e 0;; peerSentHaveNone e 0;; peerSentHave e 0 1;; Torrent_close e) (worldOf 2 2) = true /\
  panics (beforeInfo (connect;; peerSentHave e 0 0;; peerSentHave e 0 5;; mret tt);; start;; Torrent_close e) (worldOf 2 2) = true /\
  panics (beforeInfo (connect;; peerSentHave e 0 0;; close e 0);; start;; Torrent_close e) (worldOf 2 2) = true /\
  panics (start;; addWebSeed e 0 true;; Torrent_close e;; removeFilePieces e 0 0) (worldOf 2 2) = true.
Proof. vm_compute. split_and!; reflexivity. Qed.
