(* ===== verification/Swarm.v ===== *)
(** * The life of a swarm

    What can happen to a torrent with its connections: what [PiecesHistory] has, the
    bytes that peers send, chunks from web seeds and their way to the storage, the goroutines that
    read data for peers, and the writers of the connections.  Disallowing and allowing the download
    of data, and closing the torrent, are left out. *)

From coqutil Require Import Datatypes.RecordSettersUsingExistingGetters.
From S2P Require Import Prelude Segments Metainfo PeerProtocol PeerProtocolTheory Types Bitmap OrderedBitmap Multiless RequestOrder RequestOrderTheory Chunks ChunksTheory World RequestState RequestTheory Pieces Requesting Upload Messages PiecesTheory PeersTheory RequestingTheory UploadTheory MessagesTheory PiecesHistory PiecesSafety.
Local Open Scope Z_scope.

Inductive swarmEvent {AJ : AjwernerSet} {RB : Roaring} {GL : GenericList} :=
| OfTorrent (ev : event)
| PeerSends (id : nat) (now : Z) (sc : Z -> Completion) (stored : Z -> option bytes) (pool : option bytes) (input : bytes)
| SeedSends (now : Z) (msg : Message)
| WriteBegins (k : nat)
| WriteDone (k : nat) (failed : bool)
| ServerRuns (id : nat) (sc : Z -> Completion) (res : ReadResult) (closing : bool)
| WriterRuns (id : nat) (now : Z) (active late : bool) (ahead : nat -> bool) (reserve : nat -> Request -> reservation).

Section Swarm.
Context {ML : Multiless} {AJ : AjwernerSet} {AJL : AjwernerLaws AJ} {RB : Roaring} {RBL : RoaringLaws RB}.
Context {GL : GenericList} {GLL : GenericListLaws GL} {GH : GenericHeap}.
Context (e : Env) (onReadExtendedMsg : nat -> Z -> bytes -> go Swarm unit bool).
Notation L := (e_layout e).

Definition run_swarmEvent (ev : swarmEvent) : go Swarm unit unit :=
  match ev with
  | OfTorrent ev => on_world (do_event e ev)
  | PeerSends id now sc stored pool input => mainReadLoop e onReadExtendedMsg now sc stored pool id input;; mret tt
  | SeedSends now msg => receiveChunkPrologue e now None msg;; mret tt
  | WriteBegins k => writeChunk k
  | WriteDone k failed => chunkWritten e k failed
  | ServerRuns id sc res closing => peerRequestServer e sc res closing id
  | WriterRuns id now active late ahead reserve => writer e now active late ahead reserve id;; mret tt
  end.

(** [PeerConn.onClose]: the peer's requests are deleted as its connection is closed.  Closing is an
    operation on the torrent, so that this is done for the connections closed since [w]. *)
Definition onClose (w : World) : go Swarm unit unit :=
  modify (fun s => s <| sw_uploads := map_imap (fun id u => Some
    (if negb (from_option pc_closed true (w_conns w !! id)) && from_option pc_closed true (w_conns (sw_world s) !! id)
     then u <| u_unreadPeerRequests := ∅ |> <| u_readyPeerRequests := ∅ |> else u)) (sw_uploads s) |>).

Definition do_swarmEvent (ev : swarmEvent) : go Swarm unit unit :=
  w ← gets sw_world;
  run_swarmEvent ev;;
  onClose w.

(** What the callers see to, and the libraries: connections are new, the storage answers as many
    bytes as were asked for unless there is an error, and the limiter only refuses what is above its
    burst size.  Of what they do not see to: writes that fail are up to a handler, peers do not send
    hashes or ask for them, and what [receivable] says. *)
Definition swarmAllowed (n : Z) (s : Swarm) (ev : swarmEvent) : Prop :=
  match ev with
  | OfTorrent ev => allowed e n (sw_world s) ev /\
      match ev with NewConn id _ _ => sw_uploads s !! id = None | _ => True end
  | PeerSends id _ _ _ pool input => receivable e pool s id input
  | SeedSends _ msg => wf_message msg = true /\ Type_ msg = mtPiece
  | WriteBegins k => (k < length (sw_chunkWrites s))%nat
  | WriteDone k failed => (k < length (sw_chunkWrites s))%nat /\ (failed = true -> e_userOnWriteChunkErr e = true)
  | ServerRuns id sc res _ => (forall i, c_Err (sc i) = false) /\
      forall r, u_server (uploads_at s id) = Some (Reading r) -> read_ok res r
  | WriterRuns id now _ _ _ reserve => 0 < now /\
      (forall k r, reserve k r = NotOK -> exists b, e_uploadBurst e = Some b /\ b < req_Length r) /\
      forall c, w_conns (sw_world s) !! id = Some c -> pc_v2 c && HasV2 (t_info L) = false
  end.

(** No chunk is being written yet; connections may have asked for some. *)
Record freshSwarm (s : Swarm) : Prop := {
  fs_up id : up_ok e id (uploads_at s id);
  fs_writes : sw_chunkWrites s = [] /\ sw_pendingWrites s = ∅;
}.

Inductive swarmReachable (n : Z) (sc : Z -> Completion) (s0 : Swarm) : Swarm -> Prop :=
| swarm_start s : on_world (onSetInfo e sc) s0 = Ret tt s -> swarmReachable n sc s0 s
| swarm_step s ev s' : swarmReachable n sc s0 s -> swarmAllowed n s ev -> do_swarmEvent ev s = Ret tt s' ->
    swarmReachable n sc s0 s'.
End Swarm.

Section Invariant.
Context {ML : Multiless} {MLL : MultilessLaws ML} {AJ : AjwernerSet} {AJL : AjwernerLaws AJ}.
Context {RB : Roaring} {RBL : RoaringLaws RB} {GL : GenericList} {GLL : GenericListLaws GL}.
Context {GH : GenericHeap} {GHL : GenericHeapLaws GH}.
Context (e : Env) (ext : nat -> Z -> bytes -> go Swarm unit bool) (st : Storage) (n : Z) (sc : Z -> Completion) (s0 : Swarm).
Context (Hst : e_storage e = Some st) (HF : layout_full (e_layout e) n) (Hrange : forall w l, e_range e w l ≡ₚ l).
Context (Hpick : forall w l, e_rangeRequests e w l ≡ₚ l) (Horder : Z.of_nat (length (e_pieceRequestOrder e)) = n).
Context (Hchunk : t_chunkSize (e_layout e) <> 0).
Context (Hfresh : fresh e st n (sw_world s0)) (Hswarm : freshSwarm e s0) (Hsc : forall i, c_Err (sc i) = false).
Notation SInv := (SInv e st n).

Lemma onClose_wp w s : SInv s -> wp (onClose w) (fun _ s' => SInv s') s.
Proof using.
  clear. intros [H1 H2 H3 H4]. apply wp_modify. split; try done. intros id. specialize (H2 id).
  unfold uploads_at in *. cbn. cbv [RecordSettersUsingExistingGetters.const]. rewrite map_lookup_imap.
  destruct (sw_uploads s !! id) as [u|]; [|done]. cbn in *. destruct (_ && _); [|done].
  apply (up_fewer e id u); [done|apply empty_subseteq|apply map_empty_subseteq|by right|done].
Qed.

Lemma runEvent_wp s ev : SInv s -> swarmAllowed e n s ev -> wp (run_swarmEvent e ext ev) (fun _ s' => SInv s') s.
Proof using All.
  intros HS Ha. destruct ev; cbn in Ha |- *.
  - apply world_sinv; [done|]. intros HI. apply (event_inv e st Hst n HF Hrange); [done|apply Ha].
  - apply then_ret. by apply (read_wp e st Hst n HF Hrange Hchunk).
  - destruct Ha. apply then_ret. by apply (prologue_wp e st Hst n HF).
  - by apply (writeChunk_wp e st n).
  - destruct Ha. by apply (chunkWritten_wp e st Hst n HF Hrange).
  - destruct Ha as [Hs Hr]. eapply wp_mono; [apply (server_wp e st Hst n HF Hrange Hpick); [apply HS|apply HS|done|done]|]. cbn beta. intros ? s'. by apply SInv_ran.
  - destruct Ha as (Hnow & Hres & Hv2). apply then_ret.
    eapply wp_mono; [apply (writer_wp e st Hst n HF Hrange Hpick reserve Hres now active Hnow Horder); [apply HS|apply HS|done]|].
    cbn beta. intros ? s' Hm. by eapply SInv_ran, moved_ran.
Qed.

Lemma swarmEvent_wp s ev : SInv s -> swarmAllowed e n s ev -> wp (do_swarmEvent e ext ev) (fun _ s' => SInv s') s.
Proof using All.
  intros HS Ha. unfold do_swarmEvent. apply wp_bind, wp_gets, wp_bind.
  eapply wp_mono; [by apply runEvent_wp|]. cbn beta. intros _ s' HS'. by apply onClose_wp.
Qed.

Lemma swarmStart_wp : wp (on_world (onSetInfo e sc)) (fun _ s => SInv s) s0.
Proof using All.
  apply wp_on_world. eapply wp_mono; [by apply (onSetInfo_wp e st Hst n HF Hrange)|]. cbn beta. intros _ w HI.
  destruct Hswarm as [Hu [E1 E2]]. split; [done|exact Hu| |].
  - intros i. unfold writing. cbn. by rewrite E1, E2.
  - cbn. rewrite E1. by intros ? ?%elem_of_nil.
Qed.

Lemma swarmReachable_inv s : swarmReachable e ext n sc s0 s -> SInv s.
Proof using All.
  induction 1 as [s Hs|s ev s' _ IH Ha Hs]; [by apply (wp_Ret _ _ _ _ _ swarmStart_wp Hs)|by apply (wp_Ret _ _ _ _ _ (swarmEvent_wp s ev IH Ha) Hs)].
Qed.
End Invariant.
