(* ===== verification/SwarmSafety.v ===== *)
(** * Safety of a swarm

    In all the histories of [Swarm]: nothing panics, the records of who was asked for which chunk
    agree, and what peers can make the client hold is bounded.  An instance runs through them. *)

From coqutil Require Import Datatypes.RecordSettersUsingExistingGetters.
From S2P Require Import Prelude Merkle Segments Metainfo PeerProtocol PeerProtocolTheory Types Bitmap OrderedBitmap Multiless RequestOrder RequestOrderTheory Chunks ChunksTheory World RequestState RequestTheory Pieces Requesting Upload Messages PiecesTheory PeersTheory RequestingTheory UploadTheory MessagesTheory PiecesHistory PiecesSafety Swarm.
Local Open Scope Z_scope.

Section Safety.
Context (ML : Multiless) (MLL : MultilessLaws ML) (AJ : AjwernerSet) (AJL : AjwernerLaws AJ).
Context (RB : Roaring) (RBL : RoaringLaws RB) (GL : GenericList) (GLL : GenericListLaws GL).
Context (GH : GenericHeap) (GHL : GenericHeapLaws GH).
Context (e : Env) (ext : nat -> Z -> bytes -> go Swarm unit bool) (st : Storage) (n : Z) (sc : Z -> Completion) (s0 : Swarm).
Context (Hst : e_storage e = Some st) (HF : layout_full (e_layout e) n) (Hrange : forall w l, e_range e w l ≡ₚ l).
Context (Hpick : forall w l, e_rangeRequests e w l ≡ₚ l) (Horder : Z.of_nat (length (e_pieceRequestOrder e)) = n).
Context (Hchunk : t_chunkSize (e_layout e) <> 0).
Context (Hfresh : fresh e st n (sw_world s0)) (Hswarm : freshSwarm e s0) (Hsc : forall i, c_Err (sc i) = false).


(** C3: in all the histories of C1, the torrent's record of the requests and those of its connections
    agree, so that no chunk is requested from two peers at a time; each connection's requests are
    different chunks of the torrent, none of them one whose cancellation the peer has yet to answer;
    and they fit the write buffer. *)
Theorem requests_agree s : swarmReachable e ext n sc s0 s ->
  let w := sw_world s in
  (forall r q, w_requestState w !! r = Some q -> is_Some (w_conns w !! rq_peer q)) /\
  forall id c, w_conns w !! id = Some c ->
    (forall r, r ∈ ob_Iterate (pc_Requests c) <-> rq_peer <$> w_requestState w !! r = Some id) /\
    NoDup (ob_Iterate (pc_Requests c)) /\
    (forall r, r ∈ ob_Iterate (pc_Requests c) -> is_Some (requestIndexToRequest (e_layout e) r) /\ r ∉ rb_elems (pc_Cancelled c)) /\
    Z.of_nat (length (ob_Iterate (pc_Requests c)) + size (rb_elems (pc_Cancelled c))) <= maxLocalToRemoteRequests.
Proof using All.
  intros Hs w. pose proof (swarmReachable_inv e ext st n sc s0 Hst HF Hrange Hpick Horder Hchunk Hfresh Hswarm Hsc s Hs) as HS.
  pose proof (reqs_of e st n _ (si_inv _ _ _ _ HS)) as HR. split.
  - intros r q Hq. destruct (rq_owner e w HR r q Hq) as (c & Hc & _). by exists c.
  - intros id c Hid. pose proof (rq_conns e w HR id c Hid) as Hc. split; [|split; [by apply (reqs_NoDup e)|split; [|apply Hc]]].
    + intros r. split; [by apply (requested_by e w id c)|]. intros (q & Eq & ->)%fmap_Some. destruct (rq_owner e w HR r q Eq) as (c' & Hc' & Hr). rewrite Hid in Hc'. by injection Hc' as <-.
    + intros r Hr. split; [by apply (cr_valid e c Hc)|]. intros Hx. by apply (cr_cancelled e c Hc r Hx).
Qed.

(** C5: in all the histories of C1, what a peer can make the client hold is bounded: of each connection no
    more requests are kept than [localClientReqq], and no more data is read for them, ready or being
    read, than [MaxAllocPeerRequestDataPerConn]; a peer without the fast extension has no requests
    while it is choked; and the count of pending writes of each piece is that of its chunks on their
    way to the storage. *)
Theorem uploads_bounded s : swarmReachable e ext n sc s0 s ->
  (forall id, let u := uploads_at s id in
    numPeerRequests u <= localClientReqq /\
    peerRequestDataBuffered u + (match u_server u with Some (Reading r) => req_Length r | _ => 0 end) <= e_MaxAllocPeerRequestDataPerConn e /\
    (e_fast e id = false -> u_choking u = true -> numPeerRequests u = 0) /\
    forall r d, u_readyPeerRequests u !! r = Some d -> Z.of_nat (length d) = req_Length r) /\
  forall i, default 0 (sw_pendingWrites s !! i) = Z.of_nat (length (filter (fun cw => cw_index cw = i) (sw_chunkWrites s))).
Proof using All.
  intros Hs. pose proof (swarmReachable_inv e ext st n sc s0 Hst HF Hrange Hpick Horder Hchunk Hfresh Hswarm Hsc s Hs) as HS.
  split; [|apply HS]. intros id u. destruct (si_up _ _ _ _ HS id) as [H1 H2 H3 H4 H5 H6 H7]. fold u in H1, H2, H5, H6.
  split; [done|]. split; [exact H6|]. split; [|done]. intros Ef Ec. destruct (H1 Ef Ec) as [E1 E2]. unfold numPeerRequests.
  by rewrite E1, E2, size_empty, map_size_empty.
Qed.

End Safety.

(** ** A history *)

#[local] Existing Instance comparison_multiless.
#[local] Existing Instance comparison_laws.

Notation TestSwarm := (@Swarm list_ajwerner gset_roaring counted_list).
Notation TestEvent := (@swarmEvent list_ajwerner gset_roaring counted_list).

Definition swarmOf (w : TestWorld) : TestSwarm := {| sw_world := w; sw_uploads := ∅; sw_chunkWrites := []; sw_pendingWrites := ∅; sw_receivedHashPieces := ∅ |}.

Definition noExtensions (_ : nat) (_ : Z) (_ : bytes) : go TestSwarm unit bool := mret true.

Definition sampleEnv : Env := envOf sampleLayout uncapped.

(** The state after a number of events. *)
Definition afterEvents (evs : list TestEvent) (s : TestSwarm) : TestSwarm :=
  foldl (fun s ev => match do_swarmEvent sampleEnv noExtensions ev s with Ret _ s' => s' | _ => s end) s evs.

Definition sampleSwarm : TestSwarm :=
  match on_world (onSetInfo sampleEnv nothing) (swarmOf (worldOf 2 2)) with Ret _ s => s | _ => swarmOf (worldOf 2 2) end.

Definition sends (input : bytes) : TestEvent := PeerSends 0 1 nothing (fun _ => None) None input.

Definition writes (now : Z) : TestEvent := WriterRuns 0 now false false (fun _ => false) (fun _ _ => Granted).

(** A piece is wanted; a peer connects, has both pieces and unchokes; a chunk is requested, and
    comes. *)
Definition sampleEvents : list TestEvent := [
  OfTorrent (SetPiecePriority 1 PiecePriorityNormal);
  OfTorrent (NewConn 0 (aConn "p") (fun _ => None));
  sends [x00; x00; x00; x02; x05; xc0];
  sends [x00; x00; x00; x01; x01];
  writes 1;
  sends ([x00; x00; x0e; x29; x07; x00; x00; x00; x01; x00; x00; x00; x00] ++ replicate 3616 x00)].

Lemma sampleRun k ev : sampleEvents !! k = Some ev -> swarmAllowed sampleEnv 2 (afterEvents (take k sampleEvents) sampleSwarm) ev ->
  match do_swarmEvent sampleEnv noExtensions ev (afterEvents (take k sampleEvents) sampleSwarm) with Ret _ _ => true | _ => false end = true ->
  swarmReachable sampleEnv noExtensions 2 nothing (swarmOf (worldOf 2 2)) (afterEvents (take k sampleEvents) sampleSwarm) ->
  swarmReachable sampleEnv noExtensions 2 nothing (swarmOf (worldOf 2 2)) (afterEvents (take (S k) sampleEvents) sampleSwarm).
Proof.
  intros Hk Ha Hr Hs. eapply swarm_step; [exact Hs|exact Ha|]. unfold afterEvents at 2. rewrite (take_S_r _ _ _ Hk), foldl_app. cbn [foldl].
  fold (afterEvents (take k sampleEvents) sampleSwarm). by destruct (do_swarmEvent _ _ ev _) as [[] s'| |].
Qed.

Lemma sampleSends s input : match Decode {| MaxLength := 65536; Pool := None |} zeroMessage input with
    | (None, m, _) => negb (existsb (Z.eqb (Type_ m)) [mtExtended; mtHashRequest; mtHaveNone; mtHashes])
    | _ => true
    end = true -> swarmAllowed sampleEnv 2 s (sends input).
Proof.
  intros H m rest E. change (Decode {| MaxLength := 65536; Pool := None |} zeroMessage input = (None, m, rest)) in E. rewrite E in H. cbn in H.
  apply negb_true_iff in H. rewrite !orb_false_iff, !Z.eqb_neq in H. naive_solver.
Qed.

Lemma sampleStarts : match on_world (onSetInfo sampleEnv nothing) (swarmOf (worldOf 2 2)) with Ret _ _ => true | _ => false end = true ->
  on_world (onSetInfo sampleEnv nothing) (swarmOf (worldOf 2 2)) = Ret tt sampleSwarm.
Proof. unfold sampleSwarm. by destruct (on_world _ _) as [[] s| |]. Qed.

Lemma sampleRequested : swarmReachable sampleEnv noExtensions 2 nothing (swarmOf (worldOf 2 2)) (afterEvents (take 5 sampleEvents) sampleSwarm).
Proof.
  apply (sampleRun 4 _ eq_refl); [|vm_compute; reflexivity|].
  { split; [lia|]. split; [done|]. intros c _. apply andb_false_r. }
  apply (sampleRun 3 _ eq_refl); [apply sampleSends; vm_compute; reflexivity|vm_compute; reflexivity|].
  apply (sampleRun 2 _ eq_refl); [apply sampleSends; vm_compute; reflexivity|vm_compute; reflexivity|].
  apply (sampleRun 1 _ eq_refl); [|vm_compute; reflexivity|].
  { split; [|vm_compute; reflexivity]. set (s := afterEvents _ _).
    assert (size (w_conns (sw_world s)) = 0%nat /\ size (w_webSeeds (sw_world s)) = 0%nat) as [E1 E2] by (split; vm_compute; reflexivity).
    split; [by apply map_size_empty_inv in E1 as ->|]. split; [exact (aConn_new _)|]. rewrite E1, E2. split; [lia|]. split; [|done].
    change (e_maxEstablishedConns _) with 50. lia. }
  apply (sampleRun 0 _ eq_refl); [|vm_compute; reflexivity|apply swarm_start, sampleStarts; vm_compute; reflexivity].
  split; [cbn; lia|done].
Qed.

Lemma sampleReachable : swarmReachable sampleEnv noExtensions 2 nothing (swarmOf (worldOf 2 2)) (afterEvents sampleEvents sampleSwarm).
Proof.
  change (afterEvents sampleEvents sampleSwarm) with (afterEvents (take 6 sampleEvents) sampleSwarm).
  apply (sampleRun 5 _ eq_refl); [apply sampleSends; vm_compute; reflexivity|vm_compute; reflexivity|exact sampleRequested].
Qed.

Lemma sampleFresh : freshSwarm sampleEnv (swarmOf (worldOf 2 2)).
Proof.
  split; [|done]. intros id. split; try done.
  - intros r [Hr|[d Hd]]; [by apply elem_of_empty in Hr|done].
  - by intros r [?|?].
Qed.


Lemma sampleRecord : w_requestState (sw_world (afterEvents (take 5 sampleEvents) sampleSwarm)) !! 1 = Some {| rq_peer := 0; rq_when := 1 |}.
Proof. vm_compute. reflexivity. Qed.

Lemma requests_agree_witness : is_Some (w_conns (sw_world (afterEvents (take 5 sampleEvents) sampleSwarm)) !! 0%nat).
Proof.
  exact (proj1 (requests_agree comparison_multiless comparison_laws list_ajwerner list_ajwerner_laws gset_roaring gset_roaring_laws
    counted_list counted_list_laws searched_heap searched_heap_laws sampleEnv noExtensions uncapped 2 nothing (swarmOf (worldOf 2 2))
    eq_refl sampleLayout_full (fun _ _ => reflexivity _) (fun _ _ => reflexivity _) eq_refl ltac:(done) sample_fresh sampleFresh (fun _ => eq_refl)
    _ sampleRequested) _ _ sampleRecord).
Defined.

Lemma uploads_bounded_witness :
  numPeerRequests (uploads_at (afterEvents sampleEvents sampleSwarm) 0%nat) <= localClientReqq /\
  default 0 (sw_pendingWrites (afterEvents sampleEvents sampleSwarm) !! 0) =
    Z.of_nat (length (filter (fun cw => cw_index cw = 0) (sw_chunkWrites (afterEvents sampleEvents sampleSwarm)))).
Proof.
  pose proof (uploads_bounded comparison_multiless comparison_laws list_ajwerner list_ajwerner_laws gset_roaring gset_roaring_laws
    counted_list counted_list_laws searched_heap searched_heap_laws sampleEnv noExtensions uncapped 2 nothing (swarmOf (worldOf 2 2))
    eq_refl sampleLayout_full (fun _ _ => reflexivity _) (fun _ _ => reflexivity _) eq_refl ltac:(done) sample_fresh sampleFresh (fun _ => eq_refl)
    _ sampleReachable) as [Hu Hw].
  split; [exact (proj1 (Hu 0%nat))|exact (Hw 0)].
Defined.

Lemma sampleConn : exists c, w_conns (sw_world (afterEvents (take 5 sampleEvents) sampleSwarm)) !! 0%nat = Some c.
Proof.
  assert (bool_decide (is_Some (w_conns (sw_world (afterEvents (take 5 sampleEvents) sampleSwarm)) !! 0%nat)) = true) as H by (vm_compute; reflexivity).
  apply bool_decide_eq_true in H. exact H.
Qed.


(** ** Requests for hashes *)

Section HashRequests.
Context {ML : Multiless} {AJ : AjwernerSet} {RB : Roaring} {GL : GenericList} {GH : GenericHeap}.
Context (e : Env) (sc : Z -> Completion) (stored : Z -> option bytes).

Lemma fileByPiecesRoot_panics root pre f rest :
  f_piecesRoot f = None -> Forall (fun g => f_piecesRoot g <> Some root) pre ->
  fileByPiecesRoot root (pre ++ f :: rest) = None.
Proof.
  intros Hf Hpre. induction Hpre as [|g pre Hg _ IH]; cbn [app fileByPiecesRoot]; [by rewrite Hf|].
  destruct (f_piecesRoot g) as [r|]; [|done]. cbn [mbind option_bind]. by destruct (decide (r = root)) as [->|]; [destruct Hg|].
Qed.

Lemma obtainHashes_padding padHash end_ pieces s :
  Forall (fun i => end_ <= i) pieces ->
  obtainHashes e sc stored padHash end_ pieces s = Ret (Some (replicate (length pieces) padHash)) s.
Proof.
  induction 1 as [|i pieces Hi _ IH]; [done|]. cbn [obtainHashes length replicate].
  rewrite (proj2 (Z.geb_le _ _)) by done. unfold mbind, go_bind. cbn [mret go_ret]. by rewrite IH.
Qed.

End HashRequests.

(** A version 2 torrent of a piece and an empty file. *)
Definition pieceAndEmptyLayout : Layout := Eval vm_compute in
  layoutOf (v2Info [(bs "a", MkFileTree {| ft_Length := 10000; ft_PiecesRoot := replicate 32 x01 |} []); (bs "b", noBytes)]).

Definition asksHashes (root : bytes) (index len : Z) : Message := {|
  PiecesRoot := root; Piece := []; PiecePtr := false; Bitfield := []; ExtendedPayload := []; Hashes := [];
  Index := index; Begin := 0; Length := len; BaseLayer := 0; ProofLayers := 0;
  Port := 0; Type_ := mtHashRequest; ExtendedID := 0; Keepalive := false |}.

